(** * stress-ng: cacheline, misaligned, rawsock and dirmany stressors

    A shallow embedding of the method registries, the verification
    routines and the dispatch loops of [stress-cacheline.c],
    [stress-misaligned.c] and [stress-rawsock.c], with the properties
    the specification states about them, and of the option handlers,
    the worker processes and [stress-dirmany.c], with further
    properties of the code. *)

From Stdlib Require Import ZArith Lia Bool Ascii.
From stdpp Require Import base tactics option list sorting strings gmap.

Local Open Scope Z_scope.

(** Exit codes.  [EXIT_SUCCESS] and [EXIT_FAILURE] are those of
    <stdlib.h>; [EXIT_NO_RESOURCE] is declared in stress-ng.h, only its
    being different from the other two matters here. *)
Definition EXIT_SUCCESS : Z := 0.
Definition EXIT_FAILURE : Z := 1.
Definition EXIT_NO_RESOURCE : Z := 3.

(** Conversion of an integer to [uint8_t]. *)
Definition uint8 (z : Z) : Z := z mod 256.

(** ** The cache-line verification engine (stress-cacheline.c) *)
Module Cacheline.

(** One volatile access, as the routines issue them. *)
Inductive access :=
| Load (width : Z) (addr : Z)
| Store (width : Z) (addr : Z) (val : Z)
| AtomicAdd (addr : Z)
| Barrier.

(** A [pr_fail] diagnostic: method, offset, expected and observed byte. *)
Record failure := Failure {
  f_method : string; f_offset : Z; f_expected : Z; f_got : Z }.

(** The state one process sees.  [mem] is the byte-addressed memory of
    the process: under single-process execution a load returns what the
    last store to that address left there.  [g_cacheline] and
    [g_cacheline_size] are the fields of [g_shared], [mix_tmp] is the
    static [tmp] of the mix method.  [ks] answers the successive polls
    of [keep_stressing]; [accesses], [failures], [calls] and [returns]
    log the volatile accesses, the [pr_fail] lines, the table indices
    the "all" method invoked and the statuses these calls returned,
    latest first. *)
Record cstate := CState {
  mem : Z -> Z;
  g_cacheline : Z;
  g_cacheline_size : Z;
  mix_tmp : Z;
  ks : nat -> bool;
  polls : nat;
  accesses : list access;
  failures : list failure;
  calls : list nat;
  returns : list Z }.

Definition set_mem (f : Z -> Z) (s : cstate) : cstate :=
  CState f (g_cacheline s) (g_cacheline_size s) (mix_tmp s) (ks s)
         (polls s) (accesses s) (failures s) (calls s) (returns s).
Definition set_mix_tmp (v : Z) (s : cstate) : cstate :=
  CState (mem s) (g_cacheline s) (g_cacheline_size s) v (ks s)
         (polls s) (accesses s) (failures s) (calls s) (returns s).
Definition set_polls (n : nat) (s : cstate) : cstate :=
  CState (mem s) (g_cacheline s) (g_cacheline_size s) (mix_tmp s) (ks s)
         n (accesses s) (failures s) (calls s) (returns s).
Definition log_access (a : access) (s : cstate) : cstate :=
  CState (mem s) (g_cacheline s) (g_cacheline_size s) (mix_tmp s) (ks s)
         (polls s) (a :: accesses s) (failures s) (calls s) (returns s).
Definition log_failure (f : failure) (s : cstate) : cstate :=
  CState (mem s) (g_cacheline s) (g_cacheline_size s) (mix_tmp s) (ks s)
         (polls s) (accesses s) (f :: failures s) (calls s) (returns s).
Definition log_call (i : nat) (s : cstate) : cstate :=
  CState (mem s) (g_cacheline s) (g_cacheline_size s) (mix_tmp s) (ks s)
         (polls s) (accesses s) (failures s) (i :: calls s) (returns s).
Definition log_return (rc : Z) (s : cstate) : cstate :=
  CState (mem s) (g_cacheline s) (g_cacheline_size s) (mix_tmp s) (ks s)
         (polls s) (accesses s) (failures s) (calls s) (rc :: returns s).

(** The state a worker starts in: the shared region at [cacheline],
    zeroed, [tmp] at 0xa5. *)
Definition boot (cacheline cacheline_size : Z) (ks : nat -> bool) : cstate :=
  CState (fun _ => 0) cacheline cacheline_size 165 ks 0 [] [] [] [].

(** Computations over the state; [None] is a loop that ran out of the
    fuel it was given. *)
Definition M (A : Type) : Type := cstate -> option (A * cstate).

Definition ret {A} (a : A) : M A := fun s => Some (a, s).
Definition bind {A B} (m : M A) (k : A -> M B) : M B :=
  fun s => match m s with
           | Some (a, s') => k a s'
           | None => None
           end.
Definition diverge {A} : M A := fun _ => None.

Declare Scope cl_scope.
Delimit Scope cl_scope with cl.
Notation "x <- m ;; k" := (bind m (fun x => k))
  (at level 20, m at level 99, k at level 200, only parsing) : cl_scope.
Notation "m ;;; k" := (bind m (fun _ => k))
  (at level 20, k at level 200, only parsing) : cl_scope.
Local Open Scope cl_scope.

(** Memory primitives.  A byte load yields a [uint8_t]; a byte store
    converts its operand to one. *)
Definition load8 (a : Z) : M Z :=
  fun s => Some (uint8 (mem s a), log_access (Load 1 a) s).

Definition store8 (a v : Z) : M unit :=
  fun s => Some (tt, log_access (Store 1 a (uint8 v))
                       (set_mem (fun x => if x =? a then uint8 v else mem s x) s)).

(** Post-increment of a [volatile uint8_t] lvalue: a load and a store. *)
Definition inc8 (a : Z) : M unit :=
  v <- load8 a ;; store8 a (v + 1).

(** [__atomic_fetch_add(p, 1, __ATOMIC_RELAXED)]. *)
Definition SHIM_ATOMIC_INC (a : Z) : M unit :=
  fun s => Some (tt, log_access (AtomicAdd a)
                       (set_mem (fun x => if x =? a then uint8 (mem s a + 1) else mem s x) s)).

(** Little-endian value of the [n] bytes at [a]. *)
Fixpoint le_bytes (m : Z -> Z) (a : Z) (n : nat) : Z :=
  match n with
  | O => 0
  | S n' => uint8 (m a) + 256 * le_bytes m (a + 1) n'
  end.

(** A load of [w] bytes through a wider volatile pointer. *)
Definition loadw (w : nat) (a : Z) : M Z :=
  fun s => Some (le_bytes (mem s) a w, log_access (Load (Z.of_nat w) a) s).

Definition shim_mb : M unit :=
  fun s => Some (tt, log_access Barrier s).

Definition pr_fail (method : string) (index expected got : Z) : M unit :=
  fun s => Some (tt, log_failure (Failure method index expected got) s).

Definition keep_stressing : M bool :=
  fun s => Some (ks s (polls s), set_polls (S (polls s)) s).

(** Reading a global or a static. *)
Definition read {A} (f : cstate -> A) : M A := fun s => Some (f s, s).

Definition write_mix_tmp (v : Z) : M unit :=
  fun s => Some (tt, set_mix_tmp v s).

Definition note_call (i : nat) : M unit :=
  fun s => Some (tt, log_call i s).

Definition note_return (rc : Z) : M unit :=
  fun s => Some (tt, log_return rc s).

(** [for (i = i0; i < i0 + n; i++) body], the body either going on with
    new values of the loop-carried locals or returning from the
    function. *)
Fixpoint for_loop {L} (n : nat) (i : Z) (body : Z -> L -> M (L + Z)) (l : L)
  : M (L + Z) :=
  match n with
  | O => ret (inl l)
  | S n' =>
      r <- body i l ;;
      match r with
      | inl l' => for_loop n' (i + 1) body l'
      | inr rc => ret (inr rc)
      end
  end.

(** What follows the loop: [return EXIT_SUCCESS] unless the loop
    returned. *)
Definition finish {L} (r : L + Z) : M Z :=
  match r with
  | inl _ => ret EXIT_SUCCESS
  | inr rc => ret rc
  end.

(** *** ROR8, ROL8 and EXERCISE *)

Definition ROR8 (val : Z) : Z :=
  let tmpval := uint8 val in
  let bit0 := uint8 (Z.shiftl (Z.land tmpval 1) 7) in
  let tmpval := uint8 (Z.shiftr tmpval 1) in
  let tmpval := uint8 (Z.lor tmpval bit0) in
  tmpval.

Definition ROL8 (val : Z) : Z :=
  let tmpval := uint8 val in
  let bit7 := uint8 (Z.shiftr (Z.land tmpval 128) 7) in
  let tmpval := uint8 (Z.shiftl tmpval 1) in
  let tmpval := uint8 (Z.lor tmpval bit7) in
  tmpval.

(** [EXERCISE] on a register variable. *)
Definition EXERCISE (data : Z) : M Z :=
  let data := uint8 (data + 1) in
  shim_mb ;;;
  let data := ROL8 data in
  shim_mb ;;;
  let data := ROR8 data in
  shim_mb ;;;
  ret data.

(** [EXERCISE] on a volatile lvalue: every step reads and writes the
    byte. *)
Definition EXERCISE_mem (a : Z) : M unit :=
  inc8 a ;;;
  shim_mb ;;;
  (v <- load8 a ;; store8 a (ROL8 v)) ;;;
  shim_mb ;;;
  (v <- load8 a ;; store8 a (ROR8 v)) ;;;
  shim_mb.

(** *** The methods *)

Definition adjacent_body (index data8 data8adjacent : Z) (i : Z) (val8 : Z)
  : M (Z + Z) :=
  inc8 data8 ;;; load8 data8adjacent ;;; shim_mb ;;;
  inc8 data8 ;;; load8 data8adjacent ;;; shim_mb ;;;
  inc8 data8 ;;; load8 data8adjacent ;;; shim_mb ;;;
  inc8 data8 ;;; load8 data8adjacent ;;; shim_mb ;;;
  inc8 data8 ;;; load8 data8adjacent ;;; shim_mb ;;;
  inc8 data8 ;;; load8 data8adjacent ;;; shim_mb ;;;
  inc8 data8 ;;; load8 data8adjacent ;;; shim_mb ;;;
  let val8 := uint8 (val8 + 7) in
  d <- load8 data8 ;;
  if negb (d =? val8) then
    got <- load8 data8 ;;
    pr_fail "adjacent" index val8 got ;;;
    ret (inr EXIT_FAILURE)
  else ret (inl val8).

(** The declarations of [stress_cacheline_adjacent] and the first [n]
    rounds of its loop, each a group of 7 increments and a check. *)
Definition adjacent_groups (n : nat) (index : Z) : M (Z + Z) :=
  cacheline <- read g_cacheline ;;
  let data8 := cacheline + index in
  val8 <- load8 data8 ;;
  let data8adjacent := Z.lxor data8 1 in
  for_loop n 0 (adjacent_body index data8 data8adjacent) val8.

Definition stress_cacheline_adjacent (index : Z) (parent : bool)
    (l1_cacheline_size : Z) : M Z :=
  r <- adjacent_groups 1024 index ;;
  finish r.

Definition mix_body (index data8 : Z) (i : Z) (_ : unit) : M (unit + Z) :=
  tmp <- read mix_tmp ;;
  store8 data8 tmp ;;;
  EXERCISE_mem data8 ;;;
  tmp <- read mix_tmp ;;
  val8 <- EXERCISE tmp ;;
  d <- load8 data8 ;;
  if negb (val8 =? d) then
    got <- load8 data8 ;;
    pr_fail "mix" index val8 got ;;;
    ret (inr EXIT_FAILURE)
  else
    write_mix_tmp val8 ;;;
    ret (inl tt).

Definition stress_cacheline_mix (index : Z) (parent : bool)
    (l1_cacheline_size : Z) : M Z :=
  cacheline <- read g_cacheline ;;
  let data8 := cacheline + index in
  r <- for_loop 1024 0 (mix_body index data8) tt ;;
  finish r.

Definition copy_body (index data8 data8adjacent : Z) (i : Z) (_ : unit)
  : M (unit + Z) :=
  (v <- load8 data8adjacent ;; store8 data8 v) ;;;
  (v <- load8 data8adjacent ;; store8 data8 v) ;;;
  (v <- load8 data8adjacent ;; store8 data8 v) ;;;
  (v <- load8 data8adjacent ;; store8 data8 v) ;;;
  (v <- load8 data8adjacent ;; store8 data8 v) ;;;
  (v <- load8 data8adjacent ;; store8 data8 v) ;;;
  (v <- load8 data8adjacent ;; store8 data8 v) ;;;
  (v <- load8 data8adjacent ;; store8 data8 v) ;;;
  val8 <- load8 data8 ;;
  d <- load8 data8 ;;
  if negb (d =? val8) then
    got <- load8 data8 ;;
    pr_fail "copy" index val8 got ;;;
    ret (inr EXIT_FAILURE)
  else ret (inl tt).

Definition stress_cacheline_copy (index : Z) (parent : bool)
    (l1_cacheline_size : Z) : M Z :=
  cacheline <- read g_cacheline ;;
  let data8 := cacheline + index in
  let data8adjacent := Z.lxor data8 1 in
  r <- for_loop 1024 0 (copy_body index data8 data8adjacent) tt ;;
  finish r.

Definition inc_body (index data8 : Z) (i : Z) (val8 : Z) : M (Z + Z) :=
  inc8 data8 ;;; shim_mb ;;;
  inc8 data8 ;;; shim_mb ;;;
  inc8 data8 ;;; shim_mb ;;;
  inc8 data8 ;;; shim_mb ;;;
  inc8 data8 ;;; shim_mb ;;;
  inc8 data8 ;;; shim_mb ;;;
  inc8 data8 ;;; shim_mb ;;;
  let val8 := uint8 (val8 + 7) in
  d <- load8 data8 ;;
  if negb (d =? val8) then
    got <- load8 data8 ;;
    pr_fail "inc" index val8 got ;;;
    ret (inr EXIT_FAILURE)
  else ret (inl val8).

Definition stress_cacheline_inc (index : Z) (parent : bool)
    (l1_cacheline_size : Z) : M Z :=
  cacheline <- read g_cacheline ;;
  let data8 := cacheline + index in
  val8 <- load8 data8 ;;
  r <- for_loop 1024 0 (inc_body index data8) val8 ;;
  finish r.

(** One [(void)*data8; *data8 = *data8; shim_mb();] of the rdwr method. *)
Definition rdwr_step (data8 : Z) : M unit :=
  load8 data8 ;;; (v <- load8 data8 ;; store8 data8 v) ;;; shim_mb.

Definition rdwr_body (index data8 : Z) (i : Z) (val8 : Z) : M (Z + Z) :=
  rdwr_step data8 ;;; rdwr_step data8 ;;; rdwr_step data8 ;;; rdwr_step data8 ;;;
  rdwr_step data8 ;;; rdwr_step data8 ;;; rdwr_step data8 ;;; rdwr_step data8 ;;;
  rdwr_step data8 ;;; rdwr_step data8 ;;; rdwr_step data8 ;;; rdwr_step data8 ;;;
  rdwr_step data8 ;;; rdwr_step data8 ;;; rdwr_step data8 ;;; rdwr_step data8 ;;;
  d <- load8 data8 ;;
  if negb (d =? val8) then
    got <- load8 data8 ;;
    pr_fail "rdwr" index val8 got ;;;
    ret (inr EXIT_FAILURE)
  else ret (inl val8).

Definition stress_cacheline_rdwr (index : Z) (parent : bool)
    (l1_cacheline_size : Z) : M Z :=
  cacheline <- read g_cacheline ;;
  let data8 := cacheline + index in
  val8 <- load8 data8 ;;
  r <- for_loop 1024 0 (rdwr_body index data8) val8 ;;
  finish r.

(** Arithmetic of [size_t], [ssize_t] and [uintptr_t] (64 bits). *)
Definition size_t (z : Z) : Z := z mod 2 ^ 64.
Definition ssize_t (z : Z) : Z := (z + 2 ^ 63) mod 2 ^ 64 - 2 ^ 63.
Definition size_not (z : Z) : Z := 2 ^ 64 - 1 - size_t z.

(** [(intptr_t)cacheline & ~(l1_cacheline_size - 1)]. *)
Definition aligned_cacheline (cacheline l1_cacheline_size : Z) : Z :=
  Z.land (size_t cacheline) (size_not (l1_cacheline_size - 1)).

(** [for (j = (ssize_t)cacheline_size - 8; j >= 0; j -= 8)]: read the
    line backwards, 8 bytes at a time. *)
Fixpoint rdrev64_reads (fuel : nat) (aligned j : Z) : M unit :=
  if 0 <=? j then
    match fuel with
    | O => diverge
    | S fuel' =>
        loadw 8 (aligned + j) ;;; shim_mb ;;;
        rdrev64_reads fuel' aligned (j - 8)
    end
  else ret tt.

Definition rdrev64_body (fuel : nat) (index data8 cacheline_size aligned : Z)
    (i : Z) (_ : unit) : M (unit + Z) :=
  inc8 data8 ;;;
  val8 <- load8 data8 ;;
  rdrev64_reads fuel aligned (ssize_t cacheline_size - 8) ;;;
  d <- load8 data8 ;;
  if negb (val8 =? d) then
    got <- load8 data8 ;;
    pr_fail "rdrev64" index val8 got ;;;
    ret (inr EXIT_FAILURE)
  else ret (inl tt).

Definition stress_cacheline_rdrev64 (fuel : nat) (index : Z) (parent : bool)
    (l1_cacheline_size : Z) : M Z :=
  cacheline <- read g_cacheline ;;
  let data8 := cacheline + index in
  cacheline_size <- read g_cacheline_size ;;
  let aligned := aligned_cacheline cacheline l1_cacheline_size in
  r <- for_loop 1024 0 (rdrev64_body fuel index data8 cacheline_size aligned) tt ;;
  finish r.

(** [for (j = 0; j < cacheline_size; j += 8)] with [j] a [size_t]: read
    the line forwards. *)
Fixpoint rdfwd64_reads (fuel : nat) (aligned cacheline_size j : Z) : M unit :=
  if j <? cacheline_size then
    match fuel with
    | O => diverge
    | S fuel' =>
        loadw 8 (aligned + j) ;;; shim_mb ;;;
        rdfwd64_reads fuel' aligned cacheline_size (size_t (j + 8))
    end
  else ret tt.

Definition rdfwd64_body (fuel : nat) (index data8 cacheline_size aligned : Z)
    (i : Z) (_ : unit) : M (unit + Z) :=
  inc8 data8 ;;;
  val8 <- load8 data8 ;;
  rdfwd64_reads fuel aligned cacheline_size 0 ;;;
  d <- load8 data8 ;;
  if negb (val8 =? d) then
    got <- load8 data8 ;;
    pr_fail "rdfwd64" index val8 got ;;;
    ret (inr EXIT_FAILURE)
  else ret (inl tt).

Definition stress_cacheline_rdfwd64 (fuel : nat) (index : Z) (parent : bool)
    (l1_cacheline_size : Z) : M Z :=
  cacheline <- read g_cacheline ;;
  let data8 := cacheline + index in
  cacheline_size <- read g_cacheline_size ;;
  let aligned := aligned_cacheline cacheline l1_cacheline_size in
  r <- for_loop 1024 0 (rdfwd64_body fuel index data8 cacheline_size aligned) tt ;;
  finish r.

Definition bits_body (index data8 : Z) (i : Z) (_ : unit) : M (unit + Z) :=
  load8 data8 ;;;
  let val8 := uint8 (Z.shiftl 1 (Z.land i 7)) in
  store8 data8 val8 ;;;
  shim_mb ;;;
  d <- load8 data8 ;;
  if negb (d =? val8) then
    got <- load8 data8 ;;
    pr_fail "bits" index val8 got ;;;
    ret (inr EXIT_FAILURE)
  else
    let val8 := uint8 (Z.lxor val8 255) in
    store8 data8 val8 ;;;
    shim_mb ;;;
    d <- load8 data8 ;;
    if negb (d =? val8) then
      got <- load8 data8 ;;
      pr_fail "bits" index val8 got ;;;
      ret (inr EXIT_FAILURE)
    else ret (inl tt).

Definition stress_cacheline_bits (index : Z) (parent : bool)
    (l1_cacheline_size : Z) : M Z :=
  cacheline <- read g_cacheline ;;
  let data8 := cacheline + index in
  r <- for_loop 1024 0 (bits_body index data8) tt ;;
  finish r.

Definition atomicinc_body (index data8 : Z) (i : Z) (val8 : Z) : M (Z + Z) :=
  SHIM_ATOMIC_INC data8 ;;;
  SHIM_ATOMIC_INC data8 ;;;
  SHIM_ATOMIC_INC data8 ;;;
  SHIM_ATOMIC_INC data8 ;;;
  SHIM_ATOMIC_INC data8 ;;;
  SHIM_ATOMIC_INC data8 ;;;
  SHIM_ATOMIC_INC data8 ;;;
  let val8 := uint8 (val8 + 7) in
  d <- load8 data8 ;;
  if negb (d =? val8) then
    got <- load8 data8 ;;
    pr_fail "atomicinc" index val8 got ;;;
    ret (inr EXIT_FAILURE)
  else ret (inl val8).

Definition stress_cacheline_atomicinc (index : Z) (parent : bool)
    (l1_cacheline_size : Z) : M Z :=
  cacheline <- read g_cacheline ;;
  let data8 := cacheline + index in
  val8 <- load8 data8 ;;
  r <- for_loop 1024 0 (atomicinc_body index data8) val8 ;;
  finish r.

(** *** The registry and the "all" method *)

Inductive stress_cacheline_func :=
| f_all | f_adjacent | f_atomicinc | f_bits | f_copy | f_inc | f_mix
| f_rdfwd64 | f_rdints | f_rdrev64 | f_rdwr.

Record stress_cacheline_method_t := Method {
  name : string;
  func : stress_cacheline_func }.

Section Config.

(** What the build found: [SHIM_ATOMIC_INC] and [HAVE_INT128_T]. *)
Variable have_atomic_inc : bool.
Variable have_int128 : bool.

Definition rdints_body (index data8 : Z) (i : Z) (_ : unit) : M (unit + Z) :=
  let a := size_t data8 in
  let data16 := Z.land a (size_not 1) in
  let data32 := Z.land a (size_not 3) in
  let data64 := Z.land a (size_not 7) in
  let data128 := Z.land a (size_not 15) in
  inc8 data8 ;;;
  val8 <- load8 data8 ;;
  shim_mb ;;;
  loadw 2 data16 ;;; shim_mb ;;;
  loadw 4 data32 ;;; shim_mb ;;;
  loadw 8 data64 ;;; shim_mb ;;;
  (if have_int128 then loadw 16 data128 ;;; shim_mb else ret tt) ;;;
  d <- load8 data8 ;;
  if negb (val8 =? d) then
    got <- load8 data8 ;;
    pr_fail "rdints" index val8 got ;;;
    ret (inr EXIT_FAILURE)
  else ret (inl tt).

Definition stress_cacheline_rdints (index : Z) (parent : bool)
    (l1_cacheline_size : Z) : M Z :=
  cacheline <- read g_cacheline ;;
  let data8 := cacheline + index in
  r <- for_loop 1024 0 (rdints_body index data8) tt ;;
  finish r.

Definition cacheline_methods : list stress_cacheline_method_t :=
  [ Method "all" f_all;
    Method "adjacent" f_adjacent ] ++
  (if have_atomic_inc then [ Method "atomicinc" f_atomicinc ] else []) ++
  [ Method "bits" f_bits;
    Method "copy" f_copy;
    Method "inc" f_inc;
    Method "mix" f_mix;
    Method "rdfwd64" f_rdfwd64;
    Method "rdints" f_rdints;
    Method "rdrev64" f_rdrev64;
    Method "rdwr" f_rdwr ].

(** The loop of [stress_cacheline_all] from index [i] on, over a table
    [methods] whose entries are called through [invoke].  [k] bounds the
    iterations left; the table length is enough. *)
Fixpoint all_loop (methods : list stress_cacheline_method_t)
    (invoke : stress_cacheline_func -> Z -> bool -> Z -> M Z)
    (k : nat) (i : nat) (index : Z) (parent : bool) (l1_cacheline_size : Z)
  : M Z :=
  b <- keep_stressing ;;
  if b then
    match methods !! i with
    | None => ret EXIT_SUCCESS
    | Some m =>
        match k with
        | O => diverge
        | S k' =>
            note_call i ;;;
            rc <- invoke (func m) index parent l1_cacheline_size ;;
            note_return rc ;;;
            if negb (rc =? EXIT_SUCCESS) then ret rc
            else all_loop methods invoke k' (S i) index parent l1_cacheline_size
        end
    end
  else ret EXIT_SUCCESS.

Definition stress_cacheline_all_with (methods : list stress_cacheline_method_t)
    (invoke : stress_cacheline_func -> Z -> bool -> Z -> M Z)
    (index : Z) (parent : bool) (l1_cacheline_size : Z) : M Z :=
  all_loop methods invoke (length methods) 1 index parent l1_cacheline_size.

(** A call through a [stress_cacheline_func] pointer.  [fuel] bounds the
    nesting of calls and the inner read loops. *)
Fixpoint call (fuel : nat) (f : stress_cacheline_func)
    (index : Z) (parent : bool) (l1_cacheline_size : Z) : M Z :=
  match fuel with
  | O => diverge
  | S fuel' =>
      match f with
      | f_all =>
          stress_cacheline_all_with cacheline_methods (call fuel')
            index parent l1_cacheline_size
      | f_adjacent => stress_cacheline_adjacent index parent l1_cacheline_size
      | f_atomicinc => stress_cacheline_atomicinc index parent l1_cacheline_size
      | f_bits => stress_cacheline_bits index parent l1_cacheline_size
      | f_copy => stress_cacheline_copy index parent l1_cacheline_size
      | f_inc => stress_cacheline_inc index parent l1_cacheline_size
      | f_mix => stress_cacheline_mix index parent l1_cacheline_size
      | f_rdfwd64 => stress_cacheline_rdfwd64 fuel' index parent l1_cacheline_size
      | f_rdints => stress_cacheline_rdints index parent l1_cacheline_size
      | f_rdrev64 => stress_cacheline_rdrev64 fuel' index parent l1_cacheline_size
      | f_rdwr => stress_cacheline_rdwr index parent l1_cacheline_size
      end
  end.

Definition stress_cacheline_all (fuel : nat) : Z -> bool -> Z -> M Z :=
  call fuel f_all.

End Config.

(** *** Vocabulary of the statements *)

(** Weakest precondition of a computation: it returns, and the result
    and final state satisfy [Q]. *)
Definition wp {A} (m : M A) (s : cstate) (Q : A -> cstate -> Prop) : Prop :=
  match m s with
  | Some (a, s') => Q a s'
  | None => False
  end.

(** The part of the state no method routine touches. *)
Definition rest (s : cstate) :=
  (g_cacheline s, g_cacheline_size s, mix_tmp s, ks s, polls s, failures s,
   calls s, returns s).

(** [frame d s cur]: since [s], no byte other than the one at [d]
    changed, and nothing was reported. *)
Definition frame (d : Z) (s cur : cstate) : Prop :=
  (forall x, x <> d -> mem cur x = mem s x) /\ rest cur = rest s.

(** [bytev d v s cur]: moreover the byte at [d] now holds [v]. *)
Definition bytev (d v : Z) (s cur : cstate) : Prop :=
  uint8 (mem cur d) = v /\ frame d s cur.

Definition all_bytes : list Z := map Z.of_nat (seq 0 256).

(** What the "all" method relies on when it calls a routine. *)
Definition view (s : cstate) :=
  (g_cacheline s, g_cacheline_size s, ks s, polls s, failures s, calls s,
   returns s).

(** [quiet cur cur']: nothing in memory changed, nothing was reported. *)
Definition quiet (cur cur' : cstate) : Prop :=
  mem cur' = mem cur /\ rest cur' = rest cur.

(** What [stress_cacheline_all] itself reads and writes. *)
Definition dview (s : cstate) := (ks s, polls s, calls s, returns s).

(** [all_outcome n i s rc s']: from [s], the loop entered at index [i]
    of a table of [n] entries invoked the [m] entries [i], [i + 1], ...
    in this order, once each, [keep_stressing] holding before each of
    them, and returned [rc] in state [s'].  Either [rc] is EXIT_SUCCESS,
    all [m] calls returned EXIT_SUCCESS and the loop stopped at the end
    of the table or on [keep_stressing] failing; or [rc] is the status
    other than EXIT_SUCCESS that the last call returned, all calls
    before it having returned EXIT_SUCCESS. *)
Definition all_outcome (n i : nat) (s : cstate) (rc : Z) (s' : cstate) : Prop :=
  exists (m : nat) (rets : list Z),
    calls s' = rev (seq i m) ++ calls s /\
    returns s' = rets ++ returns s /\
    length rets = m /\
    ((i + m <= n)%nat \/ m = O) /\
    (forall j, (j < m)%nat -> ks s (polls s + j)%nat = true) /\
    ((rc = EXIT_SUCCESS /\ Forall (eq EXIT_SUCCESS) rets /\
      ((i + m < n)%nat -> ks s (polls s + m)%nat = false)) \/
     (rc <> EXIT_SUCCESS /\
      exists rets', rets = rc :: rets' /\ Forall (eq EXIT_SUCCESS) rets')).

(** A way for the routines of the cacheline registry to end, for the
    case of a mismatch: the copy method reports a failure (another
    process wrote its byte), the others pass. *)
Definition copy_fails (f : stress_cacheline_func) (index : Z)
    (parent : bool) (l1 : Z) : M Z :=
  match f with
  | f_copy => ret EXIT_FAILURE
  | _ => ret EXIT_SUCCESS
  end.

End Cacheline.

(** ** The misalignment engine (stress-misaligned.c) *)
Module Misaligned.

Definition MISALIGN_LOOPS : Z := 65536.

(** One access of a routine: the operand width in bytes and the
    address. *)
Inductive maccess :=
| MRead (width addr : Z)
| MWrite (width addr val : Z)
| MInc (width addr : Z)
| MAtomicInc (width addr : Z)
| MBarrier.

(** [register int i = start; while (--i) body]: the number of times the
    body ran and what it left, [None] when [fuel] iterations were not
    enough. *)
Fixpoint while_predec {T} (fuel : nat) (i : Z) (body : Z -> T -> T)
    (n : Z) (t : T) : option (Z * T) :=
  match fuel with
  | O => None
  | S fuel' =>
      let i := i - 1 in
      if i =? 0 then Some (n, t)
      else while_predec fuel' i body (n + 1) (body i t)
  end.

Inductive stress_misaligned_func :=
| f_all
| f_int16rd | f_int16wr | f_int16inc | f_int16atomic
| f_int32rd | f_int32wr | f_int32inc | f_int32atomic
| f_int64rd | f_int64wr | f_int64inc | f_int64atomic
| f_int128rd | f_int128wr | f_int128inc | f_int128atomic.

#[global] Instance stress_misaligned_func_eq_dec : EqDecision stress_misaligned_func.
Proof. solve_decision. Defined.

(** The value [i] stored through a pointer to a [w]-byte unsigned. *)
Definition trunc (w : Z) (i : Z) : Z := i mod 2 ^ (8 * w).

Definition rd w a := [MRead w a; MBarrier].
Definition wr w a i := [MWrite w a (trunc w i); MBarrier].
Definition inc w a := [MInc w a; MBarrier].
Definition atomic w a := [MAtomicInc w a; MBarrier].

(** The loop bodies of the sixteen routines, in program order; [i] is
    the loop counter.  The 128 bit routines have no barrier. *)
Definition loop_body (f : stress_misaligned_func) (buffer : Z) (i : Z)
  : list maccess :=
  match f with
  | f_all => []
  | f_int16rd =>
      rd 2 (buffer + 1) ++ rd 2 (buffer + 3) ++ rd 2 (buffer + 5) ++
      rd 2 (buffer + 7) ++ rd 2 (buffer + 9) ++ rd 2 (buffer + 11) ++
      rd 2 (buffer + 13) ++ rd 2 (buffer + 15)
  | f_int16wr =>
      wr 2 (buffer + 1) i ++ wr 2 (buffer + 3) i ++ wr 2 (buffer + 5) i ++
      wr 2 (buffer + 7) i ++ wr 2 (buffer + 9) i ++ wr 2 (buffer + 11) i ++
      wr 2 (buffer + 13) i ++ wr 2 (buffer + 15) i
  | f_int16inc =>
      inc 2 (buffer + 1) ++ inc 2 (buffer + 3) ++ inc 2 (buffer + 5) ++
      inc 2 (buffer + 7) ++ inc 2 (buffer + 9) ++ inc 2 (buffer + 11) ++
      inc 2 (buffer + 13) ++ inc 2 (buffer + 15)
  | f_int16atomic =>
      atomic 2 (buffer + 1) ++ atomic 2 (buffer + 3) ++ atomic 2 (buffer + 5) ++
      atomic 2 (buffer + 7) ++ atomic 2 (buffer + 9) ++ atomic 2 (buffer + 11) ++
      atomic 2 (buffer + 13) ++ atomic 2 (buffer + 15)
  | f_int32rd =>
      rd 4 (buffer + 1) ++ rd 4 (buffer + 5) ++ rd 4 (buffer + 9) ++
      rd 4 (buffer + 13)
  | f_int32wr =>
      wr 4 (buffer + 1) i ++ wr 4 (buffer + 5) i ++ wr 4 (buffer + 9) i ++
      wr 4 (buffer + 13) i
  | f_int32inc =>
      inc 4 (buffer + 1) ++ inc 4 (buffer + 5) ++ inc 4 (buffer + 9) ++
      inc 4 (buffer + 13)
  | f_int32atomic =>
      atomic 4 (buffer + 1) ++ atomic 4 (buffer + 5) ++ atomic 4 (buffer + 9) ++
      atomic 4 (buffer + 13)
  | f_int64rd => rd 8 (buffer + 1) ++ rd 8 (buffer + 9)
  | f_int64wr => wr 8 (buffer + 1) i ++ wr 8 (buffer + 9) i
  | f_int64inc => inc 8 (buffer + 1) ++ inc 8 (buffer + 9)
  | f_int64atomic => atomic 8 (buffer + 1) ++ atomic 8 (buffer + 9)
  | f_int128rd => [MRead 16 (buffer + 1)]
  | f_int128wr => [MWrite 16 (buffer + 1) (trunc 16 i)]
  | f_int128inc => [MInc 16 (buffer + 1)]
  | f_int128atomic => [MAtomicInc 16 (buffer + 1)]
  end.

(** A routine other than "all" run on [buffer]: how many times its loop
    body ran, and the accesses it made, in program order. *)
Definition routine (fuel : nat) (f : stress_misaligned_func) (buffer : Z)
  : option (Z * list maccess) :=
  while_predec fuel MISALIGN_LOOPS
    (fun i t => t ++ loop_body f buffer i) 0 [].

(** An access whose address is one byte past a multiple of its width,
    counted from [buffer], itself aligned on a page. *)
Definition one_off (buffer : Z) (e : maccess) : Prop :=
  match e with
  | MRead w a | MWrite w a _ | MInc w a | MAtomicInc w a =>
      In w [2; 4; 8; 16] /\ (a - buffer) mod w = 1 /\
      (buffer mod w = 0 -> a mod w = 1)
  | MBarrier => True
  end.

(** *** The registry *)

Record stress_misaligned_method_info_t := Info {
  name : string;
  func : stress_misaligned_func;
  disabled : bool;
  exercised : bool }.

Definition set_disabled (b : bool) (m : stress_misaligned_method_info_t) :=
  Info (name m) (func m) b (exercised m).
Definition set_exercised (b : bool) (m : stress_misaligned_method_info_t) :=
  Info (name m) (func m) (disabled m) b.

Section Config.

(** What the build found: [ATOMIC_INC] and [HAVE_INT128_T]. *)
Variable have_atomic_inc : bool.
Variable have_int128 : bool.

(** The table without its NULL sentinel: a lookup past the end is the
    entry whose [func] is NULL. *)
Definition stress_misaligned_methods : list stress_misaligned_method_info_t :=
  [ Info "all" f_all false false;
    Info "int16rd" f_int16rd false false;
    Info "int16wr" f_int16wr false false;
    Info "int16inc" f_int16inc false false ] ++
  (if have_atomic_inc then [ Info "int16atomic" f_int16atomic false false ] else []) ++
  [ Info "int32rd" f_int32rd false false;
    Info "int32wr" f_int32wr false false;
    Info "int32inc" f_int32inc false false ] ++
  (if have_atomic_inc then [ Info "int32atomic" f_int32atomic false false ] else []) ++
  [ Info "int64rd" f_int64rd false false;
    Info "int64wr" f_int64wr false false;
    Info "int64inc" f_int64inc false false ] ++
  (if have_atomic_inc then [ Info "int64atomic" f_int64atomic false false ] else []) ++
  (if have_int128 then
     [ Info "int128rd" f_int128rd false false;
       Info "int128wr" f_int128wr false false;
       Info "int128inc" f_int128inc false false ] ++
     (if have_atomic_inc then [ Info "int128atomic" f_int128atomic false false ] else [])
   else []).

End Config.

(** A line of the log. *)
Inductive message :=
| Skipping (method : string) (signum : Z)
| Exercised (names : string)
| NothingExercised
| CannotAllocate.

(** The state of one worker process.  [methods] is the registry,
    [all_exercised] the static [exercised] of [stress_misaligned_all],
    [current_method] the index of the entry the static pointer
    designates.  [faults] says how the successive calls of the routines
    end: [None] for a call that completes, [Some signum] for one that
    traps.  [ks] answers the successive polls of [keep_stressing].
    [calls] logs the table indices of the entries the "all" method
    invoked, latest first.  [realloc_ok] says which of the successive
    calls of [realloc] made for a report succeed. *)
Record mstate := MState {
  methods : list stress_misaligned_method_info_t;
  all_exercised : bool;
  current_method : option nat;
  handled_signum : Z;
  counter : Z;
  faults : nat -> option Z;
  invocations : nat;
  ks : nat -> bool;
  polls : nat;
  calls : list nat;
  messages : list message;
  realloc_ok : nat -> bool }.

Definition set_methods l (s : mstate) :=
  MState l (all_exercised s) (current_method s) (handled_signum s) (counter s)
         (faults s) (invocations s) (ks s) (polls s) (calls s) (messages s)
         (realloc_ok s).
Definition set_all_exercised b (s : mstate) :=
  MState (methods s) b (current_method s) (handled_signum s) (counter s)
         (faults s) (invocations s) (ks s) (polls s) (calls s) (messages s)
         (realloc_ok s).
Definition set_current_method c (s : mstate) :=
  MState (methods s) (all_exercised s) c (handled_signum s) (counter s)
         (faults s) (invocations s) (ks s) (polls s) (calls s) (messages s)
         (realloc_ok s).
Definition set_handled_signum n (s : mstate) :=
  MState (methods s) (all_exercised s) (current_method s) n (counter s)
         (faults s) (invocations s) (ks s) (polls s) (calls s) (messages s)
         (realloc_ok s).
Definition inc_counter (s : mstate) :=
  MState (methods s) (all_exercised s) (current_method s) (handled_signum s)
         (counter s + 1)
         (faults s) (invocations s) (ks s) (polls s) (calls s) (messages s)
         (realloc_ok s).
Definition next_invocation (s : mstate) :=
  MState (methods s) (all_exercised s) (current_method s) (handled_signum s)
         (counter s)
         (faults s) (S (invocations s)) (ks s) (polls s) (calls s) (messages s)
         (realloc_ok s).
Definition log_call (i : nat) (s : mstate) :=
  MState (methods s) (all_exercised s) (current_method s) (handled_signum s)
         (counter s)
         (faults s) (invocations s) (ks s) (polls s) (i :: calls s) (messages s)
         (realloc_ok s).
Definition next_poll (s : mstate) :=
  MState (methods s) (all_exercised s) (current_method s) (handled_signum s)
         (counter s)
         (faults s) (invocations s) (ks s) (S (polls s)) (calls s) (messages s)
         (realloc_ok s).
Definition pr_inf (m : message) (s : mstate) :=
  MState (methods s) (all_exercised s) (current_method s) (handled_signum s)
         (counter s)
         (faults s) (invocations s) (ks s) (polls s) (calls s) (m :: messages s)
         (realloc_ok s).

(** [info->disabled = b] and [info->exercised = b] for the entry at
    index [i]. *)
Definition disable (i : nat) (s : mstate) : mstate :=
  set_methods (alter (set_disabled true) i (methods s)) s.
Definition mark_exercised (i : nat) (s : mstate) : mstate :=
  set_methods (alter (set_exercised true) i (methods s)) s.

(** How a call ends: it returns, or the signal handler jumps back to
    the [sigsetjmp] of [stress_misaligned]; [Diverged] is a call that
    ran out of fuel. *)
Inductive outcome :=
| Returned (s : mstate)
| Jumped (s : mstate)
| Diverged.

Definition stress_misaligned_handler (signum : Z) (s : mstate) : outcome :=
  let s := set_handled_signum signum s in
  let s := match current_method s with
           | Some i => disable i s
           | None => s
           end in
  Jumped s.

(** A routine other than "all" runs on the buffer: it completes or
    traps, as [faults] says. *)
Definition run_routine (s : mstate) : outcome :=
  let s' := next_invocation s in
  match faults s (invocations s) with
  | None => Returned s'
  | Some signum => stress_misaligned_handler signum s'
  end.

(** The loop of [stress_misaligned_all] from index [i] on, the entries
    being called through [invoke]; [k] bounds the iterations left. *)
Fixpoint all_loop (invoke : stress_misaligned_func -> mstate -> outcome)
    (k : nat) (i : nat) (s : mstate) : outcome :=
  match methods s !! i with
  | None => Returned s
  | Some info =>
      match k with
      | O => Diverged
      | S k' =>
          if disabled info then all_loop invoke k' (S i) s
          else
            match invoke (func info)
                    (log_call i (set_current_method (Some i) s)) with
            | Returned s' =>
                all_loop invoke k' (S i)
                  (set_all_exercised true (mark_exercised i s'))
            | o => o
            end
      end
  end.

Definition stress_misaligned_all_with
    (invoke : stress_misaligned_func -> mstate -> outcome)
    (s : mstate) : outcome :=
  match all_loop invoke (length (methods s)) 1 s with
  | Returned s' =>
      Returned (if negb (all_exercised s') then disable 0 s' else s')
  | o => o
  end.

(** A call through a [func] pointer; [fuel] bounds the nesting of
    calls. *)
Fixpoint call (fuel : nat) (f : stress_misaligned_func) (s : mstate)
  : outcome :=
  match fuel with
  | O => Diverged
  | S fuel' =>
      match f with
      | f_all => stress_misaligned_all_with (call fuel') s
      | _ => run_routine s
      end
  end.

Definition stress_misaligned_all (fuel : nat) (s : mstate) : outcome :=
  call fuel f_all s.

Definition stress_misaligned_enable_all (s : mstate) : mstate :=
  set_methods (map (fun m => set_exercised false (set_disabled false m))
                   (methods s)) s.

Definition keep_stressing (s : mstate) : bool * mstate :=
  (ks s (polls s), next_poll s).

(** The names [stress_misaligned_exercised] reports. *)
Definition exercised_names (s : mstate) : list string :=
  map name (filter (fun m => exercised m = true) (tail (methods s))).

Fixpoint join (l : list string) : string :=
  match l with
  | [] => ""
  | [x] => x
  | x :: l' => x +:+ " " +:+ join l'
  end.

(** The loop of [stress_misaligned_exercised] over the entries [l]:
    the string [str] it builds, [None] being the NULL pointer, [k]
    calls of [realloc] having been made.  No string is given when
    [realloc] fails. *)
Fixpoint exercised_string (ok : nat -> bool) (k : nat)
    (l : list stress_misaligned_method_info_t) (str : option string)
  : option (option string) :=
  match l with
  | [] => Some str
  | info :: l' =>
      if exercised info then
        if ok k then
          let str := match str with Some t => t | None => "" end in
          let str := if (String.length str =? 0)%nat then str else str +:+ " " in
          exercised_string ok (S k) l' (Some (str +:+ name info))
        else None
      else exercised_string ok k l' str
  end.

(** [stress_misaligned_exercised]: nothing is printed when [realloc]
    fails. *)
Definition stress_misaligned_exercised (instance : Z) (s : mstate) : mstate :=
  if negb (instance =? 0) then s
  else match exercised_string (realloc_ok s) 0 (tail (methods s)) None with
       | None => s
       | Some (Some str) => pr_inf (Exercised str) s
       | Some None => pr_inf NothingExercised s
       end.

(** The [pr_inf] that follows a [sigsetjmp] returning 1. *)
Definition report_skip (instance : Z) (s : mstate) : mstate :=
  if instance =? 0 then
    match current_method s with
    | Some c =>
        match methods s !! c with
        | Some cm => pr_inf (Skipping (name cm) (handled_signum s)) s
        | None => s
        end
    | None => s
    end
  else s.

(** The dispatch loop of [stress_misaligned], entered again from the
    top whenever the handler jumps back to the [sigsetjmp].  [method] is
    the index of the selected entry, [depth] bounds the nesting of
    calls, [fuel] the number of times the loop is entered.  The result
    is the exit status and the state then, or no status and the state
    reached when the fuel ran out. *)
Fixpoint dispatch (depth fuel : nat) (instance : Z) (method : nat) (s : mstate)
  : option Z * mstate :=
  match fuel with
  | O => (None, s)
  | S fuel' =>
      match methods s !! method with
      | None => (None, s)
      | Some m =>
          if disabled m then (Some EXIT_NO_RESOURCE, s)
          else
            match call depth (func m) s with
            | Diverged => (None, s)
            | Jumped s' =>
                dispatch depth fuel' instance method (report_skip instance s')
            | Returned s' =>
                let s' := inc_counter (mark_exercised method s') in
                let (b, s') := keep_stressing s' in
                if b then dispatch depth fuel' instance method s'
                else (Some EXIT_SUCCESS, s')
            end
      end
  end.

(** [stress_misaligned], the handlers installed and the buffer mapped
    ([sighandler_ok] and [mmap_ok] say whether they were). *)
Definition stress_misaligned (depth fuel : nat) (sighandler_ok mmap_ok : bool)
    (instance : Z) (method : nat) (s : mstate) : option Z * mstate :=
  if negb sighandler_ok then (Some EXIT_NO_RESOURCE, s)
  else
    let s := stress_misaligned_enable_all s in
    if negb mmap_ok then (Some EXIT_NO_RESOURCE, pr_inf CannotAllocate s)
    else
      let s := set_current_method (Some method) s in
      match dispatch depth fuel instance method s with
      | (None, s') => (None, s')
      | (Some rc, s') => (Some rc, stress_misaligned_exercised instance s')
      end.

(** The state a worker starts in; every [realloc] succeeds. *)
Definition initial (have_atomic_inc have_int128 : bool)
    (faults : nat -> option Z) (ks : nat -> bool) : mstate :=
  MState (stress_misaligned_methods have_atomic_inc have_int128)
         false None (-1) 0 faults 0 ks 0 [] [] (fun _ => true).

(** [SIGBUS] of <signal.h>, and three ways for the routines to end:
    the call number [k] traps (a bus error raised from outside, say),
    every call traps, every call but the first traps. *)
Definition SIGBUS : Z := 7.
Definition always_traps : nat -> option Z := fun _ => Some SIGBUS.
Definition traps_after_first : nat -> option Z :=
  fun n => if (n =? 0)%nat then None else Some SIGBUS.

(** [keep_stressing] holding for the first [n] polls. *)
Definition stop_after (n : nat) : nat -> bool := fun k => (k <? n)%nat.

(** A state in which every routine entry is disabled. *)
Definition subs_disabled (s : mstate) : mstate :=
  set_methods (match methods s with
               | [] => []
               | m :: l => m :: map (set_disabled true) l
               end) s.

(** *** Vocabulary of the statements *)

(** The names and routines of a registry, whatever its flags. *)
Definition shape (s : mstate) : list (string * stress_misaligned_func) :=
  map (fun m => (name m, func m)) (methods s).

(** The state in which a routine at index [i] is entered by the "all"
    method, the one it leaves when it returns, and the one the handler
    leaves when it traps with [signum]. *)
Definition entered (i : nat) (s : mstate) : mstate :=
  next_invocation (log_call i (set_current_method (Some i) s)).
Definition after_run (i : nat) (s : mstate) : mstate :=
  set_all_exercised true (mark_exercised i (entered i s)).
Definition after_trap (i : nat) (signum : Z) (s : mstate) : mstate :=
  disable i (set_handled_signum signum (entered i s)).

(** The indices, from [i] on, of the entries of [l] that are not
    disabled. *)
Fixpoint enabled_indices (i : nat) (l : list stress_misaligned_method_info_t)
  : list nat :=
  match l with
  | [] => []
  | m :: l' =>
      if disabled m then enabled_indices (S i) l'
      else i :: enabled_indices (S i) l'
  end.

(** What a call leaves, whether it returned or was left by a jump. *)
Definition final (o : outcome) (P : mstate -> Prop) : Prop :=
  match o with
  | Returned s' | Jumped s' => P s'
  | Diverged => False
  end.


Definition registry_shape (a b : bool) : list (string * stress_misaligned_func) :=
  map (fun m => (name m, func m)) (stress_misaligned_methods a b).

(** [called s l s']: from [s] to [s'] the "all" method called the
    entries [l], in this order. *)
Definition called (s : mstate) (l : list nat) (s' : mstate) : Prop :=
  calls s' = rev l ++ calls s.

(** What a pass from index [i] on does: returning, it has called every
    enabled entry from [i] on, in table order; left by a jump, it has
    called the entries before the one that trapped, and this one, now
    disabled. *)
Definition pass_outcome (i : nat) (s : mstate) (o : outcome) : Prop :=
  let todo := enabled_indices i (drop i (methods s)) in
  match o with
  | Returned s' => called s todo s'
  | Jumped s' =>
      exists pre c post,
        todo = pre ++ c :: post /\ called s (pre ++ [c]) s' /\
        (disabled <$> methods s' !! c) = Some true
  | Diverged => False
  end.

End Misaligned.

(** ** The raw socket stressor (stress-rawsock.c) *)
Module Rawsock.

(** [EINTR] of <errno.h>. *)
Definition EINTR : Z := 4.

Definition uint32 (z : Z) : Z := z mod 2 ^ 32.

(** What a process does that others can see, and what it is told. *)
Inductive event :=
| KeepStressing (b : bool)
| Socket (fd : Z)
| LockAcquire
| ReadReady (ready : Z)
| IncReady
| LockRelease
| Usleep (usec : Z)
| Sendto (data : Z) (sret : Z)
| Recvfrom (n : Z) (errno : Z)
| IoctlOutq
| IoctlInq
| IncCounter
| PrFail (what : string) (errno : Z)
| Close (fd : Z)
| KillParent
| KillChild
| Waitpid.

(** What the system answers a process: the successive results of
    [keep_stressing], of the reads of [g_shared->rawsock.ready], of
    [sendto] and of [recvfrom] (length, [errno] and the [data] field of
    the packet read), and the results of [socket], with its [errno],
    and of [stress_sig_stop_stressing]. *)
Record env := Env {
  ks : nat -> bool;
  ready_at : nat -> Z;
  sendto_ret : nat -> Z;
  recvfrom_ret : nat -> Z * Z * Z;
  socket_fd : Z;
  socket_errno : Z;
  sig_stop_ret : Z }.

(** The private state of a process: how many answers of each kind it
    got, the [data] field of its packet, its bogo-op counter, and what
    it did so far, in order. *)
Record pstate := PState {
  polls : nat;
  reads : nat;
  sends : nat;
  recvs : nat;
  pkt_data : Z;
  counter : Z;
  trace : list event }.

Definition emit (e : event) (s : pstate) : pstate :=
  PState (polls s) (reads s) (sends s) (recvs s) (pkt_data s) (counter s)
         (trace s ++ [e]).

Definition start : pstate := PState 0 0 0 0 0 0 [].

Section Process.

Variable E : env.
(** [args->num_instances]. *)
Variable num_instances : Z.

Definition keep_stressing (s : pstate) : bool * pstate :=
  let b := ks E (polls s) in
  (b, emit (KeepStressing b)
        (PState (S (polls s)) (reads s) (sends s) (recvs s) (pkt_data s)
                (counter s) (trace s))).

(** [ready = g_shared->rawsock.ready] under the lock. *)
Definition read_ready (s : pstate) : Z * pstate :=
  let s := emit LockAcquire s in
  let ready := uint32 (ready_at E (reads s)) in
  let s := emit (ReadReady ready)
             (PState (polls s) (S (reads s)) (sends s) (recvs s) (pkt_data s)
                     (counter s) (trace s)) in
  (ready, emit LockRelease s).

(** [g_shared->rawsock.ready++] under the lock. *)
Definition announce_ready (s : pstate) : pstate :=
  emit LockRelease (emit IncReady (emit LockAcquire s)).

Definition sendto (s : pstate) : Z * pstate :=
  let sret := sendto_ret E (sends s) in
  (sret, emit (Sendto (pkt_data s) sret)
           (PState (polls s) (reads s) (S (sends s)) (recvs s) (pkt_data s)
                   (counter s) (trace s))).

Definition recvfrom (s : pstate) : Z * Z * pstate :=
  let '(n, errno, data) := recvfrom_ret E (recvs s) in
  (n, errno, emit (Recvfrom n errno)
               (PState (polls s) (reads s) (sends s) (S (recvs s)) (uint32 data)
                       (counter s) (trace s))).

Definition inc_pkt_data (s : pstate) : pstate :=
  PState (polls s) (reads s) (sends s) (recvs s) (uint32 (pkt_data s + 1))
         (counter s) (trace s).

Definition inc_counter (s : pstate) : pstate :=
  emit IncCounter
    (PState (polls s) (reads s) (sends s) (recvs s) (pkt_data s)
            (counter s + 1) (trace s)).

(** A loop either ran to its exit or is still going when the fuel is
    spent. *)
Inductive progress := Left | Running.

(** The child's "Wait for server to start" loop. *)
Fixpoint wait_for_server (fuel : nat) (s : pstate) : progress * pstate :=
  match fuel with
  | O => (Running, s)
  | S fuel' =>
      let (b, s) := keep_stressing s in
      if b then
        let (ready, s) := read_ready s in
        if ready =? num_instances then (Left, s)
        else wait_for_server fuel' (emit (Usleep 20000) s)
      else (Left, s)
  end.

(** The child's send loop. *)
Fixpoint send_loop (fuel : nat) (s : pstate) : progress * pstate :=
  match fuel with
  | O => (Running, s)
  | S fuel' =>
      let (b, s) := keep_stressing s in
      if b then
        let (sret, s) := sendto s in
        if sret <? 0 then (Left, s)
        else
          let s := inc_pkt_data s in
          if Z.land (pkt_data s) 255 =? 0 then
            let (b, s) := keep_stressing s in
            if negb b then (Left, s)
            else send_loop fuel' (emit IoctlOutq s)
          else send_loop fuel' s
      else (Left, s)
  end.

(** The child (client, sender): its exit status if it got that far, and
    its state. *)
Definition client (fuel : nat) (s : pstate) : option Z * pstate :=
  let fd := socket_fd E in
  let s := emit (Socket fd) s in
  if fd <? 0 then
    let s := emit (PrFail "socket failed" (socket_errno E)) s in
    (Some EXIT_FAILURE, emit KillParent s)
  else
    match wait_for_server fuel s with
    | (Running, s) => (None, s)
    | (Left, s) =>
        match send_loop fuel s with
        | (Running, s) => (None, s)
        | (Left, s) =>
            (Some EXIT_SUCCESS, emit KillParent (emit (Close fd) s))
        end
    end.

(** The parent's receive loop. *)
Fixpoint recv_loop (fuel : nat) (s : pstate) : progress * pstate :=
  match fuel with
  | O => (Running, s)
  | S fuel' =>
      let (b, s) := keep_stressing s in
      if b then
        let '(n, errno, s) := recvfrom s in
        if n =? 0 then (Left, s)
        else if n <? 0 then
          (Left, if negb (errno =? EINTR)
                 then emit (PrFail "recvfrom failed" errno) s else s)
        else
          if Z.land (pkt_data s) 255 =? 0 then
            let (b, s) := keep_stressing s in
            if negb b then (Left, s)
            else recv_loop fuel' (inc_counter (emit IoctlInq s))
          else recv_loop fuel' (inc_counter s)
      else (Left, s)
  end.

(** The label [die] of the parent: kill and reap the child, close the
    socket; [rc] is what [stress_rawsock] then returns. *)
Definition die (pid fd rc : Z) (s : pstate) : option Z * pstate :=
  let s := if negb (pid =? 0) then emit Waitpid (emit KillChild s) else s in
  let s := if -1 <? fd then emit (Close fd) s else s in
  (Some rc, s).

(** The parent (server, receiver) once [fork] returned [pid]. *)
Definition server (fuel : nat) (pid : Z) (s : pstate) : option Z * pstate :=
  let rc := EXIT_SUCCESS in
  if sig_stop_ret E <? 0 then die pid (-1) EXIT_FAILURE s
  else
    let (b, s) := keep_stressing s in
    if negb b then die pid (-1) rc s
    else
      let fd := socket_fd E in
      let s := emit (Socket fd) s in
      if fd <? 0 then
        die pid fd EXIT_FAILURE (emit (PrFail "socket failed" (socket_errno E)) s)
      else
        let s := announce_ready s in
        match recv_loop fuel s with
        | (Running, s) => (None, s)
        | (Left, s) => die pid fd rc s
        end.

End Process.

(** A receiver all of whose reads return [n] with [errno], a process
    told to stop from the start, and a sender among three instances that
    finds the counter at 3 at its third read and is stopped after 6
    polls. *)
Definition recv_env (n errno : Z) : env :=
  Env (fun _ => true) (fun _ => 0) (fun _ => 0) (fun _ => (n, errno, 0)) 3 0 0.
Definition stop_env : env :=
  Env (fun _ => false) (fun _ => 0) (fun _ => 44) (fun _ => (0, 0, 0)) 3 0 0.
Definition send_env : env :=
  Env (fun k => (k <? 6)%nat) (fun k => if (k <? 2)%nat then 1 else 3)
      (fun _ => 44) (fun _ => (0, 0, 0)) 3 0 0.

(** *** Vocabulary of the statements *)

(** A stop condition that stays: once [keep_stressing] has answered
    false it answers false. *)
Definition stays_stopped (ks : nat -> bool) : Prop :=
  forall n, ks n = false -> ks (S n) = false.

(** No packet is sent in [t]. *)
Definition no_send (t : list event) : Prop :=
  forall data sret, ~ In (Sendto data sret) t.

(** Every [sendto] of [t] comes after a read of the ready counter that
    found it equal to [total]. *)
Definition sends_after_ready (total : Z) (t : list event) : Prop :=
  forall pre data sret post,
    t = pre ++ Sendto data sret :: post -> In (ReadReady total) pre.

(** The counter is incremented once in [t], under the lock. *)
Definition increments_once (t : list event) : Prop :=
  exists pre post,
    t = pre ++ LockAcquire :: IncReady :: LockRelease :: post /\
    ~ In IncReady pre /\ ~ In IncReady post.

Definition no_inc (t : list event) : Prop := ~ In IncReady t.

(** A diagnostic of failure in a trace. *)
Definition reports_failure (t : list event) : Prop :=
  exists what errno, In (PrFail what errno) t.

End Rawsock.

(** ** Settings (core of stress-ng, used by the option handlers)

    [stress_set_setting] records a value under a name and
    [stress_get_setting] fetches it into a variable, which keeps its
    initial value when the name was never set. *)
Module Settings.

Definition stress_set_setting (name : string) (value : Z) (st : gmap string Z)
  : gmap string Z :=
  <[name := value]> st.

Definition stress_get_setting (name : string) (variable : Z) (st : gmap string Z)
  : Z :=
  match st !! name with
  | Some value => value
  | None => variable
  end.

End Settings.

(** ** Vocabulary for the accesses of the cacheline routines *)
Module CachelineAccess.
Import Cacheline.

(** [traced d v s new cur]: since [s] the accesses [new] were made,
    latest first, no byte other than the one at [d] changed, nothing
    was reported, and the byte at [d] holds [v]. *)
Definition traced (d v : Z) (s : cstate) (new : list access) (cur : cstate)
  : Prop :=
  bytev d v s cur /\ accesses cur = new ++ accesses s.

(** The accesses among [new], latest first, that write to memory, in
    the order they were made. *)
Definition is_write (a : access) : bool :=
  match a with
  | Store _ _ _ | AtomicAdd _ => true
  | Load _ _ | Barrier => false
  end.
Definition writes (new : list access) : list access :=
  List.filter is_write (rev new).

End CachelineAccess.

(** ** The cacheline worker processes (stress-cacheline.c) *)
Module CachelineWorker.
Import Cacheline Settings.

Definition DEFAULT_L1_SIZE : Z := 64.

Definition uint32 (z : Z) : Z := z mod 2 ^ 32.
Definition int32 (z : Z) : Z := (z + 2 ^ 31) mod 2 ^ 32 - 2 ^ 31.

(** What a worker does besides exercising the line, and what
    [get_L1_line_size] does with the cache details. *)
Inductive note :=
| PrInf (text : string)
| PrDbg (text : string)
| PrErr (text : string)
| FreeCpuCaches
| Invoked (index : Z) (rc : Z)
| IncCounter
| SetAffinity (cpu : Z)
| Kill (pid : Z)
| KillParent
| Waitpid (pid : Z).

#[global] Instance note_eq_dec : EqDecision note.
Proof. solve_decision. Defined.

(** The statuses the calls of the routine returned, and how many times
    a note occurs. *)
Definition statuses (l : list note) : list Z :=
  omap (fun n => match n with Invoked _ rc => Some rc | _ => None end) l.
Definition occurrences (n : note) (l : list note) : nat :=
  length (filter (fun m => m = n) l).

(** Every CPU a worker pinned itself to is below [cpus]. *)
Definition pinned_below (cpus : Z) (l : list note) : Prop :=
  forall cpu, In (SetAffinity cpu) l -> 0 <= cpu < cpus.

(** [get_L1_line_size].  [linux] is whether the build is for Linux,
    [cpu_caches] what [stress_get_all_cpu_cache_details] and
    [stress_get_cpu_cache] found: nothing, details without a level 1
    cache, or a level 1 cache with this [line_size]. *)
Definition get_L1_line_size (linux : bool) (cpu_caches : option (option Z))
    (instance : Z) : Z * list note :=
  let cache_size := DEFAULT_L1_SIZE in
  let inf text := if instance =? 0 then [PrInf text] else [] in
  if linux then
    match cpu_caches with
    | None =>
        (cache_size,
         inf "using built-in defaults as unable to determine cache line details")
    | Some None =>
        (cache_size,
         inf "using built-in defaults as no suitable cache found"
         ++ [FreeCpuCaches])
    | Some (Some line_size) =>
        if line_size =? 0 then
          (cache_size,
           inf "using built-in defaults as unable to determine cache line size"
           ++ [FreeCpuCaches])
        else (line_size, [FreeCpuCaches])
    end
  else
    (cache_size,
     inf "using built-in defaults as unable to determine cache line details").

(** [stress_set_cacheline_method]: the loop over the table, from index
    [i] on. *)
Fixpoint find_method (methods : list stress_cacheline_method_t) (i : nat)
    (name : string) : option nat :=
  match methods with
  | [] => None
  | m :: rest =>
      if String.eqb (Cacheline.name m) name then Some i
      else find_method rest (S i) name
  end.

Definition newline : string := String (Ascii.ascii_of_nat 10) EmptyString.

(** What the second loop prints. *)
Fixpoint list_names (methods : list stress_cacheline_method_t) : string :=
  match methods with
  | [] => ""
  | m :: rest => " " +:+ Cacheline.name m +:+ list_names rest
  end.

(** The option handler: its result, the settings and what went to
    [stderr]. *)
Definition stress_set_cacheline_method (methods : list stress_cacheline_method_t)
    (name : string) (st : gmap string Z) : Z * gmap string Z * string :=
  match find_method methods O name with
  | Some i => (0, stress_set_setting "cacheline-method" (Z.of_nat i) st, "")
  | None =>
      (-1, st,
       "cacheline-method must be one of:" +:+ list_names methods +:+ newline)
  end.

(** The state of a worker: the memory and polls of the routines, the
    bogo-op counter, the number of readings of the clock, and what the
    worker did, in order. *)
Record wstate := WState {
  shared : cstate;
  counter : Z;
  clock : nat;
  notes : list note }.

Definition emit (n : note) (w : wstate) : wstate :=
  WState (shared w) (counter w) (clock w) (notes w ++ [n]).
Definition set_shared (c : cstate) (w : wstate) : wstate :=
  WState c (counter w) (clock w) (notes w).
Definition inc_counter (w : wstate) : wstate :=
  emit IncCounter (WState (shared w) (counter w + 1) (clock w) (notes w)).

Definition launch (c : cstate) : wstate := WState c 0 0 [].

Section Worker.

(** [HAVE_AFFINITY] and [HAVE_SCHED_GETAFFINITY]. *)
Variable have_affinity : bool.
(** The successive values of [(uint32_t)now], [now] being
    [stress_time_now() * 100]. *)
Variable now : nat -> Z.
(** [args->instance], [args->num_instances] and
    [stress_get_processors_configured()]. *)
Variable instance : Z.
Variable num_instances : Z.
Variable cpus : Z.

(** [stress_cacheline_change_affinity]: the mask holds the one CPU
    computed. *)
Definition stress_cacheline_change_affinity (parent : bool) (w : wstate)
  : wstate :=
  let t := now (clock w) in
  let cpu := uint32 (uint32 instance + (if parent then 1 else 0) + uint32 t)
             mod uint32 cpus in
  emit (SetAffinity cpu)
       (WState (shared w) (counter w) (S (clock w)) (notes w)).

(** The do-while loop of [stress_cacheline_child]; [fuel] bounds its
    rounds. *)
Fixpoint child_loop (fuel : nat) (func : Z -> bool -> Z -> M Z)
    (index : Z) (parent : bool) (l1_cacheline_size : Z)
    (cacheline_affinity : bool) (w : wstate) : option (Z * wstate) :=
  match fuel with
  | O => None
  | S fuel' =>
      match func index parent l1_cacheline_size (shared w) with
      | None => None
      | Some (rc, c) =>
          let w := emit (Invoked index rc) (set_shared c w) in
          let w := if parent then inc_counter w else w in
          let w := if have_affinity && cacheline_affinity
                   then stress_cacheline_change_affinity parent w else w in
          if rc =? EXIT_SUCCESS then
            match keep_stressing (shared w) with
            | None => None
            | Some (b, c) =>
                let w := set_shared c w in
                if b then
                  child_loop fuel' func index parent l1_cacheline_size
                    cacheline_affinity w
                else Some (rc, w)
            end
          else Some (rc, w)
      end
  end.

Definition stress_cacheline_child (fuel : nat) (func : Z -> bool -> Z -> M Z)
    (index : Z) (parent : bool) (l1_cacheline_size : Z)
    (cacheline_affinity : bool) (w : wstate) : option (Z * wstate) :=
  match child_loop fuel func index parent l1_cacheline_size
          cacheline_affinity w with
  | None => None
  | Some (rc, w) => Some (rc, if negb parent then emit KillParent w else w)
  end.

(** What [fork] gives the caller: an error, with what
    [stress_redo_fork] says of it; 0, in the child; or, in the parent,
    the child's pid, with the exit code [waitpid] will report if the
    child exits, none if it is killed. *)
Inductive forked :=
| ForkFailed (redo : bool)
| InChild
| InParent (pid : Z) (wexitstatus : option Z).

(** How [stress_cacheline] ends in the process that runs it: it returns
    to the stress-ng core, or the process exits. *)
Inductive ending :=
| Return (rc : Z)
| Exit (rc : Z).

(** [(int)(args->instance * 2)], the product being a [uint32_t]. *)
Definition worker_index : Z := int32 (uint32 (uint32 instance * 2)).

(** From the label [again] on.  [forks] gives the results of the
    successive calls of [fork], [k] is the number of calls made so far;
    [fuel] bounds the calls to come, [rounds] the rounds of the worker
    loop. *)
Fixpoint from_again (fuel rounds : nat) (forks : nat -> forked) (k : nat)
    (func : Z -> bool -> Z -> M Z) (l1_cacheline_size : Z)
    (cacheline_affinity : bool) (w : wstate) : option (ending * wstate) :=
  let index := worker_index in
  let rc := EXIT_SUCCESS in
  match fuel with
  | O => None
  | S fuel' =>
      match forks k with
      | ForkFailed redo =>
          if redo then
            from_again fuel' rounds forks (S k) func l1_cacheline_size
              cacheline_affinity w
          else
            match keep_stressing (shared w) with
            | None => None
            | Some (b, c) =>
                let w := set_shared c w in
                if negb b then Some (Return rc, w)
                else Some (Return EXIT_NO_RESOURCE, emit (PrErr "fork failed") w)
            end
      | InChild =>
          match stress_cacheline_child rounds func (index + 1) false
                  l1_cacheline_size cacheline_affinity w with
          | None => None
          | Some (rc, w) => Some (Exit rc, w)
          end
      | InParent pid wexitstatus =>
          match stress_cacheline_child rounds func index true
                  l1_cacheline_size cacheline_affinity w with
          | None => None
          | Some (_, w) =>
              let w := emit (Waitpid pid) (emit (Kill pid) w) in
              let rc := match wexitstatus with
                        | Some code =>
                            if negb (code =? EXIT_SUCCESS) then code else rc
                        | None => rc
                        end in
              Some (Return rc, w)
          end
      end
  end.

(** [stress_cacheline].  [have_atomic_inc] and [have_int128] are what
    the build found, [depth] bounds the nesting of calls and the read
    loops of the routines.  A method index past the table is outside
    what C defines: no result is given for it. *)
Definition stress_cacheline (have_atomic_inc have_int128 linux : bool)
    (cpu_caches : option (option Z)) (st : gmap string Z)
    (fuel rounds depth : nat) (forks : nat -> forked) (w : wstate)
  : option (ending * wstate) :=
  let (l1_cacheline_size, found) := get_L1_line_size linux cpu_caches instance in
  let w := WState (shared w) (counter w) (clock w) (notes w ++ found) in
  let cacheline_method := 0 in
  let cacheline_affinity := 0 in
  let cacheline_affinity :=
    stress_get_setting "cacheline-affinity" cacheline_affinity st in
  let cacheline_method :=
    stress_get_setting "cacheline-method" cacheline_method st in
  let w :=
    if instance =? 0 then
      let w := emit (PrDbg "L1 cache line size") w in
      if uint32 (uint32 num_instances * 2) <? l1_cacheline_size
      then emit (PrInf "to fully exercise a cache line, more instances are required") w
      else w
    else w in
  match cacheline_methods have_atomic_inc !! Z.to_nat cacheline_method with
  | None => None
  | Some m =>
      let w := emit (PrDbg ("using method " +:+ Cacheline.name m)) w in
      from_again fuel rounds forks O
        (call have_atomic_inc have_int128 depth (func m))
        l1_cacheline_size (negb (cacheline_affinity =? 0)) w
  end.

End Worker.

End CachelineWorker.

(** ** Choosing the misaligned method (stress-misaligned.c) *)
Module MisalignedSetup.
Import Misaligned Settings.

(** The first loop of [stress_set_misaligned_method], from the entry at
    index [i] on. *)
Fixpoint find_method (methods : list stress_misaligned_method_info_t) (i : nat)
    (name : string) : option nat :=
  match methods with
  | [] => None
  | info :: rest =>
      if String.eqb (Misaligned.name info) name then Some i
      else find_method rest (S i) name
  end.

(** What its second loop prints. *)
Fixpoint list_names (methods : list stress_misaligned_method_info_t) : string :=
  match methods with
  | [] => ""
  | info :: rest => " " +:+ Misaligned.name info +:+ list_names rest
  end.

(** The option handler: its result, the settings and what went to
    [stderr].  The pointer to the entry found is kept as its index. *)
Definition stress_set_misaligned_method
    (methods : list stress_misaligned_method_info_t) (name : string)
    (st : gmap string Z) : Z * gmap string Z * string :=
  match find_method methods O name with
  | Some i => (0, stress_set_setting "misaligned-method" (Z.of_nat i) st, "")
  | None =>
      (-1, st,
       "misaligned-method must be one of:" +:+ list_names methods
       +:+ CachelineWorker.newline)
  end.

Definition stress_misaligned_set_default
    (methods : list stress_misaligned_method_info_t) (st : gmap string Z)
  : gmap string Z :=
  snd (fst (stress_set_misaligned_method methods "all" st)).

(** [misaligned_method] of [stress_misaligned]: the entry at index 0
    unless the setting names another. *)
Definition misaligned_method (st : gmap string Z) : nat :=
  Z.to_nat (stress_get_setting "misaligned-method" 0 st).


(** The number of entries of a registry that are not disabled. *)
Definition enabled_count (s : mstate) : nat :=
  length (enabled_indices 0 (methods s)).

End MisalignedSetup.

(** ** [stress_rawsock] as a whole (stress-rawsock.c) *)
Module RawsockTop.
Import Rawsock.

#[global] Instance event_eq_dec : EqDecision event.
Proof. solve_decision. Defined.

(** What [fork] gives the caller: an error, with what
    [stress_redo_fork] says of it; 0, in the child; the child's pid, in
    the parent. *)
Inductive forked :=
| ForkFailed (errno : Z) (redo : bool)
| InChild
| InParent (pid : Z).

(** How [stress_rawsock] ends in the process that runs it: it returns
    to the stress-ng core, or the process exits. *)
Inductive ending :=
| Return (rc : Z)
| Exit (rc : Z).

Section Top.

Variable E : env.
Variable num_instances : Z.
(** The results of the successive calls of [fork]. *)
Variable forks : nat -> forked.

(** From the label [again] on; [k] is the number of calls of [fork]
    made so far, [fuel] bounds the calls to come, [rounds] the rounds
    of the loops of the two processes.  No status is given when a bound
    is reached.  The calls of [stress_set_proc_state],
    [stress_parent_died_alarm] and [sched_settings_apply] leave no
    event. *)
Fixpoint from_again (fuel rounds : nat) (k : nat) (s : pstate)
  : option ending * pstate :=
  match fuel with
  | O => (None, s)
  | S fuel' =>
      match forks k with
      | ForkFailed errno redo =>
          if redo then from_again fuel' rounds (S k) s
          else
            let (b, s) := keep_stressing E s in
            if negb b then (Some (Return EXIT_SUCCESS), s)
            else (Some (Return EXIT_FAILURE), emit (PrFail "fork failed" errno) s)
      | InChild =>
          match client E num_instances rounds s with
          | (Some rc, s) => (Some (Exit rc), s)
          | (None, s) => (None, s)
          end
      | InParent pid =>
          match server E rounds pid s with
          | (Some rc, s) => (Some (Return rc), s)
          | (None, s) => (None, s)
          end
      end
  end.

(** [stress_rawsock]; [have_lock] is whether [rawsock_lock] was
    created.  The third component is what [pr_inf] printed. *)
Definition stress_rawsock (have_lock : bool) (fuel rounds : nat) (s : pstate)
  : option ending * pstate * list string :=
  if negb have_lock then
    (Some (Return EXIT_NO_RESOURCE), s,
     ["failed to create rawsock lock, skipping stressor"])
  else (from_again fuel rounds O s, []).

End Top.

(** *** Vocabulary of the statements *)

(** Whether the lock is held after the events [t], the lock being held
    or not before them as [held] says; [None] when [t] acquires the
    lock while holding it, releases it or touches the ready counter
    while not holding it. *)
Fixpoint lock_state (held : bool) (t : list event) : option bool :=
  match t with
  | [] => Some held
  | LockAcquire :: t' => if held then None else lock_state true t'
  | LockRelease :: t' => if held then lock_state false t' else None
  | ReadReady _ :: t' | IncReady :: t' =>
      if held then lock_state held t' else None
  | _ :: t' => lock_state held t'
  end.

(** The [data] fields of the packets sent, and the lengths of the
    packets received. *)
Definition sent (t : list event) : list Z :=
  omap (fun e => match e with Sendto data _ => Some data | _ => None end) t.
Definition received (t : list event) : list Z :=
  omap (fun e => match e with
                 | Recvfrom n _ => if 0 <? n then Some n else None
                 | _ => None
                 end) t.

Definition occurrences (e : event) (t : list event) : nat :=
  length (filter (fun x => x = e) t).

(** The events of opening and closing: of the socket, and the signals
    and the wait that end the other process. *)
Definition bracket_event (e : event) : bool :=
  match e with
  | Socket _ | Close _ | KillParent | KillChild | Waitpid => true
  | _ => false
  end.

End RawsockTop.

(** ** stress-dirmany.c *)
Module Dirmany.
Import Settings.

(** [PATH_MAX] and [ENAMETOOLONG] of Linux, and the size of a pointer
    where [size_t] has 64 bits. *)
Definition PATH_MAX : Z := 4096.
Definition ENAMETOOLONG : Z := 36.
Definition sizeof_pointer : Z := 8.

(** [uint64_t] and [size_t]. *)
Definition uint64 (z : Z) : Z := z mod 2 ^ 64.

(** The digit of ["%x"] for [d], and the [k] lowest digits of [n], the
    highest first. *)
Definition hex_digit (d : Z) : ascii :=
  if d <? 10 then ascii_of_nat (48 + Z.to_nat d)
  else ascii_of_nat (87 + Z.to_nat d).

Fixpoint hex_digits (k : nat) (n : Z) : list ascii :=
  match k with
  | O => []
  | S k' => hex_digits k' (n / 16) ++ [hex_digit (n mod 16)]
  end.

(** What the format ["%16.16" PRIx64] gives for [n]: 16 digits at
    least, which are all the digits of a [uint64_t]. *)
Definition format_16_16_x64 (n : Z) : list ascii := hex_digits 16 (uint64 n).

(** The string that [snprintf (str, size, ...)] stores at [str] for the
    text [text], when [size] is not 0: at most [size - 1] characters,
    and the terminator. *)
Definition snprintf (size : Z) (text : list ascii) : list ascii :=
  take (Z.to_nat (size - 1)) text.

Definition slash : ascii := ascii_of_nat 47.
Definition letter_x : ascii := ascii_of_nat 120.

(** [stress_dirmany_filename]: the string in [filename] after the call.
    [pathname] is the string in the caller's array.  No result is given
    when the call reads past the terminator of [pathname], writes past
    the [filename_sz] bytes of [filename], or, [filename_sz] being 0,
    writes nothing at all. *)
Definition stress_dirmany_filename (pathname : list ascii)
    (pathname_len filename_sz filename_len n : Z) : option (list ascii) :=
  if uint64 (pathname_len + filename_len + 18) <? filename_sz then
    let offset := pathname_len + 1 + filename_len in
    let digits := snprintf (uint64 (sizeof_pointer + offset)) (format_16_16_x64 n) in
    if (pathname_len <=? Z.of_nat (length pathname))
       && (offset + Z.of_nat (length digits) + 1 <=? filename_sz)
    then Some (take (Z.to_nat pathname_len) pathname
               ++ [slash] ++ replicate (Z.to_nat filename_len) letter_x
               ++ digits)
    else None
  else
    if 0 <? filename_sz then Some (snprintf filename_sz (format_16_16_x64 n))
    else None.

(** What the stressor does to the file system, and counts. *)
Inductive event :=
| KeepStressing (b : bool)
| Open (filename : list ascii) (fd : Z)
| Fallocate (fd : Z) (len : Z)
| Fsync (fd : Z)
| Close (fd : Z)
| IncCounter
| Unlink (filename : list ascii)
| MkTempDir (ret : Z)
| RmTempDir
| PrDbg (text : string)
| PrInf (text : string).

#[global] Instance dirmany_event_eq_dec : EqDecision event.
Proof. solve_decision. Defined.

(** What the system answers: the successive results of
    [keep_stressing], of the comparisons [stress_time_now() <= t_end]
    and of [open] (the descriptor or -1, and [errno]), the name and the
    result of [stress_temp_dir] and [stress_temp_dir_mk_args], whether
    the clock advanced during the run, and [stress_exit_status]. *)
Record env := Env {
  ks : nat -> bool;
  in_time : nat -> bool;
  open_ret : nat -> list ascii -> Z * Z;
  temp_dir : list ascii;
  mk_ret : Z;
  clock_advanced : bool;
  stress_exit_status : Z -> Z }.

(** The state of the stressor: how many answers of each kind it got,
    its bogo-op counter and what it did, in order. *)
Record dstate := DState {
  polls : nat;
  clocks : nat;
  opens : nat;
  counter : Z;
  trace : list event }.

Definition emit (e : event) (s : dstate) : dstate :=
  DState (polls s) (clocks s) (opens s) (counter s) (trace s ++ [e]).

Definition start : dstate := DState 0 0 0 0 [].

(** The names of the files opened with success, and of the files
    unlinked, in order. *)
Definition created (t : list event) : list (list ascii) :=
  omap (fun e => match e with
                 | Open filename fd => if fd <? 0 then None else Some filename
                 | _ => None
                 end) t.
Definition unlinked (t : list event) : list (list ascii) :=
  omap (fun e => match e with Unlink filename => Some filename | _ => None end) t.

(** The descriptor that is open after the events [t], [cur] being open
    before them, if any; [None] when [t] opens a file while one is
    open, or uses or closes a descriptor that is not the open one. *)
Fixpoint descriptor_after (cur : option Z) (t : list event) : option (option Z) :=
  match t with
  | [] => Some cur
  | Open _ fd :: t' =>
      match cur with
      | Some _ => None
      | None => descriptor_after (if fd <? 0 then None else Some fd) t'
      end
  | Fallocate fd _ :: t' | Fsync fd :: t' =>
      match cur with
      | Some cur_fd => if fd =? cur_fd then descriptor_after cur t' else None
      | None => None
      end
  | Close fd :: t' =>
      match cur with
      | Some cur_fd => if fd =? cur_fd then descriptor_after None t' else None
      | None => None
      end
  | _ :: t' => descriptor_after cur t'
  end.

Definition occurrences (e : event) (t : list event) : nat :=
  length (filter (fun x => x = e) t).

(** The name of file [n] with [filename_len] letters x, in the
    directory [pathname]. *)
Definition file_name (pathname : list ascii) (filename_len n : Z) : list ascii :=
  pathname ++ [slash] ++ replicate (Z.to_nat filename_len) letter_x
  ++ format_16_16_x64 n.

(** The names of [k] files from file [i] on, the first with [first]
    letters x and each with one more than the one before, up to
    [max_len] letters. *)
Definition file_names (pathname : list ascii) (i first max_len : Z) (k : nat)
  : list (list ascii) :=
  map (fun q : nat =>
         file_name pathname (Z.min (first + Z.of_nat q) max_len) (i + Z.of_nat q))
      (seq 0 k).

Section Stressor.

Variable E : env.

Definition keep_stressing (s : dstate) : bool * dstate :=
  let b := ks E (polls s) in
  (b, emit (KeepStressing b)
        (DState (S (polls s)) (clocks s) (opens s) (counter s) (trace s))).

(** [stress_time_now() <= t_end]. *)
Definition before_t_end (s : dstate) : bool * dstate :=
  (in_time E (clocks s),
   DState (polls s) (S (clocks s)) (opens s) (counter s) (trace s)).

Definition open (filename : list ascii) (s : dstate) : Z * Z * dstate :=
  let (fd, errno) := open_ret E (opens s) filename in
  (fd, errno,
   emit (Open filename fd)
     (DState (polls s) (clocks s) (S (opens s)) (counter s) (trace s))).

Definition inc_counter (s : dstate) : dstate :=
  emit IncCounter
    (DState (polls s) (clocks s) (opens s) (counter s + 1) (trace s)).

(** The loop of [stress_dirmany_create], with its variables [i_end],
    [filename_len] and [*max_len]; [fuel] bounds its rounds.  No result
    is given when the fuel is spent or [stress_dirmany_filename] gives
    none.  The times are left out; they matter to the files only by the
    comparisons with [t_end]. *)
Fixpoint create_loop (fuel : nat) (pathname : list ascii)
    (pathname_len dirmany_bytes : Z) (i_end filename_len max_len : Z)
    (s : dstate) : option (Z * Z * dstate) :=
  match fuel with
  | O => None
  | S fuel' =>
      let (b, s) := keep_stressing s in
      if negb b then Some (i_end, max_len, s)
      else
        let (b, s) := before_t_end s in
        if negb b then Some (i_end, max_len, s)
        else
          match stress_dirmany_filename pathname pathname_len (PATH_MAX + 20)
                  filename_len i_end with
          | None => None
          | Some filename =>
              let '(fd, errno, s) := open filename s in
              if fd <? 0 then
                if errno =? ENAMETOOLONG then
                  let filename_len := uint64 (filename_len - 1) in
                  let max_len := filename_len in
                  create_loop fuel' pathname pathname_len dirmany_bytes
                    i_end filename_len max_len s
                else Some (i_end, max_len, s)
              else
                let filename_len :=
                  if filename_len <? max_len then uint64 (filename_len + 1)
                  else filename_len in
                let i_end := uint64 (i_end + 1) in
                let s := if 0 <? dirmany_bytes
                         then emit (Fallocate fd dirmany_bytes) s else s in
                let s := if Z.land i_end 255 =? 255
                         then emit (Fsync fd) s else s in
                let s := emit (Close fd) s in
                let s := inc_counter s in
                create_loop fuel' pathname pathname_len dirmany_bytes
                  i_end filename_len max_len s
          end
  end.

(** [stress_dirmany_create]: [i_end] and [*max_len]. *)
Definition stress_dirmany_create (fuel : nat) (pathname : list ascii)
    (pathname_len dirmany_bytes i_start : Z) (s : dstate)
  : option (Z * Z * dstate) :=
  let i_end := i_start in
  let filename_len := 1 in
  let max_len := 256 in
  create_loop fuel pathname pathname_len dirmany_bytes i_end filename_len
    max_len s.

(** The loop of [stress_dirmany_remove], with [count] rounds to go. *)
Fixpoint remove_loop (count : nat) (pathname : list ascii)
    (pathname_len : Z) (i filename_len max_len : Z) (s : dstate)
  : option dstate :=
  match count with
  | O => Some s
  | S count' =>
      match stress_dirmany_filename pathname pathname_len (PATH_MAX + 20)
              filename_len i with
      | None => None
      | Some filename =>
          let s := emit (Unlink filename) s in
          let filename_len :=
            if filename_len <? max_len then uint64 (filename_len + 1)
            else filename_len in
          remove_loop count' pathname pathname_len (i + 1) filename_len
            max_len s
      end
  end.

(** [stress_dirmany_remove]: the loop runs for [i] from [i_start] up to
    [i_end], not at all when [i_end] is not above [i_start]. *)
Definition stress_dirmany_remove (pathname : list ascii)
    (pathname_len i_start i_end max_len : Z) (s : dstate) : option dstate :=
  remove_loop (Z.to_nat (i_end - i_start)) pathname pathname_len i_start 1
    max_len s.

(** The do-while loop of [stress_dirmany]; [rounds] bounds its rounds,
    [fuel] those of the loop of [stress_dirmany_create]. *)
Fixpoint main_loop (rounds fuel : nat) (pathname : list ascii)
    (pathname_len dirmany_bytes i_start : Z) (s : dstate) : option dstate :=
  match rounds with
  | O => None
  | S rounds' =>
      match stress_dirmany_create fuel pathname pathname_len dirmany_bytes
              i_start s with
      | None => None
      | Some (i_end, max_len, s) =>
          match stress_dirmany_remove pathname pathname_len i_start i_end
                  max_len s with
          | None => None
          | Some s =>
              let i_start := i_end in
              let i_start := if 1000000000 <? i_start then 0 else i_start in
              let (b, s) := keep_stressing s in
              if b then
                main_loop rounds' fuel pathname pathname_len dirmany_bytes
                  i_start s
              else Some s
          end
      end
  end.

(** [stress_dirmany]: its result and the state. *)
Definition stress_dirmany (instance : Z) (st : gmap string Z)
    (rounds fuel : nat) (s : dstate) : option (Z * dstate) :=
  let i_start := 0 in
  let dirmany_bytes := 0 in
  let pathname := temp_dir E in
  let pathname_len := Z.of_nat (length pathname) in
  let ret := mk_ret E in
  let s := emit (MkTempDir ret) s in
  if ret <? 0 then Some (stress_exit_status E (- ret), s)
  else
    let dirmany_bytes := stress_get_setting "dirmany-bytes" dirmany_bytes st in
    let s := if instance =? 0 then emit (PrDbg "byte file size") s else s in
    match main_loop rounds fuel pathname pathname_len dirmany_bytes i_start s with
    | None => None
    | Some s =>
        let s := if clock_advanced E
                 then emit (PrInf "create time, remove time") s else s in
        Some (ret, emit RmTempDir s)
    end.

End Stressor.

(** A system that accepts the names of at most [L] characters, says
    stop at the seventh call of [keep_stressing], and gave a directory
    with a name of 12 characters. *)
Definition short_names_env (L : Z) : env :=
  Env (fun k => (k <? 6)%nat) (fun _ => true)
      (fun _ name =>
         if L <? Z.of_nat (length name) then (-1, ENAMETOOLONG) else (3, 0))
      (replicate 12 letter_x) 0 true (fun e => e).

End Dirmany.

Module CachelineFacts.
Import Cacheline.
Local Open Scope cl_scope.

Lemma uint8_range z : 0 <= uint8 z < 256.
Proof. unfold uint8. apply Z.mod_pos_bound. lia. Qed.

Lemma uint8_small z : 0 <= z < 256 -> uint8 z = z.
Proof. intros H. unfold uint8. apply Z.mod_small. exact H. Qed.

Lemma uint8_idem z : uint8 (uint8 z) = uint8 z.
Proof. apply uint8_small, uint8_range. Qed.

Lemma uint8_add_l a b : uint8 (uint8 a + b) = uint8 (a + b).
Proof. unfold uint8. apply Zplus_mod_idemp_l. Qed.

Lemma wp_bind {A B} (m : M A) (k : A -> M B) s Q :
  wp m s (fun a s' => wp (k a) s' Q) -> wp (bind m k) s Q.
Proof. unfold wp, bind. destruct (m s) as [[a s']|]; auto. Qed.

Lemma wp_ret {A} (a : A) s (Q : A -> cstate -> Prop) : Q a s -> wp (ret a) s Q.
Proof. auto. Qed.

Lemma wp_conseq {A} (m : M A) s (Q Q' : A -> cstate -> Prop) :
  wp m s Q -> (forall a s', Q a s' -> Q' a s') -> wp m s Q'.
Proof. unfold wp. destruct (m s) as [[a s']|]; auto. Qed.

Lemma wp_elim {A} (m : M A) s Q :
  wp m s Q -> exists a s', m s = Some (a, s') /\ Q a s'.
Proof. unfold wp. destruct (m s) as [[a s']|]; [eauto | tauto]. Qed.

Lemma frame_refl d s : frame d s s.
Proof. unfold frame; auto. Qed.

Lemma frame_trans d s1 s2 s3 : frame d s1 s2 -> frame d s2 s3 -> frame d s1 s3.
Proof.
  intros [A1 A2] [B1 B2]. split; [|congruence].
  intros x Hx. rewrite B1, A1; auto.
Qed.

Lemma bytev_init d s : bytev d (uint8 (mem s d)) s s.
Proof. split; [reflexivity | apply frame_refl]. Qed.

Lemma wp_store8 d w v s cur :
  bytev d v s cur -> wp (store8 d w) cur (fun _ => bytev d (uint8 w) s).
Proof.
  intros (H1 & H2 & H3). unfold wp, store8, bytev, frame; cbn.
  rewrite Z.eqb_refl, uint8_idem. repeat split; auto.
  intros x Hx. apply Z.eqb_neq in Hx. rewrite Hx. apply H2. now apply Z.eqb_neq.
Qed.

Lemma wp_load8 d v s cur :
  bytev d v s cur -> wp (load8 d) cur (fun r cur' => r = v /\ bytev d v s cur').
Proof. intros (H1 & H2 & H3). unfold wp, load8, bytev, frame; cbn. auto. Qed.

Lemma wp_load8_other a d v s cur :
  bytev d v s cur -> wp (load8 a) cur (fun r cur' => r = uint8 (mem cur a) /\ bytev d v s cur').
Proof. intros (H1 & H2 & H3). unfold wp, load8, bytev, frame; cbn. auto. Qed.

Lemma wp_loadw w a d v s cur :
  bytev d v s cur -> wp (loadw w a) cur (fun _ => bytev d v s).
Proof. intros (H1 & H2 & H3). unfold wp, loadw, bytev, frame; cbn. auto. Qed.

Lemma wp_shim_mb d v s cur :
  bytev d v s cur -> wp shim_mb cur (fun _ => bytev d v s).
Proof. intros (H1 & H2 & H3). unfold wp, shim_mb, bytev, frame; cbn. auto. Qed.

(** Writing the static [tmp] moves the state the frame refers to. *)
Lemma wp_write_mix_tmp t d v s cur :
  bytev d v s cur ->
  wp (write_mix_tmp t) cur (fun _ => bytev d v (set_mix_tmp t s)).
Proof.
  intros (H1 & H2 & H3). unfold wp, bytev, frame, rest in *; cbn.
  repeat split; auto. congruence.
Qed.

Lemma bytev_mix_tmp d v s cur : bytev d v s cur -> mix_tmp cur = mix_tmp s.
Proof. intros (_ & _ & H). unfold rest in H. congruence. Qed.

Lemma wp_read {A} (f : cstate -> A) s (Q : A -> cstate -> Prop) :
  Q (f s) s -> wp (read f) s Q.
Proof. auto. Qed.

(** [step lem H]: run the next primitive of the routine by [lem], which
    turns the fact [H] about the current state into one about the next. *)
Ltac step lem H :=
  apply wp_bind;
  eapply wp_conseq; [eapply lem; exact H|];
  clear H;
  let r := fresh "r" in let s' := fresh "s" in
  intros r s' H; cbv beta in H.

Lemma wp_inc8 d v s cur :
  bytev d v s cur -> wp (inc8 d) cur (fun _ => bytev d (uint8 (v + 1)) s).
Proof.
  intros H. unfold inc8. step wp_load8 H. destruct H as [-> H].
  now apply wp_store8 with (v := v).
Qed.

Lemma wp_atomic_inc d v s cur :
  bytev d v s cur -> wp (SHIM_ATOMIC_INC d) cur (fun _ => bytev d (uint8 (v + 1)) s).
Proof.
  intros (H1 & H2 & H3). unfold wp, SHIM_ATOMIC_INC, bytev, frame; cbn.
  rewrite Z.eqb_refl, uint8_idem, <- H1, uint8_add_l. repeat split; auto.
  intros x Hx. apply Z.eqb_neq in Hx. rewrite Hx. apply H2. now apply Z.eqb_neq.
Qed.

Lemma wp_for_loop {L} (I : nat -> L -> cstate -> Prop) n :
  forall i0 (body : Z -> L -> M (L + Z)) l s,
  I O l s ->
  (forall k l s, (k < n)%nat -> I k l s ->
     wp (body (i0 + Z.of_nat k) l) s
        (fun r s' => exists l', r = inl l' /\ I (S k) l' s')) ->
  wp (for_loop n i0 body l) s (fun r s' => exists l', r = inl l' /\ I n l' s').
Proof.
  revert I. induction n as [|n IH]; intros I i0 body l s H0 Hstep.
  - apply wp_ret. eauto.
  - cbn [for_loop]. apply wp_bind.
    eapply wp_conseq.
    + specialize (Hstep O l s). rewrite Z.add_0_r in Hstep. apply Hstep; [lia | exact H0].
    + cbv beta. intros r s' (l' & -> & HI).
      apply (IH (fun k => I (S k))); [exact HI|].
      intros k l0 s0 Hk HIk.
      replace (i0 + 1 + Z.of_nat k) with (i0 + Z.of_nat (S k)) by lia.
      apply Hstep; [lia | exact HIk].
Qed.

(** A loop that ran to its end makes the routine return EXIT_SUCCESS. *)
Lemma wp_finish {L} (m : M (L + Z)) s (Q : L -> cstate -> Prop) :
  wp m s (fun r s' => exists l, r = inl l /\ Q l s') ->
  wp (bind m finish) s (fun rc s' => rc = EXIT_SUCCESS /\ exists l, Q l s').
Proof.
  intros H. apply wp_bind. eapply wp_conseq; [exact H|].
  cbv beta. intros r s' (l & -> & HQ). apply wp_ret. eauto.
Qed.

Lemma uint8_add7 v :
  uint8 (uint8 (uint8 (uint8 (uint8 (uint8 (uint8 (v + 1) + 1) + 1) + 1) + 1) + 1) + 1)
  = uint8 (v + 7).
Proof.
  repeat (rewrite uint8_add_l; rewrite <- ?Z.add_assoc).
  apply (f_equal uint8). lia.
Qed.

Lemma uint8_add_7i v (k : nat) :
  uint8 (uint8 (v + 7 * Z.of_nat k) + 7) = uint8 (v + 7 * Z.of_nat (S k)).
Proof. rewrite uint8_add_l. apply (f_equal uint8). lia. Qed.

(** The verification at the end of a batch, when the byte holds what
    the routine expects. *)
Lemma wp_verify {L} (name : string) (l : L) index d v s cur :
  bytev d v s cur ->
  wp (bind (load8 d) (fun x =>
        if negb (x =? v) then
          bind (load8 d) (fun got =>
            bind (pr_fail name index v got) (fun _ => ret (inr EXIT_FAILURE)))
        else ret (inl l))) cur
     (fun r cur' => r = inl l /\ bytev d v s cur').
Proof.
  intros H. step wp_load8 H. destruct H as [-> H].
  rewrite Z.eqb_refl. apply wp_ret. auto.
Qed.

Lemma wp_verify' {L} (name : string) (l : L) index d v s cur :
  bytev d v s cur ->
  wp (bind (load8 d) (fun x =>
        if negb (v =? x) then
          bind (load8 d) (fun got =>
            bind (pr_fail name index v got) (fun _ => ret (inr EXIT_FAILURE)))
        else ret (inl l))) cur
     (fun r cur' => r = inl l /\ bytev d v s cur').
Proof.
  intros H. step wp_load8 H. destruct H as [-> H].
  rewrite Z.eqb_refl. apply wp_ret. auto.
Qed.

Lemma adjacent_body_ok index d adj i v s cur :
  bytev d v s cur ->
  wp (adjacent_body index d adj i v) cur
     (fun r cur' => r = inl (uint8 (v + 7)) /\ bytev d (uint8 (v + 7)) s cur').
Proof.
  intros H. unfold adjacent_body.
  do 7 (step wp_inc8 H; step wp_load8_other H; destruct H as [_ H];
        step wp_shim_mb H).
  rewrite uint8_add7 in H.
  now apply wp_verify.
Qed.

Lemma adjacent_groups_ok n index s :
  let d := g_cacheline s + index in
  wp (adjacent_groups n index) s
     (fun r s' => exists v, r = inl v /\ v = uint8 (mem s d + 7 * Z.of_nat n) /\
                            bytev d v s s').
Proof.
  intros d. unfold adjacent_groups.
  apply wp_bind, wp_read. fold d.
  pose proof (bytev_init d s) as H.
  step wp_load8 H. destruct H as [-> H].
  eapply wp_conseq.
  - apply (wp_for_loop (fun k v cur => v = uint8 (mem s d + 7 * Z.of_nat k) /\
                                        bytev d v s cur)).
    + split; [|exact H]. rewrite Z.add_0_r. reflexivity.
    + intros k v cur _ [-> Hk].
      eapply wp_conseq; [apply adjacent_body_ok; exact Hk|].
      cbv beta. intros r cur' [-> Hb]. rewrite uint8_add_7i in *. eauto.
  - cbv beta. intros r cur' (v & -> & -> & Hb). eauto.
Qed.

(** C4. Adjacent method, single-process execution: after the i-th group
    of 7 increments the target byte equals its starting value plus 7*i
    modulo 256 and equals the expected value the routine keeps, so
    every verification compares equal and nothing is reported; the
    1024 groups done, the method returns EXIT_SUCCESS. *)
Theorem adjacent_groups_verified (index : Z) (parent : bool) (l1 : Z) (s : cstate) :
  let data8 := g_cacheline s + index in
  let start := uint8 (mem s data8) in
  (forall i : nat, exists s_i,
      adjacent_groups i index s = Some (inl ((start + 7 * Z.of_nat i) mod 256), s_i) /\
      uint8 (mem s_i data8) = (start + 7 * Z.of_nat i) mod 256 /\
      failures s_i = failures s) /\
  (exists s', adjacent_groups 1024 index s = Some (inl start, s') /\
      stress_cacheline_adjacent index parent l1 s = Some (EXIT_SUCCESS, s') /\
      failures s' = failures s).
Proof.
  intros data8 start.
  assert (G : forall i : nat, exists s_i,
      adjacent_groups i index s = Some (inl ((start + 7 * Z.of_nat i) mod 256), s_i) /\
      uint8 (mem s_i data8) = (start + 7 * Z.of_nat i) mod 256 /\
      failures s_i = failures s).
  { intros i.
    destruct (wp_elim _ _ _ (adjacent_groups_ok i index s))
      as (r & s_i & Hrun & v & -> & -> & Hv & _ & Hrest).
    exists s_i. fold data8 in Hv, Hrun |- *.
    change ((start + 7 * Z.of_nat i) mod 256) with (uint8 (start + 7 * Z.of_nat i)).
    unfold start. rewrite uint8_add_l.
    repeat split; [exact Hrun | exact Hv |].
    unfold rest in Hrest. congruence. }
  split; [exact G|].
  destruct (G 1024%nat) as (s' & Hrun & _ & Hf).
  replace ((start + 7 * Z.of_nat 1024) mod 256) with start in Hrun.
  2:{ change (7 * Z.of_nat 1024) with (28 * 256).
      rewrite Z.mod_add by lia. symmetry. apply uint8_small, uint8_range. }
  exists s'. repeat split; [exact Hrun | | exact Hf].
  unfold stress_cacheline_adjacent, bind. rewrite Hrun. reflexivity.
Qed.

(** *** The mix method *)

Lemma all_bytes_complete v : 0 <= v < 256 -> In v all_bytes.
Proof.
  intros H. unfold all_bytes. apply in_map_iff.
  exists (Z.to_nat v). split; [lia|]. apply in_seq. lia.
Qed.

Lemma rotate_check :
  forallb (fun v => ROR8 (ROL8 v) =? v) all_bytes = true.
Proof. vm_compute. reflexivity. Qed.

Lemma ROR8_ROL8 v : 0 <= v < 256 -> ROR8 (ROL8 v) = v.
Proof.
  intros H. apply Z.eqb_eq.
  exact (proj1 (forallb_forall _ _) rotate_check v (all_bytes_complete v H)).
Qed.

Lemma ROL8_byte v : uint8 (ROL8 v) = ROL8 v.
Proof. unfold ROL8. apply uint8_idem. Qed.

Lemma ROR8_byte v : uint8 (ROR8 v) = ROR8 v.
Proof. unfold ROR8. apply uint8_idem. Qed.

Lemma wp_EXERCISE t d v s cur :
  bytev d v s cur ->
  wp (EXERCISE t) cur (fun r cur' => r = uint8 (t + 1) /\ bytev d v s cur').
Proof.
  intros H. unfold EXERCISE.
  step wp_shim_mb H. step wp_shim_mb H. step wp_shim_mb H.
  apply wp_ret. split; [|exact H].
  apply ROR8_ROL8, uint8_range.
Qed.

Lemma wp_EXERCISE_mem d v s cur :
  bytev d v s cur ->
  wp (EXERCISE_mem d) cur (fun _ => bytev d (uint8 (v + 1)) s).
Proof.
  intros H. unfold EXERCISE_mem.
  step wp_inc8 H. step wp_shim_mb H.
  apply wp_bind. step wp_load8 H. destruct H as [-> H].
  eapply wp_conseq; [eapply wp_store8; exact H|]. clear H.
  cbv beta. intros _ ? H. rewrite ROL8_byte in H.
  step wp_shim_mb H.
  apply wp_bind. step wp_load8 H. destruct H as [-> H].
  eapply wp_conseq; [eapply wp_store8; exact H|]. clear H.
  cbv beta. intros _ ? H.
  rewrite ROR8_byte, ROR8_ROL8 in H by apply uint8_range.
  now apply wp_shim_mb.
Qed.

(** One round of the mix loop: the shared byte and the shadow [tmp]
    agree at its end. *)
Lemma mix_body_ok index d i s cur :
  frame d s cur ->
  wp (mix_body index d i tt) cur
     (fun r cur' => r = inl tt /\ mix_tmp cur' = uint8 (mix_tmp s + 1) /\
                    bytev d (mix_tmp cur') (set_mix_tmp (mix_tmp cur') s) cur').
Proof.
  intros Hf. unfold mix_body.
  assert (H : bytev d (uint8 (mem cur d)) s cur) by (split; [reflexivity | exact Hf]).
  pose proof (bytev_mix_tmp _ _ _ _ H) as Ht.
  apply wp_bind, wp_read. rewrite Ht.
  step wp_store8 H. step wp_EXERCISE_mem H. rewrite uint8_add_l in H.
  pose proof (bytev_mix_tmp _ _ _ _ H) as Ht'.
  apply wp_bind, wp_read. rewrite Ht'.
  step (wp_EXERCISE (mix_tmp s)) H. destruct H as [-> H].
  step wp_load8 H. destruct H as [-> H].
  rewrite Z.eqb_refl. cbn [negb].
  step (wp_write_mix_tmp (uint8 (mix_tmp s + 1))) H.
  apply wp_ret.
  pose proof (bytev_mix_tmp _ _ _ _ H) as Ht''. cbn in Ht''.
  rewrite Ht''. auto.
Qed.

Lemma rest_view s s' : rest s' = rest s -> view s' = view s.
Proof. unfold rest, view. congruence. Qed.

Lemma view_set_mix_tmp t s : view (set_mix_tmp t s) = view s.
Proof. reflexivity. Qed.

Lemma mix_ok index parent l1 s :
  wp (stress_cacheline_mix index parent l1) s
     (fun rc s' => rc = EXIT_SUCCESS /\ view s' = view s /\
                   (forall x, x <> g_cacheline s + index -> mem s' x = mem s x) /\
                   uint8 (mem s' (g_cacheline s + index)) = mix_tmp s').
Proof.
  unfold stress_cacheline_mix.
  apply wp_bind, wp_read.
  set (d := g_cacheline s + index).
  eapply wp_conseq.
  - apply wp_finish.
    apply (wp_for_loop
             (fun k (_ : unit) cur =>
                exists t, frame d (set_mix_tmp t s) cur /\
                          (k <> O -> uint8 (mem cur d) = mix_tmp cur))).
    + exists (mix_tmp s). split; [|congruence]. split; [auto | reflexivity].
    + intros k [] cur _ (t & Hk & _).
      eapply wp_conseq; [apply mix_body_ok; exact Hk|].
      cbv beta. intros r cur' (-> & _ & Hv & Hfr). exists tt.
      split; [reflexivity|]. exists (mix_tmp cur'). auto.
  - cbv beta. intros rc s' (-> & _ & t & [Hm Hr] & Hv).
    repeat split; auto.
    rewrite (rest_view _ _ Hr). reflexivity.
Qed.

(** C5. For every 8-bit [v], ROR8 undoes ROL8, so EXERCISE gives [v + 1]
    modulo 256, on a register and on the shared byte alike; with the
    static [tmp] holding [v], one round of the mix loop ends with the
    shadow and the shared byte equal, and the mix method returns
    EXIT_SUCCESS without reporting anything. *)
Theorem mix_exercise (v : Z) (index : Z) (parent : bool) (l1 : Z) (s : cstate) :
  0 <= v < 256 ->
  let d := g_cacheline s + index in
  let s0 := set_mix_tmp v s in
  ROR8 (ROL8 v) = v /\
  (exists s', EXERCISE v s = Some ((v + 1) mod 256, s')) /\
  (exists s1 s2, store8 d v s = Some (tt, s1) /\
                 EXERCISE_mem d s1 = Some (tt, s2) /\
                 uint8 (mem s2 d) = (v + 1) mod 256) /\
  (exists s', mix_body index d 0 tt s0 = Some (inl tt, s') /\
              mix_tmp s' = (v + 1) mod 256 /\ uint8 (mem s' d) = mix_tmp s') /\
  (exists s', stress_cacheline_mix index parent l1 s0 = Some (EXIT_SUCCESS, s') /\
              failures s' = failures s /\ uint8 (mem s' d) = mix_tmp s').
Proof.
  intros Hv d s0.
  split; [now apply ROR8_ROL8|].
  split.
  { destruct (wp_elim _ _ _ (wp_EXERCISE v d _ s s (bytev_init d s)))
      as (r & s' & Hrun & -> & _). eauto. }
  split.
  { destruct (wp_elim _ _ _ (wp_store8 d v _ s s (bytev_init d s)))
      as ([] & s1 & Hrun1 & H1).
    destruct (wp_elim _ _ _ (wp_EXERCISE_mem d _ s s1 H1))
      as ([] & s2 & Hrun2 & H2 & _).
    exists s1, s2. repeat split; [exact Hrun1 | exact Hrun2 |].
    rewrite uint8_add_l in H2. exact H2. }
  split.
  { destruct (wp_elim _ _ _ (mix_body_ok index d 0 s0 s0 (frame_refl d s0)))
      as (r & s' & Hrun & -> & Ht & Hb & _).
    exists s'. repeat split; [exact Hrun | exact Ht | exact Hb]. }
  destruct (wp_elim _ _ _ (mix_ok index parent l1 s0))
    as (rc & s' & Hrun & -> & Hview & _ & Hb).
  exists s'. repeat split; [exact Hrun | | exact Hb].
  unfold view in Hview. cbn in Hview. congruence.
Qed.

(** The theorem at the value [tmp] starts with, 0xa5. *)
Lemma mix_exercise_witness :
  0 <= 165 < 256 /\
  ROR8 (ROL8 165) = 165 /\
  exists s', stress_cacheline_mix 2 true 64
               (set_mix_tmp 165 (boot 4096 64 (fun _ => true)))
             = Some (EXIT_SUCCESS, s') /\
             failures s' = [].
Proof.
  split; [lia|].
  destruct (mix_exercise 165 2 true 64 (boot 4096 64 (fun _ => true)) ltac:(lia))
    as (H1 & _ & _ & _ & s' & H2 & H3 & _).
  split; [exact H1|]. exists s'. split; [exact H2 | exact H3].
Defined.

(** *** The rdfwd64 and rdrev64 methods *)

Lemma quiet_refl cur : quiet cur cur.
Proof. split; reflexivity. Qed.

Lemma quiet_trans a b c : quiet a b -> quiet b c -> quiet a c.
Proof. intros [A1 A2] [B1 B2]. split; congruence. Qed.

Lemma quiet_bytev d v s cur cur' :
  bytev d v s cur -> quiet cur cur' -> bytev d v s cur'.
Proof.
  intros (H1 & H2 & H3) [Q1 Q2]. unfold bytev, frame. rewrite Q1.
  repeat split; auto. congruence.
Qed.

Lemma wp_loadw_quiet w a cur : wp (loadw w a) cur (fun _ => quiet cur).
Proof. unfold wp, loadw; cbn. split; reflexivity. Qed.

Lemma wp_shim_mb_quiet cur : wp shim_mb cur (fun _ => quiet cur).
Proof. unfold wp, shim_mb; cbn. split; reflexivity. Qed.

(** One 8-byte read and its barrier. *)
Lemma wp_read64 (k : M unit) a cur (Q : unit -> cstate -> Prop) :
  (forall cur', quiet cur cur' -> wp k cur' Q) ->
  wp (bind (loadw 8 a) (fun _ => bind shim_mb (fun _ => k))) cur Q.
Proof.
  intros H. apply wp_bind.
  eapply wp_conseq; [apply wp_loadw_quiet|]. cbv beta. intros _ c1 H1.
  apply wp_bind.
  eapply wp_conseq; [apply wp_shim_mb_quiet|]. cbv beta. intros _ c2 H2.
  apply H. eapply quiet_trans; eassumption.
Qed.

(** The backward read loop returns, given fuel for its iterations, and
    writes nothing. *)
Lemma rdrev64_reads_quiet fuel :
  forall aligned j cur,
  j < 8 * Z.of_nat fuel ->
  wp (rdrev64_reads fuel aligned j) cur (fun _ => quiet cur).
Proof.
  induction fuel as [|fuel IH]; intros aligned j cur Hj; cbn [rdrev64_reads].
  - destruct (0 <=? j) eqn:E; [apply Z.leb_le in E; lia|].
    apply wp_ret, quiet_refl.
  - destruct (0 <=? j) eqn:E; [|apply wp_ret, quiet_refl].
    apply wp_read64. intros cur' Hq.
    eapply wp_conseq; [apply IH; lia|].
    cbv beta. intros _ cur'' Hq'. eapply quiet_trans; eassumption.
Qed.

(** So does the forward one, when [j + 8] cannot wrap before [j]
    reaches [cacheline_size]. *)
Lemma rdfwd64_reads_quiet fuel :
  forall aligned cacheline_size j cur,
  0 <= j ->
  cacheline_size <= 2 ^ 64 - 8 ->
  cacheline_size - j <= 8 * Z.of_nat fuel ->
  wp (rdfwd64_reads fuel aligned cacheline_size j) cur (fun _ => quiet cur).
Proof.
  induction fuel as [|fuel IH]; intros aligned cs j cur Hj Hcs Hfuel;
    cbn [rdfwd64_reads].
  - destruct (j <? cs) eqn:E; [apply Z.ltb_lt in E; lia|].
    apply wp_ret, quiet_refl.
  - destruct (j <? cs) eqn:E; [|apply wp_ret, quiet_refl].
    apply Z.ltb_lt in E.
    apply wp_read64. intros cur' Hq.
    assert (Hw : size_t (j + 8) = j + 8).
    { unfold size_t. apply Z.mod_small. lia. }
    rewrite Hw.
    eapply wp_conseq; [apply IH; lia|].
    cbv beta. intros _ cur'' Hq'. eapply quiet_trans; eassumption.
Qed.

Lemma ssize_t_le z : 0 <= z -> ssize_t z <= z.
Proof.
  intros Hz. unfold ssize_t.
  pose proof (Z.mod_le (z + 2 ^ 63) (2 ^ 64)) as H. lia.
Qed.

(** One batch of either method: the byte is incremented once, the reads
    leave memory as it is, the check passes. *)
Lemma rdrev64_body_ok fuel index d cs aligned i v s cur :
  0 <= cs <= 8 * Z.of_nat fuel ->
  bytev d v s cur ->
  wp (rdrev64_body fuel index d cs aligned i tt) cur
     (fun r cur' => r = inl tt /\ bytev d (uint8 (v + 1)) s cur').
Proof.
  intros Hcs H. unfold rdrev64_body.
  step wp_inc8 H. step wp_load8 H. destruct H as [-> H].
  apply wp_bind.
  eapply wp_conseq.
  { apply rdrev64_reads_quiet. pose proof (ssize_t_le cs). lia. }
  cbv beta. intros _ cur' Hq.
  pose proof (quiet_bytev _ _ _ _ _ H Hq) as H'.
  now apply wp_verify'.
Qed.

Lemma rdfwd64_body_ok fuel index d cs aligned i v s cur :
  0 <= cs <= 8 * Z.of_nat fuel ->
  cs <= 2 ^ 64 - 8 ->
  bytev d v s cur ->
  wp (rdfwd64_body fuel index d cs aligned i tt) cur
     (fun r cur' => r = inl tt /\ bytev d (uint8 (v + 1)) s cur').
Proof.
  intros Hcs Hmax H. unfold rdfwd64_body.
  step wp_inc8 H. step wp_load8 H. destruct H as [-> H].
  apply wp_bind.
  eapply wp_conseq.
  { apply rdfwd64_reads_quiet; lia. }
  cbv beta. intros _ cur' Hq.
  pose proof (quiet_bytev _ _ _ _ _ H Hq) as H'.
  now apply wp_verify'.
Qed.

(** A loop whose every round keeps a [bytev] fact, the value free. *)
Lemma wp_rounds {L} (body : Z -> L -> M (L + Z)) d s n l cur :
  (exists v, bytev d v s cur) ->
  (forall i l v cur, bytev d v s cur ->
     wp (body i l) cur (fun r cur' => exists l' v', r = inl l' /\ bytev d v' s cur')) ->
  wp (for_loop n 0 body l) cur
     (fun r cur' => exists l', r = inl l' /\ exists v, bytev d v s cur').
Proof.
  intros H0 Hbody.
  apply (wp_for_loop (fun _ _ cur => exists v, bytev d v s cur)); [exact H0|].
  intros k l0 c _ [v Hv].
  eapply wp_conseq; [apply (Hbody _ _ _ _ Hv)|].
  cbv beta. intros r cur' (l' & v' & -> & Hb). eauto.
Qed.

Lemma bytev_view d v s cur : bytev d v s cur -> view cur = view s.
Proof. intros (_ & _ & H). now apply rest_view. Qed.

Lemma rdrev64_ok fuel index parent l1 s :
  0 <= g_cacheline_size s <= 8 * Z.of_nat fuel ->
  wp (stress_cacheline_rdrev64 fuel index parent l1) s
     (fun rc s' => rc = EXIT_SUCCESS /\ frame (g_cacheline s + index) s s').
Proof.
  intros Hcs. unfold stress_cacheline_rdrev64.
  apply wp_bind, wp_read. apply wp_bind, wp_read.
  eapply wp_conseq.
  - apply wp_finish. apply (wp_rounds _ (g_cacheline s + index) s).
    + eexists. apply bytev_init.
    + intros i [] v cur Hv.
      eapply wp_conseq; [apply rdrev64_body_ok; [exact Hcs | exact Hv]|].
      cbv beta. intros r cur' [-> Hb]. eauto.
  - cbv beta. intros rc s' (-> & _ & v & _ & Hf). auto.
Qed.

Lemma rdfwd64_ok fuel index parent l1 s :
  0 <= g_cacheline_size s <= 8 * Z.of_nat fuel ->
  g_cacheline_size s <= 2 ^ 64 - 8 ->
  wp (stress_cacheline_rdfwd64 fuel index parent l1) s
     (fun rc s' => rc = EXIT_SUCCESS /\ frame (g_cacheline s + index) s s').
Proof.
  intros Hcs Hmax. unfold stress_cacheline_rdfwd64.
  apply wp_bind, wp_read. apply wp_bind, wp_read.
  eapply wp_conseq.
  - apply wp_finish. apply (wp_rounds _ (g_cacheline s + index) s).
    + eexists. apply bytev_init.
    + intros i [] v cur Hv.
      eapply wp_conseq; [apply rdfwd64_body_ok; [exact Hcs | exact Hmax | exact Hv]|].
      cbv beta. intros r cur' [-> Hb]. eauto.
  - cbv beta. intros rc s' (-> & _ & v & _ & Hf). auto.
Qed.

(** *** Every method passes its checks under single-process execution *)

Lemma adjacent_ok index parent l1 s :
  wp (stress_cacheline_adjacent index parent l1) s
     (fun rc s' => rc = EXIT_SUCCESS /\ frame (g_cacheline s + index) s s').
Proof.
  unfold stress_cacheline_adjacent.
  eapply wp_conseq.
  - apply wp_finish.
    eapply wp_conseq; [apply adjacent_groups_ok|].
    cbv beta. intros r s' (v & -> & _ & Hb). exists v. split; [reflexivity | exact Hb].
  - cbv beta. intros rc s' (-> & v & _ & Hf). auto.
Qed.

Lemma inc_body_ok index d i v s cur :
  bytev d v s cur ->
  wp (inc_body index d i v) cur
     (fun r cur' => r = inl (uint8 (v + 7)) /\ bytev d (uint8 (v + 7)) s cur').
Proof.
  intros H. unfold inc_body.
  do 7 (step wp_inc8 H; step wp_shim_mb H).
  rewrite uint8_add7 in H.
  now apply wp_verify.
Qed.

Lemma atomicinc_body_ok index d i v s cur :
  bytev d v s cur ->
  wp (atomicinc_body index d i v) cur
     (fun r cur' => r = inl (uint8 (v + 7)) /\ bytev d (uint8 (v + 7)) s cur').
Proof.
  intros H. unfold atomicinc_body.
  do 7 (step wp_atomic_inc H).
  rewrite uint8_add7 in H.
  now apply wp_verify.
Qed.

Lemma bytev_byte d v s cur : bytev d v s cur -> uint8 v = v.
Proof. intros [<- _]. apply uint8_idem. Qed.

Lemma rdwr_step_ok d v s cur :
  bytev d v s cur -> wp (rdwr_step d) cur (fun _ => bytev d v s).
Proof.
  intros H. unfold rdwr_step.
  pose proof (bytev_byte _ _ _ _ H) as Hv.
  step wp_load8 H. destruct H as [_ H].
  apply wp_bind. step wp_load8 H. destruct H as [-> H].
  eapply wp_conseq; [eapply wp_store8; exact H|]. clear H.
  cbv beta. intros _ ? H. rewrite Hv in H.
  now apply wp_shim_mb.
Qed.

Lemma rdwr_body_ok index d i v s cur :
  bytev d v s cur ->
  wp (rdwr_body index d i v) cur (fun r cur' => r = inl v /\ bytev d v s cur').
Proof.
  intros H. unfold rdwr_body.
  do 16 (step rdwr_step_ok H).
  now apply wp_verify.
Qed.

Lemma copy_step_ok (k : M (unit + Z)) d adj v s cur (Q : unit + Z -> cstate -> Prop) :
  bytev d v s cur ->
  (forall v' cur', bytev d v' s cur' -> wp k cur' Q) ->
  wp (bind (bind (load8 adj) (fun x => store8 d x)) (fun _ => k)) cur Q.
Proof.
  intros H Hk. apply wp_bind.
  step wp_load8_other H. destruct H as [-> H].
  eapply wp_conseq; [eapply wp_store8; exact H|].
  cbv beta. intros _ cur' H'. eapply Hk, H'.
Qed.

Lemma copy_body_ok index d adj i v s cur :
  bytev d v s cur ->
  wp (copy_body index d adj i tt) cur
     (fun r cur' => r = inl tt /\ exists v', bytev d v' s cur').
Proof.
  intros H. unfold copy_body.
  do 8 (eapply copy_step_ok; [exact H|]; clear H v cur; intros v cur H).
  step wp_load8 H. destruct H as [-> H].
  eapply wp_conseq; [apply wp_verify; exact H|].
  cbv beta. intros r cur' [-> Hb]. eauto.
Qed.

Lemma bits_body_ok index d i v s cur :
  bytev d v s cur ->
  wp (bits_body index d i tt) cur
     (fun r cur' => r = inl tt /\ exists v', bytev d v' s cur').
Proof.
  intros H. unfold bits_body.
  step wp_load8 H. destruct H as [_ H].
  step wp_store8 H. rewrite uint8_idem in H.
  step wp_shim_mb H.
  step wp_load8 H. destruct H as [-> H].
  rewrite Z.eqb_refl. cbn [negb].
  step wp_store8 H. rewrite uint8_idem in H.
  step wp_shim_mb H.
  eapply wp_conseq; [apply wp_verify; exact H|].
  cbv beta. intros r' cur' [-> Hb]. eauto.
Qed.

Lemma rdints_body_ok have_int128 index d i v s cur :
  bytev d v s cur ->
  wp (rdints_body have_int128 index d i tt) cur
     (fun r cur' => r = inl tt /\ bytev d (uint8 (v + 1)) s cur').
Proof.
  intros H. unfold rdints_body. cbv zeta.
  step wp_inc8 H. step wp_load8 H. destruct H as [-> H].
  step wp_shim_mb H.
  do 3 (step wp_loadw H; step wp_shim_mb H).
  apply wp_bind.
  destruct have_int128.
  - step wp_loadw H.
    eapply wp_conseq; [apply wp_shim_mb; exact H|].
    cbv beta. intros _ cur' H'. now apply wp_verify'.
  - apply wp_ret. now apply wp_verify'.
Qed.

(** A method made of a loop of batches that each keep the frame. *)
Ltac method_ok body_ok :=
  apply wp_bind, wp_read;
  eapply wp_conseq;
  [ apply wp_finish; eapply wp_rounds;
    [ eexists; apply bytev_init
    | let H := fresh "H" in
      intros ? [] ? ? H;
      eapply wp_conseq; [eapply body_ok; exact H|];
      let Hb := fresh "Hb" in
      cbv beta; intros ? ? Hb;
      first [ destruct Hb as [-> Hb]; eexists _, _; split; [reflexivity | exact Hb]
            | destruct Hb as (-> & ? & Hb); eexists _, _; split; [reflexivity | exact Hb] ] ]
  | cbv beta; intros ? ? (-> & _ & ? & _ & ?); auto ].

Lemma copy_ok index parent l1 s :
  wp (stress_cacheline_copy index parent l1) s
     (fun rc s' => rc = EXIT_SUCCESS /\ frame (g_cacheline s + index) s s').
Proof.
  unfold stress_cacheline_copy. cbv zeta. method_ok copy_body_ok.
Qed.

Lemma bits_ok index parent l1 s :
  wp (stress_cacheline_bits index parent l1) s
     (fun rc s' => rc = EXIT_SUCCESS /\ frame (g_cacheline s + index) s s').
Proof.
  unfold stress_cacheline_bits. cbv zeta. method_ok bits_body_ok.
Qed.

Lemma rdints_ok have_int128 index parent l1 s :
  wp (stress_cacheline_rdints have_int128 index parent l1) s
     (fun rc s' => rc = EXIT_SUCCESS /\ frame (g_cacheline s + index) s s').
Proof.
  unfold stress_cacheline_rdints. cbv zeta. method_ok rdints_body_ok.
Qed.

(** A method whose loop carries the expected value [val8]. *)
Lemma wp_rounds_val (body : Z -> Z -> M (Z + Z)) d s n cur v :
  bytev d v s cur ->
  (forall i v cur, bytev d v s cur ->
     wp (body i v) cur (fun r cur' => exists v', r = inl v' /\ bytev d v' s cur')) ->
  wp (for_loop n 0 body v) cur
     (fun r cur' => exists v', r = inl v' /\ bytev d v' s cur').
Proof.
  intros H0 Hbody.
  apply (wp_for_loop (fun _ v cur => bytev d v s cur)); [exact H0|].
  intros k v0 c _ Hv. apply (Hbody _ _ _ Hv).
Qed.

Ltac method_val_ok body_ok :=
  apply wp_bind, wp_read;
  let H := fresh "H" in
  match goal with
  | |- wp (bind (load8 ?d) _) ?s _ => pose proof (bytev_init d s) as H
  end;
  step wp_load8 H; destruct H as [-> H];
  eapply wp_conseq;
  [ apply wp_finish; eapply wp_rounds_val;
    [ exact H
    | let H' := fresh "H" in
      intros ? ? ? H';
      eapply wp_conseq; [eapply body_ok; exact H'|];
      cbv beta; intros ? ? [-> ?]; eauto ]
  | cbv beta; intros ? ? (-> & ? & _ & ?); auto ].

Lemma inc_ok index parent l1 s :
  wp (stress_cacheline_inc index parent l1) s
     (fun rc s' => rc = EXIT_SUCCESS /\ frame (g_cacheline s + index) s s').
Proof.
  unfold stress_cacheline_inc. cbv zeta. method_val_ok inc_body_ok.
Qed.

Lemma atomicinc_ok index parent l1 s :
  wp (stress_cacheline_atomicinc index parent l1) s
     (fun rc s' => rc = EXIT_SUCCESS /\ frame (g_cacheline s + index) s s').
Proof.
  unfold stress_cacheline_atomicinc. cbv zeta. method_val_ok atomicinc_body_ok.
Qed.

Lemma rdwr_ok index parent l1 s :
  wp (stress_cacheline_rdwr index parent l1) s
     (fun rc s' => rc = EXIT_SUCCESS /\ frame (g_cacheline s + index) s s').
Proof.
  unfold stress_cacheline_rdwr. cbv zeta. method_val_ok rdwr_body_ok.
Qed.

(** *** The "all" method *)

Section AllLoop.

Variable methods : list stress_cacheline_method_t.
Variable invoke : stress_cacheline_func -> Z -> bool -> Z -> M Z.
Variables (index : Z) (parent : bool) (l1 : Z).

(** The entries after the first, called on a shared region of a good
    size, return; they neither poll [keep_stressing] nor touch the logs
    of the "all" method, and they leave the size of the region alone. *)
Variable good : Z -> Prop.
Hypothesis invoke_ok :
  forall j me s,
    (1 <= j)%nat -> methods !! j = Some me -> good (g_cacheline_size s) ->
    exists rc s',
      invoke (func me) index parent l1 s = Some (rc, s') /\
      dview s' = dview s /\ g_cacheline_size s' = g_cacheline_size s.

Lemma all_loop_outcome k :
  forall i s,
  (1 <= i)%nat ->
  good (g_cacheline_size s) ->
  (length methods <= i + k)%nat ->
  exists rc s',
    all_loop methods invoke k i index parent l1 s = Some (rc, s') /\
    ks s' = ks s /\
    all_outcome (length methods) i s rc s'.
Proof.
  induction k as [|k IH]; intros i s Hi1 Hgood Hlen.
  - (* no entry left: [i] is past the table *)
    assert (Hnone : methods !! i = None) by (apply lookup_ge_None; lia).
    cbn [all_loop]. unfold bind, keep_stressing.
    destruct (ks s (polls s)) eqn:Eks; rewrite ?Hnone; cbn.
    + do 2 eexists. split; [reflexivity|]. split; [reflexivity|].
      exists O, []. cbn. repeat split; auto; try lia.
      left. repeat split; auto. lia.
    + do 2 eexists. split; [reflexivity|]. split; [reflexivity|].
      exists O, []. cbn. repeat split; auto; try lia.
      left. repeat split; auto. intros _. rewrite Nat.add_0_r. exact Eks.
  - cbn [all_loop]. unfold bind at 1. unfold keep_stressing at 1.
    destruct (ks s (polls s)) eqn:Eks.
    2:{ do 2 eexists. split; [reflexivity|]. split; [reflexivity|].
        exists O, []. cbn. repeat split; auto; try lia.
        left. repeat split; auto. intros _. rewrite Nat.add_0_r. exact Eks. }
    destruct (methods !! i) as [me|] eqn:Eme.
    2:{ do 2 eexists. split; [reflexivity|]. split; [reflexivity|].
        exists O, []. cbn. repeat split; auto; try lia.
        left. repeat split; auto.
        apply lookup_ge_None in Eme. lia. }
    pose proof (lookup_lt_Some _ _ _ Eme) as Hi.
    unfold bind at 1. unfold note_call at 1.
    unfold bind at 1.
    destruct (invoke_ok i me (log_call i (set_polls (S (polls s)) s)) Hi1 Eme Hgood)
      as (rc1 & s2 & Hinv & Hdv & Hsize).
    rewrite Hinv.
    unfold dview in Hdv. cbn in Hdv, Hsize.
    injection Hdv as Hks Hpolls Hcalls Hrets.
    unfold bind at 1. unfold note_return at 1.
    destruct (rc1 =? EXIT_SUCCESS) eqn:Erc; cbn [negb].
    + apply Z.eqb_eq in Erc. subst rc1.
      destruct (IH (S i) (log_return EXIT_SUCCESS s2) ltac:(lia)
                  ltac:(cbn; rewrite Hsize; exact Hgood) ltac:(lia))
        as (rc & s' & Hrun & Hks' & m & rets & Hc & Hr & Hl & Hm & Hbefore & Hend).
      exists rc, s'. split; [exact Hrun|].
      cbn in Hks', Hc, Hr, Hbefore, Hend.
      split; [congruence|].
      exists (S m), (rets ++ [EXIT_SUCCESS]).
      repeat split.
      * rewrite Hc, Hcalls. cbn [seq rev]. rewrite <- app_assoc. reflexivity.
      * rewrite Hr, Hrets, <- app_assoc. reflexivity.
      * rewrite length_app, Hl. cbn. lia.
      * left. lia.
      * intros j Hj. destruct j as [|j]; [rewrite Nat.add_0_r; exact Eks|].
        specialize (Hbefore j ltac:(lia)).
        rewrite Hks, Hpolls in Hbefore.
        replace (polls s + S j)%nat with (S (polls s) + j)%nat by lia. exact Hbefore.
      * destruct Hend as [(-> & Hall & Hstop) | (Hne & rets' & -> & Hall)].
        -- left. repeat split; auto.
           ++ apply Forall_app. split; [exact Hall | repeat constructor].
           ++ intros Hlt. rewrite Hks, Hpolls in Hstop.
              replace (polls s + S m)%nat with (S (polls s) + m)%nat by lia.
              apply Hstop. lia.
        -- right. split; [exact Hne|].
           exists (rets' ++ [EXIT_SUCCESS]). split; [reflexivity|].
           apply Forall_app. split; [exact Hall | repeat constructor].
    + apply Z.eqb_neq in Erc.
      exists rc1, (log_return rc1 s2). split; [reflexivity|].
      split; [exact Hks|].
      exists 1%nat, [rc1]. cbn.
      split; [now rewrite Hcalls|].
      split; [now rewrite Hrets|].
      split; [reflexivity|].
      split; [left; lia|].
      split.
      * intros j Hj. assert (j = O) by lia. subst j.
        rewrite Nat.add_0_r. exact Eks.
      * right. split; [exact Erc|]. exists []. auto.
Qed.

Lemma all_with_outcome s :
  good (g_cacheline_size s) ->
  exists rc s',
    stress_cacheline_all_with methods invoke index parent l1 s = Some (rc, s') /\
    all_outcome (length methods) 1 s rc s'.
Proof.
  intros Hgood.
  destruct (all_loop_outcome (length methods) 1 s ltac:(lia) Hgood ltac:(lia))
    as (rc & s' & Hrun & _ & Hout).
  exists rc, s'. split; [exact Hrun | exact Hout].
Qed.

End AllLoop.

(** *** The registry as built: no entry after the first is "all" *)

Lemma cacheline_methods_length a : (10 <= length (cacheline_methods a))%nat.
Proof. destruct a; cbn; lia. Qed.

Lemma cacheline_methods_sub a j me :
  (1 <= j)%nat -> cacheline_methods a !! j = Some me -> func me <> f_all.
Proof.
  intros Hj Hme. destruct j as [|j]; [lia|]. clear Hj.
  destruct a; cbn in Hme;
    repeat (destruct j as [|j]; cbn in Hme;
            [injection Hme as <-; discriminate|]);
    discriminate.
Qed.

(** A routine other than "all", called through its pointer, returns
    EXIT_SUCCESS under single-process execution. *)
Lemma call_sub_ok a b fuel f index parent l1 s :
  f <> f_all ->
  0 <= g_cacheline_size s <= 8 * Z.of_nat fuel ->
  g_cacheline_size s <= 2 ^ 64 - 8 ->
  wp (call a b (S fuel) f index parent l1) s
     (fun rc s' => rc = EXIT_SUCCESS /\ view s' = view s).
Proof.
  intros Hf Hcs Hmax.
  assert (Hfr : forall d rc s', rc = EXIT_SUCCESS /\ frame d s s' ->
                                rc = EXIT_SUCCESS /\ view s' = view s).
  { intros d rc s' [-> [_ Hr]]. split; [reflexivity | now apply rest_view]. }
  destruct f; [contradiction Hf; reflexivity | ..]; cbn [call].
  - eapply wp_conseq; [apply adjacent_ok | apply Hfr].
  - eapply wp_conseq; [apply atomicinc_ok | apply Hfr].
  - eapply wp_conseq; [apply bits_ok | apply Hfr].
  - eapply wp_conseq; [apply copy_ok | apply Hfr].
  - eapply wp_conseq; [apply inc_ok | apply Hfr].
  - eapply wp_conseq; [apply mix_ok|].
    cbv beta. intros rc s' (-> & Hv & _). auto.
  - eapply wp_conseq; [apply rdfwd64_ok; assumption | apply Hfr].
  - eapply wp_conseq; [apply rdints_ok | apply Hfr].
  - eapply wp_conseq; [apply rdrev64_ok; assumption | apply Hfr].
  - eapply wp_conseq; [apply rdwr_ok | apply Hfr].
Qed.

Lemma view_dview s s' : view s' = view s -> dview s' = dview s.
Proof. unfold view, dview. congruence. Qed.

Lemma view_size s s' : view s' = view s -> g_cacheline_size s' = g_cacheline_size s.
Proof. unfold view. congruence. Qed.

(** The "all" method of the registry as built returns, having gone once
    through a first part of the table from index 1 on. *)
Lemma cacheline_all_once a b fuel index parent l1 s :
  0 <= g_cacheline_size s <= 8 * Z.of_nat fuel ->
  g_cacheline_size s <= 2 ^ 64 - 8 ->
  exists rc s',
    stress_cacheline_all a b (S (S fuel)) index parent l1 s = Some (rc, s') /\
    all_outcome (length (cacheline_methods a)) 1 s rc s'.
Proof.
  intros Hcs Hmax.
  unfold stress_cacheline_all. cbn [call].
  apply (all_with_outcome (cacheline_methods a) (call a b (S fuel)) index parent l1
           (fun cs => 0 <= cs <= 8 * Z.of_nat fuel /\ cs <= 2 ^ 64 - 8)); [|auto].
  intros j me s0 Hj Hme [Hcs0 Hmax0].
  destruct (wp_elim _ _ _ (call_sub_ok a b fuel (func me) index parent l1 s0
                             (cacheline_methods_sub a j me Hj Hme) Hcs0 Hmax0))
    as (rc & s' & Hrun & _ & Hv).
  exists rc, s'. split; [exact Hrun|]. split; [now apply view_dview | now apply view_size].
Qed.

End CachelineFacts.

Module MisalignedFacts.
Import Misaligned.

Lemma shape_alter f i s :
  (forall m, name (f m) = name m /\ func (f m) = func m) ->
  map (fun m => (name m, func m)) (alter f i (methods s)) = shape s.
Proof.
  intros Hf. unfold shape. generalize (methods s) as l. revert i.
  induction i as [|i IH]; intros [|m l]; cbn; auto.
  - destruct (Hf m) as [-> ->]. reflexivity.
  - f_equal. apply IH.
Qed.

Lemma shape_disable i s : shape (disable i s) = shape s.
Proof. apply shape_alter. intros m. split; reflexivity. Qed.

Lemma shape_mark_exercised i s : shape (mark_exercised i s) = shape s.
Proof. apply shape_alter. intros m. split; reflexivity. Qed.

Lemma shape_lookup s j m :
  methods s !! j = Some m -> shape s !! j = Some (name m, func m).
Proof. intros H. unfold shape. rewrite list_lookup_fmap, H. reflexivity. Qed.

Lemma shape_length s : length (shape s) = length (methods s).
Proof. unfold shape. apply length_map. Qed.

Lemma call_all depth s :
  call (S depth) f_all s = stress_misaligned_all_with (call depth) s.
Proof. reflexivity. Qed.

Lemma call_routine depth f s :
  f <> f_all -> call (S depth) f s = run_routine s.
Proof. intros Hf. destruct f; [congruence | reflexivity ..]. Qed.

Section AllLoop.

(** A registry whose entries after the first are routines, not "all". *)
Variable shape0 : list (string * stress_misaligned_func).
Hypothesis subs :
  forall j nf, (1 <= j)%nat -> shape0 !! j = Some nf -> nf.2 <> f_all.

(** The cases of the loop of [stress_misaligned_all]. *)
Variable R : nat -> mstate -> outcome -> Prop.
Hypothesis R_end :
  forall i s, shape s = shape0 -> methods s !! i = None -> R i s (Returned s).
Hypothesis R_skip :
  forall i s info o,
    shape s = shape0 -> (1 <= i)%nat ->
    methods s !! i = Some info -> disabled info = true ->
    R (S i) s o -> R i s o.
Hypothesis R_run :
  forall i s info o,
    shape s = shape0 -> (1 <= i)%nat ->
    methods s !! i = Some info -> disabled info = false ->
    faults s (invocations s) = None ->
    R (S i) (after_run i s) o -> R i s o.
Hypothesis R_trap :
  forall i s info signum,
    shape s = shape0 -> (1 <= i)%nat ->
    methods s !! i = Some info -> disabled info = false ->
    faults s (invocations s) = Some signum ->
    R i s (Jumped (after_trap i signum s)).

Lemma all_loop_cases depth k :
  forall i s,
  (1 <= i)%nat -> shape s = shape0 -> (length shape0 <= i + k)%nat ->
  R i s (all_loop (call (S depth)) k i s).
Proof.
  induction k as [|k IH]; intros i s Hi Hs Hlen.
  - assert (Hnone : methods s !! i = None).
    { apply lookup_ge_None. rewrite <- shape_length, Hs. lia. }
    cbn [all_loop]. rewrite Hnone. now apply R_end.
  - cbn [all_loop]. destruct (methods s !! i) as [info|] eqn:Einfo.
    2:{ now apply R_end. }
    destruct (disabled info) eqn:Edis.
    { eapply R_skip; eauto. apply IH; [lia | exact Hs | lia]. }
    assert (Hf : func info <> f_all).
    { apply (subs i (name info, func info) Hi).
      rewrite <- Hs. now apply shape_lookup. }
    rewrite (call_routine depth _ _ Hf). unfold run_routine. cbn [faults invocations log_call set_current_method].
    destruct (faults s (invocations s)) as [signum|] eqn:Ef.
    + eapply R_trap; eauto.
    + eapply R_run; eauto.
      apply IH; [lia | | lia].
      unfold after_run. cbn. rewrite <- Hs. apply shape_mark_exercised.
Qed.

End AllLoop.







Section Registry.

Variable shape0 : list (string * stress_misaligned_func).
Hypothesis subs :
  forall j nf, (1 <= j)%nat -> shape0 !! j = Some nf -> nf.2 <> f_all.

Section Untouched.

(** A routine entry that is disabled. *)
Variable i0 : nat.
Variable info0 : stress_misaligned_method_info_t.
Hypothesis i0_sub : (1 <= i0)%nat.
Hypothesis info0_disabled : disabled info0 = true.






End Untouched.

End Registry.

(** *** The registry as built *)

Lemma registry_subs a b j nf :
  (1 <= j)%nat -> registry_shape a b !! j = Some nf -> nf.2 <> f_all.
Proof.
  intros Hj Hnf. destruct j as [|j]; [lia|]. clear Hj.
  destruct a, b; cbn in Hnf;
    repeat (destruct j as [|j]; cbn in Hnf;
            [injection Hnf as <-; discriminate|]);
    discriminate.
Qed.

Lemma registry_NoDup a b : NoDup (map fst (registry_shape a b)).
Proof. destruct a, b; apply (bool_decide_unpack _); vm_compute; reflexivity. Qed.

Lemma registry_length a b : (10 <= length (registry_shape a b))%nat.
Proof. destruct a, b; cbn; lia. Qed.

Lemma initial_shape a b faults ks : shape (initial a b faults ks) = registry_shape a b.
Proof. reflexivity. Qed.



(** *** When every routine is disabled *)

Lemma forallb_lookup {A} (p : A -> bool) (l : list A) j x :
  forallb p l = true -> l !! j = Some x -> p x = true.
Proof.
  intros H Hx. apply (proj1 (forallb_forall p l) H).
  apply list_elem_of_In, list_elem_of_lookup. eauto.
Qed.

Lemma all_loop_all_disabled invoke k :
  forall i s,
  (1 <= i)%nat ->
  forallb disabled (tail (methods s)) = true ->
  (length (methods s) <= i + k)%nat ->
  all_loop invoke k i s = Returned s.
Proof.
  induction k as [|k IH]; intros i s Hi Hall Hlen; cbn [all_loop].
  - rewrite (proj2 (lookup_ge_None _ _)) by lia. reflexivity.
  - destruct (methods s !! i) as [info|] eqn:Einfo; [|reflexivity].
    assert (Hd : disabled info = true).
    { apply (forallb_lookup disabled (tail (methods s)) (i - 1) info Hall).
      rewrite lookup_tail. replace (S (i - 1)) with i by lia. exact Einfo. }
    rewrite Hd. apply IH; [lia | exact Hall | lia].
Qed.

(** C3 (as amended).  When every routine entry is disabled and no
    routine ever completed a call, the "all" method calls nothing and
    marks its own entry disabled; the dispatch loop then polls
    [keep_stressing] and leaves, with EXIT_NO_RESOURCE from its next
    round if the answer is to go on, with EXIT_SUCCESS if it is to
    stop. *)
Theorem all_disabled_exits (depth fuel : nat) (instance : Z) (s : mstate)
    (m0 : stress_misaligned_method_info_t) :
  methods s !! 0%nat = Some m0 ->
  func m0 = f_all ->
  disabled m0 = false ->
  forallb disabled (tail (methods s)) = true ->
  all_exercised s = false ->
  (exists s1, stress_misaligned_all (S depth) s = Returned s1 /\
              (disabled <$> methods s1 !! 0%nat) = Some true /\
              calls s1 = calls s /\ invocations s1 = invocations s) /\
  (exists s', dispatch (S depth) (S (S fuel)) instance 0 s
              = (Some (if ks s (polls s) then EXIT_NO_RESOURCE else EXIT_SUCCESS), s') /\
              (disabled <$> methods s' !! 0%nat) = Some true /\
              calls s' = calls s /\ invocations s' = invocations s /\
              counter s' = counter s + 1).
Proof.
  intros Hm0 Hf Hen Hall Hex.
  assert (Hall_call : stress_misaligned_all (S depth) s = Returned (disable 0 s)).
  { unfold stress_misaligned_all. rewrite call_all.
    unfold stress_misaligned_all_with.
    rewrite all_loop_all_disabled by (auto; lia).
    rewrite Hex. reflexivity. }
  assert (Hdis0 : (disabled <$> methods (disable 0 s) !! 0%nat) = Some true).
  { cbn. rewrite list_lookup_alter_eq, Hm0. reflexivity. }
  split.
  { exists (disable 0 s). repeat split; [exact Hall_call | exact Hdis0]. }
  cbn [dispatch]. rewrite Hm0, Hen, Hf.
  change (call (S depth) f_all s) with (stress_misaligned_all (S depth) s).
  rewrite Hall_call. unfold keep_stressing. cbv beta iota zeta.
  set (s2 := inc_counter (mark_exercised 0 (disable 0 s))).
  assert (Hks : ks s2 (polls s2) = ks s (polls s)) by reflexivity.
  assert (Hd2 : (disabled <$> methods (next_poll s2) !! 0%nat) = Some true).
  { cbn. rewrite !list_lookup_alter_eq, Hm0. reflexivity. }
  rewrite Hks. destruct (ks s (polls s)).
  - destruct (methods (next_poll s2) !! 0%nat) as [m|] eqn:Em; [|discriminate].
    cbn in Hd2. injection Hd2 as ->.
    exists (next_poll s2). repeat split.
    cbn. rewrite !list_lookup_alter_eq, Hm0. reflexivity.
  - exists (next_poll s2). repeat split. exact Hd2.
Qed.

(** *** The calls one pass of "all" makes *)

Lemma enabled_indices_range l :
  forall i j, In j (enabled_indices i l) -> (i <= j < i + length l)%nat.
Proof.
  induction l as [|m l IH]; intros i j Hj; cbn in *; [tauto|].
  destruct (disabled m).
  - apply IH in Hj. lia.
  - destruct Hj as [<-|Hj]; [lia|]. apply IH in Hj. lia.
Qed.

Lemma enabled_indices_sorted l :
  forall i, StronglySorted lt (enabled_indices i l).
Proof.
  induction l as [|m l IH]; intros i; cbn; [constructor|].
  destruct (disabled m); [apply IH|].
  constructor; [apply IH|].
  apply Forall_forall. intros j Hj. apply list_elem_of_In, enabled_indices_range in Hj. lia.
Qed.

Section Pass.

Variable shape0 : list (string * stress_misaligned_func).
Hypothesis subs :
  forall j nf, (1 <= j)%nat -> shape0 !! j = Some nf -> nf.2 <> f_all.

Lemma all_loop_pass depth k i s :
  (1 <= i)%nat -> shape s = shape0 -> (length shape0 <= i + k)%nat ->
  pass_outcome i s (all_loop (call (S depth)) k i s).
Proof.
  intros Hi Hs Hlen.
  apply (all_loop_cases shape0 subs pass_outcome); try assumption;
    clear i s Hi Hs Hlen; unfold pass_outcome, called.
  - intros i s _ Hnone. apply lookup_ge_None in Hnone.
    rewrite drop_ge by exact Hnone. reflexivity.
  - intros i s info o _ _ Hinfo Hdis IH.
    rewrite (drop_S _ _ _ Hinfo). cbn [enabled_indices]. rewrite Hdis. exact IH.
  - intros i s info o _ _ Hinfo Hen _ IH.
    rewrite (drop_S _ _ _ Hinfo). cbn [enabled_indices]. rewrite Hen.
    assert (Hdrop : drop (S i) (methods (after_run i s)) = drop (S i) (methods s)).
    { unfold after_run. cbn. apply drop_alter_lt. lia. }
    rewrite Hdrop in IH.
    change (calls (after_run i s)) with (i :: calls s) in IH.
    destruct o as [s'|s'|]; [| |exact IH].
    + rewrite IH. cbn [rev]. rewrite <- app_assoc. reflexivity.
    + destruct IH as (pre & c & post & -> & Hc & Hd).
      exists (i :: pre), c, post. split; [reflexivity|]. split; [|exact Hd].
      rewrite Hc. cbn [app rev]. rewrite <- !app_assoc. reflexivity.
  - intros i s info signum _ _ Hinfo Hen _.
    rewrite (drop_S _ _ _ Hinfo). cbn [enabled_indices]. rewrite Hen.
    exists [], i, (enabled_indices (S i) (drop (S i) (methods s))).
    split; [reflexivity|]. split; [reflexivity|].
    unfold after_trap. cbn. rewrite list_lookup_alter_eq, Hinfo. reflexivity.
Qed.

(** One call of "all" on a registry of this shape: it does not diverge
    and makes one pass from index 1 on. *)
Lemma all_pass depth s :
  shape s = shape0 ->
  pass_outcome 1 s (stress_misaligned_all (S (S depth)) s).
Proof.
  intros Hs. unfold stress_misaligned_all. rewrite call_all.
  unfold stress_misaligned_all_with.
  pose proof (all_loop_pass depth (length (methods s)) 1 s ltac:(lia) Hs
                ltac:(rewrite <- Hs, shape_length; lia)) as H.
  destruct (all_loop (call (S depth)) (length (methods s)) 1 s) as [s'|s'|];
    [|exact H|exact H].
  unfold pass_outcome, called in *.
  destruct (negb (all_exercised s')); exact H.
Qed.

End Pass.

(** *** The loops of the routines *)

Lemma while_predec_runs {T} (body : Z -> T -> T) (P : T -> Prop) fuel :
  forall i n t,
  0 < i <= Z.of_nat fuel ->
  P t ->
  (forall j t, P t -> P (body j t)) ->
  exists t', while_predec fuel i body n t = Some (n + (i - 1), t') /\ P t'.
Proof.
  induction fuel as [|fuel IH]; intros i n t Hi Ht Hbody; [lia|].
  cbn [while_predec]. cbv zeta.
  destruct (i - 1 =? 0) eqn:E.
  - apply Z.eqb_eq in E. exists t. split; [|exact Ht].
    rewrite E, Z.add_0_r. reflexivity.
  - apply Z.eqb_neq in E.
    destruct (IH (i - 1) (n + 1) (body (i - 1) t) ltac:(lia) (Hbody _ _ Ht) Hbody)
      as (t' & Hrun & Ht').
    exists t'. split; [|exact Ht'].
    rewrite Hrun. do 2 f_equal. lia.
Qed.

Lemma one_off_at buffer w k :
  In w [2; 4; 8; 16] -> k mod w = 1 ->
  In w [2; 4; 8; 16] /\ (buffer + k - buffer) mod w = 1 /\
  (buffer mod w = 0 -> (buffer + k) mod w = 1).
Proof.
  intros Hw Hk. split; [exact Hw|]. split.
  - replace (buffer + k - buffer) with k by lia. exact Hk.
  - intros Hb.
    assert (w <> 0) by (cbn in Hw; lia).
    rewrite Z.add_mod, Hb, Hk by assumption. cbn in Hw.
    destruct Hw as [<-|[<-|[<-|[<-|[]]]]]; reflexivity.
Qed.

Lemma loop_body_one_off f buffer i : Forall (one_off buffer) (loop_body f buffer i).
Proof.
  destruct f; cbn;
    repeat (constructor; [first [exact I | apply one_off_at; [cbn; tauto | reflexivity]]|]);
    constructor.
Qed.

(** C7, what the code does.  A call of a routine runs its loop body
    65535 times, one time less than MISALIGN_LOOPS: the counter starts
    at 65536 and is decremented before it is tested.  Every access is
    to an address one byte past a multiple of the operand width of 2,
    4, 8 or 16 bytes. *)
Theorem routine_runs_65535_times (f : stress_misaligned_func) (buffer : Z) :
  exists t,
    routine (Z.to_nat MISALIGN_LOOPS) f buffer = Some (65535, t) /\
    65535 <> MISALIGN_LOOPS /\
    Forall (one_off buffer) t.
Proof.
  destruct (while_predec_runs (fun i t => t ++ loop_body f buffer i)
              (Forall (one_off buffer)) (Z.to_nat MISALIGN_LOOPS)
              MISALIGN_LOOPS 0 [] ltac:(unfold MISALIGN_LOOPS; lia) ltac:(constructor))
    as (t & Hrun & Ht).
  { intros j t Ht. apply Forall_app. split; [exact Ht | apply loop_body_one_off]. }
  exists t. split; [exact Hrun|]. split; [discriminate | exact Ht].
Qed.

(** *** The claims at work *)



(** The theorem for a registry all of whose routines are disabled,
    none having completed a call. *)
Lemma all_disabled_exits_witness :
  exists s',
    dispatch 1 2 0 0 (subs_disabled (initial true true always_traps (fun _ => true)))
    = (Some EXIT_NO_RESOURCE, s') /\
    (disabled <$> methods s' !! 0%nat) = Some true /\
    calls s' = [] /\ invocations s' = 0%nat /\ counter s' = 1.
Proof.
  exact (proj2 (all_disabled_exits 0 0 0
                  (subs_disabled (initial true true always_traps (fun _ => true)))
                  (Info "all" f_all false false)
                  eq_refl eq_refl eq_refl eq_refl eq_refl)).
Defined.

(** C3, the claim as stated fails twice.  Every routine traps at each
    call and [keep_stressing] says to stop when first polled: all
    entries end up disabled, "all" among them, and the exit status is
    EXIT_SUCCESS.  The first call of int16rd completes, every later call
    of a routine traps: all routines end up disabled, "all" is never
    marked disabled, the loop goes on as long as [keep_stressing] holds
    (here for 5 rounds that call nothing) and ends with EXIT_SUCCESS. *)
Lemma all_disabled_yet_success :
  (fst (stress_misaligned 2 20 true true 0 0
          (initial true true always_traps (stop_after 0))) = Some EXIT_SUCCESS /\
   forallb disabled
     (methods (snd (stress_misaligned 2 20 true true 0 0
                      (initial true true always_traps (stop_after 0))))) = true) /\
  (fst (stress_misaligned 2 30 true true 0 0
          (initial true true traps_after_first (stop_after 5))) = Some EXIT_SUCCESS /\
   forallb disabled
     (tail (methods (snd (stress_misaligned 2 30 true true 0 0
                            (initial true true traps_after_first (stop_after 5))))))
   = true /\
   (disabled <$> methods (snd (stress_misaligned 2 30 true true 0 0
                                 (initial true true traps_after_first (stop_after 5))))
                 !! 0%nat) = Some false /\
   counter (snd (stress_misaligned 2 30 true true 0 0
                   (initial true true traps_after_first (stop_after 5)))) = 6).
Proof. vm_compute. repeat split. Qed.

End MisalignedFacts.

Module RawsockFacts.
Import Rawsock.

Lemma no_send_app t u : no_send t -> no_send u -> no_send (t ++ u).
Proof. intros Ht Hu d r H. apply in_app_iff in H. destruct H; [eapply Ht | eapply Hu]; eauto. Qed.

Lemma no_send_sends_after_ready total t : no_send t -> sends_after_ready total t.
Proof.
  intros H pre d r post ->. exfalso. apply (H d r), in_app_iff. right. now left.
Qed.

Lemma ready_then_sends total t u :
  no_send t -> In (ReadReady total) t -> sends_after_ready total (t ++ u).
Proof.
  intros Hns Hin pre d r post Heq.
  apply app_eq_app in Heq.
  destruct Heq as (l & [[-> Hl] | [-> Hl]]).
  - destruct l as [|e l].
    + rewrite app_nil_r in Hin. exact Hin.
    + cbn in Hl. injection Hl as <- _.
      exfalso. apply (Hns d r), in_app_iff. right. now left.
  - apply in_app_iff. now left.
Qed.

Section Process.

Variable E : env.
Variable num_instances : Z.

Lemma keep_stressing_spec s :
  fst (keep_stressing E s) = ks E (polls s) /\
  trace (snd (keep_stressing E s)) = trace s ++ [KeepStressing (ks E (polls s))] /\
  polls (snd (keep_stressing E s)) = S (polls s).
Proof. repeat split. Qed.

Lemma read_ready_spec s :
  fst (read_ready E s) = uint32 (ready_at E (reads s)) /\
  trace (snd (read_ready E s))
  = trace s ++ [LockAcquire; ReadReady (uint32 (ready_at E (reads s))); LockRelease] /\
  polls (snd (read_ready E s)) = polls s.
Proof.
  repeat split. unfold read_ready. cbn. rewrite <- !app_assoc. reflexivity.
Qed.

Lemma no_send_cons e t :
  (forall d r, e <> Sendto d r) -> no_send t -> no_send (e :: t).
Proof. intros He Ht d r [H|H]; [eapply He | eapply Ht]; eauto. Qed.

Lemma no_send_nil : no_send [].
Proof. intros d r []. Qed.

Ltac no_send :=
  repeat (apply no_send_cons; [discriminate|]); first [apply no_send_nil | assumption].

(** What the wait loop adds to the trace has no [sendto] in it; the loop
    is left on a read that found the counter equal to the total, or on
    [keep_stressing] answering false. *)
Lemma wait_for_server_spec fuel :
  forall s,
  exists added,
    trace (snd (wait_for_server E num_instances fuel s)) = trace s ++ added /\
    no_send added /\
    (fst (wait_for_server E num_instances fuel s) = Left ->
     In (ReadReady num_instances) added \/
     In (KeepStressing false) added /\
     exists k, polls (snd (wait_for_server E num_instances fuel s)) = S k /\
               ks E k = false).
Proof.
  induction fuel as [|fuel IH]; intros s; cbn [wait_for_server].
  - exists []. cbn. rewrite app_nil_r. repeat split; [no_send | discriminate].
  - destruct (keep_stressing_spec s) as (Hb & Ht1 & Hp1).
    destruct (keep_stressing E s) as [b s1]. cbn [fst snd] in *. subst b.
    destruct (ks E (polls s)) eqn:Eks.
    + destruct (read_ready_spec s1) as (Hv & Ht2 & Hp2).
      destruct (read_ready E s1) as [v s2]. cbn [fst snd] in *. subst v.
      destruct (uint32 (ready_at E (reads s1)) =? num_instances) eqn:Erdy.
      * apply Z.eqb_eq in Erdy. rewrite Erdy in Ht2.
        exists ([KeepStressing true] ++ [LockAcquire; ReadReady num_instances; LockRelease]).
        cbn [fst snd]. rewrite Ht2, Ht1, <- app_assoc.
        repeat split; [no_send|]. intros _. left. cbn. tauto.
      * destruct (IH (emit (Usleep 20000) s2)) as (added & Htr & Hns & Hleft).
        exists ([KeepStressing true] ++
                [LockAcquire; ReadReady (uint32 (ready_at E (reads s1))); LockRelease] ++
                [Usleep 20000] ++ added).
        rewrite Htr. cbn [trace emit]. rewrite Ht2, Ht1, <- !app_assoc.
        repeat split; [cbn; no_send|].
        intros HL. destruct (Hleft HL) as [Hin | [Hin Hstop]].
        -- left. cbn. tauto.
        -- right. split; [cbn; tauto | exact Hstop].
    + exists [KeepStressing false]. cbn [fst snd]. rewrite Ht1, Hp1.
      repeat split; [no_send|]. intros _. right. split; [now left | eauto].
Qed.

(** The send loop only adds to the trace. *)
Lemma send_loop_extends fuel :
  forall s, exists added,
    trace (snd (send_loop E fuel s)) = trace s ++ added.
Proof.
  induction fuel as [|fuel IH]; intros s; cbn [send_loop].
  - exists []. cbn. now rewrite app_nil_r.
  - destruct (keep_stressing_spec s) as (Hb & Ht1 & _).
    destruct (keep_stressing E s) as [b s1]. cbn [fst snd] in *.
    destruct b; [|eexists; exact Ht1].
    rewrite <- Hb in Ht1.
    unfold sendto. cbv beta iota zeta.
    set (s2 := emit _ _).
    assert (Ht2 : exists e, trace s2 = trace s ++ [KeepStressing true; e]).
    { eexists. unfold s2. cbn. rewrite Ht1, <- app_assoc. reflexivity. }
    destruct Ht2 as [e Ht2].
    destruct (sendto_ret E (sends s1) <? 0); [eexists; exact Ht2|].
    destruct (Z.land (pkt_data (inc_pkt_data s2)) 255 =? 0).
    + destruct (keep_stressing_spec (inc_pkt_data s2)) as (_ & Ht3 & _).
      destruct (keep_stressing E (inc_pkt_data s2)) as [b' s3]. cbn [fst snd] in *.
      change (trace (inc_pkt_data s2)) with (trace s2) in Ht3.
      destruct b'; cbn [negb].
      * destruct (IH (emit IoctlOutq s3)) as (added & Htr).
        eexists. rewrite Htr. cbn [trace emit]. rewrite Ht3, Ht2, <- !app_assoc.
        reflexivity.
      * eexists. cbn [snd]. rewrite Ht3, Ht2, <- !app_assoc. reflexivity.
    + destruct (IH (inc_pkt_data s2)) as (added & Htr).
      eexists. rewrite Htr.
      change (trace (inc_pkt_data s2)) with (trace s2).
      rewrite Ht2, <- !app_assoc. reflexivity.
Qed.

(** Entered after [keep_stressing] has answered false, the send loop
    sends nothing, the stop condition being one that stays. *)
Lemma send_loop_stopped fuel s k :
  stays_stopped (ks E) ->
  polls s = S k -> ks E k = false ->
  exists added,
    trace (snd (send_loop E fuel s)) = trace s ++ added /\ no_send added.
Proof.
  intros Hstay Hp Hk. destruct fuel as [|fuel]; cbn [send_loop].
  - exists []. cbn. rewrite app_nil_r. split; [reflexivity | no_send].
  - destruct (keep_stressing_spec s) as (Hb & Ht1 & _).
    destruct (keep_stressing E s) as [b s1]. cbn [fst snd] in *.
    rewrite Hp, (Hstay k Hk) in Hb, Ht1. subst b.
    exists [KeepStressing false]. split; [exact Ht1 | no_send].
Qed.

(** While [keep_stressing] holds and the counter read is not the
    total, the wait loop goes on. *)
Lemma wait_for_server_waits fuel :
  (forall k, ks E k = true) ->
  (forall k, uint32 (ready_at E k) <> num_instances) ->
  forall s, fst (wait_for_server E num_instances fuel s) = Running.
Proof.
  intros Hks Hready. induction fuel as [|fuel IH]; intros s; cbn [wait_for_server].
  - reflexivity.
  - unfold keep_stressing. cbv beta iota zeta. rewrite Hks.
    unfold read_ready. cbv beta iota zeta.
    match goal with
    | |- context [uint32 (ready_at E ?n) =? num_instances] =>
        destruct (Z.eqb_spec (uint32 (ready_at E n)) num_instances) as [Heq|_];
        [exfalso; exact (Hready _ Heq) | apply IH]
    end.
Qed.

Lemma client_sends_after_ready fuel :
  stays_stopped (ks E) ->
  sends_after_ready num_instances (trace (snd (client E num_instances fuel start))).
Proof.
  intros Hstay. unfold client. cbv zeta.
  destruct (socket_fd E <? 0).
  { apply no_send_sends_after_ready. cbn. no_send. }
  set (s1 := emit (Socket (socket_fd E)) start).
  destruct (wait_for_server_spec fuel s1) as (added & Htr & Hns & Hleft).
  assert (Hns1 : no_send (trace s1 ++ added)).
  { apply no_send_app; [cbn; no_send | exact Hns]. }
  destruct (wait_for_server E num_instances fuel s1) as [[|] s2]; cbn [fst snd] in *.
  2:{ apply no_send_sends_after_ready. rewrite Htr. exact Hns1. }
  destruct (Hleft eq_refl) as [Hin | (_ & k & Hp & Hk)].
  - (* the counter was read equal to the total *)
    destruct (send_loop_extends fuel s2) as (added2 & Htr2).
    assert (Hok : forall u, sends_after_ready num_instances (trace s2 ++ u)).
    { intros u. rewrite Htr. apply ready_then_sends; [exact Hns1|].
      apply in_app_iff. now right. }
    destruct (send_loop E fuel s2) as [[|] s3]; cbn [fst snd] in *.
    + cbn [trace emit]. rewrite Htr2, <- !app_assoc. apply Hok.
    + rewrite Htr2. apply Hok.
  - (* the loop was left because the stressor is to stop *)
    destruct (send_loop_stopped fuel s2 k Hstay Hp Hk) as (added2 & Htr2 & Hns2).
    apply no_send_sends_after_ready.
    destruct (send_loop E fuel s2) as [[|] s3]; cbn [fst snd] in *.
    + cbn [trace emit]. rewrite Htr2, Htr, <- !app_assoc.
      repeat apply no_send_app; try assumption; cbn; no_send.
    + rewrite Htr2, Htr. apply no_send_app; assumption.
Qed.

Lemma client_keeps_waiting fuel :
  (forall k, ks E k = true) ->
  (forall k, uint32 (ready_at E k) <> num_instances) ->
  no_send (trace (snd (client E num_instances fuel start))) /\
  fst (client E num_instances fuel start) <> Some EXIT_SUCCESS.
Proof.
  intros Hks Hready. unfold client. cbv zeta.
  destruct (socket_fd E <? 0).
  { split; [cbn; no_send | discriminate]. }
  set (s1 := emit (Socket (socket_fd E)) start).
  destruct (wait_for_server_spec fuel s1) as (added & Htr & Hns & _).
  pose proof (wait_for_server_waits fuel Hks Hready s1) as Hrun.
  destruct (wait_for_server E num_instances fuel s1) as [p s2]; cbn [fst snd] in *.
  subst p. cbn [fst snd]. split; [|discriminate].
  rewrite Htr. apply no_send_app; [cbn; no_send | exact Hns].
Qed.

Lemma recvfrom_spec s :
  exists n errno data s1,
    recvfrom E s = (n, errno, s1) /\
    recvfrom_ret E (recvs s) = (n, errno, data) /\
    trace s1 = trace s ++ [Recvfrom n errno].
Proof.
  unfold recvfrom. destruct (recvfrom_ret E (recvs s)) as [[n errno] data].
  exists n, errno, data. eexists. repeat split.
Qed.

Lemma no_inc_app t u : no_inc t -> no_inc u -> no_inc (t ++ u).
Proof. unfold no_inc. rewrite in_app_iff. tauto. Qed.

Lemma no_inc_cons e t : e <> IncReady -> no_inc t -> no_inc (e :: t).
Proof. unfold no_inc. cbn. intuition. Qed.

Lemma no_inc_nil : no_inc [].
Proof. intros []. Qed.

Ltac no_inc :=
  repeat (apply no_inc_cons; [discriminate|]); first [apply no_inc_nil | assumption].

(** The receive loop does not touch the ready counter. *)
Lemma recv_loop_no_inc fuel :
  forall s, exists added,
    trace (snd (recv_loop E fuel s)) = trace s ++ added /\ no_inc added.
Proof.
  induction fuel as [|fuel IH]; intros s; cbn [recv_loop].
  - exists []. cbn. rewrite app_nil_r. split; [reflexivity | no_inc].
  - destruct (keep_stressing_spec s) as (_ & Ht1 & _).
    destruct (keep_stressing E s) as [b s1]. cbn [fst snd] in *.
    destruct b; [|eexists; split; [exact Ht1 | no_inc]].
    destruct (recvfrom_spec s1) as (n & errno & data & s2 & Hr & _ & Ht2).
    rewrite Hr. rewrite Ht1 in Ht2.
    destruct (n =? 0).
    { eexists. cbn [snd]. rewrite Ht2, <- app_assoc. split; [reflexivity | cbn; no_inc]. }
    destruct (n <? 0).
    { destruct (negb (errno =? EINTR)); cbn [snd trace emit]; eexists;
        rewrite Ht2, <- ?app_assoc; (split; [reflexivity | cbn; no_inc]). }
    destruct (Z.land (pkt_data s2) 255 =? 0).
    + destruct (keep_stressing_spec s2) as (_ & Ht3 & _).
      destruct (keep_stressing E s2) as [b' s3]. cbn [fst snd] in *.
      destruct b'; cbn [negb].
      * destruct (IH (inc_counter (emit IoctlInq s3))) as (added & Htr & Hni).
        eexists. rewrite Htr. cbn [trace emit inc_counter].
        rewrite Ht3, Ht2, <- !app_assoc. split; [reflexivity|].
        cbn. no_inc.
      * eexists. cbn [snd]. rewrite Ht3, Ht2, <- !app_assoc.
        split; [reflexivity | cbn; no_inc].
    + destruct (IH (inc_counter s2)) as (added & Htr & Hni).
      eexists. rewrite Htr. cbn [trace emit inc_counter].
      rewrite Ht2, <- !app_assoc. split; [reflexivity|]. cbn. no_inc.
Qed.

Lemma die_spec pid fd rc s :
  fst (die pid fd rc s) = Some rc /\
  exists added, trace (snd (die pid fd rc s)) = trace s ++ added /\ no_inc added.
Proof.
  split; [reflexivity|]. unfold die. cbv zeta.
  destruct (negb (pid =? 0)), (-1 <? fd); cbn [snd trace emit];
    eexists; rewrite <- ?app_assoc;
    (split; [try reflexivity; symmetry; apply app_nil_r | cbn; no_inc]).
Qed.

(** A receiver that got its socket increments the ready counter once,
    under the lock; one that did not get that far never does. *)
Lemma server_increments fuel pid :
  if (sig_stop_ret E <? 0) || negb (ks E 0) || (socket_fd E <? 0)
  then no_inc (trace (snd (server E fuel pid start)))
  else increments_once (trace (snd (server E fuel pid start))).
Proof.
  unfold server. cbv zeta.
  destruct (sig_stop_ret E <? 0); cbn [orb].
  { destruct (die_spec pid (-1) EXIT_FAILURE start) as (_ & added & -> & Hni).
    exact Hni. }
  unfold keep_stressing. cbv beta iota zeta.
  change (polls start) with O.
  destruct (ks E 0); cbn [negb orb].
  2:{ match goal with
      | |- no_inc (trace (snd (die ?p ?f ?r ?s))) =>
          destruct (die_spec p f r s) as (_ & added & -> & Hni)
      end.
      apply no_inc_app; [cbn; no_inc | exact Hni]. }
  destruct (socket_fd E <? 0).
  { match goal with
    | |- no_inc (trace (snd (die ?p ?f ?r ?s))) =>
        destruct (die_spec p f r s) as (_ & added & -> & Hni)
    end.
    apply no_inc_app; [cbn; no_inc | exact Hni]. }
  match goal with
  | |- context [recv_loop E fuel ?s] =>
      destruct (recv_loop_no_inc fuel s) as (added & Htr & Hni);
      destruct (recv_loop E fuel s) as [[|] s2]
  end; cbn [fst snd] in *.
  - match goal with
    | |- increments_once (trace (snd (die ?p ?f ?r ?s))) =>
        destruct (die_spec p f r s) as (_ & added2 & -> & Hni2)
    end.
    rewrite Htr.
    exists [KeepStressing true; Socket (socket_fd E)], (added ++ added2).
    split; [cbn; reflexivity|].
    split; [cbn; intuition discriminate | now apply no_inc_app].
  - rewrite Htr.
    exists [KeepStressing true; Socket (socket_fd E)], added.
    split; [reflexivity|].
    split; [cbn; intuition discriminate | exact Hni].
Qed.

End Process.

(** C6 (as amended).  The stop condition being one that stays: every
    packet the sender sends comes after a read, under the lock, that
    found the ready counter equal to the instance total; the sender
    leaves its wait loop on such a read or on [keep_stressing] answering
    false, having sent nothing; as long as [keep_stressing] holds and the
    counter read differs from the total, it stays in its wait loop and
    sends nothing, whatever the fuel; and a receiver increments the
    counter once, under the lock, when it has its socket, and never
    otherwise. *)
Theorem sender_waits_for_ready (E : env) (num_instances : Z) (fuel : nat) (pid : Z) :
  stays_stopped (ks E) ->
  sends_after_ready num_instances (trace (snd (client E num_instances fuel start))) /\
  (forall s,
     fst (wait_for_server E num_instances fuel s) = Left ->
     exists added,
       trace (snd (wait_for_server E num_instances fuel s)) = trace s ++ added /\
       no_send added /\
       (In (ReadReady num_instances) added \/ In (KeepStressing false) added)) /\
  ((forall k, ks E k = true) ->
   (forall k, uint32 (ready_at E k) <> num_instances) ->
   no_send (trace (snd (client E num_instances fuel start))) /\
   fst (client E num_instances fuel start) <> Some EXIT_SUCCESS) /\
  (if (sig_stop_ret E <? 0) || negb (ks E 0) || (socket_fd E <? 0)
   then ~ In IncReady (trace (snd (server E fuel pid start)))
   else increments_once (trace (snd (server E fuel pid start)))).
Proof.
  intros Hstay. split; [now apply client_sends_after_ready|].
  split.
  { intros s HL.
    destruct (wait_for_server_spec E num_instances fuel s) as (added & Htr & Hns & Hleft).
    exists added. split; [exact Htr|]. split; [exact Hns|].
    destruct (Hleft HL) as [Hin | [Hin _]]; [now left | now right]. }
  split; [apply client_keeps_waiting|].
  apply server_increments.
Qed.

(** The theorem for a sender among three instances. *)
Lemma sender_waits_for_ready_witness :
  sends_after_ready 3 (trace (snd (client send_env 3 10 start))).
Proof.
  refine (proj1 (sender_waits_for_ready send_env 3 10 1 _)).
  intros n H. change ((n <? 6)%nat = false) in H. change ((S n <? 6)%nat = false).
  apply Nat.ltb_ge in H. apply Nat.ltb_ge. lia.
Defined.

(** C6, the claim as stated fails: told to stop at its first poll, the
    sender leaves its wait loop without having read the ready counter;
    it then sends nothing and exits. *)
Lemma sender_leaves_wait_loop_unready :
  wait_for_server stop_env 3 5 (emit (Socket 3) start)
  = (Left, PState 1 0 0 0 0 0 [Socket 3; KeepStressing false]) /\
  client stop_env 3 5 start
  = (Some EXIT_SUCCESS,
     PState 2 0 0 0 0 0
       [Socket 3; KeepStressing false; KeepStressing false; Close 3; KillParent]).
Proof. vm_compute. split; reflexivity. Qed.

(** C8, what the code does.  On a read of length zero the receiver
    stops without a diagnostic; on a read that returns -1 it stops, with
    a diagnostic unless [errno] is EINTR; in all three cases
    [stress_rawsock] returns EXIT_SUCCESS: the failure of [recvfrom] does
    not reach the exit status. *)
Theorem recvfrom_error_exits_success (errno pid : Z) (fuel : nat) :
  (fst (server (recv_env 0 errno) (S fuel) pid start) = Some EXIT_SUCCESS /\
   ~ reports_failure (trace (snd (server (recv_env 0 errno) (S fuel) pid start)))) /\
  (fst (server (recv_env (-1) EINTR) (S fuel) pid start) = Some EXIT_SUCCESS /\
   ~ reports_failure (trace (snd (server (recv_env (-1) EINTR) (S fuel) pid start)))) /\
  (fst (server (recv_env (-1) errno) (S fuel) pid start) = Some EXIT_SUCCESS /\
   ((errno =? EINTR) = false ->
    In (PrFail "recvfrom failed" errno)
       (trace (snd (server (recv_env (-1) errno) (S fuel) pid start))))) /\
  fst (server (recv_env (-1) 111) 1 1 start) = Some EXIT_SUCCESS /\
  EXIT_SUCCESS <> EXIT_FAILURE.
Proof.
  assert (Hno : forall l, (forall e, In e l -> forall w n, e <> PrFail w n) ->
                          ~ reports_failure l).
  { intros l Hl (w & n & Hin). exact (Hl _ Hin w n eq_refl). }
  split; [|split; [|split; [|split; [reflexivity | discriminate]]]].
  - split; [reflexivity|].
    unfold server, die. cbn. destruct (pid =? 0); cbn;
      apply Hno; cbn; intros e He; intuition (subst; discriminate).
  - split; [reflexivity|].
    unfold server, die. cbn. destruct (pid =? 0); cbn;
      apply Hno; cbn; intros e He; intuition (subst; discriminate).
  - split; [reflexivity|].
    intros Herr. unfold server, die. cbn. rewrite Herr. cbn.
    destruct (pid =? 0); cbn; tauto.
Qed.

End RawsockFacts.

(** ** The "all" methods of the two registries *)
Module Dispatch.

(** C2 (as amended).  A call of "all" invokes the entries after its own
    in table order, each once.  In the cacheline registry it polls
    [keep_stressing] before each entry and stops, returning
    EXIT_SUCCESS, when the answer is to stop; it returns at once the
    first status other than EXIT_SUCCESS that an entry returns, no later
    entry being invoked; it returns EXIT_SUCCESS only if every entry it
    invoked did, and then, [keep_stressing] holding throughout, it has
    invoked every entry.  In the misaligned registry it invokes every
    entry that is not disabled, up to the first that traps. *)
Theorem all_invokes_in_order
    (methods : list Cacheline.stress_cacheline_method_t)
    (invoke : Cacheline.stress_cacheline_func -> Z -> bool -> Z -> Cacheline.M Z)
    (index : Z) (parent : bool) (l1 : Z) (good : Z -> Prop) (s : Cacheline.cstate)
    (a b : bool) (depth : nat) (ms : Misaligned.mstate) :
  (forall j me s,
     (1 <= j)%nat -> methods !! j = Some me ->
     good (Cacheline.g_cacheline_size s) ->
     exists rc s',
       invoke (Cacheline.func me) index parent l1 s = Some (rc, s') /\
       Cacheline.dview s' = Cacheline.dview s /\
       Cacheline.g_cacheline_size s' = Cacheline.g_cacheline_size s) ->
  good (Cacheline.g_cacheline_size s) ->
  Misaligned.shape ms = Misaligned.registry_shape a b ->
  (exists rc s',
     Cacheline.stress_cacheline_all_with methods invoke index parent l1 s
     = Some (rc, s') /\
     Cacheline.all_outcome (length methods) 1 s rc s' /\
     (rc = EXIT_SUCCESS ->
      (forall j, Cacheline.ks s (Cacheline.polls s + j)%nat = true) ->
      Cacheline.calls s' = rev (seq 1 (length methods - 1)) ++ Cacheline.calls s)) /\
  Misaligned.pass_outcome 1 ms (Misaligned.stress_misaligned_all (S (S depth)) ms).
Proof.
  intros Hinvoke Hgood Hshape. split.
  - destruct (CachelineFacts.all_with_outcome methods invoke index parent l1 good
                Hinvoke s Hgood) as (rc & s' & Hrun & Hout).
    exists rc, s'. split; [exact Hrun|]. split; [exact Hout|].
    intros -> Hks.
    destruct Hout as (m & rets & Hc & _ & _ & Hm & _ & Hend).
    destruct Hend as [(_ & _ & Hstop) | (Hne & _)]; [|congruence].
    assert (Hmn : m = (length methods - 1)%nat).
    { destruct (decide (1 + m < length methods)%nat) as [Hlt|Hge].
      - specialize (Hstop Hlt). rewrite Hks in Hstop. discriminate.
      - lia. }
    rewrite Hc, Hmn. reflexivity.
  - apply (MisalignedFacts.all_pass _ (MisalignedFacts.registry_subs a b)).
    exact Hshape.
Qed.

(** The theorem for a call in which copy fails: adjacent, atomicinc,
    bits and copy are invoked, in this order, and no other. *)
Lemma all_invokes_in_order_witness :
  (exists rc s',
     Cacheline.stress_cacheline_all_with (Cacheline.cacheline_methods true)
       Cacheline.copy_fails 2 true 64 (Cacheline.boot 4096 64 (fun _ => true))
     = Some (rc, s') /\
     Cacheline.all_outcome 11 1 (Cacheline.boot 4096 64 (fun _ => true)) rc s' /\
     (rc = EXIT_SUCCESS ->
      (forall j : nat, true = true) ->
      Cacheline.calls s' = rev (seq 1 10) ++ [])) /\
  Misaligned.pass_outcome 1
    (Misaligned.initial true true (fun _ => None) (fun _ => true))
    (Misaligned.stress_misaligned_all 2
       (Misaligned.initial true true (fun _ => None) (fun _ => true))).
Proof.
  apply (all_invokes_in_order (Cacheline.cacheline_methods true) Cacheline.copy_fails
           2 true 64 (fun _ => True) (Cacheline.boot 4096 64 (fun _ => true))
           true true 0 (Misaligned.initial true true (fun _ => None) (fun _ => true))).
  - intros j me s _ _ _. unfold Cacheline.copy_fails.
    destruct (Cacheline.func me); do 2 eexists; repeat split.
  - exact I.
  - reflexivity.
Defined.

(** C2, the claim as stated fails: told to stop at its first poll, the
    "all" method of the cacheline registry returns EXIT_SUCCESS without
    having invoked adjacent, nor any other entry. *)
Lemma all_stops_before_first_entry :
  (fst <$> Cacheline.stress_cacheline_all true true 10 2 true 64
             (Cacheline.boot 4096 64 (fun _ => false))) = Some EXIT_SUCCESS /\
  (Cacheline.calls ∘ snd <$> Cacheline.stress_cacheline_all true true 10 2 true 64
             (Cacheline.boot 4096 64 (fun _ => false))) = Some [] /\
  (Cacheline.name <$> Cacheline.cacheline_methods true !! 1%nat) = Some "adjacent".
Proof. vm_compute. repeat split. Qed.

(** C10.  In both registries a call of "all" returns, calls nested no
    deeper than "all" and the routine it invokes, having invoked some of
    the entries 1, 2, ... in increasing order, each at most once, and
    never the entry at index 0.  For the cacheline registry the fuel
    covers the read loops of rdfwd64 and rdrev64. *)
Theorem all_never_invokes_itself (a b a' b' : bool) (fuel depth : nat)
    (index : Z) (parent : bool) (l1 : Z)
    (s : Cacheline.cstate) (ms : Misaligned.mstate) :
  0 <= Cacheline.g_cacheline_size s <= 8 * Z.of_nat fuel ->
  Cacheline.g_cacheline_size s <= 2 ^ 64 - 8 ->
  Misaligned.shape ms = Misaligned.registry_shape a' b' ->
  (exists rc s' m,
     Cacheline.stress_cacheline_all a b (S (S fuel)) index parent l1 s = Some (rc, s') /\
     Cacheline.calls s' = rev (seq 1 m) ++ Cacheline.calls s /\
     (m < length (Cacheline.cacheline_methods a))%nat /\
     ~ In O (seq 1 m)) /\
  Misaligned.final (Misaligned.stress_misaligned_all (S (S depth)) ms)
    (fun ms' => exists l,
       Misaligned.calls ms' = rev l ++ Misaligned.calls ms /\
       StronglySorted lt l /\
       Forall (fun j => (1 <= j < length (Misaligned.methods ms))%nat) l).
Proof.
  intros Hcs Hmax Hshape. split.
  - destruct (CachelineFacts.cacheline_all_once a b fuel index parent l1 s Hcs Hmax)
      as (rc & s' & Hrun & m & rets & Hc & _ & _ & Hm & _).
    exists rc, s', m. split; [exact Hrun|]. split; [exact Hc|].
    pose proof (CachelineFacts.cacheline_methods_length a). split; [lia|].
    rewrite in_seq. lia.
  - pose proof (MisalignedFacts.all_pass _ (MisalignedFacts.registry_subs a' b')
                  depth ms Hshape) as H.
    assert (Hrange : forall j,
               In j (Misaligned.enabled_indices 1 (drop 1 (Misaligned.methods ms))) ->
               (1 <= j < length (Misaligned.methods ms))%nat).
    { intros j Hj. apply MisalignedFacts.enabled_indices_range in Hj.
      rewrite length_drop in Hj. lia. }
    pose proof (MisalignedFacts.enabled_indices_sorted (drop 1 (Misaligned.methods ms)) 1)
      as Hsorted.
    destruct (Misaligned.stress_misaligned_all (S (S depth)) ms) as [ms'|ms'|];
      unfold Misaligned.pass_outcome, Misaligned.called in H; cbn.
    + eexists. split; [exact H|]. split; [exact Hsorted|].
      apply Forall_forall. intros j Hj. apply Hrange, list_elem_of_In, Hj.
    + destruct H as (pre & c & post & Htodo & Hc & _).
      exists (pre ++ [c]). split; [exact Hc|].
      assert (Htodo' : Misaligned.enabled_indices 1 (drop 1 (Misaligned.methods ms))
                       = (pre ++ [c]) ++ post).
      { rewrite Htodo, <- app_assoc. reflexivity. }
      rewrite Htodo' in Hsorted, Hrange.
      split; [eapply StronglySorted_app_1_l; exact Hsorted|].
      apply Forall_forall. intros j Hj. apply Hrange, in_app_iff.
      left. apply list_elem_of_In, Hj.
    + exact H.
Qed.

(** The theorem for a worker on a 64 byte region and for a registry
    none of whose routines traps. *)
Lemma all_never_invokes_itself_witness :
  (exists rc s' m,
     Cacheline.stress_cacheline_all true true 10 2 true 64
       (Cacheline.boot 4096 64 (fun _ => true)) = Some (rc, s') /\
     Cacheline.calls s' = rev (seq 1 m) ++ [] /\
     (m < 11)%nat /\
     ~ In O (seq 1 m)) /\
  Misaligned.final
    (Misaligned.stress_misaligned_all 2
       (Misaligned.initial true true (fun _ => None) (fun _ => true)))
    (fun ms' => exists l,
       Misaligned.calls ms' = rev l ++ [] /\
       StronglySorted lt l /\
       Forall (fun j => (1 <= j < 17)%nat) l).
Proof.
  apply (all_never_invokes_itself true true true true 8 0 2 true 64
           (Cacheline.boot 4096 64 (fun _ => true))
           (Misaligned.initial true true (fun _ => None) (fun _ => true))).
  - cbn. lia.
  - cbn. lia.
  - reflexivity.
Defined.

End Dispatch.

Module CachelineMethodFacts.
Import Cacheline CachelineFacts CachelineAccess.
Local Open Scope cl_scope.

Lemma uint8_full_turn v k : uint8 (v + 256 * k) = uint8 v.
Proof. unfold uint8. rewrite Z.mul_comm. apply Z.mod_add. lia. Qed.

Lemma rest_failures s s' : rest s' = rest s -> failures s' = failures s.
Proof. unfold rest. congruence. Qed.




(** X2.  One step of [stress_cacheline_rdwr] reads the byte of the
    worker twice, stores the value read and issues a barrier, in that
    order, and leaves every byte with its value.  A whole call returns
    EXIT_SUCCESS, leaves every byte of the memory with its value and
    reports no failure. *)
Theorem rdwr_rewrites_in_place (index : Z) (parent : bool) (l1 : Z) (s : cstate) :
  let d := g_cacheline s + index in
  (exists s1, rdwr_step d s = Some (tt, s1) /\
              accesses s1
              = [Barrier; Store 1 d (uint8 (mem s d)); Load 1 d; Load 1 d]
                ++ accesses s /\
              (forall x, uint8 (mem s1 x) = uint8 (mem s x))) /\
  (exists s', stress_cacheline_rdwr index parent l1 s = Some (EXIT_SUCCESS, s') /\
              (forall x, uint8 (mem s' x) = uint8 (mem s x)) /\
              failures s' = failures s).
Proof.
  intros d. split.
  - eexists. split; [reflexivity|]. split.
    + cbn. rewrite uint8_idem. reflexivity.
    + intros x. cbn. destruct (x =? d) eqn:E; [|reflexivity].
      apply Z.eqb_eq in E. subst x. rewrite !uint8_idem. reflexivity.
  - assert (H : wp (stress_cacheline_rdwr index parent l1) s
                   (fun rc s' => rc = EXIT_SUCCESS /\ bytev d (uint8 (mem s d)) s s')).
    { unfold stress_cacheline_rdwr. apply wp_bind, wp_read. fold d.
      pose proof (bytev_init d s) as H.
      step wp_load8 H. destruct H as [-> H].
      eapply wp_conseq.
      - apply (wp_finish _ _ (fun (_ : Z) cur' => bytev d (uint8 (mem s d)) s cur')).
        eapply wp_conseq.
        + apply (wp_for_loop (fun (_ : nat) v cur =>
                                v = uint8 (mem s d) /\ bytev d v s cur)).
          * split; [reflexivity | exact H].
          * intros k v c _ [-> Hk].
            eapply wp_conseq; [apply rdwr_body_ok; exact Hk|].
            cbv beta. intros r cur' [-> Hb]. eauto.
        + cbv beta. intros r cur' (v & -> & -> & Hb). eauto.
      - cbv beta. intros rc s' (-> & v & Hb). auto. }
    destruct (wp_elim _ _ _ H) as (rc & s' & Hrun & -> & Hv & Hm & Hr).
    exists s'. split; [exact Hrun|]. split; [|exact (rest_failures _ _ Hr)].
    intros x. destruct (Z.eq_dec x d) as [->|Hx].
    + exact Hv.
    + rewrite (Hm x Hx). reflexivity.
Qed.

(** The value the bits method leaves after round [i]: all ones but
    bit [i mod 8]. *)
Lemma bits_body_leaves index d i v s cur :
  bytev d v s cur ->
  wp (bits_body index d i tt) cur
     (fun r cur' => r = inl tt /\
        bytev d (uint8 (Z.lxor (uint8 (Z.shiftl 1 (Z.land i 7))) 255)) s cur').
Proof.
  intros H. unfold bits_body.
  step wp_load8 H. destruct H as [_ H].
  step wp_store8 H. rewrite uint8_idem in H.
  step wp_shim_mb H.
  step wp_load8 H. destruct H as [-> H].
  rewrite Z.eqb_refl. cbn [negb].
  step wp_store8 H. rewrite uint8_idem in H.
  step wp_shim_mb H.
  now apply wp_verify.
Qed.

Lemma walking_bit i :
  uint8 (Z.lxor (uint8 (Z.shiftl 1 (Z.land i 7))) 255) = 255 - 2 ^ (i mod 8).
Proof.
  change 7 with (Z.ones 3). rewrite Z.land_ones by lia. change (2 ^ 3) with 8.
  assert (H : 0 <= i mod 8 < 8) by (apply Z.mod_pos_bound; lia).
  assert (C : i mod 8 = 0 \/ i mod 8 = 1 \/ i mod 8 = 2 \/ i mod 8 = 3 \/
              i mod 8 = 4 \/ i mod 8 = 5 \/ i mod 8 = 6 \/ i mod 8 = 7) by lia.
  destruct C as [-> | [-> | [-> | [-> | [-> | [-> | [-> | ->]]]]]]]; reflexivity.
Qed.

Lemma traced_init d s : traced d (uint8 (mem s d)) s [] s.
Proof. split; [apply bytev_init | reflexivity]. Qed.

Lemma wp_load8_tr d v s new cur :
  traced d v s new cur ->
  wp (load8 d) cur (fun r cur' => r = v /\ traced d v s (Load 1 d :: new) cur').
Proof.
  intros [(H1 & H2 & H3) Ha]. unfold wp, load8, traced, bytev, frame; cbn.
  rewrite Ha. auto.
Qed.

Lemma wp_store8_tr d w v s new cur :
  traced d v s new cur ->
  wp (store8 d w) cur
     (fun _ => traced d (uint8 w) s (Store 1 d (uint8 w) :: new)).
Proof.
  intros [H Ha].
  pose proof (wp_store8 d w v s cur H) as Hs. revert Hs.
  unfold wp, store8, traced; cbn. rewrite Ha. auto.
Qed.

Lemma wp_shim_mb_tr d v s new cur :
  traced d v s new cur ->
  wp shim_mb cur (fun _ => traced d v s (Barrier :: new)).
Proof.
  intros [(H1 & H2 & H3) Ha]. unfold wp, shim_mb, traced, bytev, frame; cbn.
  rewrite Ha. auto.
Qed.

Lemma wp_loadw_tr w a d v s new cur :
  traced d v s new cur ->
  wp (loadw w a) cur (fun _ => traced d v s (Load (Z.of_nat w) a :: new)).
Proof.
  intros [(H1 & H2 & H3) Ha]. unfold wp, loadw, traced, bytev, frame; cbn.
  rewrite Ha. auto.
Qed.

Lemma wp_inc8_tr d v s new cur :
  traced d v s new cur ->
  wp (inc8 d) cur
     (fun _ => traced d (uint8 (v + 1)) s
                 (Store 1 d (uint8 (v + 1)) :: Load 1 d :: new)).
Proof.
  intros H. unfold inc8. step wp_load8_tr H. destruct H as [-> H].
  now apply wp_store8_tr with (v := v).
Qed.

Lemma one_bit i : uint8 (Z.shiftl 1 (Z.land i 7)) = 2 ^ (i mod 8).
Proof.
  change 7 with (Z.ones 3). rewrite Z.land_ones by lia. change (2 ^ 3) with 8.
  assert (H : 0 <= i mod 8 < 8) by (apply Z.mod_pos_bound; lia).
  assert (C : i mod 8 = 0 \/ i mod 8 = 1 \/ i mod 8 = 2 \/ i mod 8 = 3 \/
              i mod 8 = 4 \/ i mod 8 = 5 \/ i mod 8 = 6 \/ i mod 8 = 7) by lia.
  destruct C as [-> | [-> | [-> | [-> | [-> | [-> | [-> | ->]]]]]]]; reflexivity.
Qed.

Lemma bits_body_traced index d i v s new cur :
  traced d v s new cur ->
  wp (bits_body index d i tt) cur
     (fun r cur' => r = inl tt /\
        traced d (255 - 2 ^ (i mod 8)) s
          ([Load 1 d; Barrier; Store 1 d (255 - 2 ^ (i mod 8));
            Load 1 d; Barrier; Store 1 d (2 ^ (i mod 8)); Load 1 d] ++ new) cur').
Proof.
  intros H. unfold bits_body. cbv zeta.
  pose proof (walking_bit i) as Hw. rewrite one_bit in Hw.
  assert (Hb' : uint8 (2 ^ (i mod 8)) = 2 ^ (i mod 8))
    by (rewrite <- one_bit; apply uint8_idem).
  assert (Hw' : uint8 (255 - 2 ^ (i mod 8)) = 255 - 2 ^ (i mod 8))
    by (rewrite <- Hw; apply uint8_idem).
  rewrite !one_bit, !Hw.
  step wp_load8_tr H. destruct H as [_ H].
  step wp_store8_tr H. rewrite Hb' in H.
  step wp_shim_mb_tr H.
  step wp_load8_tr H. destruct H as [-> H].
  rewrite Z.eqb_refl. cbn [negb].
  step wp_store8_tr H. rewrite Hw' in H.
  step wp_shim_mb_tr H.
  step wp_load8_tr H. destruct H as [-> H].
  rewrite Z.eqb_refl. cbn [negb].
  apply wp_ret. split; [reflexivity | exact H].
Qed.

(** X3.  Round [i] of [stress_cacheline_bits] stores the byte with the
    single bit [i mod 8] set and reads it back, then stores the
    complement, [255 - 2 ^ (i mod 8)], and reads it back; nothing is
    reported.  A call, whose last round is round 1023, leaves 127 in the
    byte of the worker, returns EXIT_SUCCESS, changes no other byte and
    reports no failure. *)
Theorem bits_walks_one_bit (index : Z) (parent : bool) (l1 : Z) (s : cstate) :
  let d := g_cacheline s + index in
  (forall i, 0 <= i -> exists s',
      bits_body index d i tt s = Some (inl tt, s') /\
      accesses s'
      = [Load 1 d; Barrier; Store 1 d (255 - 2 ^ (i mod 8));
         Load 1 d; Barrier; Store 1 d (2 ^ (i mod 8)); Load 1 d]
        ++ accesses s /\
      uint8 (mem s' d) = 255 - 2 ^ (i mod 8) /\
      failures s' = failures s) /\
  (exists s', stress_cacheline_bits index parent l1 s = Some (EXIT_SUCCESS, s') /\
              uint8 (mem s' d) = 127 /\
              (forall x, x <> d -> mem s' x = mem s x) /\
              failures s' = failures s).
Proof.
  intros d. split.
  - intros i Hi.
    destruct (wp_elim _ _ _ (bits_body_traced index d i _ s [] s (traced_init d s)))
      as (r & s' & Hrun & -> & (Hv & _ & Hr) & Ha).
    exists s'. split; [exact Hrun|]. split; [exact Ha|]. split; [exact Hv|].
    exact (rest_failures _ _ Hr).
  - assert (H : wp (stress_cacheline_bits index parent l1) s
                   (fun rc s' => rc = EXIT_SUCCESS /\ bytev d 127 s s')).
    { unfold stress_cacheline_bits. apply wp_bind, wp_read. fold d.
      eapply wp_conseq.
      - apply (wp_finish _ _ (fun (_ : unit) cur' => bytev d 127 s cur')).
        eapply wp_conseq.
        + apply (wp_for_loop
                   (fun (k : nat) (_ : unit) cur =>
                      exists v, bytev d v s cur /\
                        (k <> O -> v = 255 - 2 ^ ((Z.of_nat k - 1) mod 8)))).
          * exists (uint8 (mem s d)). split; [apply bytev_init | congruence].
          * intros k [] c _ (v & Hk & _).
            eapply wp_conseq; [exact (bits_body_leaves index d _ v s c Hk)|].
            cbv beta. intros r cur' [-> Hb]. exists tt. split; [reflexivity|].
            eexists. split; [exact Hb|]. intros _.
            rewrite walking_bit. do 3 f_equal. lia.
        + cbv beta. intros r cur' ([] & -> & v & Hb & Hv).
          exists tt. split; [reflexivity|].
          rewrite (Hv ltac:(discriminate)) in Hb. exact Hb.
      - cbv beta. intros rc s' (-> & _ & Hb). auto. }
    destruct (wp_elim _ _ _ H) as (rc & s' & Hrun & -> & Hv & Hm & Hr).
    exists s'. split; [exact Hrun|]. split; [exact Hv|]. split; [exact Hm|].
    exact (rest_failures _ _ Hr).
Qed.


(** *** The copy method and the two bytes of a pair *)

Lemma lxor_1_ne d : Z.lxor d 1 <> d.
Proof.
  intros E. apply (f_equal (fun z => Z.testbit z 0)) in E.
  rewrite Z.lxor_spec in E. change (Z.testbit 1 0) with true in E.
  revert E. destruct (Z.testbit d 0); discriminate.
Qed.

Lemma lxor_1_even d : d mod 2 = 0 -> Z.lxor d 1 = d + 1.
Proof.
  intros H. symmetry. apply Z.add_nocarry_lxor.
  change 1 with (Z.ones 1). rewrite Z.land_ones by lia. exact H.
Qed.

Lemma lxor_1_odd d : d mod 2 = 1 -> Z.lxor d 1 = d - 1.
Proof.
  intros H.
  assert (He : (d - 1) mod 2 = 0).
  { rewrite Zminus_mod, H. reflexivity. }
  replace d with (Z.lxor (d - 1) 1) at 1 by (rewrite lxor_1_even by exact He; lia).
  rewrite Z.lxor_assoc, Z.lxor_nilpotent, Z.lxor_0_r. reflexivity.
Qed.

Lemma copy_body_takes index d adj i v s cur :
  adj <> d ->
  bytev d v s cur ->
  wp (copy_body index d adj i tt) cur
     (fun r cur' => r = inl tt /\ bytev d (uint8 (mem s adj)) s cur').
Proof.
  intros Hne H. unfold copy_body.
  assert (Hstep : forall (k : M (unit + Z)) v cur (Q : unit + Z -> cstate -> Prop),
             bytev d v s cur ->
             (forall cur', bytev d (uint8 (mem s adj)) s cur' -> wp k cur' Q) ->
             wp (bind (bind (load8 adj) (fun x => store8 d x)) (fun _ => k)) cur Q).
  { intros k v0 c Q Hv Hk. apply wp_bind.
    pose proof (proj1 (proj2 Hv) adj Hne) as Hadj.
    step wp_load8_other Hv. destruct Hv as [-> Hv]. rewrite Hadj.
    eapply wp_conseq; [eapply wp_store8; exact Hv|].
    cbv beta. intros _ cur' H'. rewrite uint8_idem in H'. apply Hk, H'. }
  eapply Hstep; [exact H|]. clear H v cur. intros cur H.
  do 7 (eapply Hstep; [exact H|]; clear H cur; intros cur H).
  step wp_load8 H. destruct H as [-> H].
  now apply wp_verify.
Qed.

Lemma copy_takes index parent l1 s :
  wp (stress_cacheline_copy index parent l1) s
     (fun rc s' => rc = EXIT_SUCCESS /\
        bytev (g_cacheline s + index)
              (uint8 (mem s (Z.lxor (g_cacheline s + index) 1))) s s').
Proof.
  unfold stress_cacheline_copy. apply wp_bind, wp_read. cbv zeta.
  set (d := g_cacheline s + index). set (adj := Z.lxor d 1).
  eapply wp_conseq.
  - apply (wp_finish _ _ (fun (_ : unit) cur' => bytev d (uint8 (mem s adj)) s cur')).
    eapply wp_conseq.
    + apply (wp_for_loop
               (fun (k : nat) (_ : unit) cur =>
                  exists v, bytev d v s cur /\ (k <> O -> v = uint8 (mem s adj)))).
      * exists (uint8 (mem s d)). split; [apply bytev_init | congruence].
      * intros k [] c _ (v & Hk & _).
        eapply wp_conseq;
          [exact (copy_body_takes index d adj _ v s c (lxor_1_ne d) Hk)|].
        cbv beta. intros r cur' [-> Hb]. exists tt. split; [reflexivity|].
        eexists. split; [exact Hb | reflexivity].
    + cbv beta. intros r cur' ([] & -> & v & Hb & Hv).
      exists tt. split; [reflexivity|].
      rewrite (Hv ltac:(discriminate)) in Hb. exact Hb.
  - cbv beta. intros rc s' (-> & _ & Hb). auto.
Qed.

Lemma worker_index_even instance :
  0 <= instance < 2 ^ 30 -> CachelineWorker.worker_index instance = 2 * instance.
Proof.
  intros H. unfold CachelineWorker.worker_index, CachelineWorker.int32,
    CachelineWorker.uint32.
  rewrite (Z.mod_small instance) by lia.
  rewrite (Z.mod_small (instance * 2)) by lia.
  rewrite Z.mod_small by lia. lia.
Qed.

(** X4.  With the index that [stress_cacheline] computes for the
    instance, [2 * instance] for the parent and one more for the child,
    and the cache line at an even address, [stress_cacheline_copy] run
    by the parent leaves in the parent's byte the value of the child's
    byte, and run by the child leaves in the child's byte the value of
    the parent's.  Either call returns EXIT_SUCCESS, changes no other
    byte and reports no failure. *)
Theorem copy_takes_the_neighbour (instance : Z) (l1 : Z) (s : cstate) :
  0 <= instance < 2 ^ 30 ->
  g_cacheline s mod 2 = 0 ->
  let index := CachelineWorker.worker_index instance in
  let mine := g_cacheline s + 2 * instance in
  let yours := g_cacheline s + 2 * instance + 1 in
  (exists s', stress_cacheline_copy index true l1 s = Some (EXIT_SUCCESS, s') /\
              uint8 (mem s' mine) = uint8 (mem s yours) /\
              (forall x, x <> mine -> mem s' x = mem s x) /\
              failures s' = failures s) /\
  (exists s', stress_cacheline_copy (index + 1) false l1 s = Some (EXIT_SUCCESS, s') /\
              uint8 (mem s' yours) = uint8 (mem s mine) /\
              (forall x, x <> yours -> mem s' x = mem s x) /\
              failures s' = failures s).
Proof.
  intros Hi Heven index mine yours.
  assert (Hindex : index = 2 * instance) by (apply worker_index_even; exact Hi).
  assert (Hm : Z.lxor mine 1 = yours).
  { unfold mine, yours. apply lxor_1_even.
    rewrite Z.add_mod, Heven, Z.mul_comm, Z.mod_mul by lia. reflexivity. }
  assert (Hy : Z.lxor yours 1 = mine).
  { rewrite <- Hm, Z.lxor_assoc, Z.lxor_nilpotent, Z.lxor_0_r. reflexivity. }
  split.
  - destruct (wp_elim _ _ _ (copy_takes index true l1 s))
      as (rc & s' & Hrun & -> & Hv & Hf & Hr).
    rewrite Hindex in Hv, Hf. fold mine in Hv, Hf. rewrite Hm in Hv.
    exists s'. split; [exact Hrun|]. split; [exact Hv|]. split; [exact Hf|].
    exact (rest_failures _ _ Hr).
  - destruct (wp_elim _ _ _ (copy_takes (index + 1) false l1 s))
      as (rc & s' & Hrun & -> & Hv & Hf & Hr).
    rewrite Hindex in Hv, Hf.
    replace (g_cacheline s + (2 * instance + 1)) with yours in Hv, Hf
      by (unfold yours; lia).
    rewrite Hy in Hv.
    exists s'. split; [exact Hrun|]. split; [exact Hv|]. split; [exact Hf|].
    exact (rest_failures _ _ Hr).
Qed.

Lemma copy_takes_the_neighbour_witness :
  exists s', stress_cacheline_copy (CachelineWorker.worker_index 3) true 64
               (boot 4096 64 (fun _ => true)) = Some (EXIT_SUCCESS, s') /\
             uint8 (mem s' 4102) = 0.
Proof.
  destruct (copy_takes_the_neighbour 3 64 (boot 4096 64 (fun _ => true))
              ltac:(lia) ltac:(reflexivity)) as [(s' & Hrun & Hv & _) _].
  exists s'. split; [exact Hrun | exact Hv].
Defined.


(** *** Alignment by masking *)

Lemma land_align a k :
  0 <= a < 2 ^ 64 -> 0 <= k <= 64 -> Z.land a (2 ^ 64 - 2 ^ k) = a - a mod 2 ^ k.
Proof.
  intros Ha Hk.
  assert (Hmask : 2 ^ 64 - 2 ^ k = Z.shiftl (Z.ones (64 - k)) k).
  { rewrite Z.shiftl_mul_pow2, Z.ones_equiv by lia.
    unfold Z.pred. rewrite Z.mul_add_distr_r, <- Z.pow_add_r by lia.
    replace (64 - k + k) with 64 by lia. lia. }
  assert (Hrhs : a - a mod 2 ^ k = Z.ldiff a (Z.ones k)).
  { rewrite Z.ldiff_ones_r by lia.
    rewrite Z.shiftl_mul_pow2, Z.shiftr_div_pow2 by lia.
    pose proof (Z.div_mod a (2 ^ k) ltac:(lia)). lia. }
  rewrite Hmask, Hrhs. apply Z.bits_inj'. intros n Hn.
  rewrite Z.land_spec, Z.ldiff_spec, Z.shiftl_spec by lia.
  destruct (Z.lt_ge_cases n k) as [Hlt|Hge].
  - rewrite (Z.testbit_neg_r _ (n - k)) by lia.
    rewrite Z.ones_spec_low by lia. reflexivity.
  - rewrite (Z.ones_spec_high k n) by lia. cbn [negb]. rewrite andb_true_r.
    destruct (Z.lt_ge_cases n 64) as [Hlt|Hge'].
    + rewrite Z.ones_spec_low by lia. apply andb_true_r.
    + rewrite Z.ones_spec_high by lia. rewrite andb_false_r.
      rewrite <- (Z.mod_small a (2 ^ 64)) by lia.
      symmetry. apply Z.mod_pow2_bits_high. lia.
Qed.

Lemma size_not_pow2 k : 0 <= k <= 64 -> size_not (2 ^ k - 1) = 2 ^ 64 - 2 ^ k.
Proof.
  intros Hk. unfold size_not, size_t.
  assert (0 < 2 ^ k <= 2 ^ 64).
  { split; [apply Z.pow_pos_nonneg; lia | apply Z.pow_le_mono_r; lia]. }
  rewrite Z.mod_small by lia. lia.
Qed.

Lemma align_down a k :
  0 <= a < 2 ^ 64 -> 0 <= k <= 64 ->
  Z.land (size_t a) (size_not (2 ^ k - 1)) = a - a mod 2 ^ k.
Proof.
  intros Ha Hk. rewrite size_not_pow2 by exact Hk.
  unfold size_t. rewrite Z.mod_small by exact Ha. now apply land_align.
Qed.

(** X5.  The address [(uintptr_t)g_shared->cacheline &
    ~(l1_cacheline_size - 1)] from which [stress_cacheline_rdrev64] and
    [stress_cacheline_rdfwd64] read: for a line size [2 ^ k], [k <= 63],
    it is the address of the cache line rounded down to a multiple of
    the line size; for a line size of 0 it is 0. *)
Theorem aligned_cacheline_rounds_down (cacheline k : Z) :
  0 <= cacheline < 2 ^ 64 ->
  0 <= k <= 63 ->
  let l1 := 2 ^ k in
  let a := aligned_cacheline cacheline l1 in
  a = cacheline - cacheline mod l1 /\
  a mod l1 = 0 /\
  a <= cacheline < a + l1 /\
  aligned_cacheline cacheline 0 = 0.
Proof.
  intros Hc Hk l1 a.
  assert (Hl1 : 0 < l1) by (apply Z.pow_pos_nonneg; lia).
  assert (Ha : a = cacheline - cacheline mod l1).
  { unfold a, aligned_cacheline, l1. apply align_down; lia. }
  pose proof (Z.mod_pos_bound cacheline l1 Hl1) as Hm.
  split; [exact Ha|]. split; [|split; [lia|]].
  - rewrite Ha. rewrite Zminus_mod, Z.mod_mod, Z.sub_diag by lia. reflexivity.
  - unfold aligned_cacheline, size_not, size_t. cbn. apply Z.land_0_r.
Qed.

Lemma aligned_cacheline_rounds_down_witness :
  aligned_cacheline 4100 (2 ^ 6) = 4096.
Proof.
  destruct (aligned_cacheline_rounds_down 4100 6 ltac:(lia) ltac:(lia)) as [H _].
  exact H.
Defined.

(** *** The rdints method *)





(** *** The words rdfwd64 and rdrev64 read *)

Lemma rdfwd64_reads_trace aligned cs (n : nat) :
  forall fuel j s,
  (n <= fuel)%nat -> 0 <= j -> cs <= 2 ^ 64 - 8 -> cs - j = 8 * Z.of_nat n ->
  exists s',
    rdfwd64_reads fuel aligned cs j s = Some (tt, s') /\
    accesses s'
    = rev (flat_map (fun a => [Load 8 a; Barrier])
             (map (fun k : nat => aligned + j + 8 * Z.of_nat k) (seq 0 n)))
      ++ accesses s.
Proof.
  induction n as [|n IH]; intros fuel j s Hfuel Hj Hcs Hn.
  - exists s. split; [|reflexivity].
    destruct fuel; cbn [rdfwd64_reads];
      (destruct (j <? cs) eqn:E; [apply Z.ltb_lt in E; lia | reflexivity]).
  - destruct fuel as [|fuel]; [lia|]. cbn [rdfwd64_reads].
    destruct (j <? cs) eqn:E; [|apply Z.ltb_ge in E; lia].
    assert (Hw : size_t (j + 8) = j + 8).
    { unfold size_t. apply Z.mod_small. lia. }
    rewrite Hw. unfold bind at 1 2. unfold loadw at 1. unfold shim_mb at 1.
    destruct (IH fuel (j + 8)
                (log_access Barrier (log_access (Load (Z.of_nat 8) (aligned + j)) s))
                ltac:(lia) ltac:(lia) Hcs ltac:(lia)) as (s' & Hrun & Ha).
    exists s'. split; [exact Hrun|]. rewrite Ha.
    cbn [seq map flat_map rev app accesses log_access].
    rewrite <- seq_shift, map_map.
    rewrite <- !app_assoc. cbn [app].
    replace (aligned + j + 8 * Z.of_nat 0) with (aligned + j) by lia.
    do 3 f_equal. 
    apply map_ext. intros k. lia.
Qed.

Lemma rdrev64_reads_trace aligned (n : nat) :
  forall fuel s,
  (n <= fuel)%nat ->
  exists s',
    rdrev64_reads fuel aligned (8 * Z.of_nat n - 8) s = Some (tt, s') /\
    accesses s'
    = rev (flat_map (fun a => [Load 8 a; Barrier])
             (rev (map (fun k : nat => aligned + 8 * Z.of_nat k) (seq 0 n))))
      ++ accesses s.
Proof.
  induction n as [|n IH]; intros fuel s Hfuel.
  - exists s. split; [|reflexivity].
    destruct fuel; reflexivity.
  - destruct fuel as [|fuel]; [lia|]. cbn [rdrev64_reads].
    destruct (0 <=? 8 * Z.of_nat (S n) - 8) eqn:E; [|apply Z.leb_gt in E; lia].
    unfold bind at 1 2. unfold loadw at 1. unfold shim_mb at 1.
    replace (8 * Z.of_nat (S n) - 8 - 8) with (8 * Z.of_nat n - 8) by lia.
    destruct (IH fuel
                (log_access Barrier
                   (log_access (Load (Z.of_nat 8) (aligned + (8 * Z.of_nat (S n) - 8))) s))
                ltac:(lia)) as (s' & Hrun & Ha).
    exists s'. split; [exact Hrun|]. rewrite Ha.
    rewrite seq_S, map_app, rev_app_distr. cbn [map rev app flat_map plus].
    cbn [accesses log_access]. rewrite <- !app_assoc. cbn [app].
    replace (aligned + (8 * Z.of_nat (S n) - 8)) with (aligned + 8 * Z.of_nat n) by lia.
    reflexivity.
Qed.

(** X7.  Over a cache line of [n] words of 8 bytes, one pass of the
    read loop of [stress_cacheline_rdfwd64] reads the words at the
    aligned address plus 0, 8, ..., [8 * (n - 1)], in that order, a
    barrier after each, and one pass of the loop of
    [stress_cacheline_rdrev64] reads the same words in the opposite
    order.  The words are pairwise different and each lies inside the
    line. *)
Theorem rd64_read_each_word_once (fuel n : nat) (l1 : Z) (s : cstate) :
  (n <= fuel)%nat ->
  8 * Z.of_nat n < 2 ^ 63 ->
  let aligned := aligned_cacheline (g_cacheline s) l1 in
  let cacheline_size := 8 * Z.of_nat n in
  let words := map (fun k : nat => aligned + 8 * Z.of_nat k) (seq 0 n) in
  let reads := flat_map (fun a => [Load 8 a; Barrier]) in
  (exists s', rdfwd64_reads fuel aligned cacheline_size 0 s = Some (tt, s') /\
              accesses s' = rev (reads words) ++ accesses s) /\
  (exists s', rdrev64_reads fuel aligned (ssize_t cacheline_size - 8) s
              = Some (tt, s') /\
              accesses s' = rev (reads (rev words)) ++ accesses s) /\
  NoDup words /\
  Forall (fun a => aligned <= a /\ a + 8 <= aligned + cacheline_size) words.
Proof.
  intros Hfuel Hn aligned cacheline_size words reads.
  split; [|split; [|split]].
  - destruct (rdfwd64_reads_trace aligned cacheline_size n fuel 0 s Hfuel
                ltac:(lia) ltac:(unfold cacheline_size; lia)
                ltac:(unfold cacheline_size; lia)) as (s' & Hrun & Ha).
    exists s'. split; [exact Hrun|]. rewrite Ha. unfold reads, words.
    do 3 f_equal. apply map_ext. intros k. lia.
  - assert (Hs : ssize_t cacheline_size = cacheline_size).
    { unfold ssize_t, cacheline_size. rewrite Z.mod_small by lia. lia. }
    rewrite Hs.
    destruct (rdrev64_reads_trace aligned n fuel s Hfuel) as (s' & Hrun & Ha).
    exists s'. split; [exact Hrun | exact Ha].
  - unfold words. apply NoDup_fmap_2; [|apply NoDup_seq].
    intros x y Hxy. lia.
  - unfold words. apply Forall_forall. intros a Ha.
    apply list_elem_of_In, in_map_iff in Ha. destruct Ha as (k & <- & Hk).
    apply in_seq in Hk. unfold cacheline_size. lia.
Qed.

Lemma rd64_read_each_word_once_witness :
  exists s', rdrev64_reads 8 4096 (ssize_t 64 - 8) (boot 4096 64 (fun _ => true))
             = Some (tt, s') /\
             accesses s'
             = [Barrier; Load 8 4096; Barrier; Load 8 4104; Barrier; Load 8 4112;
                Barrier; Load 8 4120; Barrier; Load 8 4128; Barrier; Load 8 4136;
                Barrier; Load 8 4144; Barrier; Load 8 4152].
Proof.
  destruct (rd64_read_each_word_once 8 8 64 (boot 4096 64 (fun _ => true))
              ltac:(lia) ltac:(lia)) as (_ & (s' & Hrun & Ha) & _).
  exists s'. split; [exact Hrun | exact Ha].
Defined.

(** *** What rdfwd64 and rdrev64 write *)

Lemma writes_app more new : writes (more ++ new) = writes new ++ writes more.
Proof. unfold writes. rewrite rev_app_distr. apply List.filter_app. Qed.

Lemma rdfwd64_reads_load_only fuel d v s :
  forall aligned cs j new cur,
  0 <= j -> cs <= 2 ^ 64 - 8 -> cs - j <= 8 * Z.of_nat fuel ->
  traced d v s new cur ->
  wp (rdfwd64_reads fuel aligned cs j) cur
     (fun _ cur' => exists more, traced d v s (more ++ new) cur' /\ writes more = []).
Proof.
  induction fuel as [|fuel IH]; intros aligned cs j new cur Hj Hcs Hfuel H;
    cbn [rdfwd64_reads].
  - destruct (j <? cs) eqn:E; [apply Z.ltb_lt in E; lia|].
    apply wp_ret. exists []. split; [exact H | reflexivity].
  - destruct (j <? cs) eqn:E;
      [|apply wp_ret; exists []; split; [exact H | reflexivity]].
    apply Z.ltb_lt in E.
    assert (Hw : size_t (j + 8) = j + 8).
    { unfold size_t. apply Z.mod_small. lia. }
    rewrite Hw.
    step wp_loadw_tr H. step wp_shim_mb_tr H.
    eapply wp_conseq; [apply (IH aligned cs (j + 8) _ _ ltac:(lia) Hcs ltac:(lia) H)|].
    cbv beta. intros _ cur' (more & Ht & Hw').
    exists (more ++ [Barrier; Load (Z.of_nat 8) (aligned + j)]).
    rewrite <- app_assoc. split; [exact Ht|].
    rewrite writes_app, Hw'. reflexivity.
Qed.

Lemma rdrev64_reads_load_only fuel d v s :
  forall aligned j new cur,
  j < 8 * Z.of_nat fuel ->
  traced d v s new cur ->
  wp (rdrev64_reads fuel aligned j) cur
     (fun _ cur' => exists more, traced d v s (more ++ new) cur' /\ writes more = []).
Proof.
  induction fuel as [|fuel IH]; intros aligned j new cur Hj H; cbn [rdrev64_reads].
  - destruct (0 <=? j) eqn:E; [apply Z.leb_le in E; lia|].
    apply wp_ret. exists []. split; [exact H | reflexivity].
  - destruct (0 <=? j) eqn:E;
      [|apply wp_ret; exists []; split; [exact H | reflexivity]].
    step wp_loadw_tr H. step wp_shim_mb_tr H.
    eapply wp_conseq; [apply (IH aligned (j - 8) _ _ ltac:(lia) H)|].
    cbv beta. intros _ cur' (more & Ht & Hw').
    exists (more ++ [Barrier; Load (Z.of_nat 8) (aligned + j)]).
    rewrite <- app_assoc. split; [exact Ht|].
    rewrite writes_app, Hw'. reflexivity.
Qed.

Lemma rdfwd64_body_writes_once fuel index d cs aligned i v s new cur :
  0 <= cs <= 8 * Z.of_nat fuel ->
  cs <= 2 ^ 64 - 8 ->
  traced d v s new cur ->
  wp (rdfwd64_body fuel index d cs aligned i tt) cur
     (fun r cur' =>
        r = inl tt /\
        exists more, traced d (uint8 (v + 1)) s (more ++ new) cur' /\
                     writes more = [Store 1 d (uint8 (v + 1))]).
Proof.
  intros Hcs Hmax H. unfold rdfwd64_body.
  step wp_inc8_tr H. step wp_load8_tr H. destruct H as [-> H].
  apply wp_bind.
  eapply wp_conseq;
    [apply (rdfwd64_reads_load_only fuel d _ s aligned cs 0 _ _
              ltac:(lia) Hmax ltac:(lia) H)|].
  cbv beta. intros _ cur' (more & Ht & Hw).
  step wp_load8_tr Ht. destruct Ht as [-> Ht].
  rewrite Z.eqb_refl. cbn [negb]. apply wp_ret.
  split; [reflexivity|].
  exists (Load 1 d :: more ++ [Load 1 d; Store 1 d (uint8 (v + 1)); Load 1 d]).
  split.
  { cbn [app]. rewrite <- app_assoc. exact Ht. }
  change (Load 1 d :: more ++ [Load 1 d; Store 1 d (uint8 (v + 1)); Load 1 d])
    with ([Load 1 d] ++ more ++ [Load 1 d; Store 1 d (uint8 (v + 1)); Load 1 d]).
  rewrite !writes_app, Hw. reflexivity.
Qed.

Lemma rdrev64_body_writes_once fuel index d cs aligned i v s new cur :
  0 <= cs <= 8 * Z.of_nat fuel ->
  traced d v s new cur ->
  wp (rdrev64_body fuel index d cs aligned i tt) cur
     (fun r cur' =>
        r = inl tt /\
        exists more, traced d (uint8 (v + 1)) s (more ++ new) cur' /\
                     writes more = [Store 1 d (uint8 (v + 1))]).
Proof.
  intros Hcs H. unfold rdrev64_body.
  step wp_inc8_tr H. step wp_load8_tr H. destruct H as [-> H].
  apply wp_bind.
  eapply wp_conseq;
    [apply (rdrev64_reads_load_only fuel d _ s aligned (ssize_t cs - 8) _ _
              ltac:(pose proof (ssize_t_le cs); lia) H)|].
  cbv beta. intros _ cur' (more & Ht & Hw).
  step wp_load8_tr Ht. destruct Ht as [-> Ht].
  rewrite Z.eqb_refl. cbn [negb]. apply wp_ret.
  split; [reflexivity|].
  exists (Load 1 d :: more ++ [Load 1 d; Store 1 d (uint8 (v + 1)); Load 1 d]).
  split.
  { cbn [app]. rewrite <- app_assoc. exact Ht. }
  change (Load 1 d :: more ++ [Load 1 d; Store 1 d (uint8 (v + 1)); Load 1 d])
    with ([Load 1 d] ++ more ++ [Load 1 d; Store 1 d (uint8 (v + 1)); Load 1 d]).
  rewrite !writes_app, Hw. reflexivity.
Qed.

(** [n] batches of a loop each of whose batches stores the byte plus
    one, once, and writes nothing else. *)
Lemma wp_batches (body : Z -> unit -> M (unit + Z)) d s n :
  (forall i v new cur, traced d v s new cur ->
     wp (body i tt) cur
        (fun r cur' =>
           r = inl tt /\
           exists more, traced d (uint8 (v + 1)) s (more ++ new) cur' /\
                        writes more = [Store 1 d (uint8 (v + 1))])) ->
  wp (for_loop n 0 body tt) s
     (fun r s' =>
        r = inl tt /\
        exists new,
          traced d (uint8 (uint8 (mem s d) + Z.of_nat n)) s new s' /\
          writes new
          = map (fun k : nat => Store 1 d (uint8 (uint8 (mem s d) + 1 + Z.of_nat k)))
              (seq 0 n)).
Proof.
  intros Hbody.
  eapply wp_conseq.
  - apply (wp_for_loop
             (fun k (_ : unit) cur =>
                exists new,
                  traced d (uint8 (uint8 (mem s d) + Z.of_nat k)) s new cur /\
                  writes new
                  = map (fun k : nat =>
                           Store 1 d (uint8 (uint8 (mem s d) + 1 + Z.of_nat k)))
                      (seq 0 k))).
    + exists []. split; [|reflexivity].
      rewrite Z.add_0_r, uint8_idem. apply traced_init.
    + intros k [] cur _ (new & Ht & Hw).
      eapply wp_conseq; [apply (Hbody _ _ _ _ Ht)|].
      cbv beta. intros r cur' (-> & more & Ht' & Hw').
      exists tt. split; [reflexivity|]. exists (more ++ new).
      rewrite uint8_add_l in Ht', Hw'.
      replace (uint8 (mem s d) + Z.of_nat k + 1)
        with (uint8 (mem s d) + Z.of_nat (S k)) in Ht' by lia.
      split; [exact Ht'|].
      rewrite writes_app, Hw, Hw', seq_S, map_app. cbn [map plus].
      replace (uint8 (mem s d) + 1 + Z.of_nat k)
        with (uint8 (mem s d) + Z.of_nat k + 1) by lia.
      reflexivity.
  - cbv beta. intros r s' ([] & -> & H). split; [reflexivity | exact H].
Qed.

(** C9.  rdfwd64 and rdrev64, single-process execution.  The 8-byte
    reads over the line, forward or backward, return from any state,
    leave the memory as it is and make no write.  [n] batches of the
    loop of either method make [n] writes, one each: batch [k] stores
    in the target byte its initial value plus [k + 1]; after them the
    byte holds the initial value plus [n], every other byte is as
    before and nothing is reported, so that each check after the reads
    found the incremented value.  The methods, whose loops make 1024
    batches, return EXIT_SUCCESS having made these 1024 stores and no
    other write; the byte then holds its initial value again, 1024
    being a multiple of 256.  The fuel covers the reads, and
    [cacheline_size] is such that the forward index cannot wrap. *)
Theorem rd64_reads_write_nothing (fuel : nat) (index : Z) (parent : bool)
    (l1 : Z) (s : cstate) :
  0 <= g_cacheline_size s <= 8 * Z.of_nat fuel ->
  g_cacheline_size s <= 2 ^ 64 - 8 ->
  let d := g_cacheline s + index in
  let aligned := aligned_cacheline (g_cacheline s) l1 in
  let cs := g_cacheline_size s in
  let start := uint8 (mem s d) in
  let increments (n : nat) :=
    map (fun k : nat => Store 1 d (uint8 (start + 1 + Z.of_nat k))) (seq 0 n) in
  (forall cur, exists cur' new,
      rdfwd64_reads fuel aligned cs 0 cur = Some (tt, cur') /\
      mem cur' = mem cur /\
      accesses cur' = new ++ accesses cur /\ writes new = []) /\
  (forall cur, exists cur' new,
      rdrev64_reads fuel aligned (ssize_t cs - 8) cur = Some (tt, cur') /\
      mem cur' = mem cur /\
      accesses cur' = new ++ accesses cur /\ writes new = []) /\
  (forall n : nat, exists s_n new,
      for_loop n 0 (rdfwd64_body fuel index d cs aligned) tt s
      = Some (inl tt, s_n) /\
      uint8 (mem s_n d) = uint8 (start + Z.of_nat n) /\
      (forall x, x <> d -> mem s_n x = mem s x) /\
      failures s_n = failures s /\
      accesses s_n = new ++ accesses s /\ writes new = increments n) /\
  (forall n : nat, exists s_n new,
      for_loop n 0 (rdrev64_body fuel index d cs aligned) tt s
      = Some (inl tt, s_n) /\
      uint8 (mem s_n d) = uint8 (start + Z.of_nat n) /\
      (forall x, x <> d -> mem s_n x = mem s x) /\
      failures s_n = failures s /\
      accesses s_n = new ++ accesses s /\ writes new = increments n) /\
  (exists s' new,
      stress_cacheline_rdfwd64 fuel index parent l1 s = Some (EXIT_SUCCESS, s') /\
      uint8 (mem s' d) = start /\
      (forall x, x <> d -> mem s' x = mem s x) /\
      failures s' = failures s /\
      accesses s' = new ++ accesses s /\ writes new = increments 1024%nat) /\
  (exists s' new,
      stress_cacheline_rdrev64 fuel index parent l1 s = Some (EXIT_SUCCESS, s') /\
      uint8 (mem s' d) = start /\
      (forall x, x <> d -> mem s' x = mem s x) /\
      failures s' = failures s /\
      accesses s' = new ++ accesses s /\ writes new = increments 1024%nat).
Proof.
  intros Hcs Hmax d aligned cs start increments.
  assert (Hturn : uint8 (start + Z.of_nat 1024) = start).
  { change (Z.of_nat 1024) with (256 * 4). rewrite uint8_full_turn.
    apply uint8_idem. }
  split.
  { intros cur.
    destruct (wp_elim _ _ _
                (rdfwd64_reads_load_only fuel (g_cacheline cur) _ cur aligned cs 0
                   [] cur ltac:(lia) Hmax ltac:(unfold cs; lia)
                   (traced_init (g_cacheline cur) cur)))
      as ([] & cur' & Hrun & more & [(_ & Hm & _) Ha] & Hw).
    destruct (wp_elim _ _ _ (rdfwd64_reads_quiet fuel aligned cs 0 cur
                               ltac:(lia) Hmax ltac:(unfold cs; lia)))
      as ([] & cur2 & Hrun2 & Hq & _).
    rewrite Hrun in Hrun2. injection Hrun2 as <-.
    exists cur', more. rewrite app_nil_r in Ha.
    split; [exact Hrun|]. split; [exact Hq|]. split; [exact Ha | exact Hw]. }
  split.
  { intros cur.
    destruct (wp_elim _ _ _
                (rdrev64_reads_load_only fuel (g_cacheline cur) _ cur aligned
                   (ssize_t cs - 8) [] cur
                   ltac:(pose proof (ssize_t_le cs); unfold cs in *; lia)
                   (traced_init (g_cacheline cur) cur)))
      as ([] & cur' & Hrun & more & [(_ & Hm & _) Ha] & Hw).
    destruct (wp_elim _ _ _ (rdrev64_reads_quiet fuel aligned (ssize_t cs - 8) cur
                               ltac:(pose proof (ssize_t_le cs); unfold cs in *; lia)))
      as ([] & cur2 & Hrun2 & Hq & _).
    rewrite Hrun in Hrun2. injection Hrun2 as <-.
    exists cur', more. rewrite app_nil_r in Ha.
    split; [exact Hrun|]. split; [exact Hq|]. split; [exact Ha | exact Hw]. }
  assert (Hfwd : forall n,
             wp (for_loop n 0 (rdfwd64_body fuel index d cs aligned) tt) s
                (fun r s' =>
                   r = inl tt /\
                   exists new,
                     traced d (uint8 (start + Z.of_nat n)) s new s' /\
                     writes new = increments n)).
  { intros n. apply wp_batches. intros i v new cur Ht.
    apply rdfwd64_body_writes_once; assumption. }
  assert (Hrev : forall n,
             wp (for_loop n 0 (rdrev64_body fuel index d cs aligned) tt) s
                (fun r s' =>
                   r = inl tt /\
                   exists new,
                     traced d (uint8 (start + Z.of_nat n)) s new s' /\
                     writes new = increments n)).
  { intros n. apply wp_batches. intros i v new cur Ht.
    apply rdrev64_body_writes_once; assumption. }
  split.
  { intros n. destruct (wp_elim _ _ _ (Hfwd n))
      as (r & s_n & Hrun & -> & new & [(Hv & Hm & Hr) Ha] & Hw).
    exists s_n, new. split; [exact Hrun|]. split; [exact Hv|].
    split; [exact Hm|]. split; [exact (rest_failures _ _ Hr)|].
    split; [exact Ha | exact Hw]. }
  split.
  { intros n. destruct (wp_elim _ _ _ (Hrev n))
      as (r & s_n & Hrun & -> & new & [(Hv & Hm & Hr) Ha] & Hw).
    exists s_n, new. split; [exact Hrun|]. split; [exact Hv|].
    split; [exact Hm|]. split; [exact (rest_failures _ _ Hr)|].
    split; [exact Ha | exact Hw]. }
  split.
  { assert (Hm : wp (stress_cacheline_rdfwd64 fuel index parent l1) s
                   (fun rc s' =>
                      rc = EXIT_SUCCESS /\
                      exists new,
                        traced d (uint8 (start + Z.of_nat 1024)) s new s' /\
                        writes new = increments 1024%nat)).
    { unfold stress_cacheline_rdfwd64.
      apply wp_bind, wp_read. apply wp_bind, wp_read.
      eapply wp_conseq.
      - apply (wp_finish _ _
                 (fun (_ : unit) s' =>
                    exists new,
                      traced d (uint8 (start + Z.of_nat 1024)) s new s' /\
                      writes new = increments 1024%nat)).
        eapply wp_conseq; [exact (Hfwd 1024%nat)|].
        cbv beta. intros r s' (-> & H). exists tt. split; [reflexivity | exact H].
      - cbv beta. intros rc s' (-> & _ & H). split; [reflexivity | exact H]. }
    destruct (wp_elim _ _ _ Hm)
      as (rc & s' & Hrun & -> & new & [(Hv & Hmem & Hr) Ha] & Hw).
    exists s', new. split; [exact Hrun|].
    split; [rewrite Hv; exact Hturn|].
    split; [exact Hmem|]. split; [exact (rest_failures _ _ Hr)|].
    split; [exact Ha | exact Hw]. }
  assert (Hm : wp (stress_cacheline_rdrev64 fuel index parent l1) s
                 (fun rc s' =>
                    rc = EXIT_SUCCESS /\
                    exists new,
                      traced d (uint8 (start + Z.of_nat 1024)) s new s' /\
                      writes new = increments 1024%nat)).
  { unfold stress_cacheline_rdrev64.
    apply wp_bind, wp_read. apply wp_bind, wp_read.
    eapply wp_conseq.
    - apply (wp_finish _ _
               (fun (_ : unit) s' =>
                  exists new,
                    traced d (uint8 (start + Z.of_nat 1024)) s new s' /\
                    writes new = increments 1024%nat)).
      eapply wp_conseq; [exact (Hrev 1024%nat)|].
      cbv beta. intros r s' (-> & H). exists tt. split; [reflexivity | exact H].
    - cbv beta. intros rc s' (-> & _ & H). split; [reflexivity | exact H]. }
  destruct (wp_elim _ _ _ Hm)
    as (rc & s' & Hrun & -> & new & [(Hv & Hmem & Hr) Ha] & Hw).
  exists s', new. split; [exact Hrun|].
  split; [rewrite Hv; exact Hturn|].
  split; [exact Hmem|]. split; [exact (rest_failures _ _ Hr)|].
  split; [exact Ha | exact Hw].
Qed.

(** The theorem on a 64 byte region at address 4096, for the worker at
    offset 2. *)
Lemma rd64_reads_write_nothing_witness :
  (0 <= 64 <= 8 * Z.of_nat 8 /\ 64 <= 2 ^ 64 - 8) /\
  (exists s', stress_cacheline_rdfwd64 8 2 true 64 (boot 4096 64 (fun _ => true))
              = Some (EXIT_SUCCESS, s') /\
              failures s' = []) /\
  (exists s', stress_cacheline_rdrev64 8 2 true 64 (boot 4096 64 (fun _ => true))
              = Some (EXIT_SUCCESS, s') /\
              failures s' = []).
Proof.
  split; [lia|].
  destruct (rd64_reads_write_nothing 8 2 true 64 (boot 4096 64 (fun _ => true))
              ltac:(cbn; lia) ltac:(cbn; lia))
    as (_ & _ & _ & _ & (s1 & n1 & H1 & _ & _ & F1 & _) & (s2 & n2 & H2 & _ & _ & F2 & _)).
  split; [exists s1 | exists s2]; (split; [assumption | assumption]).
Defined.

End CachelineMethodFacts.

Module CachelineWorkerFacts.
Import Cacheline Settings CachelineWorker.

Lemma statuses_app l1 l2 : statuses (l1 ++ l2) = statuses l1 ++ statuses l2.
Proof. unfold statuses. apply omap_app. Qed.

Lemma occurrences_app n l1 l2 :
  occurrences n (l1 ++ l2) = (occurrences n l1 + occurrences n l2)%nat.
Proof. unfold occurrences. rewrite filter_app, length_app. reflexivity. Qed.

Lemma pinned_below_app cpus l1 l2 :
  pinned_below cpus l1 -> pinned_below cpus l2 -> pinned_below cpus (l1 ++ l2).
Proof.
  intros H1 H2 cpu Hin. apply in_app_iff in Hin. destruct Hin; auto.
Qed.

Section Worker.

Variable have_affinity : bool.
Variable now : nat -> Z.
Variable instance : Z.
Variable cpus : Z.
Hypothesis cpus_range : 0 < cpus < 2 ^ 32.

Variable func : Z -> bool -> Z -> M Z.
Variables (index : Z) (parent : bool) (l1 : Z) (affinity : bool).

(** The routine returns from every state of some kind [inv], with a
    status of some kind [good], and leaves the answers of
    [keep_stressing] as they are, the polls made growing if at all. *)
Variable inv : cstate -> Prop.
Variable good : Z -> Prop.
Hypothesis inv_polls : forall c n, inv c -> inv (set_polls n c).
Hypothesis func_returns :
  forall c, inv c -> exists rc c',
    func index parent l1 c = Some (rc, c') /\
    ks c' = ks c /\ (polls c <= polls c')%nat /\ inv c' /\ good rc.

(** What one round adds to the notes. *)
Lemma round_notes rc c w :
  let w1 := emit (Invoked index rc) (set_shared c w) in
  let w2 := if parent then inc_counter w1 else w1 in
  let w3 := if have_affinity && affinity
            then stress_cacheline_change_affinity now instance cpus parent w2
            else w2 in
  shared w3 = c /\
  counter w3 = counter w + (if parent then 1 else 0) /\
  exists added,
    notes w3 = notes w ++ added /\
    statuses added = [rc] /\
    occurrences IncCounter added = (if parent then 1 else 0)%nat /\
    occurrences KillParent added = O /\
    pinned_below cpus added.
Proof.
  intros w1 w2 w3.
  assert (Hcpu : forall t, 0 <= uint32 (uint32 instance + (if parent then 1 else 0)
                                        + uint32 t) mod uint32 cpus < cpus).
  { intros t.
    assert (Hc : uint32 cpus = cpus) by (unfold uint32; apply Z.mod_small; lia).
    rewrite Hc. apply Z.mod_pos_bound. lia. }
  unfold w3, w2, w1.
  destruct parent, (have_affinity && affinity); cbn;
    (split; [reflexivity|]); (split; [lia|]);
    eexists; (split; [rewrite <- ?app_assoc; reflexivity|]);
    (split; [reflexivity|]); (split; [reflexivity|]); (split; [reflexivity|]);
    intros cpu Hin; cbn in Hin;
    repeat (destruct Hin as [Hin|Hin]; [try discriminate|]); try contradiction;
    injection Hin as <-; apply Hcpu.
Qed.

Lemma child_loop_runs N fuel :
  forall w,
  inv (shared w) ->
  (forall n, (N <= n)%nat -> ks (shared w) n = false) ->
  (N - polls (shared w) < fuel)%nat ->
  exists rc w' (k : nat) added,
    child_loop have_affinity now instance cpus fuel func index parent l1 affinity w
    = Some (rc, w') /\
    notes w' = notes w ++ added /\
    statuses added = replicate k EXIT_SUCCESS ++ [rc] /\
    counter w' = counter w + (if parent then Z.of_nat (S k) else 0) /\
    occurrences IncCounter added = (if parent then S k else O) /\
    occurrences KillParent added = O /\
    pinned_below cpus added /\
    ks (shared w') = ks (shared w) /\
    inv (shared w') /\ good rc /\
    (rc = EXIT_SUCCESS ->
     exists p, polls (shared w') = S p /\ (polls (shared w) <= p)%nat /\
               ks (shared w) p = false).
Proof.
  induction fuel as [|fuel IH]; intros w Hinv Hstop Hfuel; [lia|].
  cbn [child_loop].
  destruct (func_returns (shared w) Hinv) as (rc & c & Hf & Hks & Hpolls & Hinv' & Hgood).
  rewrite Hf.
  destruct (round_notes rc c w) as (Hsh & Hcnt & added1 & Hn1 & Hst1 & Hi1 & Hk1 & Hp1).
  cbv zeta in Hsh, Hcnt, Hn1.
  set (w3 := if have_affinity && affinity then _ else _) in *.
  destruct (rc =? EXIT_SUCCESS) eqn:Erc.
  - apply Z.eqb_eq in Erc. subst rc.
    unfold keep_stressing. rewrite Hsh.
    destruct (ks c (polls c)) eqn:Eks.
    + assert (Hlt : (polls c < N)%nat).
      { destruct (Nat.lt_ge_cases (polls c) N) as [H|H]; [exact H|].
        rewrite Hks, (Hstop _ H) in Eks. discriminate. }
      destruct (IH (set_shared (set_polls (S (polls c)) c) w3))
        as (rc & w' & k & added & Hrun & Hn & Hst & Hc & Hi & Hk & Hp & Hks' & Hi' &
            Hg' & Hend).
      { cbn. apply inv_polls. exact Hinv'. }
      { intros n Hn. cbn. rewrite Hks. now apply Hstop. }
      { cbn. lia. }
      exists rc, w', (S k), (added1 ++ added).
      split; [exact Hrun|].
      split; [rewrite Hn; cbn; rewrite Hn1, <- app_assoc; reflexivity|].
      split; [rewrite statuses_app, Hst1, Hst; reflexivity|].
      split; [rewrite Hc; cbn [counter set_shared]; rewrite Hcnt;
              destruct parent; lia|].
      split; [rewrite occurrences_app, Hi1, Hi; destruct parent; reflexivity|].
      split; [rewrite occurrences_app, Hk1, Hk; reflexivity|].
      split; [now apply pinned_below_app|].
      split; [rewrite Hks'; cbn; exact Hks|].
      split; [exact Hi'|]. split; [exact Hg'|].
      intros Hrc. destruct (Hend Hrc) as (p & Hp' & Hge & Hfalse).
      exists p. split; [exact Hp'|]. cbn in Hfalse, Hge.
      split; [lia|]. rewrite <- Hks. exact Hfalse.
    + exists EXIT_SUCCESS, (set_shared (set_polls (S (polls c)) c) w3), O, added1.
      split; [reflexivity|].
      split; [exact Hn1|].
      split; [exact Hst1|].
      split; [cbn [counter set_shared]; rewrite Hcnt; destruct parent; lia|].
      split; [rewrite Hi1; destruct parent; reflexivity|].
      split; [exact Hk1|].
      split; [exact Hp1|].
      split; [cbn; exact Hks|].
      split; [cbn; apply inv_polls; exact Hinv'|]. split; [exact Hgood|].
      intros _. exists (polls c). split; [reflexivity|].
      split; [exact Hpolls|]. rewrite <- Hks. exact Eks.
  - apply Z.eqb_neq in Erc.
    exists rc, w3, O, added1.
    split; [reflexivity|].
    split; [exact Hn1|].
    split; [exact Hst1|].
    split; [rewrite Hcnt; destruct parent; lia|].
    split; [rewrite Hi1; destruct parent; reflexivity|].
    split; [exact Hk1|].
    split; [exact Hp1|].
    split; [rewrite Hsh; exact Hks|].
    split; [rewrite Hsh; exact Hinv'|]. split; [exact Hgood|].
    intros Hrc. contradiction.
Qed.

Lemma child_runs N fuel w :
  inv (shared w) ->
  (forall n, (N <= n)%nat -> ks (shared w) n = false) ->
  (N - polls (shared w) < fuel)%nat ->
  exists rc w' (k : nat) added,
    stress_cacheline_child have_affinity now instance cpus fuel func index parent
      l1 affinity w = Some (rc, w') /\
    notes w' = notes w ++ added /\
    statuses added = replicate k EXIT_SUCCESS ++ [rc] /\
    counter w' = counter w + (if parent then Z.of_nat (S k) else 0) /\
    occurrences IncCounter added = (if parent then S k else O) /\
    (if parent then occurrences KillParent added = O
     else exists pre, added = pre ++ [KillParent] /\ occurrences KillParent pre = O) /\
    pinned_below cpus added /\
    ks (shared w') = ks (shared w) /\
    inv (shared w') /\ good rc /\
    (rc = EXIT_SUCCESS ->
     exists p, polls (shared w') = S p /\ (polls (shared w) <= p)%nat /\
               ks (shared w) p = false).
Proof.
  intros Hinv Hstop Hfuel.
  destruct (child_loop_runs N fuel w Hinv Hstop Hfuel)
    as (rc & w' & k & added & Hrun & Hn & Hst & Hc & Hi & Hk & Hp & Hks & Hi' & Hg
        & Hend).
  unfold stress_cacheline_child. rewrite Hrun.
  destruct parent; cbn [negb].
  - exists rc, w', k, added. auto 12.
  - exists rc, (emit KillParent w'), k, (added ++ [KillParent]).
    split; [reflexivity|].
    split; [cbn; rewrite Hn, <- app_assoc; reflexivity|].
    split; [rewrite statuses_app, Hst; cbn; apply app_nil_r|].
    split; [exact Hc|].
    split; [rewrite occurrences_app, Hi; reflexivity|].
    split; [exists added; auto|].
    split.
    { apply pinned_below_app; [exact Hp|]. intros cpu [H|[]]. discriminate. }
    auto.
Qed.

End Worker.

(** X8.  [stress_cacheline_child] with a routine that always returns
    and a [keep_stressing] that says stop from its call [N] on, given
    more rounds than calls left: it returns the status [rc] of the last
    call of the routine, all calls before it having returned
    EXIT_SUCCESS.  The parent increments the bogo-op counter once per
    call, the child never; the child sends the signal to its parent
    once, at the very end, the parent never; and every CPU either pins
    itself to is below [cpus]. *)
Theorem child_runs_until_told_to_stop (have_affinity : bool) (now : nat -> Z)
    (instance cpus : Z) (func : Z -> bool -> Z -> M Z) (index : Z) (parent : bool)
    (l1 : Z) (affinity : bool) (N fuel : nat) (w : wstate) :
  0 < cpus < 2 ^ 32 ->
  (forall c, exists rc c',
      func index parent l1 c = Some (rc, c') /\
      ks c' = ks c /\ (polls c <= polls c')%nat) ->
  (forall n, (N <= n)%nat -> ks (shared w) n = false) ->
  (N - polls (shared w) < fuel)%nat ->
  exists rc w' (k : nat) added,
    stress_cacheline_child have_affinity now instance cpus fuel func index parent
      l1 affinity w = Some (rc, w') /\
    notes w' = notes w ++ added /\
    statuses added = replicate k EXIT_SUCCESS ++ [rc] /\
    counter w' = counter w + (if parent then Z.of_nat (S k) else 0) /\
    occurrences IncCounter added = (if parent then S k else O) /\
    (if parent then occurrences KillParent added = O
     else exists pre, added = pre ++ [KillParent] /\ occurrences KillParent pre = O) /\
    pinned_below cpus added.
Proof.
  intros Hcpus Hfunc Hstop Hfuel.
  destruct (child_runs have_affinity now instance cpus Hcpus func index parent l1
              affinity (fun _ => True) (fun _ => True) (fun _ _ _ => I)) with (N := N) (fuel := fuel) (w := w)
    as (rc & w' & k & added & Hrun & Hn & Hst & Hc & Hi & Hk & Hp & _); auto.
  - intros c _. destruct (Hfunc c) as (rc & c' & H1 & H2 & H3).
    exists rc, c'. auto.
  - exists rc, w', k, added. auto 10.
Qed.

Lemma child_runs_until_told_to_stop_witness :
  exists rc w' (k : nat) added,
    stress_cacheline_child true (fun _ => 7) 0 4 1
      (fun _ _ _ => ret EXIT_FAILURE) 1 false 64 true
      (launch (boot 4096 64 (fun _ => false))) = Some (rc, w') /\
    notes w' = [] ++ added /\
    statuses added = replicate k EXIT_SUCCESS ++ [rc] /\
    counter w' = 0 + 0 /\
    occurrences IncCounter added = O /\
    (exists pre, added = pre ++ [KillParent] /\ occurrences KillParent pre = O) /\
    pinned_below 4 added.
Proof.
  apply (child_runs_until_told_to_stop true (fun _ => 7) 0 4
           (fun _ _ _ => ret EXIT_FAILURE) 1 false 64 true 0 1
           (launch (boot 4096 64 (fun _ => false)))).
  - lia.
  - intros c. exists EXIT_FAILURE, c. split; [reflexivity|]. split; [reflexivity|]. lia.
  - reflexivity.
  - cbn. lia.
Defined.

(** *** The routines of the registry as the workers call them *)

Import CachelineFacts.

Local Open Scope cl_scope.

(** The loop of "all" when every routine passes. *)
Lemma all_loop_succeeds (methods : list stress_cacheline_method_t)
    (invoke : stress_cacheline_func -> Z -> bool -> Z -> M Z)
    (index : Z) (parent : bool) (l1 : Z) (size : Z) :
  (forall j me c,
      (1 <= j)%nat -> methods !! j = Some me -> g_cacheline_size c = size ->
      exists c', invoke (func me) index parent l1 c = Some (EXIT_SUCCESS, c') /\
                 view c' = view c) ->
  forall k i c,
  (1 <= i)%nat -> g_cacheline_size c = size -> (length methods <= i + k)%nat ->
  exists c',
    all_loop methods invoke k i index parent l1 c = Some (EXIT_SUCCESS, c') /\
    ks c' = ks c /\ (polls c <= polls c')%nat /\ failures c' = failures c /\
    g_cacheline_size c' = size.
Proof.
  intros Hinv. induction k as [|k IH]; intros i c Hi Hsize Hlen.
  - assert (Hnone : methods !! i = None) by (apply lookup_ge_None; lia).
    cbn [all_loop]. unfold bind, keep_stressing.
    destruct (ks c (polls c)); rewrite ?Hnone; cbn;
      eexists; (split; [reflexivity|]); cbn; repeat split; auto; lia.
  - cbn [all_loop]. unfold bind at 1. unfold keep_stressing at 1.
    destruct (ks c (polls c)).
    2:{ eexists. split; [reflexivity|]. cbn. repeat split; auto; lia. }
    destruct (methods !! i) as [me|] eqn:Eme.
    2:{ eexists. split; [reflexivity|]. cbn. repeat split; auto; lia. }
    unfold bind at 1. unfold note_call at 1. unfold bind at 1.
    destruct (Hinv i me (log_call i (set_polls (S (polls c)) c)) Hi Eme Hsize)
      as (c2 & Hrun & Hv).
    rewrite Hrun. unfold bind at 1. unfold note_return at 1.
    rewrite Z.eqb_refl. cbn [negb].
    unfold view in Hv. cbn in Hv. injection Hv as Hg Hs Hks Hp Hf Hc Hr.
    destruct (IH (S i) (log_return EXIT_SUCCESS c2) ltac:(lia)
                ltac:(cbn; congruence) ltac:(lia))
      as (c' & Hrun' & Hks' & Hp' & Hf' & Hs').
    exists c'. split; [exact Hrun'|]. cbn in Hks', Hp', Hf'.
    split; [congruence|]. split; [lia|]. split; [congruence | exact Hs'].
Qed.

(** Any entry of the registry, "all" included, called through its
    pointer under single-process execution. *)
Lemma call_succeeds a b depth f index parent l1 c :
  0 <= g_cacheline_size c <= 8 * Z.of_nat depth ->
  g_cacheline_size c <= 2 ^ 64 - 8 ->
  exists c',
    call a b (S (S depth)) f index parent l1 c = Some (EXIT_SUCCESS, c') /\
    ks c' = ks c /\ (polls c <= polls c')%nat /\ failures c' = failures c /\
    g_cacheline_size c' = g_cacheline_size c.
Proof.
  intros Hcs Hmax.
  assert (Hcase : f = f_all \/ f <> f_all)
    by (destruct f; [left; reflexivity | right; discriminate ..]).
  destruct Hcase as [->|Hf].
  - change (call a b (S (S depth)) f_all index parent l1 c)
      with (all_loop (cacheline_methods a) (call a b (S depth))
              (length (cacheline_methods a)) 1 index parent l1 c).
    apply (all_loop_succeeds (cacheline_methods a) (call a b (S depth)) index parent l1
             (g_cacheline_size c)); [|lia|reflexivity|lia].
    intros j me c0 Hj Hme Hsize.
    destruct (wp_elim _ _ _ (call_sub_ok a b depth (func me) index parent l1 c0
                               (cacheline_methods_sub a j me Hj Hme)
                               ltac:(rewrite Hsize; exact Hcs)
                               ltac:(rewrite Hsize; exact Hmax)))
      as (rc & c' & Hrun & -> & Hv).
    exists c'. split; [exact Hrun | exact Hv].
  - destruct (wp_elim _ _ _ (call_sub_ok a b (S depth) f index parent l1 c Hf
                               ltac:(lia) Hmax))
      as (rc & c' & Hrun & -> & Hv).
    exists c'. split; [exact Hrun|].
    unfold view in Hv. injection Hv as Hg Hs Hks Hp Hfl Hc Hr.
    repeat split; [exact Hks | lia | exact Hfl | exact Hs].
Qed.

(** X9.  A worker that runs alone on the memory, with any method of
    the table, a line of at most [2 ^ 64 - 8] bytes that the fuel
    [depth] of the read loops covers, and a [keep_stressing] that says
    stop from its call [N] on: [stress_cacheline_child] returns
    EXIT_SUCCESS, the [S k] calls of the method having all returned
    EXIT_SUCCESS, and no failure is reported; the parent's bogo-op
    counter grows by the number of calls.  The worker runs until it is
    told to stop: the answers of [keep_stressing] are as they were, and
    the last call of it that was made, call [p], was made during this
    run and answered stop. *)
Theorem workers_raise_no_false_alarm (a b have_affinity : bool) (now : nat -> Z)
    (instance cpus : Z) (f : stress_cacheline_func) (index : Z) (parent : bool)
    (l1 : Z) (affinity : bool) (depth N fuel : nat) (w : wstate) :
  0 < cpus < 2 ^ 32 ->
  0 <= g_cacheline_size (shared w) <= 8 * Z.of_nat depth ->
  g_cacheline_size (shared w) <= 2 ^ 64 - 8 ->
  (forall n, (N <= n)%nat -> ks (shared w) n = false) ->
  (N - polls (shared w) < fuel)%nat ->
  exists w' (k : nat) added,
    stress_cacheline_child have_affinity now instance cpus fuel
      (call a b (S (S depth)) f) index parent l1 affinity w
    = Some (EXIT_SUCCESS, w') /\
    notes w' = notes w ++ added /\
    statuses added = replicate (S k) EXIT_SUCCESS /\
    counter w' = counter w + (if parent then Z.of_nat (S k) else 0) /\
    failures (shared w') = failures (shared w) /\
    ks (shared w') = ks (shared w) /\
    (exists p, polls (shared w') = S p /\ (polls (shared w) <= p)%nat /\
               ks (shared w) p = false).
Proof.
  intros Hcpus Hcs Hmax Hstop Hfuel.
  destruct (child_runs have_affinity now instance cpus Hcpus
              (call a b (S (S depth)) f) index parent l1 affinity
              (fun c => g_cacheline_size c = g_cacheline_size (shared w) /\
                        failures c = failures (shared w))
              (fun rc => rc = EXIT_SUCCESS)
              (fun c n H => H))
    with (N := N) (fuel := fuel) (w := w)
    as (rc & w' & k & added & Hrun & Hn & Hst & Hc & _ & _ & _ & Hks & (_ & Hf)
        & -> & Hend);
    auto.
  - intros c (Hsize & Hfail).
    destruct (call_succeeds a b depth f index parent l1 c
                ltac:(rewrite Hsize; exact Hcs) ltac:(rewrite Hsize; exact Hmax))
      as (c' & Hrun & Hks & Hp & Hf & Hs).
    exists EXIT_SUCCESS, c'. split; [exact Hrun|].
    repeat split; [exact Hks | exact Hp | congruence | congruence].
  - exists w', k, added. split; [exact Hrun|]. split; [exact Hn|].
    split.
    { rewrite Hst. clear. induction k as [|k IH]; [reflexivity|].
      cbn [replicate app]. rewrite IH. reflexivity. }
    split; [exact Hc|]. split; [exact Hf|]. split; [exact Hks|].
    destruct (Hend eq_refl) as (p & Hp & Hge & Hfalse).
    exists p. split; [exact Hp|]. split; [exact Hge | exact Hfalse].
Qed.

Lemma workers_raise_no_false_alarm_witness :
  exists w' (k : nat) added,
    stress_cacheline_child true (fun _ => 7) 0 4 26
      (call true true 10 f_all) 0 true 64 true
      (launch (boot 4096 64 (fun n => (n <? 25)%nat)))
    = Some (EXIT_SUCCESS, w') /\
    notes w' = [] ++ added /\
    statuses added = replicate (S k) EXIT_SUCCESS /\
    counter w' = 0 + Z.of_nat (S k) /\
    failures (shared w') = [] /\
    ks (shared w') = (fun n => (n <? 25)%nat) /\
    (exists p, polls (shared w') = S p /\ (0 <= p)%nat /\ (p <? 25)%nat = false).
Proof.
  apply (workers_raise_no_false_alarm true true true (fun _ => 7) 0 4 f_all 0 true
           64 true 8 25 26 (launch (boot 4096 64 (fun n => (n <? 25)%nat)))).
  - lia.
  - cbn. lia.
  - cbn. lia.
  - intros n Hn. change ((n <? 25)%nat = false). apply Nat.ltb_ge. exact Hn.
  - cbn. lia.
Defined.

(** *** Choosing the method *)

Lemma find_method_found (l : list stress_cacheline_method_t) :
  NoDup (map Cacheline.name l) ->
  forall i0 i m, l !! i = Some m ->
  find_method l i0 (Cacheline.name m) = Some (i0 + i)%nat.
Proof.
  induction l as [|m0 l IH]; intros Hnd i0 i m Hm; [discriminate|].
  cbn in Hnd. apply NoDup_cons in Hnd. destruct Hnd as [Hnotin Hnd].
  cbn [find_method]. destruct i as [|i]; cbn in Hm.
  - injection Hm as ->. rewrite String.eqb_refl. f_equal. lia.
  - destruct (String.eqb_spec (Cacheline.name m0) (Cacheline.name m)) as [Heq|_].
    + exfalso. apply Hnotin. rewrite Heq.
      apply list_elem_of_fmap. exists m. split; [reflexivity|].
      apply list_elem_of_lookup. eauto.
    + rewrite (IH Hnd (S i0) i m Hm). f_equal. lia.
Qed.

Lemma find_method_unknown (l : list stress_cacheline_method_t) name :
  ~ In name (map Cacheline.name l) ->
  forall i0, find_method l i0 name = None.
Proof.
  induction l as [|m0 l IH]; intros Hnotin i0; [reflexivity|].
  cbn [find_method]. cbn in Hnotin.
  destruct (String.eqb_spec (Cacheline.name m0) name) as [Heq|_]; [tauto|].
  apply IH. tauto.
Qed.

Lemma cacheline_names_NoDup a : NoDup (map Cacheline.name (cacheline_methods a)).
Proof. destruct a; apply (bool_decide_unpack _); vm_compute; reflexivity. Qed.

(** X10.  [stress_set_cacheline_method] with the name of the entry at
    index [i] of the table returns 0, prints nothing and sets
    "cacheline-method" to [i]; the entry that [stress_cacheline] then
    fetches with the setting is that entry.  With a name that no entry
    has it returns -1, leaves the settings as they are and prints the
    names of all the entries. *)
Theorem set_cacheline_method_finds_the_entry (a : bool) (i : nat)
    (m : stress_cacheline_method_t) (st : gmap string Z) :
  cacheline_methods a !! i = Some m ->
  stress_set_cacheline_method (cacheline_methods a) (Cacheline.name m) st
  = (0, <["cacheline-method" := Z.of_nat i]> st, "") /\
  cacheline_methods a
    !! Z.to_nat (stress_get_setting "cacheline-method" 0
                   (<["cacheline-method" := Z.of_nat i]> st)) = Some m /\
  (forall name,
      ~ In name (map Cacheline.name (cacheline_methods a)) ->
      stress_set_cacheline_method (cacheline_methods a) name st
      = (-1, st,
         "cacheline-method must be one of: all adjacent"
         +:+ (if a then " atomicinc" else "")
         +:+ " bits copy inc mix rdfwd64 rdints rdrev64 rdwr" +:+ newline)).
Proof.
  intros Hm. split; [|split].
  - unfold stress_set_cacheline_method.
    rewrite (find_method_found _ (cacheline_names_NoDup a) O i m Hm). reflexivity.
  - unfold stress_get_setting. rewrite lookup_insert_eq, Nat2Z.id. exact Hm.
  - intros name Hname. unfold stress_set_cacheline_method.
    rewrite (find_method_unknown _ name Hname). destruct a; reflexivity.
Qed.

Lemma set_cacheline_method_finds_the_entry_witness :
  stress_set_cacheline_method (cacheline_methods true) "mix" ∅
  = (0, <["cacheline-method" := 6]> ∅, "").
Proof.
  exact (proj1 (set_cacheline_method_finds_the_entry true 6 (Method "mix" f_mix) ∅
                  eq_refl)).
Defined.

(** What [get_L1_line_size] returns and records, case by case. *)
Lemma get_L1_line_size_cases (linux : bool)
    (cpu_caches : option (option Z)) (instance : Z) :
  let size := fst (get_L1_line_size linux cpu_caches instance) in
  let found := snd (get_L1_line_size linux cpu_caches instance) in
  size <> 0 /\
  (size = DEFAULT_L1_SIZE \/ (linux = true /\ cpu_caches = Some (Some size))) /\
  (In FreeCpuCaches found <-> linux = true /\ cpu_caches <> None) /\
  ((exists text, In (PrInf text) found) <->
   instance = 0 /\
   ~ (linux = true /\ exists line_size,
        cpu_caches = Some (Some line_size) /\ line_size <> 0)).
Proof.
  intros size found. unfold size, found, get_L1_line_size. cbv zeta.
  destruct linux.
  2:{ cbn [fst snd]. split; [discriminate|]. split; [now left|]. split.
      - split; [|intros [H _]; discriminate].
        destruct (instance =? 0); cbn; intuition discriminate.
      - destruct (Z.eqb_spec instance 0) as [->|Hne]; cbn; split.
        + intros _. split; [reflexivity|]. intros [H _]. discriminate.
        + intros _. eexists. left. reflexivity.
        + intros [text []].
        + intros [H _]. contradiction. }
  destruct cpu_caches as [[line_size|]|]; cbn [fst snd].
  - destruct (Z.eqb_spec line_size 0) as [->|Hnz]; cbn [fst snd].
    + split; [discriminate|]. split; [now left|]. split.
      * split; [intros _; split; [reflexivity | discriminate]|].
        intros _. apply in_app_iff. right. now left.
      * destruct (Z.eqb_spec instance 0) as [->|Hne]; cbn; split.
        -- intros _. split; [reflexivity|].
           intros (_ & ls & [= <-] & Hls). contradiction.
        -- intros _. eexists. left. reflexivity.
        -- intros (text & [H|[]]). discriminate.
        -- intros [H _]. contradiction.
    + split; [exact Hnz|]. split; [right; auto|]. split.
      * split; [intros _; split; [reflexivity | discriminate]|].
        intros _. now left.
      * split.
        -- intros (text & [H|[]]). discriminate.
        -- intros [_ H]. exfalso. apply H. split; [reflexivity|]. eauto.
  - split; [discriminate|]. split; [now left|]. split.
    + split; [intros _; split; [reflexivity | discriminate]|].
      intros _. apply in_app_iff. right. now left.
    + destruct (Z.eqb_spec instance 0) as [->|Hne]; cbn; split.
      * intros _. split; [reflexivity|].
        intros (_ & ls & [=] & _).
      * intros _. eexists. left. reflexivity.
      * intros (text & [H|[]]). discriminate.
      * intros [H _]. contradiction.
  - split; [discriminate|]. split; [now left|]. split.
    + split; [|intros [_ H]; contradiction].
      destruct (instance =? 0); cbn; intuition discriminate.
    + destruct (Z.eqb_spec instance 0) as [->|Hne]; cbn; split.
      * intros _. split; [reflexivity|].
        intros (_ & ls & [=] & _).
      * intros _. eexists. left. reflexivity.
      * intros [text []].
      * intros [H _]. contradiction.
Qed.

(** X11.  [get_L1_line_size] never returns 0.  On Linux, when a level
    1 cache was found with a line size that is not 0, the result is
    that line size; in every other case it is DEFAULT_L1_SIZE.  The
    cache details are freed exactly when they were found, and a
    message is printed exactly when the default is used and the
    instance is 0. *)
Theorem get_L1_line_size_is_never_zero (linux : bool)
    (cpu_caches : option (option Z)) (instance : Z) :
  let size := fst (get_L1_line_size linux cpu_caches instance) in
  let found := snd (get_L1_line_size linux cpu_caches instance) in
  size <> 0 /\
  (forall line_size,
      linux = true -> cpu_caches = Some (Some line_size) -> line_size <> 0 ->
      size = line_size) /\
  (~ (linux = true /\ exists line_size,
        cpu_caches = Some (Some line_size) /\ line_size <> 0) ->
   size = DEFAULT_L1_SIZE) /\
  (In FreeCpuCaches found <-> linux = true /\ cpu_caches <> None) /\
  ((exists text, In (PrInf text) found) <->
   instance = 0 /\
   ~ (linux = true /\ exists line_size,
        cpu_caches = Some (Some line_size) /\ line_size <> 0)).
Proof.
  intros size found.
  destruct (get_L1_line_size_cases linux cpu_caches instance)
    as (Hnz & _ & Hfree & Hinf).
  split; [exact Hnz|]. split; [|split; [|split; [exact Hfree | exact Hinf]]].
  - intros line_size -> -> Hls. unfold size, get_L1_line_size. cbv zeta.
    destruct (Z.eqb_spec line_size 0) as [E|_]; [contradiction | reflexivity].
  - intros Hnone. unfold size, get_L1_line_size. cbv zeta.
    destruct linux; [|reflexivity].
    destruct cpu_caches as [[line_size|]|]; try reflexivity.
    destruct (Z.eqb_spec line_size 0) as [E|Hls]; [reflexivity|].
    exfalso. apply Hnone. split; [reflexivity|]. exists line_size. auto.
Qed.

(** *** [fork] and the exit status *)

Section Fork.

Variable have_affinity : bool.
Variable now : nat -> Z.
Variable instance : Z.
Variable cpus : Z.
Hypothesis cpus_range : 0 < cpus < 2 ^ 32.
Variable func : Z -> bool -> Z -> M Z.
Variables (l1 : Z) (affinity : bool).
Hypothesis func_returns :
  forall index parent c, exists rc c',
    func index parent l1 c = Some (rc, c') /\
    ks c' = ks c /\ (polls c <= polls c')%nat.
Variable forks : nat -> forked.
Variables (N rounds : nat) (w : wstate).
Hypothesis told_to_stop : forall n, (N <= n)%nat -> ks (shared w) n = false.
Hypothesis rounds_enough : (N - polls (shared w) < rounds)%nat.

Lemma from_again_outcome (j : nat) :
  forall fuel k0,
  (forall i, (i < j)%nat -> forks (k0 + i)%nat = ForkFailed true) ->
  forks (k0 + j)%nat <> ForkFailed true ->
  (j < fuel)%nat ->
  exists e w' added,
    from_again have_affinity now instance cpus fuel rounds forks k0 func l1
      affinity w = Some (e, w') /\
    notes w' = notes w ++ added /\
    pinned_below cpus added /\
    match forks (k0 + j)%nat with
    | ForkFailed _ =>
        e = Return (if ks (shared w) (polls (shared w))
                    then EXIT_NO_RESOURCE else EXIT_SUCCESS) /\
        statuses added = [] /\ counter w' = counter w
    | InChild =>
        exists rc (k : nat) pre,
          e = Exit rc /\
          statuses added = replicate k EXIT_SUCCESS ++ [rc] /\
          added = pre ++ [KillParent] /\ occurrences KillParent pre = O /\
          counter w' = counter w
    | InParent pid wexitstatus =>
        exists rc (k : nat) pre,
          e = Return (match wexitstatus with
                      | Some code => if code =? EXIT_SUCCESS then EXIT_SUCCESS else code
                      | None => EXIT_SUCCESS
                      end) /\
          statuses added = replicate k EXIT_SUCCESS ++ [rc] /\
          added = pre ++ [Kill pid; Waitpid pid] /\
          occurrences KillParent added = O /\
          counter w' = counter w + Z.of_nat (S k)
    end.
Proof.
  induction j as [|j IH]; intros fuel k0 Hredo Hlast Hfuel.
  - destruct fuel as [|fuel]; [lia|]. cbn [from_again]. cbv zeta.
    rewrite Nat.add_0_r in *.
    destruct (forks k0) as [[|]| |pid st] eqn:Ef.
    + contradiction.
    + unfold keep_stressing.
      destruct (ks (shared w) (polls (shared w))); cbn [negb].
      * eexists _, _, [PrErr "fork failed"]. split; [reflexivity|].
        split; [reflexivity|]. split; [intros cpu [H|[]]; discriminate|].
        repeat split.
      * eexists _, _, []. split; [reflexivity|].
        split; [cbn; now rewrite app_nil_r|]. split; [intros cpu []|].
        repeat split.
    + destruct (child_runs have_affinity now instance cpus cpus_range func
                  (worker_index instance + 1) false l1 affinity
                  (fun _ => True) (fun _ => True) (fun _ _ _ => I))
        with (N := N) (fuel := rounds) (w := w)
        as (rc & w' & k & added & Hrun & Hn & Hst & Hc & _ & (pre & Hpre & Hk) & Hp & _);
        auto.
      { intros c _. destruct (func_returns (worker_index instance + 1) false c)
          as (rc & c' & H1 & H2 & H3). exists rc, c'. auto. }
      rewrite Hrun. exists (Exit rc), w', added.
      split; [reflexivity|]. split; [exact Hn|]. split; [exact Hp|].
      exists rc, k, pre. rewrite Z.add_0_r in Hc. auto.
    + destruct (child_runs have_affinity now instance cpus cpus_range func
                  (worker_index instance) true l1 affinity
                  (fun _ => True) (fun _ => True) (fun _ _ _ => I))
        with (N := N) (fuel := rounds) (w := w)
        as (rc & w' & k & added & Hrun & Hn & Hst & Hc & _ & Hk & Hp & _);
        auto.
      { intros c _. destruct (func_returns (worker_index instance) true c)
          as (rc & c' & H1 & H2 & H3). exists rc, c'. auto. }
      rewrite Hrun.
      eexists _, _, (added ++ [Kill pid; Waitpid pid]).
      split; [reflexivity|].
      split; [cbn; rewrite Hn, <- !app_assoc; reflexivity|].
      split.
      { apply pinned_below_app; [exact Hp|].
        intros cpu [H|[H|[]]]; discriminate. }
      exists rc, k, added.
      split.
      { destruct st as [code|]; [|reflexivity].
        destruct (code =? EXIT_SUCCESS); reflexivity. }
      split; [rewrite statuses_app, Hst; cbn; apply app_nil_r|].
      split; [reflexivity|].
      split; [rewrite occurrences_app, Hk; reflexivity|].
      exact Hc.
  - destruct fuel as [|fuel]; [lia|]. cbn [from_again]. cbv zeta.
    pose proof (Hredo O ltac:(lia)) as H0. rewrite Nat.add_0_r in H0. rewrite H0.
    replace (k0 + S j)%nat with (S k0 + j)%nat in * by lia.
    apply IH; [|exact Hlast|lia].
    intros i Hi. replace (S k0 + i)%nat with (k0 + S i)%nat by lia.
    apply Hredo. lia.
Qed.

End Fork.

(** X12.  [stress_cacheline] from the label [again] on, when [fork]
    fails [j] times with an error that is retried and then gives
    something else.  On a failure that is not retried it returns
    without a call of the method: EXIT_SUCCESS if [keep_stressing] says
    stop, EXIT_NO_RESOURCE if not.  In the child the process exits with
    the status of its worker loop, the signal to the parent being the
    last thing it does, and counts no bogo-op.  In the parent it kills
    and reaps the child as the last things it does and returns the
    child's exit code when the child exited with one other than
    EXIT_SUCCESS, and EXIT_SUCCESS otherwise, whatever status [rc] its
    own worker loop had. *)
Theorem fork_decides_the_ending (have_affinity : bool) (now : nat -> Z)
    (instance cpus : Z) (func : Z -> bool -> Z -> M Z) (l1 : Z) (affinity : bool)
    (forks : nat -> forked) (N rounds j fuel : nat) (w : wstate) :
  0 < cpus < 2 ^ 32 ->
  (forall index parent c, exists rc c',
      func index parent l1 c = Some (rc, c') /\
      ks c' = ks c /\ (polls c <= polls c')%nat) ->
  (forall n, (N <= n)%nat -> ks (shared w) n = false) ->
  (N - polls (shared w) < rounds)%nat ->
  (forall i, (i < j)%nat -> forks i = ForkFailed true) ->
  forks j <> ForkFailed true ->
  (j < fuel)%nat ->
  exists e w' added,
    from_again have_affinity now instance cpus fuel rounds forks O func l1
      affinity w = Some (e, w') /\
    notes w' = notes w ++ added /\
    match forks j with
    | ForkFailed _ =>
        e = Return (if ks (shared w) (polls (shared w))
                    then EXIT_NO_RESOURCE else EXIT_SUCCESS) /\
        statuses added = [] /\ counter w' = counter w
    | InChild =>
        exists rc (k : nat) pre,
          e = Exit rc /\
          statuses added = replicate k EXIT_SUCCESS ++ [rc] /\
          added = pre ++ [KillParent] /\ occurrences KillParent pre = O /\
          counter w' = counter w
    | InParent pid wexitstatus =>
        exists rc (k : nat) pre,
          e = Return (match wexitstatus with
                      | Some code => if code =? EXIT_SUCCESS then EXIT_SUCCESS else code
                      | None => EXIT_SUCCESS
                      end) /\
          statuses added = replicate k EXIT_SUCCESS ++ [rc] /\
          added = pre ++ [Kill pid; Waitpid pid] /\
          occurrences KillParent added = O /\
          counter w' = counter w + Z.of_nat (S k)
    end.
Proof.
  intros Hcpus Hfunc Hstop Hrounds Hredo Hlast Hfuel.
  destruct (from_again_outcome have_affinity now instance cpus Hcpus func l1
              affinity Hfunc forks N rounds w Hstop Hrounds j fuel O Hredo Hlast Hfuel)
    as (e & w' & added & Hrun & Hn & _ & Hcase).
  exists e, w', added. split; [exact Hrun|]. split; [exact Hn | exact Hcase].
Qed.

(** The theorem for a parent whose own routine reports a failure while
    the child exits with EXIT_SUCCESS. *)
Lemma fork_decides_the_ending_witness :
  exists w',
    from_again false (fun _ => 0) 0 4 1 1 (fun _ => InParent 77 (Some 0)) O
      (fun _ _ _ => ret EXIT_FAILURE) 64 false
      (launch (boot 4096 64 (fun _ => false))) = Some (Return EXIT_SUCCESS, w') /\
    statuses (notes w') = [EXIT_FAILURE].
Proof.
  destruct (fork_decides_the_ending false (fun _ => 0) 0 4
              (fun _ _ _ => ret EXIT_FAILURE) 64 false
              (fun _ => InParent 77 (Some 0)) 0 1 0 1
              (launch (boot 4096 64 (fun _ => false))))
    as (e & w' & added & Hrun & Hn & rc & k & pre & -> & Hst & _).
  - lia.
  - intros index parent c. exists EXIT_FAILURE, c.
    split; [reflexivity|]. split; [reflexivity|]. lia.
  - reflexivity.
  - cbn. lia.
  - intros i Hi. lia.
  - discriminate.
  - lia.
  - exists w'. split; [exact Hrun|].
    injection Hrun as <-. reflexivity.
Defined.

(** X13.  [stress_cacheline] with the settings that
    [stress_set_cacheline_method] left for the name of an entry goes on
    to fork with the routine of that entry, the line size of
    [get_L1_line_size] and the affinity option as set; with no setting
    it goes on with the method "all" and no change of affinity.  What
    it did before, besides printing the name of the method, leaves the
    memory, the counter and the statuses as they were. *)
Theorem stress_cacheline_runs_the_method_chosen (have_affinity : bool)
    (now : nat -> Z) (instance num_instances cpus : Z) (a b linux : bool)
    (cpu_caches : option (option Z)) (st : gmap string Z) (i : nat)
    (m : stress_cacheline_method_t) (fuel rounds depth : nat)
    (forks : nat -> forked) (w : wstate) :
  cacheline_methods a !! i = Some m ->
  let chosen :=
    snd (fst (stress_set_cacheline_method (cacheline_methods a)
                (Cacheline.name m) st)) in
  let l1 := fst (get_L1_line_size linux cpu_caches instance) in
  (exists w0,
      stress_cacheline have_affinity now instance num_instances cpus a b linux
        cpu_caches chosen fuel rounds depth forks w
      = from_again have_affinity now instance cpus fuel rounds forks O
          (call a b depth (func m)) l1
          (negb (stress_get_setting "cacheline-affinity" 0 st =? 0)) w0 /\
      shared w0 = shared w /\ counter w0 = counter w /\
      statuses (notes w0) = statuses (notes w) /\
      In (PrDbg ("using method " +:+ Cacheline.name m)) (notes w0)) /\
  (exists w0,
      stress_cacheline have_affinity now instance num_instances cpus a b linux
        cpu_caches ∅ fuel rounds depth forks w
      = from_again have_affinity now instance cpus fuel rounds forks O
          (call a b depth f_all) l1 false w0 /\
      shared w0 = shared w /\ counter w0 = counter w /\
      statuses (notes w0) = statuses (notes w) /\
      In (PrDbg "using method all") (notes w0)).
Proof.
  intros Hm chosen l1.
  assert (Hst : forall found, statuses (notes w ++ found) = statuses (notes w) ->
            forall w1, notes w1 = notes w ++ found -> statuses (notes w1) = statuses (notes w)).
  { intros found H w1 ->. exact H. }
  assert (Hfound : statuses (snd (get_L1_line_size linux cpu_caches instance)) = []).
  { unfold get_L1_line_size. cbv zeta.
    destruct linux, cpu_caches as [[ls|]|]; try destruct (ls =? 0);
      destruct (instance =? 0); reflexivity. }
  split.
  - unfold chosen.
    destruct (set_cacheline_method_finds_the_entry a i m st Hm) as (Hset & Hget & _).
    rewrite Hset. cbn [fst snd]. unfold stress_cacheline.
    destruct (get_L1_line_size linux cpu_caches instance) as [size found] eqn:Eg.
    cbn [fst snd] in *. unfold l1. cbv zeta.
    rewrite Hget.
    replace (stress_get_setting "cacheline-affinity" 0
               (<["cacheline-method" := Z.of_nat i]> st))
      with (stress_get_setting "cacheline-affinity" 0 st)
      by (unfold stress_get_setting; rewrite lookup_insert_ne by discriminate;
          reflexivity).
    eexists. split; [reflexivity|].
    destruct (instance =? 0); [destruct (_ <? size)|]; cbn;
      rewrite ?statuses_app, ?Hfound; cbn; rewrite ?app_nil_r;
      repeat split; rewrite ?in_app_iff; cbn; auto.
  - unfold stress_cacheline.
    destruct (get_L1_line_size linux cpu_caches instance) as [size found] eqn:Eg.
    cbn [fst snd] in *. unfold l1. cbv zeta.
    unfold stress_get_setting. rewrite !lookup_empty. cbn [Z.to_nat].
    assert (H0 : cacheline_methods a !! O = Some (Method "all" f_all))
      by (destruct a; reflexivity).
    change (Z.to_nat 0) with O. rewrite H0. cbn [func Cacheline.name negb Z.eqb].
    eexists. split; [reflexivity|].
    destruct (instance =? 0); [destruct (_ <? size)|]; cbn;
      rewrite ?statuses_app, ?Hfound; cbn; rewrite ?app_nil_r;
      repeat split; rewrite ?in_app_iff; cbn; auto.
Qed.

Lemma stress_cacheline_runs_the_method_chosen_witness :
  exists w0,
    stress_cacheline false (fun _ => 0) 0 1 4 true true true (Some (Some 64))
      (<["cacheline-method" := 6]> ∅) 1 1 10 (fun _ => InChild)
      (launch (boot 4096 64 (fun _ => false)))
    = from_again false (fun _ => 0) 0 4 1 1 (fun _ => InChild) O
        (call true true 10 f_mix) 64 false w0.
Proof.
  destruct (stress_cacheline_runs_the_method_chosen false (fun _ => 0) 0 1 4
              true true true (Some (Some 64)) ∅ 6 (Method "mix" f_mix) 1 1 10
              (fun _ => InChild) (launch (boot 4096 64 (fun _ => false))) eq_refl)
    as [(w0 & H & _) _].
  exists w0. exact H.
Defined.

End CachelineWorkerFacts.

Module MisalignedSetupFacts.
Import Misaligned MisalignedFacts Settings MisalignedSetup.

(** *** The bytes the routines touch *)







(** *** Choosing the method *)

Lemma misaligned_find_method_found (l : list stress_misaligned_method_info_t) :
  NoDup (map Misaligned.name l) ->
  forall i0 i info, l !! i = Some info ->
  find_method l i0 (Misaligned.name info) = Some (i0 + i)%nat.
Proof.
  induction l as [|m0 l IH]; intros Hnd i0 i info Hm; [discriminate|].
  cbn in Hnd. apply NoDup_cons in Hnd. destruct Hnd as [Hnotin Hnd].
  cbn [find_method]. destruct i as [|i]; cbn in Hm.
  - injection Hm as ->. rewrite String.eqb_refl. f_equal. lia.
  - destruct (String.eqb_spec (Misaligned.name m0) (Misaligned.name info)) as [Heq|_].
    + exfalso. apply Hnotin. rewrite Heq.
      apply list_elem_of_fmap. exists info. split; [reflexivity|].
      apply list_elem_of_lookup. eauto.
    + rewrite (IH Hnd (S i0) i info Hm). f_equal. lia.
Qed.

Lemma misaligned_find_method_unknown (l : list stress_misaligned_method_info_t) name :
  ~ In name (map Misaligned.name l) ->
  forall i0, find_method l i0 name = None.
Proof.
  induction l as [|m0 l IH]; intros Hnotin i0; [reflexivity|].
  cbn [find_method]. cbn in Hnotin.
  destruct (String.eqb_spec (Misaligned.name m0) name) as [Heq|_]; [tauto|].
  apply IH. tauto.
Qed.

Lemma misaligned_names_NoDup a b :
  NoDup (map Misaligned.name (stress_misaligned_methods a b)).
Proof.
  pose proof (registry_NoDup a b) as H. unfold registry_shape in H.
  rewrite map_map in H. exact H.
Qed.

(** X15.  [stress_set_misaligned_method] with the name of the entry at
    index [i] of the table returns 0, prints nothing and records that
    entry, which is the one [stress_misaligned] then fetches.
    [stress_misaligned_set_default] records the entry at index 0, which
    is "all", and so does [stress_misaligned] find when nothing was
    set.  With a name that no entry has the handler returns -1 and
    leaves the settings as they are. *)
Theorem set_misaligned_method_finds_the_entry (a b : bool) (i : nat)
    (info : stress_misaligned_method_info_t) (st : gmap string Z) :
  stress_misaligned_methods a b !! i = Some info ->
  stress_set_misaligned_method (stress_misaligned_methods a b)
    (Misaligned.name info) st
  = (0, <["misaligned-method" := Z.of_nat i]> st, "") /\
  misaligned_method (<["misaligned-method" := Z.of_nat i]> st) = i /\
  misaligned_method
    (stress_misaligned_set_default (stress_misaligned_methods a b) st) = O /\
  (Misaligned.name <$> stress_misaligned_methods a b !! O) = Some "all" /\
  misaligned_method ∅ = O /\
  (forall name,
      ~ In name (map Misaligned.name (stress_misaligned_methods a b)) ->
      fst (stress_set_misaligned_method (stress_misaligned_methods a b) name st)
      = (-1, st)).
Proof.
  intros Hm. split; [|split; [|split; [|split; [|split]]]].
  - unfold stress_set_misaligned_method.
    rewrite (misaligned_find_method_found _ (misaligned_names_NoDup a b) O i info Hm).
    reflexivity.
  - unfold misaligned_method, stress_get_setting.
    rewrite lookup_insert_eq. apply Nat2Z.id.
  - unfold stress_misaligned_set_default, stress_set_misaligned_method.
    assert (H0 : stress_misaligned_methods a b !! O = Some (Info "all" f_all false false))
      by reflexivity.
    change "all" with (Misaligned.name (Info "all" f_all false false)).
    rewrite (misaligned_find_method_found _ (misaligned_names_NoDup a b) O O _ H0).
    cbn [fst snd]. unfold misaligned_method, stress_get_setting, stress_set_setting.
    rewrite lookup_insert_eq. reflexivity.
  - reflexivity.
  - reflexivity.
  - intros name Hname. unfold stress_set_misaligned_method.
    rewrite (misaligned_find_method_unknown _ name Hname). reflexivity.
Qed.

Lemma set_misaligned_method_finds_the_entry_witness :
  stress_set_misaligned_method (stress_misaligned_methods true true) "int64wr" ∅
  = (0, <["misaligned-method" := 10]> ∅, "").
Proof.
  exact (proj1 (set_misaligned_method_finds_the_entry true true 10
                  (Info "int64wr" f_int64wr false false) ∅ eq_refl)).
Defined.

End MisalignedSetupFacts.

Module MisalignedRunFacts.
Import Misaligned MisalignedFacts MisalignedSetup.

(** *** Counting the entries that are not disabled *)

Lemma enabled_length_shift l : forall i j,
  length (enabled_indices i l) = length (enabled_indices j l).
Proof.
  induction l as [|m l IH]; intros i j; cbn; [reflexivity|].
  destruct (disabled m); cbn; rewrite (IH (S i) (S j)); reflexivity.
Qed.

Lemma enabled_length_exercised l : forall k i,
  length (enabled_indices k (alter (set_exercised true) i l))
  = length (enabled_indices k l).
Proof.
  induction l as [|m l IH]; intros k i; [reflexivity|].
  destruct i as [|i]; cbn.
  - destruct (disabled m); reflexivity.
  - destruct (disabled m); cbn; rewrite IH; reflexivity.
Qed.

Lemma enabled_length_disabled l : forall k i info,
  l !! i = Some info -> disabled info = false ->
  S (length (enabled_indices k (alter (set_disabled true) i l)))
  = length (enabled_indices k l).
Proof.
  induction l as [|m l IH]; intros k i info Hi Hen; [discriminate|].
  destruct i as [|i]; cbn in Hi |- *.
  - injection Hi as ->. rewrite Hen. reflexivity.
  - destruct (disabled m); cbn; rewrite (IH _ _ _ Hi Hen); reflexivity.
Qed.

Lemma enabled_length_disabled_le l : forall k i,
  (length (enabled_indices k (alter (set_disabled true) i l))
   <= length (enabled_indices k l))%nat.
Proof.
  induction l as [|m l IH]; intros k i; [reflexivity|].
  destruct i as [|i]; cbn.
  - destruct (disabled m); cbn; lia.
  - destruct (disabled m); cbn; specialize (IH (S k) i); lia.
Qed.

Lemma enabled_count_le s : (enabled_count s <= length (methods s))%nat.
Proof.
  unfold enabled_count. generalize (methods s) O.
  induction l as [|m l IH]; intros k; cbn; [lia|].
  destruct (disabled m); cbn; specialize (IH (S k)); lia.
Qed.

(** The part of the state the dispatch loop decides on. *)
Lemma enabled_count_mark i s : enabled_count (mark_exercised i s) = enabled_count s.
Proof. apply enabled_length_exercised. Qed.

Lemma enabled_count_disable i s info :
  methods s !! i = Some info -> disabled info = false ->
  S (enabled_count (disable i s)) = enabled_count s.
Proof. apply enabled_length_disabled. Qed.

Lemma enabled_count_disable_le i s :
  (enabled_count (disable i s) <= enabled_count s)%nat.
Proof. apply enabled_length_disabled_le. Qed.

Section Termination.

Variable shape0 : list (string * stress_misaligned_func).
Hypothesis subs :
  forall j nf, (1 <= j)%nat -> shape0 !! j = Some nf -> nf.2 <> f_all.

Lemma all_loop_settles depth k i s :
  (1 <= i)%nat -> shape s = shape0 -> (length shape0 <= i + k)%nat ->
  match all_loop (call (S depth)) k i s with
  | Returned s' =>
      (enabled_count s' <= enabled_count s)%nat /\
      ks s' = ks s /\ polls s' = polls s /\ shape s' = shape0
  | Jumped s' =>
      (enabled_count s' < enabled_count s)%nat /\
      ks s' = ks s /\ polls s' = polls s /\ shape s' = shape0
  | Diverged => False
  end.
Proof.
  intros Hi Hs Hlen.
  apply (all_loop_cases shape0 subs
           (fun i s o =>
              match o with
              | Returned s' =>
                  (enabled_count s' <= enabled_count s)%nat /\
                  ks s' = ks s /\ polls s' = polls s /\ shape s' = shape0
              | Jumped s' =>
                  (enabled_count s' < enabled_count s)%nat /\
                  ks s' = ks s /\ polls s' = polls s /\ shape s' = shape0
              | Diverged => False
              end));
    try assumption; clear i s Hi Hs Hlen.
  - intros i s Hs _. auto.
  - intros i s info o _ _ _ _ IH. exact IH.
  - intros i s info o Hs Hi Hinfo Hen Hf IH.
    assert (He : enabled_count (after_run i s) = enabled_count s).
    { change (enabled_count (mark_exercised i (entered i s))
              = enabled_count (entered i s)).
      apply enabled_count_mark. }
    destruct o as [s'|s'|]; [| |exact IH];
      destruct IH as (H1 & H2 & H3 & H4); rewrite He in H1; auto.
  - intros i s info signum Hs Hi Hinfo Hen Hf.
    pose proof (enabled_count_disable i (set_handled_signum signum (entered i s))
                  info Hinfo Hen) as He.
    change (enabled_count (set_handled_signum signum (entered i s)))
      with (enabled_count s) in He.
    unfold after_trap. split; [lia|]. split; [reflexivity|].
    split; [reflexivity|]. rewrite shape_disable. exact Hs.
Qed.

(** A call through the pointer of the entry at [method], the static
    pointer designating this entry when it is a routine. *)
Lemma call_settles depth method info s :
  shape s = shape0 ->
  methods s !! method = Some info ->
  disabled info = false ->
  (func info = f_all \/ current_method s = Some method) ->
  match call (S (S depth)) (func info) s with
  | Returned s' =>
      (enabled_count s' <= enabled_count s)%nat /\
      ks s' = ks s /\ polls s' = polls s /\ shape s' = shape0 /\
      (func info = f_all \/ current_method s' = Some method)
  | Jumped s' =>
      (enabled_count s' < enabled_count s)%nat /\
      ks s' = ks s /\ polls s' = polls s /\ shape s' = shape0 /\
      (func info = f_all \/ current_method s' = Some method)
  | Diverged => False
  end.
Proof.
  intros Hs Hinfo Hen Hcur.
  destruct (decide (func info = f_all)) as [Hall|Hsub].
  - rewrite Hall, call_all. unfold stress_misaligned_all_with.
    pose proof (all_loop_settles depth (length (methods s)) 1 s ltac:(lia) Hs
                  ltac:(rewrite <- Hs, shape_length; lia)) as H.
    destruct (all_loop (call (S depth)) (length (methods s)) 1 s) as [s'|s'|];
      [| |exact H].
    + destruct H as (H1 & H2 & H3 & H4).
      destruct (negb (all_exercised s')).
      * pose proof (enabled_count_disable_le 0 s').
        split; [lia|]. split; [exact H2|]. split; [exact H3|].
        split; [rewrite shape_disable; exact H4 | now left].
      * repeat split; auto.
    + destruct H as (H1 & H2 & H3 & H4). repeat split; auto.
  - rewrite (call_routine _ _ _ Hsub). destruct Hcur as [Hcur|Hcur]; [contradiction|].
    unfold run_routine. destruct (faults s (invocations s)) as [signum|].
    + unfold stress_misaligned_handler. cbn [current_method set_handled_signum
                                               next_invocation].
      rewrite Hcur.
      pose proof (enabled_count_disable method
                    (set_handled_signum signum (next_invocation s)) info Hinfo Hen)
        as He.
      change (enabled_count (set_handled_signum signum (next_invocation s)))
        with (enabled_count s) in He.
      split; [lia|]. split; [reflexivity|]. split; [reflexivity|].
      split; [rewrite shape_disable; exact Hs|]. right. exact Hcur.
    + split; [reflexivity|]. split; [reflexivity|]. split; [reflexivity|].
      split; [exact Hs|]. right. exact Hcur.
Qed.

Lemma report_skip_same instance s :
  methods (report_skip instance s) = methods s /\
  ks (report_skip instance s) = ks s /\
  polls (report_skip instance s) = polls s /\
  current_method (report_skip instance s) = current_method s /\
  counter (report_skip instance s) = counter s.
Proof.
  unfold report_skip. destruct (instance =? 0); [|repeat split].
  destruct (current_method s) as [c|] eqn:Ec; [|repeat split; exact Ec].
  destruct (methods s !! c); repeat split; exact Ec.
Qed.

(** The dispatch loop returns: every trap disables one more entry and
    every completed call uses up one poll. *)
Lemma dispatch_returns depth instance method N fuel :
  forall s f0,
  shape s = shape0 ->
  shape0 !! method = Some f0 ->
  (f0.2 = f_all \/ current_method s = Some method) ->
  (forall n, (N <= n)%nat -> ks s n = false) ->
  (enabled_count s + (N - polls s) < fuel)%nat ->
  exists rc s',
    dispatch (S (S depth)) fuel instance method s = (Some rc, s') /\
    (rc = EXIT_SUCCESS \/ rc = EXIT_NO_RESOURCE) /\
    shape s' = shape0 /\
    (rc = EXIT_NO_RESOURCE -> (disabled <$> methods s' !! method) = Some true).
Proof.
  induction fuel as [|fuel IH]; intros s f0 Hs Hf0 Hcur Hstop Hfuel; [lia|].
  cbn [dispatch].
  assert (Hm : exists info, methods s !! method = Some info /\ func info = f0.2).
  { rewrite <- Hs in Hf0. unfold shape in Hf0. rewrite list_lookup_fmap in Hf0.
    destruct (methods s !! method) as [info|]; [|discriminate].
    injection Hf0 as <-. eauto. }
  destruct Hm as (info & Hinfo & Hfunc). rewrite Hinfo.
  destruct (disabled info) eqn:Hen.
  { exists EXIT_NO_RESOURCE, s. split; [reflexivity|]. split; [now right|].
    split; [exact Hs|]. intros _. rewrite Hinfo. cbn. now rewrite Hen. }
  pose proof (call_settles depth method info s Hs Hinfo Hen
                ltac:(rewrite Hfunc; exact Hcur)) as Hcall.
  destruct (call (S (S depth)) (func info) s) as [s1|s1|]; [| |contradiction].
  - destruct Hcall as (He & Hks & Hp & Hs1 & Hcur1).
    unfold keep_stressing. cbv beta iota zeta.
    set (s2 := inc_counter (mark_exercised method s1)).
    change (ks s2) with (ks s1). change (polls s2) with (polls s1).
    rewrite Hks, Hp.
    destruct (ks s (polls s)) eqn:Eks.
    + assert (Hlt : (polls s < N)%nat).
      { destruct (Nat.lt_ge_cases (polls s) N) as [H|H]; [exact H|].
        rewrite (Hstop _ H) in Eks. discriminate. }
      apply (IH (next_poll s2) f0).
      * change (shape (mark_exercised method s1) = shape0).
        rewrite shape_mark_exercised. exact Hs1.
      * exact Hf0.
      * rewrite Hfunc in Hcur1. exact Hcur1.
      * intros n Hn. change (ks s1 n = false). rewrite Hks. now apply Hstop.
      * change (enabled_count (next_poll s2))
          with (enabled_count (mark_exercised method s1)).
        rewrite enabled_count_mark.
        change (polls (next_poll s2)) with (S (polls s1)). rewrite Hp. lia.
    + exists EXIT_SUCCESS, (next_poll s2). split; [reflexivity|].
      split; [now left|]. split; [|discriminate].
      change (shape (mark_exercised method s1) = shape0).
      rewrite shape_mark_exercised. exact Hs1.
  - destruct Hcall as (He & Hks & Hp & Hs1 & Hcur1).
    destruct (report_skip_same instance s1) as (Rm & Rk & Rp & Rc & _).
    apply (IH (report_skip instance s1) f0).
    + unfold shape. rewrite Rm. exact Hs1.
    + exact Hf0.
    + rewrite Rc, <- Hfunc. exact Hcur1.
    + intros n Hn. rewrite Rk, Hks. now apply Hstop.
    + unfold enabled_count in *. rewrite Rm, Rp, Hp. lia.
Qed.

End Termination.

Lemma shape_enable_all s : shape (stress_misaligned_enable_all s) = shape s.
Proof.
  unfold shape, stress_misaligned_enable_all. cbn. rewrite map_map. reflexivity.
Qed.

Lemma exercised_report_methods instance s :
  methods (stress_misaligned_exercised instance s) = methods s.
Proof.
  unfold stress_misaligned_exercised.
  destruct (negb (instance =? 0)); [reflexivity|].
  destruct (exercised_string _ _ _ _) as [[str|]|]; reflexivity.
Qed.

Lemma exercised_report_methods_counter instance s :
  counter (stress_misaligned_exercised instance s) = counter s.
Proof.
  unfold stress_misaligned_exercised.
  destruct (negb (instance =? 0)); [reflexivity|].
  destruct (exercised_string _ _ _ _) as [[str|]|]; reflexivity.
Qed.

Lemma exercised_report_invocations instance s :
  invocations (stress_misaligned_exercised instance s) = invocations s.
Proof.
  unfold stress_misaligned_exercised.
  destruct (negb (instance =? 0)); [reflexivity|].
  destruct (exercised_string _ _ _ _) as [[str|]|]; reflexivity.
Qed.

(** *** The report *)

Lemma append_assoc (x y z : string) : (x +:+ y) +:+ z = x +:+ (y +:+ z).
Proof.
  induction x as [|c x IH]; [reflexivity|].
  change (String c ((x +:+ y) +:+ z) = String c (x +:+ (y +:+ z))).
  f_equal. exact IH.
Qed.

Lemma append_not_empty (x y : string) : y <> "" -> x +:+ y <> "".
Proof. intros Hy. destruct x; cbn; [exact Hy | discriminate]. Qed.

Lemma length_not_empty (t : string) :
  t <> "" -> (String.length t =? 0)%nat = false.
Proof. intros Ht. destruct t; [contradiction | reflexivity]. Qed.

Lemma join_cons x l : l <> [] -> join (x :: l) = x +:+ " " +:+ join l.
Proof. intros Hl. destruct l; [contradiction | reflexivity]. Qed.

(** The string the loop of the report builds, when its [realloc] calls
    succeed: the names of the entries exercised, a space between
    them. *)
Lemma exercised_string_spec ok l :
  Forall (fun m => name m <> "") l ->
  forall k str,
    match str with Some t => t <> "" | None => True end ->
    exercised_string ok k l str
    = if forallb ok
           (seq k (length (map name (filter (fun m => exercised m = true) l))))
      then Some (match map name (filter (fun m => exercised m = true) l) with
                 | [] => str
                 | x :: names =>
                     Some (match str with
                           | Some t => t +:+ " " +:+ join (x :: names)
                           | None => join (x :: names)
                           end)
                 end)
      else None.
Proof.
  induction 1 as [|m l Hm Hl IH]; intros k str Hstr; [reflexivity|].
  cbn [exercised_string].
  destruct (exercised m) eqn:E.
  2:{ rewrite filter_cons_False by congruence. apply IH. exact Hstr. }
  rewrite filter_cons_True by exact E.
  cbn [map length seq forallb].
  destruct (ok k); [|reflexivity]. cbn [andb]. cbv zeta.
  rewrite IH.
  2:{ apply append_not_empty. exact Hm. }
  destruct (forallb ok _); [|reflexivity].
  f_equal.
  destruct (map name (filter (fun m0 => exercised m0 = true) l)) as [|y names] eqn:En.
  - f_equal. destruct str as [t|].
    + rewrite (length_not_empty t Hstr), append_assoc. reflexivity.
    + reflexivity.
  - f_equal. rewrite (join_cons (name m) (y :: names)) by discriminate.
    destruct str as [t|].
    + rewrite (length_not_empty t Hstr), !append_assoc. reflexivity.
    + cbn [String.length Nat.eqb]. reflexivity.
Qed.

Lemma exercised_string_none ok l :
  Forall (fun m => exercised m = false) l ->
  forall k str, exercised_string ok k l str = Some str.
Proof.
  induction 1 as [|m l Hm Hl IH]; intros k str; [reflexivity|].
  cbn [exercised_string]. rewrite Hm. apply IH.
Qed.

(** No call changes the answers of [realloc]. *)
Lemma all_loop_realloc invoke :
  (forall f s, match invoke f s with
               | Returned s' | Jumped s' => realloc_ok s' = realloc_ok s
               | Diverged => True
               end) ->
  forall k i s,
    match all_loop invoke k i s with
    | Returned s' | Jumped s' => realloc_ok s' = realloc_ok s
    | Diverged => True
    end.
Proof.
  intros Hinv. induction k as [|k IH]; intros i s; cbn [all_loop];
    destruct (methods s !! i) as [info|]; try reflexivity; try exact I.
  destruct (disabled info); [apply IH|].
  pose proof (Hinv (func info) (log_call i (set_current_method (Some i) s))) as H.
  destruct (invoke _ _) as [s'|s'|]; [|exact H|exact I].
  pose proof (IH (S i) (set_all_exercised true (mark_exercised i s'))) as H2.
  destruct (all_loop _ _ _ _) as [s2|s2|]; [| |exact I];
    (rewrite H2; exact H).
Qed.

Lemma call_realloc depth :
  forall f s,
    match call depth f s with
    | Returned s' | Jumped s' => realloc_ok s' = realloc_ok s
    | Diverged => True
    end.
Proof.
  induction depth as [|depth IH]; intros f s; [exact I|].
  assert (Hrun : match run_routine s with
                 | Returned s' | Jumped s' => realloc_ok s' = realloc_ok s
                 | Diverged => True
                 end).
  { unfold run_routine, stress_misaligned_handler.
    destruct (faults s (invocations s)); [|reflexivity].
    cbn [current_method set_handled_signum next_invocation].
    destruct (current_method s); reflexivity. }
  destruct f; try exact Hrun.
  cbn [call]. unfold stress_misaligned_all_with.
  pose proof (all_loop_realloc (call depth) IH (length (methods s)) 1 s) as H.
  destruct (all_loop _ _ _ _) as [s'|s'|]; [|exact H|exact I].
  destruct (negb (all_exercised s')); exact H.
Qed.

Lemma report_skip_realloc instance s :
  realloc_ok (report_skip instance s) = realloc_ok s.
Proof.
  unfold report_skip. destruct (instance =? 0); [|reflexivity].
  destruct (current_method s) as [c|]; [|reflexivity].
  destruct (methods s !! c); reflexivity.
Qed.

Lemma dispatch_realloc depth instance method fuel :
  forall s, realloc_ok (snd (dispatch depth fuel instance method s)) = realloc_ok s.
Proof.
  induction fuel as [|fuel IH]; intros s; [reflexivity|].
  cbn [dispatch]. destruct (methods s !! method) as [m|]; [|reflexivity].
  destruct (disabled m); [reflexivity|].
  pose proof (call_realloc depth (func m) s) as H.
  destruct (call depth (func m) s) as [s'|s'|]; [| |reflexivity].
  - unfold keep_stressing. cbv zeta.
    destruct (ks _ _).
    + rewrite IH. exact H.
    + exact H.
  - rewrite IH, report_skip_realloc. exact H.
Qed.

(** X16.  [stress_misaligned], whatever signals the accesses raise:
    when [keep_stressing] says stop from its call [N] on and the fuel
    exceeds the number of entries plus the calls left, it returns.  Its
    status is EXIT_SUCCESS or EXIT_NO_RESOURCE, never EXIT_FAILURE.
    With the signal handlers installed and the buffer mapped, it is
    EXIT_NO_RESOURCE only with the chosen method disabled.  When a
    handler cannot be installed ([sighandler_ok] false) the status is
    EXIT_NO_RESOURCE and the state is untouched; when the buffer cannot
    be mapped ([mmap_ok] false) the status is EXIT_NO_RESOURCE with
    every entry enabled and the message that the buffer cannot be
    allocated printed; either way no routine was called, no bogo-op
    counted and [keep_stressing] not asked. *)
Theorem stress_misaligned_always_returns (a b : bool) (depth fuel N : nat)
    (sighandler_ok mmap_ok : bool) (instance : Z) (method : nat) (s : mstate) :
  shape s = registry_shape a b ->
  (method < length (methods s))%nat ->
  (forall n, (N <= n)%nat -> ks s n = false) ->
  (length (methods s) + (N - polls s) < fuel)%nat ->
  exists rc s',
    stress_misaligned (S (S depth)) fuel sighandler_ok mmap_ok instance method s
    = (Some rc, s') /\
    (rc = EXIT_SUCCESS \/ rc = EXIT_NO_RESOURCE) /\
    rc <> EXIT_FAILURE /\
    if sighandler_ok && mmap_ok then
      rc = EXIT_NO_RESOURCE -> (disabled <$> methods s' !! method) = Some true
    else
      rc = EXIT_NO_RESOURCE /\
      s' = (if sighandler_ok
            then pr_inf CannotAllocate (stress_misaligned_enable_all s) else s) /\
      invocations s' = invocations s /\ counter s' = counter s /\
      polls s' = polls s.
Proof.
  intros Hs Hm Hstop Hfuel.
  unfold stress_misaligned.
  destruct sighandler_ok; cbn [negb andb].
  2:{ exists EXIT_NO_RESOURCE, s. split; [reflexivity|].
      split; [right; reflexivity|]. split; [discriminate|].
      repeat split; reflexivity. }
  destruct mmap_ok; cbn [negb].
  2:{ eexists EXIT_NO_RESOURCE, _. split; [reflexivity|].
      split; [right; reflexivity|]. split; [discriminate|].
      repeat split; reflexivity. }
  set (s0 := set_current_method (Some method) (stress_misaligned_enable_all s)).
  assert (Hs0 : shape s0 = registry_shape a b).
  { change (shape (stress_misaligned_enable_all s) = registry_shape a b).
    rewrite shape_enable_all. exact Hs. }
  assert (Hf0 : exists f0, registry_shape a b !! method = Some f0).
  { apply lookup_lt_is_Some. rewrite <- Hs, shape_length. exact Hm. }
  destruct Hf0 as [f0 Hf0].
  assert (Hlen : length (methods s0) = length (methods s)).
  { unfold s0, stress_misaligned_enable_all. cbn. apply length_map. }
  destruct (dispatch_returns (registry_shape a b) (registry_subs a b) depth instance
              method N fuel s0 f0 Hs0 Hf0 ltac:(right; reflexivity) Hstop)
    as (rc & s' & Hrun & Hrc & _ & Hdis).
  { pose proof (enabled_count_le s0). change (polls s0) with (polls s). lia. }
  rewrite Hrun. exists rc, (stress_misaligned_exercised instance s').
  split; [reflexivity|]. split; [exact Hrc|]. split.
  - destruct Hrc as [-> | ->]; discriminate.
  - intros H. rewrite exercised_report_methods. now apply Hdis.
Qed.

(** The theorem for a run all of whose calls trap, and for one whose
    buffer cannot be mapped. *)
Lemma stress_misaligned_always_returns_witness :
  (exists rc s',
     stress_misaligned 2 40 true true 0 0
       (initial true true always_traps (stop_after 3)) = (Some rc, s') /\
     (rc = EXIT_SUCCESS \/ rc = EXIT_NO_RESOURCE)) /\
  (exists s',
     stress_misaligned 2 40 true false 0 0
       (initial true true always_traps (stop_after 3))
     = (Some EXIT_NO_RESOURCE, s') /\
     invocations s' = O).
Proof.
  split.
  - destruct (stress_misaligned_always_returns true true 0 40 3 true true 0 0
                (initial true true always_traps (stop_after 3)))
      as (rc & s' & Hrun & Hrc & _).
    + reflexivity.
    + cbn. lia.
    + intros n Hn. change ((n <? 3)%nat = false). apply Nat.ltb_ge. exact Hn.
    + cbn. lia.
    + exists rc, s'. split; [exact Hrun | exact Hrc].
  - destruct (stress_misaligned_always_returns true true 0 40 3 true false 0 0
                (initial true true always_traps (stop_after 3)))
      as (rc & s' & Hrun & _ & _ & Hrc & _ & Hi & _).
    + reflexivity.
    + cbn. lia.
    + intros n Hn. change ((n <? 3)%nat = false). apply Nat.ltb_ge. exact Hn.
    + cbn. lia.
    + exists s'. rewrite Hrun, Hrc. split; [reflexivity | exact Hi].
Defined.

Lemma lookup_enable_all s j info :
  methods s !! j = Some info ->
  methods (stress_misaligned_enable_all s) !! j
  = Some (Info (name info) (func info) false false).
Proof.
  intros H. unfold stress_misaligned_enable_all. cbn.
  rewrite list_lookup_fmap, H. reflexivity.
Qed.

(** *** A run without faults *)

Section FaultFree.

Variable shape0 : list (string * stress_misaligned_func).
Hypothesis subs :
  forall j nf, (1 <= j)%nat -> shape0 !! j = Some nf -> nf.2 <> f_all.

Lemma all_loop_fault_free depth k i s :
  (1 <= i)%nat -> shape s = shape0 -> (length shape0 <= i + k)%nat ->
  (forall n, faults s n = None) ->
  (forall j m, methods s !! j = Some m -> disabled m = false) ->
  exists s',
    all_loop (call (S depth)) k i s = Returned s' /\
    (forall j m, methods s !! j = Some m ->
       methods s' !! j = Some (if (i <=? j)%nat then set_exercised true m else m)) /\
    invocations s' = (invocations s + (length (methods s) - i))%nat /\
    counter s' = counter s /\ ks s' = ks s /\ polls s' = polls s /\
    faults s' = faults s /\ messages s' = messages s /\
    shape s' = shape0 /\
    all_exercised s' = all_exercised s || (i <? length (methods s))%nat.
Proof.
  intros Hi Hs Hlen.
  apply (all_loop_cases shape0 subs
           (fun i s o =>
              (forall n, faults s n = None) ->
              (forall j m, methods s !! j = Some m -> disabled m = false) ->
              exists s',
                o = Returned s' /\
                (forall j m, methods s !! j = Some m ->
                   methods s' !! j
                   = Some (if (i <=? j)%nat then set_exercised true m else m)) /\
                invocations s' = (invocations s + (length (methods s) - i))%nat /\
                counter s' = counter s /\ ks s' = ks s /\ polls s' = polls s /\
                faults s' = faults s /\ messages s' = messages s /\
                shape s' = shape0 /\
                all_exercised s'
                = all_exercised s || (i <? length (methods s))%nat));
    try assumption; clear i s Hi Hs Hlen.
  - intros i s Hs Hnone _ _. exists s. split; [reflexivity|].
    apply lookup_ge_None in Hnone.
    split.
    { intros j m Hj. pose proof (lookup_lt_Some _ _ _ Hj).
      destruct (Nat.leb_spec i j); [lia | exact Hj]. }
    split; [lia|]. repeat split; auto.
    destruct (Nat.ltb_spec i (length (methods s))); [lia|].
    now rewrite orb_false_r.
  - intros i s info o _ _ Hinfo Hdis _ _ Hen.
    rewrite (Hen i info Hinfo) in Hdis. discriminate.
  - intros i s info o Hs Hi Hinfo Hen _ IH Hfaults Hall.
    pose proof (lookup_lt_Some _ _ _ Hinfo) as Hlt.
    destruct IH as (s' & -> & Hm & Hinv & Hc & Hks & Hp & Hf & Hmsg & Hs' & Hex).
    { intros n. apply Hfaults. }
    { intros j m Hj. unfold after_run in Hj. cbn in Hj.
      destruct (decide (j = i)) as [->|Hne].
      - rewrite list_lookup_alter_eq, Hinfo in Hj. injection Hj as <-. exact Hen.
      - rewrite list_lookup_alter_ne in Hj by congruence. now apply (Hall j). }
    exists s'. split; [reflexivity|].
    assert (Hlen : length (methods (after_run i s)) = length (methods s))
      by (unfold after_run; cbn; apply length_alter).
    split.
    { intros j m Hj.
      destruct (decide (j = i)) as [->|Hne].
      - rewrite Hinfo in Hj. injection Hj as <-.
        rewrite (Hm i (set_exercised true info)).
        + destruct (Nat.leb_spec (S i) i); [lia|].
          destruct (Nat.leb_spec i i); [reflexivity | lia].
        + unfold after_run. cbn. rewrite list_lookup_alter_eq, Hinfo. reflexivity.
      - rewrite (Hm j m).
        + destruct (Nat.leb_spec (S i) j), (Nat.leb_spec i j); try reflexivity; lia.
        + unfold after_run. cbn. rewrite list_lookup_alter_ne by congruence. exact Hj. }
    rewrite Hlen in Hinv, Hex.
    change (invocations (after_run i s)) with (S (invocations s)) in Hinv.
    split; [lia|]. repeat split; auto.
    rewrite Hex. change (all_exercised (after_run i s)) with true.
    destruct (Nat.ltb_spec i (length (methods s))); [|lia].
    now rewrite orb_true_r.
  - intros i s info signum _ _ _ _ Htrap Hfaults _.
    rewrite Hfaults in Htrap. discriminate.
Qed.

Hypothesis first : exists n, shape0 !! O = Some (n, f_all).
Hypothesis several : (2 <= length shape0)%nat.

(** One round of the dispatch loop: the call and the flag set after
    it. *)
Lemma round_fault_free depth method info s :
  shape s = shape0 ->
  methods s !! method = Some info ->
  (forall n, faults s n = None) ->
  (forall j m, methods s !! j = Some m -> disabled m = false) ->
  exists s1,
    call (S (S depth)) (func info) s = Returned s1 /\
    (forall j m, methods s !! j = Some m ->
       methods (mark_exercised method s1) !! j
       = Some (if (method =? 0)%nat || (j =? method)%nat
               then set_exercised true m else m)) /\
    invocations s1
    = (invocations s + (if (method =? 0)%nat then length (methods s) - 1 else 1))%nat /\
    counter s1 = counter s /\ ks s1 = ks s /\ polls s1 = polls s /\
    faults s1 = faults s /\ messages s1 = messages s /\ shape s1 = shape0.
Proof.
  intros Hs Hinfo Hfaults Hall.
  assert (Hlen : length (methods s) = length shape0)
    by (rewrite <- Hs; symmetry; apply shape_length).
  destruct method as [|method].
  - assert (Hf : func info = f_all).
    { destruct first as [n Hn]. rewrite <- Hs in Hn.
      rewrite (shape_lookup _ _ _ Hinfo) in Hn. congruence. }
    rewrite Hf, call_all. unfold stress_misaligned_all_with.
    destruct (all_loop_fault_free depth (length (methods s)) 1 s ltac:(lia) Hs
                ltac:(lia) Hfaults Hall)
      as (s' & -> & Hm & Hinv & Hc & Hks & Hp & Hfl & Hmsg & Hs' & Hex).
    assert (Hex' : all_exercised s' = true).
    { rewrite Hex. destruct (Nat.ltb_spec 1 (length (methods s))); [|lia].
      apply orb_true_r. }
    rewrite Hex'. cbn [negb]. exists s'. split; [reflexivity|].
    split.
    { intros j m Hj. cbn [Nat.eqb orb]. cbn.
      destruct (decide (j = O)) as [->|Hne].
      - rewrite list_lookup_alter_eq, (Hm O m Hj). reflexivity.
      - rewrite list_lookup_alter_ne by congruence. rewrite (Hm j m Hj).
        destruct (Nat.leb_spec 1 j); [reflexivity | lia]. }
    cbn [Nat.eqb]. repeat split; auto.
  - assert (Hf : func info <> f_all).
    { apply (subs (S method) (name info, func info) ltac:(lia)).
      rewrite <- Hs. now apply shape_lookup. }
    rewrite (call_routine _ _ _ Hf). unfold run_routine. rewrite Hfaults.
    exists (next_invocation s). split; [reflexivity|].
    split.
    { intros j m Hj. cbn [Nat.eqb orb]. cbn.
      destruct (Nat.eqb_spec j (S method)) as [->|Hne].
      - rewrite list_lookup_alter_eq, Hj. reflexivity.
      - rewrite list_lookup_alter_ne by congruence. exact Hj. }
    cbn [Nat.eqb]. repeat split; auto. cbn. lia.
Qed.

Lemma dispatch_fault_free depth instance method (n : nat) :
  forall fuel s,
  shape s = shape0 ->
  (method < length (methods s))%nat ->
  (forall k, faults s k = None) ->
  (forall j m, methods s !! j = Some m -> disabled m = false) ->
  (forall k, (k < n)%nat -> ks s (polls s + k)%nat = true) ->
  ks s (polls s + n)%nat = false ->
  (n < fuel)%nat ->
  exists s',
    dispatch (S (S depth)) fuel instance method s = (Some EXIT_SUCCESS, s') /\
    counter s' = counter s + Z.of_nat (S n) /\
    polls s' = (polls s + S n)%nat /\
    invocations s'
    = (invocations s
       + S n * (if (method =? 0)%nat then length (methods s) - 1 else 1))%nat /\
    (forall j m, methods s !! j = Some m ->
       methods s' !! j
       = Some (if (method =? 0)%nat || (j =? method)%nat
               then set_exercised true m else m)) /\
    messages s' = messages s /\ shape s' = shape0.
Proof.
  induction n as [|n IH]; intros fuel s Hs Hlt Hfaults Hall Htrue Hfalse Hfuel;
    (destruct fuel as [|fuel]; [lia|]); cbn [dispatch];
    destruct (lookup_lt_is_Some_2 _ _ Hlt) as [info Hinfo];
    rewrite Hinfo, (Hall _ _ Hinfo);
    destruct (round_fault_free depth method info s Hs Hinfo Hfaults Hall)
      as (s1 & -> & Hm & Hinv & Hc & Hks & Hp & Hfl & Hmsg & Hs1);
    unfold keep_stressing; cbv beta iota zeta;
    set (s2 := inc_counter (mark_exercised method s1));
    change (ks s2) with (ks s1); change (polls s2) with (polls s1);
    rewrite Hks, Hp.
  - rewrite Nat.add_0_r in Hfalse. rewrite Hfalse.
    exists (next_poll s2). split; [reflexivity|].
    split; [cbn; lia|]. split; [cbn; lia|].
    split; [cbn; lia|]. split; [exact Hm|]. split; [exact Hmsg|].
    change (shape (mark_exercised method s1) = shape0).
    rewrite shape_mark_exercised. exact Hs1.
  - pose proof (Htrue O ltac:(lia)) as H0. rewrite Nat.add_0_r in H0. rewrite H0.
    assert (Hlen2 : length (methods (next_poll s2)) = length (methods s)).
    { change (length (methods (mark_exercised method s1)) = length (methods s)).
      rewrite <- !shape_length, shape_mark_exercised, Hs1, Hs. reflexivity. }
    destruct (IH fuel (next_poll s2))
      as (s' & Hrun & Hc' & Hp' & Hi' & Hm' & Hmsg' & Hs').
    + change (shape (mark_exercised method s1) = shape0).
      rewrite shape_mark_exercised. exact Hs1.
    + rewrite Hlen2. exact Hlt.
    + intros k. change (faults s1 k = None). rewrite Hfl. apply Hfaults.
    + intros j m Hj.
      change (methods (mark_exercised method s1) !! j = Some m) in Hj.
      destruct (lookup_lt_is_Some_2 (methods s) j) as [m0 Hm0].
      { rewrite <- Hlen2. apply (lookup_lt_Some _ _ _ Hj). }
      rewrite (Hm j m0 Hm0) in Hj. injection Hj as <-.
      pose proof (Hall j m0 Hm0).
      destruct ((method =? 0)%nat || (j =? method)%nat); assumption.
    + intros k Hk. change (ks s1 (S (polls s1) + k)%nat = true).
      rewrite Hks, Hp. replace (S (polls s) + k)%nat with (polls s + S k)%nat by lia.
      apply Htrue. lia.
    + change (ks s1 (S (polls s1) + n)%nat = false).
      rewrite Hks, Hp. replace (S (polls s) + n)%nat with (polls s + S n)%nat by lia.
      exact Hfalse.
    + lia.
    + exists s'. split; [exact Hrun|].
      change (counter (next_poll s2)) with (counter s1 + 1) in Hc'.
      change (polls (next_poll s2)) with (S (polls s1)) in Hp'.
      change (invocations (next_poll s2)) with (invocations s1) in Hi'.
      change (messages (next_poll s2)) with (messages s1) in Hmsg'.
      rewrite Hlen2 in Hi'.
      split; [lia|]. split; [lia|]. split; [lia|].
      split; [|split; [congruence | exact Hs']].
      intros j m Hj.
      rewrite (Hm' j _ (Hm j m Hj)).
      destruct ((method =? 0)%nat || (j =? method)%nat); reflexivity.
Qed.

End FaultFree.

Lemma registry_first a b : exists n, registry_shape a b !! O = Some (n, f_all).
Proof. exists "all". reflexivity. Qed.

Lemma some_name_exercised s j m :
  (1 <= j)%nat -> methods s !! j = Some m -> exercised m = true ->
  exercised_names s <> [].
Proof.
  intros Hj Hm Hex Hnil.
  assert (Hin : In (name m) (exercised_names s)).
  { unfold exercised_names. apply in_map, list_elem_of_In, list_elem_of_filter.
    split; [exact Hex|]. apply list_elem_of_lookup. exists (j - 1)%nat.
    rewrite lookup_tail. replace (S (j - 1)) with j by lia. exact Hm. }
  rewrite Hnil in Hin. exact Hin.
Qed.

Lemma names_all (l : list stress_misaligned_method_info_t) :
  map name (filter (fun m => exercised m = true)
              (map (fun info => Info (name info) (func info) false true) l))
  = map name l.
Proof.
  induction l as [|m l IH]; [reflexivity|].
  cbn [map]. rewrite filter_cons_True by reflexivity. cbn [map name].
  rewrite IH. reflexivity.
Qed.

Lemma names_none (l : list stress_misaligned_method_info_t)
    (g : nat -> stress_misaligned_method_info_t -> stress_misaligned_method_info_t) :
  (forall j info, exercised (g j info) = false) ->
  filter (fun m => exercised m = true) (imap g l) = [].
Proof.
  revert g. induction l as [|m l IH]; intros g Hg; [reflexivity|].
  cbn [imap]. rewrite filter_cons_False by (rewrite Hg; discriminate).
  apply IH. intros j info. apply Hg.
Qed.

Lemma names_one (l : list stress_misaligned_method_info_t) :
  forall i info,
    l !! i = Some info ->
    map name (filter (fun m => exercised m = true)
                (imap (fun j info => Info (name info) (func info) false (j =? i)%nat) l))
    = [name info].
Proof.
  induction l as [|m l IH]; intros i info Hi; [discriminate|].
  cbn [imap]. destruct i as [|i]; cbn in Hi.
  - injection Hi as ->. rewrite filter_cons_True by reflexivity.
    rewrite names_none by reflexivity. reflexivity.
  - rewrite filter_cons_False by discriminate.
    rewrite <- (IH i info Hi). reflexivity.
Qed.

Lemma imap_all_true (l : list stress_misaligned_method_info_t)
    (g : nat -> stress_misaligned_method_info_t -> stress_misaligned_method_info_t) :
  (forall j info, g j info = Info (name info) (func info) false true) ->
  imap g l = map (fun info => Info (name info) (func info) false true) l.
Proof.
  revert g. induction l as [|m l IH]; intros g Hg; [reflexivity|].
  cbn [imap map]. rewrite Hg. f_equal. apply IH. intros j info. apply Hg.
Qed.

Lemma registry_names_not_empty a b :
  Forall (fun nf : string * stress_misaligned_func => nf.1 <> "") (registry_shape a b).
Proof. destruct a, b; cbn; repeat constructor; discriminate. Qed.

(** X17.  [stress_misaligned], with the signal handlers installed and
    the buffer mapped, when no access raises a signal and
    [keep_stressing] answers true [n] times and then false: it returns
    EXIT_SUCCESS after [n + 1] rounds.  The bogo-op counter grows by
    [n + 1]; each round called the chosen routine once, or, for the
    method "all", each of the other routines once; no entry is
    disabled; the entries marked exercised are all the others for
    "all" and the chosen one otherwise, [names] in table order, of
    which there is at least one.  Instance 0 prints one message, the
    names [names] joined with single spaces, when every [realloc] of
    the string succeeds, and nothing when one fails; the other
    instances print nothing. *)
Theorem fault_free_run_counts_its_rounds (a b : bool) (depth fuel : nat)
    (instance : Z) (method : nat) (s : mstate) (n : nat) :
  shape s = registry_shape a b ->
  (method < length (methods s))%nat ->
  (forall k, faults s k = None) ->
  (forall k, (k < n)%nat -> ks s (polls s + k)%nat = true) ->
  ks s (polls s + n)%nat = false ->
  (n < fuel)%nat ->
  let names :=
    if (method =? 0)%nat then map name (tail (methods s))
    else match methods s !! method with
         | Some info => [name info]
         | None => []
         end in
  exists s',
    stress_misaligned (S (S depth)) fuel true true instance method s
    = (Some EXIT_SUCCESS, s') /\
    counter s' = counter s + Z.of_nat (S n) /\
    invocations s'
    = (invocations s
       + S n * (if (method =? 0)%nat then length (methods s) - 1 else 1))%nat /\
    (forall j info, methods s !! j = Some info ->
       methods s' !! j
       = Some (Info (name info) (func info) false
                 ((method =? 0)%nat || (j =? method)%nat))) /\
    exercised_names s' = names /\ names <> [] /\
    (instance = 0 ->
     messages s'
     = (if forallb (realloc_ok s) (seq 0 (length names))
        then [Exercised (join names)] else [])
       ++ messages s) /\
    (instance <> 0 -> messages s' = messages s).
Proof.
  intros Hs Hlt Hfaults Htrue Hfalse Hfuel names.
  unfold stress_misaligned. cbn [negb].
  set (s0 := set_current_method (Some method) (stress_misaligned_enable_all s)).
  assert (Hs0 : shape s0 = registry_shape a b).
  { change (shape (stress_misaligned_enable_all s) = registry_shape a b).
    rewrite shape_enable_all. exact Hs. }
  assert (Hlen : length (methods s0) = length (methods s)).
  { unfold s0, stress_misaligned_enable_all. cbn. apply length_map. }
  assert (Hl0 : forall j m, methods s0 !! j = Some m ->
            exists info, methods s !! j = Some info /\
                         m = Info (name info) (func info) false false).
  { intros j m Hj. change (methods s0) with
      (map (fun m => set_exercised false (set_disabled false m)) (methods s)) in Hj.
    rewrite list_lookup_fmap in Hj.
    destruct (methods s !! j) as [info|]; [|discriminate].
    injection Hj as <-. eauto. }
  pose proof (dispatch_realloc (S (S depth)) instance method fuel s0) as Hre.
  destruct (dispatch_fault_free (registry_shape a b) (registry_subs a b)
              (registry_first a b)
              ltac:(pose proof (registry_length a b); lia)
              depth instance method n fuel s0 Hs0 ltac:(rewrite Hlen; exact Hlt)
              Hfaults)
    as (s1 & Hrun & Hc & Hp & Hi & Hm & Hmsg & Hs1); try assumption.
  { intros j m Hj. destruct (Hl0 j m Hj) as (info & _ & ->). reflexivity. }
  rewrite Hrun in Hre |- *. cbn [snd] in Hre.
  change (realloc_ok s0) with (realloc_ok s) in Hre.
  exists (stress_misaligned_exercised instance s1). split; [reflexivity|].
  assert (Hflags : forall j info, methods s !! j = Some info ->
            methods s1 !! j
            = Some (Info (name info) (func info) false
                      ((method =? 0)%nat || (j =? method)%nat))).
  { intros j info Hj.
    rewrite (Hm j _ (lookup_enable_all s j info Hj)).
    destruct ((method =? 0)%nat || (j =? method)%nat); reflexivity. }
  assert (Hlen1 : length (methods s1) = length (methods s)).
  { rewrite <- !shape_length, Hs1, Hs. reflexivity. }
  assert (Hall : methods s1
                 = imap (fun j info =>
                           Info (name info) (func info) false
                             ((method =? 0)%nat || (j =? method)%nat)) (methods s)).
  { apply list_eq. intros j. rewrite list_lookup_imap.
    destruct (methods s !! j) as [info|] eqn:Ej.
    - rewrite (Hflags j info Ej). reflexivity.
    - apply lookup_ge_None. apply lookup_ge_None in Ej. lia. }
  assert (Hnames : exercised_names s1 = names).
  { unfold exercised_names, names. rewrite Hall.
    destruct (methods s) as [|m0 l] eqn:El; [cbn in Hlt; lia|].
    cbn [imap tail].
    destruct method as [|method].
    - match goal with |- context [imap ?g l] =>
        rewrite (imap_all_true l g (fun j info => eq_refl)) end.
      apply names_all.
    - destruct (lookup_lt_is_Some_2 l method ltac:(cbn in Hlt; lia)) as [info Hinfo].
      replace ((m0 :: l) !! S method) with (l !! method) by reflexivity.
      rewrite Hinfo. cbn [Nat.eqb].
      rewrite <- (names_one l method info Hinfo). reflexivity. }
  assert (Hsome : names <> []).
  { unfold names. destruct (Nat.eqb_spec method 0) as [->|Hne].
    - destruct (methods s) as [|m0 [|m1 l]] eqn:El; cbn; try discriminate;
        exfalso; pose proof (registry_length a b) as H10;
        rewrite <- Hs, shape_length, El in H10; cbn in H10; lia.
    - destruct (lookup_lt_is_Some_2 (methods s) method Hlt) as [info Hinfo].
      rewrite Hinfo. discriminate. }
  assert (Hne : Forall (fun m => name m <> "") (tail (methods s1))).
  { apply Forall_tail. pose proof (registry_names_not_empty a b) as H.
    rewrite <- Hs1 in H. unfold shape in H. rewrite Forall_fmap in H. exact H. }
  assert (Hstr : exercised_string (realloc_ok s) 0 (tail (methods s1)) None
                 = if forallb (realloc_ok s) (seq 0 (length names))
                   then Some (Some (join names)) else None).
  { rewrite (exercised_string_spec _ _ Hne 0 None I).
    change (map name (filter (fun m => exercised m = true) (tail (methods s1))))
      with (exercised_names s1).
    rewrite Hnames. destruct (forallb _ _); [|reflexivity].
    destruct names; [contradiction | reflexivity]. }
  rewrite Hlen in Hi.
  split; [rewrite exercised_report_methods_counter; exact Hc|].
  split; [rewrite exercised_report_invocations; exact Hi|].
  split; [intros j info Hj; rewrite exercised_report_methods; apply Hflags; exact Hj|].
  split.
  { unfold exercised_names. rewrite exercised_report_methods. exact Hnames. }
  split; [exact Hsome|].
  unfold stress_misaligned_exercised. rewrite Hre, Hstr.
  destruct (Z.eqb_spec instance 0) as [Hz|Hnz]; cbn [negb].
  - split; [|contradiction]. intros _.
    destruct (forallb _ _); cbn [messages pr_inf app]; rewrite Hmsg; reflexivity.
  - split; [contradiction|]. intros _. exact Hmsg.
Qed.

Lemma fault_free_run_counts_its_rounds_witness :
  exists s',
    stress_misaligned 2 4 true true 0 0
      (initial true true (fun _ => None) (stop_after 2))
    = (Some EXIT_SUCCESS, s') /\
    counter s' = 3 /\ invocations s' = 48%nat.
Proof.
  destruct (fault_free_run_counts_its_rounds true true 0 4 0 0
              (initial true true (fun _ => None) (stop_after 2)) 2)
    as (s' & Hrun & Hc & Hi & _).
  - reflexivity.
  - cbn. lia.
  - reflexivity.
  - intros k Hk. change ((0 + k <? 2)%nat = true). apply Nat.ltb_lt. lia.
  - reflexivity.
  - lia.
  - exists s'. split; [exact Hrun|]. split; [exact Hc | exact Hi].
Defined.

(** *** A method that traps at its first call *)

Lemma no_name_exercised l :
  Forall (fun m => exercised m = false) l ->
  map name (filter (fun m => exercised m = true) l) = [].
Proof.
  induction 1 as [|m l Hm Hl IH]; [reflexivity|].
  rewrite filter_cons_False by congruence. exact IH.
Qed.

Lemma Forall_alter_disabled l : forall i,
  Forall (fun m => exercised m = false) l ->
  Forall (fun m => exercised m = false) (alter (set_disabled true) i l).
Proof.
  induction l as [|m l IH]; intros i H; [constructor|].
  apply Forall_cons in H. destruct H as [Hm Hl].
  destruct i as [|i]; cbn; constructor; auto.
Qed.

(** X18.  [stress_misaligned] with a chosen method other than "all"
    whose first call raises a signal: the method is disabled and not
    marked exercised, and the stressor returns EXIT_NO_RESOURCE after
    this one call, with no bogo-op counted and [keep_stressing] never
    asked.  Instance 0 prints that the method is skipped, with the
    signal, and that nothing was exercised; other instances print
    nothing. *)
Theorem single_method_trap_is_no_resource (a b : bool) (depth fuel : nat)
    (instance : Z) (method : nat) (s : mstate)
    (info : stress_misaligned_method_info_t) (signum : Z) :
  shape s = registry_shape a b ->
  (1 <= method)%nat ->
  methods s !! method = Some info ->
  faults s (invocations s) = Some signum ->
  exists s',
    stress_misaligned (S depth) (S (S fuel)) true true instance method s
    = (Some EXIT_NO_RESOURCE, s') /\
    methods s' !! method = Some (Info (name info) (func info) true false) /\
    counter s' = counter s /\
    invocations s' = S (invocations s) /\
    polls s' = polls s /\
    messages s'
    = (if instance =? 0
       then [NothingExercised; Skipping (name info) signum] else [])
      ++ messages s.
Proof.
  intros Hs Hm Hinfo Hfault.
  assert (Hsub : func info <> f_all).
  { apply (registry_subs a b method (name info, func info) Hm).
    rewrite <- Hs. now apply shape_lookup. }
  unfold stress_misaligned. cbn [negb].
  set (s0 := set_current_method (Some method) (stress_misaligned_enable_all s)).
  assert (H0 : methods s0 !! method = Some (Info (name info) (func info) false false))
    by (apply lookup_enable_all; exact Hinfo).
  cbn [dispatch]. rewrite H0. cbn [disabled func].
  rewrite (call_routine depth _ _ Hsub).
  unfold run_routine. change (faults s0 (invocations s0)) with (faults s (invocations s)).
  rewrite Hfault. unfold stress_misaligned_handler.
  cbn [current_method set_handled_signum next_invocation s0 set_current_method].
  set (s1 := disable method _).
  assert (H1 : methods s1 !! method = Some (Info (name info) (func info) true false)).
  { unfold s1. cbn. rewrite list_lookup_alter_eq.
    change (methods s0 !! method) with
      (map (fun m => set_exercised false (set_disabled false m)) (methods s) !! method)
      in H0.
    rewrite H0. reflexivity. }
  assert (Hrep : methods (report_skip instance s1) = methods s1)
    by apply report_skip_same.
  rewrite Hrep, H1. cbn [disabled].
  eexists. split; [reflexivity|].
  assert (Hnone : forall ok,
             exercised_string ok 0 (tail (methods (report_skip instance s1))) None
             = Some None).
  { intros ok. apply exercised_string_none. rewrite Hrep.
    unfold s1. cbn.
    assert (Hall : Forall (fun m => exercised m = false)
                     (alter (set_disabled true) method
                        (map (fun m => set_exercised false (set_disabled false m))
                           (methods s)))).
    { apply Forall_alter_disabled. apply Forall_forall. intros m Hin.
      apply list_elem_of_fmap in Hin. destruct Hin as (m' & -> & _). reflexivity. }
    destruct (alter _ _ _) as [|m0 l0]; [constructor|].
    apply Forall_cons in Hall. apply Hall. }
  unfold stress_misaligned_exercised. rewrite Hnone.
  assert (Hrs : report_skip instance s1
                = if instance =? 0
                  then pr_inf (Skipping (name info) signum) s1 else s1).
  { unfold report_skip. change (current_method s1) with (Some method).
    cbv beta iota. rewrite H1. reflexivity. }
  rewrite Hrs.
  destruct (instance =? 0); cbn [negb name];
    (split; [exact H1|]); repeat split.
Qed.

Lemma single_method_trap_is_no_resource_witness :
  exists s',
    stress_misaligned 1 2 true true 0 5 (initial true true always_traps (fun _ => true))
    = (Some EXIT_NO_RESOURCE, s') /\
    messages s' = [NothingExercised; Skipping "int32rd" SIGBUS].
Proof.
  destruct (single_method_trap_is_no_resource true true 0 0 0 5
              (initial true true always_traps (fun _ => true))
              (Info "int32rd" f_int32rd false false) SIGBUS
              eq_refl ltac:(lia) eq_refl eq_refl)
    as (s' & Hrun & _ & _ & _ & _ & Hmsg).
  exists s'. split; [exact Hrun | exact Hmsg].
Defined.

End MisalignedRunFacts.

(** * Facts about the two processes of stress-rawsock.c *)
Module RawsockRunFacts.
Import Rawsock RawsockTop.

Lemma lock_state_app h t u :
  lock_state h (t ++ u) = lock_state h t ≫= fun h' => lock_state h' u.
Proof.
  revert h. induction t as [|e t IH]; intros h; [reflexivity|].
  destruct e; cbn [app lock_state]; try apply IH;
    destruct h; cbn; try reflexivity; apply IH.
Qed.

Lemma lock_emit e s h :
  lock_state false (trace s) = Some h ->
  lock_state false (trace (emit e s)) = lock_state h [e].
Proof. intros H. cbn [emit trace]. rewrite lock_state_app, H. reflexivity. Qed.

Ltac state := cbn [fst snd emit trace polls reads sends recvs pkt_data counter].

Ltac split_if :=
  match goal with |- context [if ?c then _ else _] => destruct c eqn:? end.

Section Locking.

Variable E : env.
Variable num_instances : Z.

Ltac unlocked H := state; rewrite ?lock_state_app, H; reflexivity.

Lemma wait_for_server_unlocked fuel :
  forall s,
    lock_state false (trace s) = Some false ->
    lock_state false (trace (snd (wait_for_server E num_instances fuel s)))
    = Some false.
Proof.
  induction fuel as [|fuel IH]; intros s H; [exact H|].
  cbn [wait_for_server]. unfold keep_stressing, read_ready. cbv zeta.
  destruct (ks E (polls s)); state; [|unlocked H].
  split_if; [unlocked H|]. apply IH. unlocked H.
Qed.

Lemma send_loop_unlocked fuel :
  forall s,
    lock_state false (trace s) = Some false ->
    lock_state false (trace (snd (send_loop E fuel s))) = Some false.
Proof.
  induction fuel as [|fuel IH]; intros s H; [exact H|].
  cbn [send_loop]. unfold keep_stressing, sendto, inc_pkt_data. cbv zeta.
  destruct (ks E (polls s)); state; [|unlocked H].
  split_if; [unlocked H|]. state.
  split_if; state; [|apply IH; unlocked H].
  destruct (ks E (S (polls s))); cbn [negb]; [apply IH|]; unlocked H.
Qed.

Lemma recv_loop_unlocked fuel :
  forall s,
    lock_state false (trace s) = Some false ->
    lock_state false (trace (snd (recv_loop E fuel s))) = Some false.
Proof.
  induction fuel as [|fuel IH]; intros s H; [exact H|].
  cbn [recv_loop]. unfold keep_stressing, recvfrom, inc_counter. cbv zeta.
  destruct (ks E (polls s)); state; [|unlocked H].
  destruct (recvfrom_ret E (recvs s)) as [[n errno] data]. state.
  split_if; [unlocked H|].
  split_if; [split_if; unlocked H|].
  split_if; state; [|apply IH; unlocked H].
  destruct (ks E (S (polls s))); cbn [negb]; [apply IH|]; unlocked H.
Qed.

Lemma client_unlocked fuel s :
  lock_state false (trace s) = Some false ->
  lock_state false (trace (snd (client E num_instances fuel s))) = Some false.
Proof.
  intros H. unfold client. cbv zeta.
  destruct (socket_fd E <? 0); [unlocked H|].
  assert (H1 : lock_state false (trace (emit (Socket (socket_fd E)) s)) = Some false)
    by unlocked H.
  pose proof (wait_for_server_unlocked fuel _ H1) as H2.
  destruct (wait_for_server E num_instances fuel _) as [[|] s2]; cbn [snd] in H2;
    [|exact H2].
  pose proof (send_loop_unlocked fuel _ H2) as H3.
  destruct (send_loop E fuel s2) as [[|] s3]; cbn [snd] in H3; [|exact H3].
  unlocked H3.
Qed.

Lemma die_unlocked pid fd rc s :
  lock_state false (trace s) = Some false ->
  lock_state false (trace (snd (die pid fd rc s))) = Some false.
Proof.
  intros H. unfold die. cbv zeta.
  destruct (negb (pid =? 0)); destruct (-1 <? fd); unlocked H.
Qed.

Lemma server_unlocked fuel pid s :
  lock_state false (trace s) = Some false ->
  lock_state false (trace (snd (server E fuel pid s))) = Some false.
Proof.
  intros H. unfold server. cbv zeta.
  destruct (sig_stop_ret E <? 0); [apply die_unlocked; exact H|].
  unfold keep_stressing.
  destruct (ks E (polls s)); cbn [negb]; [|apply die_unlocked; unlocked H].
  destruct (socket_fd E <? 0); [apply die_unlocked; unlocked H|].
  match goal with
  | |- context [recv_loop E fuel ?s1] =>
      assert (H1 : lock_state false (trace s1) = Some false)
        by (unfold announce_ready; unlocked H);
      pose proof (recv_loop_unlocked fuel _ H1) as H2;
      destruct (recv_loop E fuel s1) as [[|] s2]; cbn [snd] in H2
  end; [|exact H2].
  apply die_unlocked. exact H2.
Qed.

End Locking.

(** X19.  In what the client does, and in what the server does, up to
    any point where a round of their loops ends and whatever the system
    answers: the lock is not acquired while held, it is released only
    when held, the ready counter is read and incremented only with the
    lock held, and the lock is free at the end. *)
Theorem lock_is_taken_and_released_in_pairs (E : env) (num_instances : Z)
    (fuel : nat) (pid : Z) :
  lock_state false (trace (snd (client E num_instances fuel start))) = Some false /\
  lock_state false (trace (snd (server E fuel pid start))) = Some false.
Proof.
  split; [apply client_unlocked | apply server_unlocked]; reflexivity.
Qed.

Lemma sent_app t u : sent (t ++ u) = sent t ++ sent u.
Proof. apply omap_app. Qed.

Lemma received_app t u : received (t ++ u) = received t ++ received u.
Proof. apply omap_app. Qed.

Lemma event_occurrences_app e t u :
  occurrences e (t ++ u) = (occurrences e t + occurrences e u)%nat.
Proof. unfold occurrences. rewrite filter_app, length_app. reflexivity. Qed.

Lemma uint32_range z : 0 <= uint32 z < 2 ^ 32.
Proof. unfold uint32. apply Z.mod_pos_bound. lia. Qed.

Lemma uint32_mod_256 z : uint32 z mod 256 = z mod 256.
Proof. apply Z.mod_mod_divide. exists (2 ^ 24). reflexivity. Qed.

Lemma low_byte_of_uint32 z : Z.land (uint32 z) 255 = z mod 256.
Proof.
  change 255 with (Z.ones 8). rewrite Z.land_ones by lia.
  change (2 ^ 8) with 256. apply uint32_mod_256.
Qed.

Section Numbering.

Variable E : env.
Variable num_instances : Z.

Lemma wait_for_server_sends_nothing fuel :
  forall s,
    let s' := snd (wait_for_server E num_instances fuel s) in
    sent (trace s') = sent (trace s) /\ pkt_data s' = pkt_data s /\
    sends s' = sends s /\
    occurrences IoctlOutq (trace s') = occurrences IoctlOutq (trace s).
Proof.
  induction fuel as [|fuel IH]; intros s; [cbn; auto|].
  cbn [wait_for_server]. unfold keep_stressing, read_ready. cbv zeta.
  destruct (ks E (polls s)); state.
  - split_if.
    + state. rewrite !sent_app, !event_occurrences_app. cbn.
      rewrite !app_nil_r, !Nat.add_0_r. auto.
    + match goal with |- context [wait_for_server E num_instances fuel ?s1] =>
        destruct (IH s1) as (H1 & H2 & H3 & H4) end.
      rewrite H1, H2, H3, H4. state.
      rewrite !sent_app, !event_occurrences_app. cbn.
      rewrite !app_nil_r, !Nat.add_0_r. auto.
  - rewrite !sent_app, !event_occurrences_app. cbn.
    rewrite !app_nil_r, !Nat.add_0_r. auto.
Qed.

Lemma numbers_shift d m :
  0 <= d < 2 ^ 32 ->
  d :: map (fun k : nat => uint32 (uint32 (d + 1) + Z.of_nat k)) (seq 0 m)
  = map (fun k : nat => uint32 (d + Z.of_nat k)) (seq 0 (S m)).
Proof.
  intros Hd. cbn [seq map]. f_equal.
  - rewrite Z.add_0_r. unfold uint32. symmetry. apply Z.mod_small. exact Hd.
  - rewrite <- seq_shift, map_map. apply map_ext. intros k.
    unfold uint32. rewrite Zplus_mod_idemp_l. f_equal. lia.
Qed.

Lemma send_loop_numbers fuel :
  forall s,
    0 <= pkt_data s < 2 ^ 32 ->
    let s' := snd (send_loop E fuel s) in
    exists m : nat,
      sent (trace s')
      = sent (trace s)
        ++ map (fun k : nat => uint32 (pkt_data s + Z.of_nat k)) (seq 0 m) /\
      sends s' = (sends s + m)%nat /\
      256 * Z.of_nat (occurrences IoctlOutq (trace s'))
      <= 256 * Z.of_nat (occurrences IoctlOutq (trace s))
         + pkt_data s mod 256 + Z.of_nat m.
Proof.
  induction fuel as [|fuel IH]; intros s Hd;
    assert (Hm : 0 <= pkt_data s mod 256 < 256) by (apply Z.mod_pos_bound; lia).
  { exists O. cbn [send_loop snd seq map]. rewrite app_nil_r, Nat.add_0_r.
    split; [reflexivity|]. split; [lia|]. lia. }
  assert (Hone : map (fun k : nat => uint32 (pkt_data s + Z.of_nat k)) (seq 0 1)
                 = [pkt_data s]).
  { cbn [seq map]. rewrite Z.add_0_r. unfold uint32.
    rewrite Z.mod_small by exact Hd. reflexivity. }
  cbn [send_loop]. unfold keep_stressing, sendto, inc_pkt_data. cbv zeta.
  destruct (ks E (polls s)); state.
  2:{ exists O. rewrite !sent_app, !event_occurrences_app.
      cbn [seq map]. change (sent [KeepStressing false]) with (@nil Z).
      change (occurrences IoctlOutq [KeepStressing false]) with O.
      rewrite !app_nil_r, !Nat.add_0_r.
      split; [reflexivity|]. split; [lia|]. lia. }
  split_if; state.
  { exists 1%nat. rewrite !sent_app, !event_occurrences_app, Hone.
    change (sent [KeepStressing true]) with (@nil Z).
    change (occurrences IoctlOutq [KeepStressing true]) with O.
    change (occurrences IoctlOutq [Sendto ?a ?b]) with O.
    change (sent [Sendto ?a ?b]) with [a].
    rewrite !app_nil_r, !Nat.add_0_r.
    split; [reflexivity|]. split; [lia|]. lia. }
  rewrite low_byte_of_uint32.
  destruct (Z.eqb_spec ((pkt_data s + 1) mod 256) 0) as [Hz|Hz].
  - destruct (ks E (S (polls s))); cbn [negb]; state.
    + match goal with |- context [send_loop E fuel ?s1] =>
        destruct (IH s1) as (m & H1 & H2 & H3); [state; apply uint32_range|];
        set (r := send_loop E fuel s1) in * end.
      exists (S m). rewrite H1, H2. state. cbn [fst snd emit trace polls reads sends recvs pkt_data counter] in H3.
      rewrite !sent_app, !event_occurrences_app in *.
      change (sent [KeepStressing true]) with (@nil Z) in *.
      change (sent [IoctlOutq]) with (@nil Z) in *.
      change (occurrences IoctlOutq [KeepStressing true]) with O in *.
      change (occurrences IoctlOutq [IoctlOutq]) with 1%nat in *.
      change (occurrences IoctlOutq [Sendto ?a ?b]) with O in *.
      change (sent [Sendto ?a ?b]) with [a] in *.
      rewrite !app_nil_r, <- !app_assoc. cbn [app].
      rewrite numbers_shift by exact Hd.
      split; [reflexivity|]. split; [lia|].
      rewrite uint32_mod_256, Hz in H3.
      assert ((pkt_data s) mod 256 = 255).
      { rewrite <- Z.add_mod_idemp_l in Hz by lia.
        destruct (Z.eq_dec (pkt_data s mod 256) 255) as [e|ne]; [exact e|].
        rewrite Z.mod_small in Hz by lia. lia. }
      lia.
    + exists 1%nat. rewrite !sent_app, !event_occurrences_app, Hone.
      change (sent [KeepStressing ?b]) with (@nil Z).
      change (occurrences IoctlOutq [KeepStressing ?b]) with O.
      change (occurrences IoctlOutq [Sendto ?a ?b]) with O.
      change (sent [Sendto ?a ?b]) with [a].
      rewrite !app_nil_r, !Nat.add_0_r.
      split; [reflexivity|]. split; [lia|]. lia.
  - match goal with |- context [send_loop E fuel ?s1] =>
      destruct (IH s1) as (m & H1 & H2 & H3); [state; apply uint32_range|];
        set (r := send_loop E fuel s1) in * end.
    exists (S m). rewrite H1, H2. state. cbn [fst snd emit trace polls reads sends recvs pkt_data counter] in H3.
    rewrite !sent_app, !event_occurrences_app in *.
    change (sent [KeepStressing true]) with (@nil Z) in *.
    change (occurrences IoctlOutq [KeepStressing true]) with O in *.
    change (occurrences IoctlOutq [Sendto ?a ?b]) with O in *.
    change (sent [Sendto ?a ?b]) with [a] in *.
    rewrite !app_nil_r, <- !app_assoc. cbn [app].
    rewrite numbers_shift by exact Hd.
    split; [reflexivity|]. split; [lia|].
    rewrite uint32_mod_256 in H3.
    assert ((pkt_data s + 1) mod 256 <= pkt_data s mod 256 + 1).
    { rewrite <- Z.add_mod_idemp_l by lia. apply Z.mod_le; lia. }
    lia.
Qed.

End Numbering.

(** X20.  The packets of the client: the [data] field of the packet
    given to the [k]-th call of [sendto], counting from 0, is [k]
    modulo [2 ^ 32], and the ioctl SIOCOUTQ is issued at most once for
    every 256 calls of [sendto]. *)
Theorem client_numbers_its_packets (E : env) (num_instances : Z) (fuel : nat) :
  let s' := snd (client E num_instances fuel start) in
  sent (trace s') = map (fun k : nat => uint32 (Z.of_nat k)) (seq 0 (sends s')) /\
  256 * Z.of_nat (occurrences IoctlOutq (trace s')) <= Z.of_nat (sends s').
Proof.
  unfold client. cbv zeta.
  destruct (socket_fd E <? 0).
  { state. change (sends start) with O. change (trace start) with (@nil event).
    split; [reflexivity|]. change (occurrences IoctlOutq _) with O. lia. }
  destruct (wait_for_server_sends_nothing E num_instances fuel
              (emit (Socket (socket_fd E)) start)) as (H1 & H2 & H3 & H4).
  change (sent (trace (emit (Socket (socket_fd E)) start))) with (@nil Z) in H1.
  change (pkt_data (emit (Socket (socket_fd E)) start)) with 0 in H2.
  change (sends (emit (Socket (socket_fd E)) start)) with O in H3.
  change (occurrences IoctlOutq (trace (emit (Socket (socket_fd E)) start)))
    with O in H4.
  destruct (wait_for_server E num_instances fuel _) as [[|] s2];
    cbn [snd] in H1, H2, H3, H4.
  2:{ cbn [snd]. rewrite H1, H3, H4. split; [reflexivity|lia]. }
  destruct (send_loop_numbers E fuel s2) as (m & G1 & G2 & G3).
  { rewrite H2. lia. }
  rewrite H1, H2, H3, H4 in *. change (0 mod 256) with 0 in G3.
  cbn [app] in G1. cbn [Nat.add] in G2.
  assert (Hmap : map (fun k : nat => uint32 (0 + Z.of_nat k)) (seq 0 m)
                 = map (fun k : nat => uint32 (Z.of_nat k)) (seq 0 m))
    by (apply map_ext; intros k; rewrite Z.add_0_l; reflexivity).
  rewrite Hmap in G1.
  destruct (send_loop E fuel s2) as [[|] s3]; cbn [snd] in G1, G2, G3 |- *.
  - state. rewrite !sent_app, !event_occurrences_app, G1, G2.
    change (sent [Close (socket_fd E)]) with (@nil Z).
    change (sent [KillParent]) with (@nil Z).
    change (occurrences IoctlOutq [Close (socket_fd E)]) with O.
    change (occurrences IoctlOutq [KillParent]) with O.
    rewrite !app_nil_r. split; [reflexivity|lia].
  - rewrite G1, G2. split; [reflexivity|lia].
Qed.

Ltac plain := repeat (constructor; [reflexivity|]); constructor.

Section Ending.

Variable E : env.
Variable num_instances : Z.
Variable N : nat.
Hypothesis told_to_stop : forall k, (N <= k)%nat -> ks E k = false.

Lemma still_going k : ks E k = true -> (k < N)%nat.
Proof.
  intros Hk. destruct (le_lt_dec N k) as [H|H]; [|exact H].
  rewrite told_to_stop in Hk by exact H. discriminate.
Qed.

Lemma wait_for_server_leaves fuel :
  forall s,
    (N - polls s < fuel)%nat ->
    exists s' added,
      wait_for_server E num_instances fuel s = (Left, s') /\
      trace s' = trace s ++ added /\
      Forall (fun e => bracket_event e = false) added /\
      (polls s <= polls s')%nat.
Proof.
  induction fuel as [|fuel IH]; intros s Hf; [lia|].
  cbn [wait_for_server]. unfold keep_stressing, read_ready. cbv zeta.
  destruct (ks E (polls s)) eqn:Hk; state.
  - apply still_going in Hk. split_if.
    + eexists _, [_; _; _; _]. split; [reflexivity|]. state.
      rewrite <- !app_assoc. split; [reflexivity|]. split; [plain | lia].
    + match goal with |- context [wait_for_server E num_instances fuel ?s1] =>
        destruct (IH s1) as (s' & added & Hrun & Ht & Hq & Hp); [state; lia|] end.
      rewrite Hrun. eexists s', ([_; _; _; _; _] ++ added).
      split; [reflexivity|]. rewrite Ht. cbn [fst snd emit trace polls reads sends recvs pkt_data counter] in Hp |- *.
      rewrite <- !app_assoc. split; [reflexivity|].
      split; [apply Forall_app; split; [plain | exact Hq] | lia].
  - eexists _, [_]. split; [reflexivity|]. state.
    split; [reflexivity|]. split; [plain | lia].
Qed.

Lemma send_loop_leaves fuel :
  forall s,
    (N - polls s < fuel)%nat ->
    exists s' added,
      send_loop E fuel s = (Left, s') /\
      trace s' = trace s ++ added /\
      Forall (fun e => bracket_event e = false) added.
Proof.
  induction fuel as [|fuel IH]; intros s Hf; [lia|].
  cbn [send_loop]. unfold keep_stressing, sendto, inc_pkt_data. cbv zeta.
  destruct (ks E (polls s)) eqn:Hk; state.
  - apply still_going in Hk. split_if.
    { eexists _, [_; _]. split; [reflexivity|]. state.
      rewrite <- !app_assoc. split; [reflexivity | plain]. }
    state. split_if.
    + destruct (ks E (S (polls s))) eqn:Hk'; cbn [negb].
      * match goal with |- context [send_loop E fuel ?s1] =>
          destruct (IH s1) as (s' & added & Hrun & Ht & Hq); [state; lia|] end.
        rewrite Hrun. eexists s', ([_; _; _; _] ++ added).
        split; [reflexivity|]. rewrite Ht. state.
        rewrite <- !app_assoc. split; [reflexivity|].
        apply Forall_app; split; [plain | exact Hq].
      * eexists _, [_; _; _]. split; [reflexivity|]. state.
        rewrite <- !app_assoc. split; [reflexivity | plain].
    + match goal with |- context [send_loop E fuel ?s1] =>
        destruct (IH s1) as (s' & added & Hrun & Ht & Hq); [state; lia|] end.
      rewrite Hrun. eexists s', ([_; _] ++ added).
      split; [reflexivity|]. rewrite Ht. state.
      rewrite <- !app_assoc. split; [reflexivity|].
      apply Forall_app; split; [plain | exact Hq].
  - eexists _, [_]. split; [reflexivity|]. state.
    split; [reflexivity | plain].
Qed.

Lemma recv_loop_leaves fuel :
  forall s,
    (N - polls s < fuel)%nat ->
    exists s' added,
      recv_loop E fuel s = (Left, s') /\
      trace s' = trace s ++ added /\
      Forall (fun e => bracket_event e = false) added.
Proof.
  induction fuel as [|fuel IH]; intros s Hf; [lia|].
  cbn [recv_loop]. unfold keep_stressing, recvfrom, inc_counter. cbv zeta.
  destruct (ks E (polls s)) eqn:Hk; state.
  - apply still_going in Hk.
    destruct (recvfrom_ret E (recvs s)) as [[n errno] data]. state.
    destruct (n =? 0).
    { eexists _, [_; _]. split; [reflexivity|]. state.
      rewrite <- !app_assoc. split; [reflexivity | plain]. }
    destruct (n <? 0).
    { destruct (negb (errno =? EINTR)).
      - eexists _, [_; _; _]. split; [reflexivity|]. state.
        rewrite <- !app_assoc. split; [reflexivity | plain].
      - eexists _, [_; _]. split; [reflexivity|]. state.
        rewrite <- !app_assoc. split; [reflexivity | plain]. }
    destruct (Z.land (uint32 data) 255 =? 0).
    + destruct (ks E (S (polls s))) eqn:Hk'; cbn [negb].
      * match goal with |- context [recv_loop E fuel ?s1] =>
          destruct (IH s1) as (s' & added & Hrun & Ht & Hq); [state; lia|] end.
        rewrite Hrun. eexists s', ([_; _; _; _; _] ++ added).
        split; [reflexivity|]. rewrite Ht. state.
        rewrite <- !app_assoc. split; [reflexivity|].
        apply Forall_app; split; [plain | exact Hq].
      * eexists _, [_; _; _]. split; [reflexivity|]. state.
        rewrite <- !app_assoc. split; [reflexivity | plain].
    + match goal with |- context [recv_loop E fuel ?s1] =>
        destruct (IH s1) as (s' & added & Hrun & Ht & Hq); [state; lia|] end.
      rewrite Hrun. eexists s', ([_; _; _] ++ added).
      split; [reflexivity|]. rewrite Ht. state.
      rewrite <- !app_assoc. split; [reflexivity|].
      apply Forall_app; split; [plain | exact Hq].
  - eexists _, [_]. split; [reflexivity|]. state.
    split; [reflexivity | plain].
Qed.

Lemma client_ends fuel s :
  (N < fuel)%nat ->
  exists s' body,
    client E num_instances fuel s
    = (Some (if socket_fd E <? 0 then EXIT_FAILURE else EXIT_SUCCESS), s') /\
    trace s'
    = trace s
      ++ Socket (socket_fd E)
         :: body
         ++ [if socket_fd E <? 0
             then PrFail "socket failed" (socket_errno E)
             else Close (socket_fd E);
             KillParent] /\
    Forall (fun e => bracket_event e = false) body.
Proof.
  intros Hf. unfold client. cbv zeta.
  destruct (socket_fd E <? 0).
  { eexists _, []. split; [reflexivity|]. state. rewrite <- !app_assoc.
    split; [reflexivity | constructor]. }
  destruct (wait_for_server_leaves fuel (emit (Socket (socket_fd E)) s))
    as (s1 & added1 & Hrun1 & Ht1 & Hq1 & Hp1); [state; lia|].
  rewrite Hrun1.
  destruct (send_loop_leaves fuel s1) as (s2 & added2 & Hrun2 & Ht2 & Hq2); [lia|].
  rewrite Hrun2. eexists _, (added1 ++ added2).
  split; [reflexivity|]. state. rewrite Ht2, Ht1. state.
  rewrite <- !app_assoc. split; [reflexivity|].
  apply Forall_app; split; assumption.
Qed.

Lemma server_ends fuel pid s :
  (N - polls s < fuel)%nat -> pid <> 0 ->
  let failed := (sig_stop_ret E <? 0) || ks E (polls s) && (socket_fd E <? 0) in
  let opened :=
    negb (sig_stop_ret E <? 0) && ks E (polls s) && negb (socket_fd E <? 0) in
  exists s' body,
    server E fuel pid s
    = (Some (if failed then EXIT_FAILURE else EXIT_SUCCESS), s') /\
    trace s'
    = trace s ++ body ++ [KillChild; Waitpid]
      ++ (if opened then [Close (socket_fd E)] else []) /\
    Forall (fun e => bracket_event e = false \/ e = Socket (socket_fd E)) body /\
    (In (Socket (socket_fd E)) body <->
     negb (sig_stop_ret E <? 0) && ks E (polls s) = true).
Proof.
  intros Hf Hpid. cbv zeta. unfold server, die. cbv zeta.
  assert (Hp : negb (pid =? 0) = true)
    by (destruct (Z.eqb_spec pid 0); [contradiction | reflexivity]).
  rewrite Hp.
  destruct (sig_stop_ret E <? 0); cbn [orb negb andb].
  { change (-1 <? -1) with false. cbv iota.
    eexists _, []. split; [reflexivity|]. state. rewrite <- !app_assoc.
    split; [reflexivity|]. split; [constructor|].
    split; [intros []|discriminate]. }
  unfold keep_stressing.
  destruct (ks E (polls s)) eqn:Hk; cbn [orb negb andb].
  2:{ change (-1 <? -1) with false. cbv iota.
      eexists _, [_]. split; [reflexivity|]. state. rewrite <- !app_assoc.
      split; [reflexivity|].
      split; [constructor; [left; reflexivity | constructor]|].
      split; [intros [H|[]]; discriminate | discriminate]. }
  apply still_going in Hk.
  destruct (socket_fd E <? 0) eqn:Hfd; cbn [orb negb andb].
  { assert (Hm : (-1 <? socket_fd E) = false) by lia. rewrite Hm.
    eexists _, [_; _; _]. split; [reflexivity|]. state. rewrite <- !app_assoc.
    split; [reflexivity|].
    split.
    { constructor; [left; reflexivity|]. constructor; [right; reflexivity|].
      constructor; [left; reflexivity | constructor]. }
    split; [reflexivity | intros _; right; left; reflexivity]. }
  assert (Hm : (-1 <? socket_fd E) = true) by lia. rewrite Hm.
  match goal with |- context [recv_loop E fuel ?s1] =>
    destruct (recv_loop_leaves fuel s1) as (s2 & added & Hrun & Ht & Hq);
      [unfold announce_ready; state; lia|] end.
  rewrite Hrun.
  eexists _, ([_; _; _; _; _] ++ added). split; [reflexivity|].
  state. rewrite Ht. unfold announce_ready. state. rewrite <- !app_assoc.
  split; [reflexivity|].
  split.
  { apply Forall_app. split.
    - constructor; [left; reflexivity|]. constructor; [right; reflexivity|].
      repeat (constructor; [left; reflexivity|]). constructor.
    - eapply Forall_impl; [exact Hq|]. intros e He. left. exact He. }
  split; [reflexivity | intros _; right; left; reflexivity].
Qed.

End Ending.

(** X21.  The client, when [keep_stressing] says stop from its call
    [N] on and the fuel exceeds [N], exits: with EXIT_FAILURE when
    [socket] failed, with EXIT_SUCCESS when not.  It calls [socket]
    first and signals its parent last; just before the signal it
    reports the failure of [socket], or closes the socket it got; and
    in between it opens and closes no socket and sends no signal. *)
Theorem client_closes_and_signals_once (E : env) (num_instances : Z)
    (N fuel : nat) :
  (forall k, (N <= k)%nat -> ks E k = false) ->
  (N < fuel)%nat ->
  exists s' body,
    client E num_instances fuel start
    = (Some (if socket_fd E <? 0 then EXIT_FAILURE else EXIT_SUCCESS), s') /\
    trace s'
    = Socket (socket_fd E)
      :: body
      ++ [if socket_fd E <? 0
          then PrFail "socket failed" (socket_errno E)
          else Close (socket_fd E);
          KillParent] /\
    Forall (fun e => bracket_event e = false) body.
Proof.
  intros Hstop Hf.
  destruct (client_ends E num_instances N Hstop fuel start Hf)
    as (s' & body & Hrun & Ht & Hq).
  exists s', body. split; [exact Hrun|]. split; [exact Ht | exact Hq].
Qed.

(** The theorem for the sender among three instances that is stopped
    after six polls. *)
Lemma client_closes_and_signals_once_witness :
  exists s' body,
    client send_env 3 7 start = (Some EXIT_SUCCESS, s') /\
    trace s' = Socket 3 :: body ++ [Close 3; KillParent] /\
    Forall (fun e => bracket_event e = false) body.
Proof.
  apply (client_closes_and_signals_once send_env 3 6 7).
  - intros k Hk. change ((k <? 6)%nat = false). apply Nat.ltb_ge. exact Hk.
  - lia.
Defined.

(** X22.  The server with the pid of a child, when [keep_stressing]
    says stop from its call [N] on and the fuel exceeds [N], returns:
    EXIT_FAILURE when [stress_sig_stop_stressing] failed or, told to go
    on, [socket] failed, and EXIT_SUCCESS otherwise.  What it does ends
    with the kill of the child and the wait for it, followed by the
    close of the socket exactly when [socket] gave one; before that it
    kills, reaps and closes nothing, and calls [socket] exactly when
    the handler was installed and it was told to go on. *)
Theorem server_reaps_child_and_closes (E : env) (N fuel : nat) (pid : Z) :
  (forall k, (N <= k)%nat -> ks E k = false) ->
  (N < fuel)%nat ->
  pid <> 0 ->
  let failed := (sig_stop_ret E <? 0) || ks E 0 && (socket_fd E <? 0) in
  let opened := negb (sig_stop_ret E <? 0) && ks E 0 && negb (socket_fd E <? 0) in
  exists s' body,
    server E fuel pid start
    = (Some (if failed then EXIT_FAILURE else EXIT_SUCCESS), s') /\
    trace s'
    = body ++ [KillChild; Waitpid]
      ++ (if opened then [Close (socket_fd E)] else []) /\
    Forall (fun e => bracket_event e = false \/ e = Socket (socket_fd E)) body /\
    (In (Socket (socket_fd E)) body <->
     negb (sig_stop_ret E <? 0) && ks E 0 = true).
Proof.
  intros Hstop Hf Hpid.
  exact (server_ends E N Hstop fuel pid start ltac:(cbn; lia) Hpid).
Qed.

(** The theorem for a receiver told to stop at its seventh poll, all of
    whose reads fail with EINTR. *)
Lemma server_reaps_child_and_closes_witness :
  exists s' body,
    server (Env (fun k => (k <? 6)%nat) (fun _ => 0) (fun _ => 0)
                (fun _ => (-1, EINTR, 0)) 3 0 0) 7 77 start
    = (Some EXIT_SUCCESS, s') /\
    trace s' = body ++ [KillChild; Waitpid; Close 3] /\
    Forall (fun e => bracket_event e = false \/ e = Socket 3) body /\
    (In (Socket 3) body <-> true = true).
Proof.
  apply (server_reaps_child_and_closes
           (Env (fun k => (k <? 6)%nat) (fun _ => 0) (fun _ => 0)
                (fun _ => (-1, EINTR, 0)) 3 0 0) 6 7 77).
  - intros k Hk. change ((k <? 6)%nat = false). apply Nat.ltb_ge. exact Hk.
  - lia.
  - discriminate.
Defined.

Section Counting.

Variable E : env.

Ltac tally :=
  rewrite ?received_app, ?event_occurrences_app, ?length_app;
  change (received [KeepStressing ?b]) with (@nil Z);
  change (occurrences IncCounter [KeepStressing ?b]) with O;
  cbn [length].

Lemma recv_loop_counts fuel :
  forall s,
    let s' := snd (recv_loop E fuel s) in
    counter s' - counter s
    = Z.of_nat (occurrences IncCounter (trace s'))
      - Z.of_nat (occurrences IncCounter (trace s)) /\
    0 <= Z.of_nat (length (received (trace s')))
         - Z.of_nat (length (received (trace s)))
         - (counter s' - counter s) <= 1.
Proof.
  induction fuel as [|fuel IH]; intros s; [cbn [recv_loop snd]; lia|].
  cbn [recv_loop]. unfold keep_stressing, recvfrom, inc_counter. cbv zeta.
  destruct (ks E (polls s)); state; [|tally; lia].
  destruct (recvfrom_ret E (recvs s)) as [[n errno] data]. state.
  assert (Hrecv : received [Recvfrom n errno] = if 0 <? n then [n] else [])
    by (unfold received; cbn; destruct (0 <? n); reflexivity).
  destruct (Z.eqb_spec n 0) as [Hn|Hn].
  { state. tally. rewrite Hrecv. subst n. cbn [Z.ltb Z.compare length].
    change (occurrences IncCounter [Recvfrom 0 errno]) with O. lia. }
  destruct (Z.ltb_spec n 0) as [Hneg|Hpos].
  { assert (H0 : (0 <? n) = false) by lia. rewrite H0 in Hrecv.
    destruct (negb (errno =? EINTR)); state; tally; rewrite Hrecv;
      change (occurrences IncCounter [Recvfrom n errno]) with O;
      try change (occurrences IncCounter [PrFail ?a ?b]) with O;
      try change (received [PrFail ?a ?b]) with (@nil Z);
      cbn [length]; lia. }
  assert (H0 : (0 <? n) = true) by lia. rewrite H0 in Hrecv.
  destruct (Z.land (uint32 data) 255 =? 0).
  - destruct (ks E (S (polls s))); cbn [negb].
    + match goal with |- context [recv_loop E fuel ?s1] =>
        destruct (IH s1) as (H1 & H2); set (r := recv_loop E fuel s1) in * end.
      cbn [fst snd emit trace polls reads sends recvs pkt_data counter] in H1, H2.
      revert H1 H2. tally. rewrite Hrecv.
      change (occurrences IncCounter [Recvfrom n errno]) with O.
      change (occurrences IncCounter [IoctlInq]) with O.
      change (occurrences IncCounter [IncCounter]) with 1%nat.
      change (received [IoctlInq]) with (@nil Z).
      change (received [IncCounter]) with (@nil Z).
      cbn [length]. lia.
    + state. tally. rewrite Hrecv.
      change (occurrences IncCounter [Recvfrom n errno]) with O.
      cbn [length]. lia.
  - match goal with |- context [recv_loop E fuel ?s1] =>
      destruct (IH s1) as (H1 & H2); set (r := recv_loop E fuel s1) in * end.
    cbn [fst snd emit trace polls reads sends recvs pkt_data counter] in H1, H2.
    revert H1 H2. tally. rewrite Hrecv.
    change (occurrences IncCounter [Recvfrom n errno]) with O.
    change (occurrences IncCounter [IncCounter]) with 1%nat.
    change (received [IncCounter]) with (@nil Z).
    cbn [length]. lia.
Qed.

Lemma die_counts pid fd rc s :
  let s' := snd (die pid fd rc s) in
  counter s' = counter s /\
  occurrences IncCounter (trace s') = occurrences IncCounter (trace s) /\
  length (received (trace s')) = length (received (trace s)).
Proof.
  unfold die. cbv zeta.
  destruct (negb (pid =? 0)); destruct (-1 <? fd); state;
    rewrite ?received_app, ?event_occurrences_app, ?length_app;
    try change (occurrences IncCounter [KillChild]) with O;
    try change (occurrences IncCounter [Waitpid]) with O;
    try change (occurrences IncCounter [Close fd]) with O;
    try change (received [KillChild]) with (@nil Z);
    try change (received [Waitpid]) with (@nil Z);
    try change (received [Close fd]) with (@nil Z);
    cbn [length]; repeat split; lia.
Qed.

End Counting.

(** X23.  The bogo-op counter of the server, at the end of any round
    of its loop and at its return: it is the number of calls of
    [inc_counter], and the number of calls of [recvfrom] that returned
    a positive length is the counter or one more. *)
Theorem server_counts_packets_received (E : env) (fuel : nat) (pid : Z) :
  let s' := snd (server E fuel pid start) in
  counter s' = Z.of_nat (occurrences IncCounter (trace s')) /\
  counter s' <= Z.of_nat (length (received (trace s'))) <= counter s' + 1.
Proof.
  cbv zeta. unfold server. cbv zeta.
  destruct (sig_stop_ret E <? 0).
  { destruct (die_counts pid (-1) EXIT_FAILURE start) as (G1 & G2 & G3).
    rewrite G1, G2, G3. change (counter start) with 0.
    change (occurrences IncCounter (trace start)) with O.
    change (length (received (trace start))) with O. lia. }
  unfold keep_stressing. change (polls start) with O.
  destruct (ks E 0); cbn [negb].
  2:{ match goal with |- context [die pid ?fd ?rc ?s1] =>
        destruct (die_counts pid fd rc s1) as (G1 & G2 & G3) end.
      rewrite G1, G2, G3. state. change (counter start) with 0.
      change (trace start) with (@nil event). cbn [app].
      change (occurrences IncCounter [KeepStressing false]) with O.
      change (length (received [KeepStressing false])) with O. lia. }
  destruct (socket_fd E <? 0).
  { match goal with |- context [die pid ?fd ?rc ?s1] =>
      destruct (die_counts pid fd rc s1) as (G1 & G2 & G3) end.
    rewrite G1, G2, G3. state. change (counter start) with 0.
    change (trace start) with (@nil event). cbn [app].
    change (occurrences IncCounter _) with O.
    change (length (received _)) with O. lia. }
  match goal with |- context [recv_loop E fuel ?s1] =>
    destruct (recv_loop_counts E fuel s1) as (H1 & H2);
    set (r := recv_loop E fuel s1) in * end.
  unfold announce_ready in H1, H2.
  cbn [fst snd emit trace polls reads sends recvs pkt_data counter] in H1, H2.
  change (trace start) with (@nil event) in H1, H2. cbn [app] in H1, H2.
  change (occurrences IncCounter [_; _; _; _; _]) with O in H1, H2.
  change (length (received [_; _; _; _; _])) with O in H1, H2.
  change (counter start) with 0 in H1, H2.
  destruct r as [[|] s2]; cbn [snd] in H1, H2 |- *.
  - match goal with |- context [die pid ?fd ?rc ?s1] =>
      destruct (die_counts pid fd rc s1) as (G1 & G2 & G3) end.
    rewrite G1, G2, G3. lia.
  - lia.
Qed.

Section Fork.

Variable E : env.
Variable num_instances : Z.
Variable forks : nat -> forked.
Variable N : nat.
Hypothesis told_to_stop : forall k, (N <= k)%nat -> ks E k = false.

Lemma from_again_ends rounds s :
  (N < rounds)%nat ->
  forall j fuel k0,
    (forall i, (i < j)%nat -> exists errno, forks (k0 + i) = ForkFailed errno true) ->
    (forall errno, forks (k0 + j) <> ForkFailed errno true) ->
    (j < fuel)%nat ->
    exists e s' added,
      from_again E num_instances forks fuel rounds k0 s = (Some e, s') /\
      trace s' = trace s ++ added /\
      match forks (k0 + j) with
      | ForkFailed errno _ =>
          e = Return (if ks E (polls s) then EXIT_FAILURE else EXIT_SUCCESS) /\
          added = KeepStressing (ks E (polls s))
                  :: (if ks E (polls s) then [PrFail "fork failed" errno] else [])
      | InChild =>
          e = Exit (if socket_fd E <? 0 then EXIT_FAILURE else EXIT_SUCCESS) /\
          last added = Some KillParent /\ ~ In KillChild added
      | InParent pid =>
          exists rc, e = Return rc /\
                     (rc = EXIT_SUCCESS \/ rc = EXIT_FAILURE) /\
                     ~ In KillParent added /\
                     (pid <> 0 -> In KillChild added)
      end.
Proof.
  intros Hr. induction j as [|j IH]; intros fuel k0 Hredo Hlast Hf.
  - destruct fuel as [|fuel]; [lia|]. cbn [from_again].
    rewrite Nat.add_0_r in *.
    destruct (forks k0) as [errno redo| |pid].
    + destruct redo; [exfalso; exact (Hlast errno eq_refl)|].
      unfold keep_stressing. destruct (ks E (polls s)); cbn [negb].
      * eexists _, _, [_; _]. split; [reflexivity|]. state.
        rewrite <- !app_assoc. split; reflexivity || (split; reflexivity).
      * eexists _, _, [_]. split; [reflexivity|]. state.
        split; reflexivity || (split; reflexivity).
    + destruct (client_ends E num_instances N told_to_stop rounds s Hr)
        as (s' & body & Hrun & Ht & Hq).
      rewrite Hrun. eexists _, s', _. split; [reflexivity|].
      split; [exact Ht|]. split; [reflexivity|].
      split.
      * match goal with |- last (?a :: ?b ++ [?x; ?y]) = _ =>
          replace (a :: b ++ [x; y]) with ((a :: b ++ [x]) ++ [y])
            by (cbn [app]; rewrite <- app_assoc; reflexivity) end.
        apply last_snoc.
      * intros [H|H]; [discriminate|].
        apply in_app_or in H. destruct H as [H|H].
        -- rewrite List.Forall_forall in Hq.
           specialize (Hq _ H). discriminate.
        -- destruct H as [H|[H|[]]]; [|discriminate].
           destruct (socket_fd E <? 0); discriminate.
    + destruct (Z.eq_dec pid 0) as [Hz|Hnz].
      * subst pid. unfold server, die. cbv zeta. change (negb (0 =? 0)) with false.
        cbv iota.
        destruct (sig_stop_ret E <? 0).
        { change (-1 <? -1) with false. cbv iota.
          eexists _, _, []. split; [reflexivity|]. rewrite app_nil_r.
          split; [reflexivity|]. exists EXIT_FAILURE.
          split; [reflexivity|]. split; [right; reflexivity|].
          split; [intros []|intros H; contradiction]. }
        unfold keep_stressing.
        destruct (ks E (polls s)) eqn:Hk; cbn [negb].
        2:{ change (-1 <? -1) with false. cbv iota.
            eexists _, _, [_]. split; [reflexivity|]. state.
            split; [reflexivity|]. exists EXIT_SUCCESS.
            split; [reflexivity|]. split; [left; reflexivity|].
            split; [intros [H|[]]; discriminate|intros H; contradiction]. }
        apply (still_going E N told_to_stop) in Hk.
        destruct (socket_fd E <? 0) eqn:Hfd.
        { assert (Hm : (-1 <? socket_fd E) = false) by lia. rewrite Hm.
          eexists _, _, [_; _; _]. split; [reflexivity|]. state.
          rewrite <- !app_assoc.
          split; [reflexivity|]. exists EXIT_FAILURE.
          split; [reflexivity|]. split; [right; reflexivity|].
          split; [intros [H|[H|[H|[]]]]; discriminate|intros H; contradiction]. }
        assert (Hm : (-1 <? socket_fd E) = true) by lia. rewrite Hm.
        match goal with |- context [recv_loop E rounds ?s1] =>
          destruct (recv_loop_leaves E N told_to_stop rounds s1)
            as (s2 & added & Hrun & Ht & Hq);
            [unfold announce_ready; state; lia|] end.
        rewrite Hrun. eexists _, _, ([_; _; _; _; _] ++ added ++ [_]).
        split; [reflexivity|]. state. rewrite Ht. unfold announce_ready. state.
        rewrite <- !app_assoc. split; [reflexivity|]. exists EXIT_SUCCESS.
        split; [reflexivity|]. split; [left; reflexivity|].
        split; [|intros H; contradiction].
        intros H. apply in_app_or in H. destruct H as [H|H].
        { destruct H as [H|[H|[H|[H|[H|[]]]]]]; discriminate. }
        apply in_app_or in H. destruct H as [H|[H|[]]]; [|discriminate].
        rewrite List.Forall_forall in Hq.
        specialize (Hq _ H). discriminate.
      * destruct (server_ends E N told_to_stop rounds pid s ltac:(lia) Hnz)
          as (s' & body & Hrun & Ht & Hq & _).
        rewrite Hrun. eexists _, s', _. split; [reflexivity|].
        split; [exact Ht|]. eexists. split; [reflexivity|].
        split.
        { destruct (_ || _); [right | left]; reflexivity. }
        split.
        { intros H. apply in_app_or in H. destruct H as [H|H].
          - rewrite List.Forall_forall in Hq.
            specialize (Hq _ H). destruct Hq; discriminate.
          - destruct H as [H|[H|H]]; [discriminate | discriminate |].
            destruct (negb _ && _ && negb _); cbn in H;
              [destruct H as [H|[]]; discriminate | destruct H]. }
        intros _. apply in_or_app. right. left. reflexivity.
  - destruct fuel as [|fuel]; [lia|]. cbn [from_again].
    destruct (Hredo O ltac:(lia)) as (errno & H0).
    rewrite Nat.add_0_r in H0. rewrite H0.
    replace (k0 + S j)%nat with (S k0 + j)%nat in * by lia.
    apply IH; [|exact Hlast|lia].
    intros i Hi. replace (S k0 + i)%nat with (k0 + S i)%nat by lia.
    apply Hredo. lia.
Qed.

End Fork.

(** X24.  [stress_rawsock] when [keep_stressing] eventually says
    stop.  Without the lock it returns EXIT_NO_RESOURCE, having printed
    why and done nothing else.  With the lock, when [fork] fails [j]
    times with an error that is retried and then gives something else:
    on a failure that is not retried it asks [keep_stressing] once and
    returns EXIT_SUCCESS if told to stop, and EXIT_FAILURE with a
    report if not; in the child the process exits, with EXIT_FAILURE
    exactly when [socket] failed, the signal to the parent being the
    last thing it does, and it kills no child; in the parent it
    returns EXIT_SUCCESS or EXIT_FAILURE, sends no signal to a parent
    and kills the child. *)
Theorem stress_rawsock_ends_by_its_role (E : env) (num_instances : Z)
    (forks : nat -> forked) (have_lock : bool) (N fuel rounds j : nat) :
  (forall k, (N <= k)%nat -> ks E k = false) ->
  (N < rounds)%nat ->
  (forall i, (i < j)%nat -> exists errno, forks i = ForkFailed errno true) ->
  (forall errno, forks j <> ForkFailed errno true) ->
  (j < fuel)%nat ->
  exists e s' info,
    stress_rawsock E num_instances forks have_lock fuel rounds start
    = (Some e, s', info) /\
    if have_lock then
      info = [] /\
      match forks j with
      | ForkFailed errno _ =>
          e = Return (if ks E 0 then EXIT_FAILURE else EXIT_SUCCESS) /\
          trace s' = KeepStressing (ks E 0)
                     :: (if ks E 0 then [PrFail "fork failed" errno] else [])
      | InChild =>
          e = Exit (if socket_fd E <? 0 then EXIT_FAILURE else EXIT_SUCCESS) /\
          last (trace s') = Some KillParent /\ ~ In KillChild (trace s')
      | InParent pid =>
          exists rc, e = Return rc /\
                     (rc = EXIT_SUCCESS \/ rc = EXIT_FAILURE) /\
                     ~ In KillParent (trace s') /\
                     (pid <> 0 -> In KillChild (trace s'))
      end
    else e = Return EXIT_NO_RESOURCE /\ s' = start /\ info <> [].
Proof.
  intros Hstop Hr Hredo Hlast Hf. unfold stress_rawsock.
  destruct have_lock; cbn [negb].
  - destruct (from_again_ends E num_instances forks N Hstop rounds start Hr
                j fuel O Hredo Hlast Hf) as (e & s' & added & Hrun & Ht & Hcase).
    rewrite Hrun. exists e, s', []. split; [reflexivity|].
    split; [reflexivity|]. change (trace start) with (@nil event) in Ht.
    cbn [app] in Ht. rewrite Ht. exact Hcase.
  - eexists _, _, _. split; [reflexivity|]. split; [reflexivity|].
    split; [reflexivity | discriminate].
Qed.

(** The theorem for a fork that fails twice with EAGAIN and then leaves
    the process in the child, which is stopped after six polls. *)
Lemma stress_rawsock_ends_by_its_role_witness :
  exists s',
    stress_rawsock send_env 3
      (fun k => if (k <? 2)%nat then ForkFailed 11 true else InChild)
      true 3 7 start
    = (Some (Exit EXIT_SUCCESS), s', []) /\
    last (trace s') = Some KillParent.
Proof.
  destruct (stress_rawsock_ends_by_its_role send_env 3
              (fun k => if (k <? 2)%nat then ForkFailed 11 true else InChild)
              true 6 3 7 2)
    as (e & s' & info & Hrun & Hi & He & Hl & _).
  - intros k Hk. change ((k <? 6)%nat = false). apply Nat.ltb_ge. exact Hk.
  - lia.
  - intros i Hi. exists 11. cbv beta.
    destruct (Nat.ltb_spec i 2); [reflexivity | lia].
  - intros errno. discriminate.
  - lia.
  - exists s'. rewrite Hrun, Hi, He. split; [reflexivity | exact Hl].
Defined.

End RawsockRunFacts.

(** * Facts about stress-dirmany.c *)
Module DirmanyFacts.
Import Settings Dirmany.

Lemma hex_digits_length k : forall n, length (hex_digits k n) = k.
Proof.
  induction k as [|k IH]; intros n; [reflexivity|].
  cbn [hex_digits]. rewrite length_app, IH. cbn. lia.
Qed.

Lemma hex_digit_inj d e :
  0 <= d < 16 -> 0 <= e < 16 -> hex_digit d = hex_digit e -> d = e.
Proof.
  intros Hd He H. apply (f_equal nat_of_ascii) in H. unfold hex_digit in H.
  destruct (Z.ltb_spec d 10), (Z.ltb_spec e 10);
    rewrite !nat_ascii_embedding in H by lia; lia.
Qed.

Lemma hex_digits_inj k :
  forall n m,
    0 <= n < 16 ^ Z.of_nat k -> 0 <= m < 16 ^ Z.of_nat k ->
    hex_digits k n = hex_digits k m -> n = m.
Proof.
  induction k as [|k IH]; intros n m Hn Hm H.
  - change (16 ^ Z.of_nat 0) with 1 in *. lia.
  - cbn [hex_digits] in H. apply app_inj_tail in H. destruct H as [H1 H2].
    rewrite Nat2Z.inj_succ, Z.pow_succ_r in Hn, Hm by lia.
    apply hex_digit_inj in H2; try (apply Z.mod_pos_bound; lia).
    apply IH in H1.
    + rewrite (Z.div_mod n 16), (Z.div_mod m 16) by lia. lia.
    + split; [apply Z.div_pos; lia | apply Z.div_lt_upper_bound; lia].
    + split; [apply Z.div_pos; lia | apply Z.div_lt_upper_bound; lia].
Qed.

Lemma format_length n : length (format_16_16_x64 n) = 16%nat.
Proof. apply hex_digits_length. Qed.

Lemma format_inj n m :
  0 <= n < 2 ^ 64 -> 0 <= m < 2 ^ 64 ->
  format_16_16_x64 n = format_16_16_x64 m -> n = m.
Proof.
  intros Hn Hm H. unfold format_16_16_x64, uint64 in H.
  rewrite !Z.mod_small in H by lia.
  apply (hex_digits_inj 16); [exact Hn | exact Hm | exact H].
Qed.

Lemma filename_result pathname filename_sz filename_len n :
  0 <= filename_len -> 0 < filename_sz ->
  Z.of_nat (length pathname) + filename_len + 18 < 2 ^ 64 ->
  stress_dirmany_filename pathname (Z.of_nat (length pathname)) filename_sz
    filename_len n
  = Some (if Z.of_nat (length pathname) + filename_len + 18 <? filename_sz
          then pathname ++ [slash]
               ++ replicate (Z.to_nat filename_len) letter_x
               ++ take (Z.to_nat (8 + Z.of_nat (length pathname) + filename_len))
                    (format_16_16_x64 n)
          else take (Z.to_nat (filename_sz - 1)) (format_16_16_x64 n)).
Proof.
  intros Hf Hsz Hwrap. unfold stress_dirmany_filename. cbv zeta.
  unfold uint64 at 1. rewrite Z.mod_small by lia.
  destruct (Z.ltb_spec (Z.of_nat (length pathname) + filename_len + 18) filename_sz)
    as [Hg|Hg].
  - unfold snprintf, uint64, sizeof_pointer. rewrite Z.mod_small by lia.
    replace (8 + (Z.of_nat (length pathname) + 1 + filename_len) - 1)
      with (8 + Z.of_nat (length pathname) + filename_len) by lia.
    assert (Hlen : (length (take (Z.to_nat (8 + Z.of_nat (length pathname) + filename_len))
                              (format_16_16_x64 n)) <= 16)%nat).
    { rewrite length_take, format_length. lia. }
    assert (H1 : (Z.of_nat (length pathname) <=? Z.of_nat (length pathname)) = true)
      by lia.
    rewrite H1. cbn [andb].
    match goal with |- context [?a <=? filename_sz] =>
      assert (H2 : (a <=? filename_sz) = true) by lia; rewrite H2 end.
    rewrite Nat2Z.id, take_ge by lia. reflexivity.
  - assert (H1 : (0 <? filename_sz) = true) by lia. rewrite H1. reflexivity.
Qed.

Lemma filename_guard_fails pathname filename_sz filename_len n :
  0 < filename_sz ->
  filename_sz <= uint64 (Z.of_nat (length pathname) + filename_len + 18) ->
  stress_dirmany_filename pathname (Z.of_nat (length pathname)) filename_sz
    filename_len n
  = Some (take (Z.to_nat (filename_sz - 1)) (format_16_16_x64 n)).
Proof.
  intros Hsz Hg. unfold stress_dirmany_filename. cbv zeta.
  destruct (Z.ltb_spec (uint64 (Z.of_nat (length pathname) + filename_len + 18))
              filename_sz) as [H|_]; [lia|].
  assert (H1 : (0 <? filename_sz) = true) by lia. rewrite H1. reflexivity.
Qed.

Lemma filename_guard_wraps pathname filename_sz filename_len n :
  0 <= filename_len -> 0 < filename_sz <= 2 ^ 63 ->
  uint64 (Z.of_nat (length pathname) + filename_len + 18) < filename_sz ->
  filename_sz <= Z.of_nat (length pathname) + filename_len + 18 ->
  stress_dirmany_filename pathname (Z.of_nat (length pathname)) filename_sz
    filename_len n = None /\
  filename_sz < Z.of_nat (length pathname) + 1 + filename_len.
Proof.
  intros Hf Hsz Hg Hsum.
  assert (Hbig : 2 ^ 64 <= Z.of_nat (length pathname) + filename_len + 18).
  { destruct (Z_lt_le_dec (Z.of_nat (length pathname) + filename_len + 18) (2 ^ 64))
      as [Hlt|Hge]; [|exact Hge].
    unfold uint64 in Hg. rewrite Z.mod_small in Hg by lia. lia. }
  split; [|lia].
  unfold stress_dirmany_filename. cbv zeta.
  destruct (Z.ltb_spec (uint64 (Z.of_nat (length pathname) + filename_len + 18))
              filename_sz) as [_|H]; [|lia].
  match goal with |- context [?a && (?b <=? filename_sz)] =>
    assert (H2 : (b <=? filename_sz) = false) by (apply Z.leb_gt; lia);
    rewrite H2 end.
  rewrite andb_false_r. reflexivity.
Qed.

(** X25.  [stress_dirmany_filename] with a buffer of at most [2 ^ 63]
    bytes, [pathname_len] being the length of [pathname], in the three
    cases of its guard.  When [pathname_len + filename_len + 18] is
    below [filename_sz], it gives a name that fits in the buffer with
    its terminator: the directory, a slash, [filename_len] letters x
    and the first [8 + pathname_len + filename_len] of the 16
    hexadecimal digits of [n], the size given to [snprintf] being that
    of a pointer plus the offset; with 8 characters or more of
    directory and letters these are all the digits, and no other [m]
    below [2 ^ 64] gives the same name.  When the guard fails as the
    code computes it, in [size_t], the name is the digits alone, cut
    to [filename_sz - 1] characters, without the directory, and fits.
    When the sum wraps around, so that the guard passes although the
    sum is not below [filename_sz], there is no result: the
    [pathname_len + 1 + filename_len] bytes that [memcpy] and [memset]
    write are more than the buffer holds. *)
Theorem filename_fits_unless_the_guard_wraps (pathname : list ascii)
    (filename_sz filename_len n : Z) :
  0 <= filename_len -> 0 < filename_sz <= 2 ^ 63 -> 0 <= n < 2 ^ 64 ->
  let pathname_len := Z.of_nat (length pathname) in
  let sum := pathname_len + filename_len + 18 in
  let result :=
    stress_dirmany_filename pathname pathname_len filename_sz filename_len n in
  (sum < filename_sz ->
   exists name,
     result = Some name /\
     Z.of_nat (length name) < filename_sz /\
     name = pathname ++ [slash] ++ replicate (Z.to_nat filename_len) letter_x
            ++ take (Z.to_nat (8 + pathname_len + filename_len))
                 (format_16_16_x64 n) /\
     (8 <= pathname_len + filename_len ->
      name = file_name pathname filename_len n /\
      forall m, 0 <= m < 2 ^ 64 ->
        stress_dirmany_filename pathname pathname_len filename_sz filename_len m
        = Some name -> m = n)) /\
  (filename_sz <= uint64 sum ->
   exists name,
     result = Some name /\
     Z.of_nat (length name) < filename_sz /\
     name = take (Z.to_nat (filename_sz - 1)) (format_16_16_x64 n)) /\
  (uint64 sum < filename_sz -> filename_sz <= sum ->
   result = None /\ filename_sz < pathname_len + 1 + filename_len).
Proof.
  intros Hf Hsz Hn. cbv zeta. split; [|split].
  - intros Hg.
    assert (Hwrap : Z.of_nat (length pathname) + filename_len + 18 < 2 ^ 64) by lia.
    rewrite (filename_result pathname filename_sz filename_len n Hf
               ltac:(lia) Hwrap).
    assert (Hg' : (Z.of_nat (length pathname) + filename_len + 18 <? filename_sz)
                  = true) by lia.
    rewrite Hg'. eexists. split; [reflexivity|].
    split.
    { rewrite !length_app, length_replicate, length_take, format_length.
      cbn [length]. lia. }
    split; [reflexivity|].
    intros H8.
    assert (Hfull : forall k,
               take (Z.to_nat (8 + Z.of_nat (length pathname) + filename_len))
                 (format_16_16_x64 k) = format_16_16_x64 k).
    { intros k. apply take_ge. rewrite format_length. lia. }
    rewrite Hfull. split; [reflexivity|].
    intros m Hm Hsame.
    rewrite (filename_result pathname filename_sz filename_len m Hf
               ltac:(lia) Hwrap) in Hsame.
    rewrite Hg', Hfull in Hsame.
    injection Hsame as Hsame.
    apply app_inv_head in Hsame. injection Hsame as Hsame.
    apply app_inv_head in Hsame.
    apply format_inj; [exact Hm | exact Hn | exact Hsame].
  - intros Hg.
    rewrite (filename_guard_fails pathname filename_sz filename_len n
               ltac:(lia) Hg).
    eexists. split; [reflexivity|].
    split; [rewrite length_take, format_length; lia | reflexivity].
  - intros Hg Hsum.
    exact (filename_guard_wraps pathname filename_sz filename_len n Hf Hsz Hg Hsum).
Qed.

(** The theorem for the file 255 of a directory with a name of 12
    characters: with 3 letters x the name fits, with [SIZE_MAX] letters
    the guard passes and there is no result. *)
Lemma filename_fits_unless_the_guard_wraps_witness :
  (exists name,
     stress_dirmany_filename (replicate 12 letter_x) 12 (PATH_MAX + 20) 3 255
     = Some name /\
     Z.of_nat (length name) < PATH_MAX + 20) /\
  stress_dirmany_filename (replicate 12 letter_x) 12 (PATH_MAX + 20)
    (2 ^ 64 - 1) 255 = None.
Proof.
  split.
  - destruct (filename_fits_unless_the_guard_wraps (replicate 12 letter_x)
                (PATH_MAX + 20) 3 255) as [H _].
    + lia.
    + unfold PATH_MAX. lia.
    + lia.
    + destruct H as (name & H1 & H2 & _); [reflexivity|].
      exists name. split; [exact H1 | exact H2].
  - destruct (filename_fits_unless_the_guard_wraps (replicate 12 letter_x)
                (PATH_MAX + 20) (2 ^ 64 - 1) 255) as (_ & _ & H).
    + lia.
    + unfold PATH_MAX. lia.
    + lia.
    + destruct H as [H _];
        [vm_compute; reflexivity | vm_compute; discriminate | exact H].
Defined.

Lemma created_app t u : created (t ++ u) = created t ++ created u.
Proof. apply omap_app. Qed.

Lemma unlinked_app t u : unlinked (t ++ u) = unlinked t ++ unlinked u.
Proof. apply omap_app. Qed.

Lemma dirmany_occurrences_app e t u :
  occurrences e (t ++ u) = (occurrences e t + occurrences e u)%nat.
Proof. unfold occurrences. rewrite filter_app, length_app. reflexivity. Qed.

Lemma descriptor_after_app cur t u :
  descriptor_after cur (t ++ u)
  = descriptor_after cur t ≫= fun cur' => descriptor_after cur' u.
Proof.
  revert cur. induction t as [|e t IH]; intros cur; [reflexivity|].
  destruct e; cbn [app descriptor_after]; try apply IH.
  - destruct cur; [reflexivity | apply IH].
  - destruct cur as [c|]; [|reflexivity]. destruct (fd =? c); [apply IH | reflexivity].
  - destruct cur as [c|]; [|reflexivity]. destruct (fd =? c); [apply IH | reflexivity].
  - destruct cur as [c|]; [|reflexivity]. destruct (fd =? c); [apply IH | reflexivity].
Qed.

Lemma file_names_step pathname i first first' max_len k :
  first <= max_len ->
  (forall q, 0 <= q -> Z.min (first' + q) max_len = Z.min (first + 1 + q) max_len) ->
  file_names pathname i first max_len (S k)
  = file_name pathname first i :: file_names pathname (i + 1) first' max_len k.
Proof.
  intros Hle Hnext. unfold file_names. cbn [seq map].
  rewrite !Z.add_0_r, Z.min_l by exact Hle. f_equal.
  rewrite <- seq_shift, map_map. apply map_ext. intros q.
  f_equal; [|lia]. rewrite Hnext by lia. f_equal. lia.
Qed.

Lemma file_names_capped pathname i first max_len k :
  max_len <= first ->
  file_names pathname i first max_len k
  = file_names pathname i max_len max_len k.
Proof.
  intros Hle. unfold file_names. apply map_ext. intros q. f_equal. lia.
Qed.

Lemma filename_in_round pathname filename_len i :
  8 <= Z.of_nat (length pathname) <= 3841 ->
  0 <= filename_len <= 256 ->
  stress_dirmany_filename pathname (Z.of_nat (length pathname)) (PATH_MAX + 20)
    filename_len i = Some (file_name pathname filename_len i) /\
  Z.of_nat (length (file_name pathname filename_len i))
  = Z.of_nat (length pathname) + 17 + filename_len.
Proof.
  intros Hpath Hf. unfold PATH_MAX. split.
  - rewrite filename_result by lia.
    assert (H : (Z.of_nat (length pathname) + filename_len + 18 <? 4096 + 20) = true)
      by lia.
    rewrite H, take_ge by (rewrite format_length; lia). reflexivity.
  - unfold file_name. rewrite !length_app, length_replicate, format_length.
    cbn [length]. lia.
Qed.

Lemma file_names_fixed pathname i c k :
  0 <= c ->
  Forall (fun name => exists n, name = file_name pathname c n)
    (file_names pathname i c c k).
Proof.
  intros Hc. unfold file_names. apply Forall_map, Forall_forall.
  intros q _. exists (i + Z.of_nat q). f_equal. lia.
Qed.

Lemma file_names_length pathname i first max_len k :
  length (file_names pathname i first max_len k) = k.
Proof. unfold file_names. rewrite length_map, length_seq. reflexivity. Qed.

Lemma file_name_letters_differ pathname c d n m :
  0 <= c -> 0 <= d -> c <> d ->
  file_name pathname c n <> file_name pathname d m.
Proof.
  intros Hc Hd Hne H. apply (f_equal (@length ascii)) in H. unfold file_name in H.
  rewrite !length_app, !length_replicate, !format_length in H. lia.
Qed.

Ltac dstate := cbn [fst snd emit trace polls clocks opens counter].

Section Round.

Variable E : env.
Variable pathname : list ascii.
Variable dirmany_bytes : Z.
(** The longest name that [open] accepts. *)
Variable L : Z.
Variable N : nat.

Hypothesis pathname_range : 8 <= Z.of_nat (length pathname) <= 3841.
Hypothesis room_for_the_digits : Z.of_nat (length pathname) + 17 <= L.
Hypothesis too_long :
  forall k name, L < Z.of_nat (length name) ->
    fst (open_ret E k name) < 0 /\ snd (open_ret E k name) = ENAMETOOLONG.
Hypothesis not_too_long :
  forall k name, Z.of_nat (length name) <= L ->
    ~ (fst (open_ret E k name) < 0 /\ snd (open_ret E k name) = ENAMETOOLONG).
Hypothesis told_to_stop : forall k, (N <= k)%nat -> ks E k = false.

Lemma dirmany_still_going k : ks E k = true -> (k < N)%nat.
Proof.
  intros Hk. destruct (le_lt_dec N k) as [H|H]; [|exact H].
  rewrite told_to_stop in Hk by exact H. discriminate.
Qed.

Lemma create_loop_spec fuel :
  forall i filename_len max_len s,
    0 <= filename_len <= max_len -> max_len <= 256 ->
    filename_len <= L - Z.of_nat (length pathname) - 17 + 1 ->
    0 <= i -> i + Z.of_nat fuel < 2 ^ 64 ->
    (N - polls s < fuel)%nat ->
    exists (k : nat) M s' added,
      create_loop E fuel pathname (Z.of_nat (length pathname)) dirmany_bytes
        i filename_len max_len s = Some (i + Z.of_nat k, M, s') /\
      trace s' = trace s ++ added /\
      (M = max_len \/ M = L - Z.of_nat (length pathname) - 17) /\
      0 <= M <= max_len /\
      (filename_len = L - Z.of_nat (length pathname) - 17 + 1 ->
       M = L - Z.of_nat (length pathname) - 17 \/ k = O) /\
      created added = file_names pathname i filename_len M k /\
      unlinked added = [] /\
      counter s' = counter s + Z.of_nat k /\
      occurrences IncCounter added = k /\
      descriptor_after None added = Some None /\
      (polls s < polls s')%nat /\ (k <= fuel)%nat.
Proof.
  induction fuel as [|fuel IH]; intros i flen mlen s Hflen Hmlen HT Hi Hwrap Hf;
    [lia|].
  cbn [create_loop]. unfold keep_stressing, before_t_end. cbv zeta.
  destruct (ks E (polls s)) eqn:Hk; cbn [negb]; dstate.
  2:{ exists O. eexists _, _, [_]. rewrite Z.add_0_r.
      split; [reflexivity|]. dstate.
      split; [reflexivity|]. split; [left; reflexivity|].
      split; [lia|]. split; [intros _; right; reflexivity|].
      split; [reflexivity|]. split; [reflexivity|].
      split; [lia|]. split; [reflexivity|]. split; [reflexivity|]. lia. }
  apply dirmany_still_going in Hk.
  destruct (in_time E (clocks s)); cbn [negb]; dstate.
  2:{ exists O. eexists _, _, [_]. rewrite Z.add_0_r.
      split; [reflexivity|]. dstate.
      split; [reflexivity|]. split; [left; reflexivity|].
      split; [lia|]. split; [intros _; right; reflexivity|].
      split; [reflexivity|]. split; [reflexivity|].
      split; [lia|]. split; [reflexivity|]. split; [reflexivity|]. lia. }
  destruct (filename_in_round pathname flen i pathname_range ltac:(lia)) as [Hname Hlen].
  rewrite Hname. unfold open. dstate.
  pose proof (too_long (opens s) (file_name pathname flen i)) as Hlong.
  pose proof (not_too_long (opens s) (file_name pathname flen i)) as Hshort.
  destruct (open_ret E (opens s) (file_name pathname flen i)) as [fd errno].
  cbn [fst snd] in Hlong, Hshort. dstate.
  destruct (Z.ltb_spec fd 0) as [Hfd|Hfd].
  - destruct (Z.eqb_spec errno ENAMETOOLONG) as [He|He].
    + assert (Hlast : flen = L - Z.of_nat (length pathname) - 17 + 1).
      { destruct (Z_le_gt_dec (Z.of_nat (length (file_name pathname flen i))) L)
          as [Hle|Hgt]; [exfalso; apply (Hshort Hle); split; assumption | lia]. }
      unfold uint64. rewrite Z.mod_small by lia.
      match goal with |- context [create_loop E fuel _ _ _ _ _ _ ?s1] =>
        destruct (IH i (flen - 1) (flen - 1) s1)
          as (k & M & s' & added & Hrun & Ht & HM & HM1 & _ & Hc & Hu & Hn & Ho
              & Hd & Hp & Hkf); [lia | lia | lia | lia | lia | dstate; lia|] end.
      rewrite Hrun. exists k, M, s'. eexists ([_; _] ++ added).
      split; [reflexivity|]. rewrite Ht. cbn [fst snd emit trace polls clocks opens counter] in Hp |- *.
      rewrite <- !app_assoc.
      split; [reflexivity|]. split; [right; lia|]. split; [lia|].
      assert (HMeq : M = flen - 1) by lia.
      split; [intros _; left; lia|].
      split.
      { assert (Hneg : (fd <? 0) = true) by lia.
        assert (Hc0 : created [KeepStressing true; Open (file_name pathname flen i) fd]
                      = []) by (unfold created; cbn; rewrite Hneg; reflexivity).
        rewrite created_app, Hc, Hc0. cbn [app].
        rewrite HMeq. symmetry. apply file_names_capped. lia. }
      split; [rewrite unlinked_app, Hu; reflexivity|].
      split; [exact Hn|].
      split; [rewrite dirmany_occurrences_app, Ho; reflexivity|].
      split.
      { rewrite descriptor_after_app. cbn [descriptor_after].
        assert (Hneg : (fd <? 0) = true) by lia. rewrite Hneg.
        cbn. exact Hd. }
      lia.
    + exists O. eexists _, _, [_; _]. rewrite Z.add_0_r.
      split; [reflexivity|]. dstate. rewrite <- !app_assoc.
      split; [reflexivity|]. split; [left; reflexivity|].
      split; [lia|]. split; [intros _; right; reflexivity|].
      assert (Hneg : (fd <? 0) = true) by lia.
      split; [unfold created; cbn; rewrite Hneg; reflexivity|].
      split; [reflexivity|]. split; [lia|]. split; [reflexivity|].
      split; [cbn [descriptor_after]; rewrite Hneg; reflexivity|]. lia.
  - assert (Hok : flen <= L - Z.of_nat (length pathname) - 17).
    { destruct (Z_le_gt_dec (Z.of_nat (length (file_name pathname flen i))) L)
        as [Hle|Hgt]; [lia | destruct (Hlong ltac:(lia)); lia]. }
    assert (Hpos : (fd <? 0) = false) by lia.
    assert (Hself : (fd =? fd) = true) by lia.
    unfold uint64. rewrite (Z.mod_small (i + 1)) by lia.
    assert (Hnext : (if flen <? mlen then (flen + 1) mod 2 ^ 64 else flen)
                    = (if flen <? mlen then flen + 1 else flen)).
    { destruct (flen <? mlen); [apply Z.mod_small; lia | reflexivity]. }
    rewrite Hnext.
    match goal with |- context [create_loop E fuel _ _ _ _ ?f1 _ ?s1] =>
      destruct (IH (i + 1) f1 mlen s1)
        as (k & M & s' & added & Hrun & Ht & HM & HM1 & _ & Hc & Hu & Hn & Ho & Hd
            & Hp & Hkf);
        [destruct (Z.ltb_spec flen mlen); lia | lia
         | destruct (Z.ltb_spec flen mlen); lia | lia | lia
         | unfold inc_counter; destruct (0 <? dirmany_bytes);
           destruct (Z.land (i + 1) 255 =? 255); dstate; lia|];
      set (r := s1) in * end.
    rewrite Hrun. exists (S k), M, s'.
    assert (Hmid : exists mid,
               trace r = trace s ++ [KeepStressing true; Open (file_name pathname flen i) fd]
                         ++ mid /\
               created mid = [] /\ unlinked mid = [] /\
               occurrences IncCounter mid = 1%nat /\
               descriptor_after (Some fd) mid = Some None /\
               counter r = counter s + 1 /\ polls r = S (polls s)).
    { subst r. unfold inc_counter.
      destruct (0 <? dirmany_bytes); destruct (Z.land (i + 1) 255 =? 255); dstate;
        rewrite <- !app_assoc; cbn [app]; eexists;
        (split; [reflexivity|]);
        (split; [reflexivity|]); (split; [reflexivity|]);
        (split; [reflexivity|]);
        (split; [cbn [descriptor_after]; rewrite ?Hself; reflexivity|]);
        split; reflexivity. }
    destruct Hmid as (mid & Hr & Hcm & Hum & Hom & Hdm & Hcr & Hpr).
    exists ([KeepStressing true; Open (file_name pathname flen i) fd] ++ mid ++ added).
    split; [f_equal; f_equal; f_equal; lia|].
    split; [rewrite Ht, Hr, <- !app_assoc; reflexivity|].
    split; [exact HM|]. split; [exact HM1|].
    split; [intros Heq; exfalso; lia|].
    split.
    { assert (Hc0 : created [KeepStressing true; Open (file_name pathname flen i) fd]
                    = [file_name pathname flen i])
        by (unfold created; cbn; rewrite Hpos; reflexivity).
      rewrite !created_app, Hcm, Hc, Hc0. cbn [app].
      symmetry. apply file_names_step.
      - destruct HM as [->| ->]; lia.
      - intros q Hq. destruct (Z.ltb_spec flen mlen); lia. }
    split; [rewrite !unlinked_app, Hum, Hu; reflexivity|].
    split; [rewrite Hn, Hcr; lia|].
    split; [rewrite !dirmany_occurrences_app, Hom, Ho; reflexivity|].
    split.
    { rewrite descriptor_after_app. cbn [descriptor_after]. rewrite Hpos.
      cbn [mbind option_bind]. rewrite descriptor_after_app, Hdm. exact Hd. }
    rewrite Hpr in Hp. lia.
Qed.

Lemma remove_loop_spec count :
  forall i filename_len max_len s,
    0 <= filename_len <= 256 -> max_len <= 256 ->
    exists s' added,
      remove_loop count pathname (Z.of_nat (length pathname)) i filename_len
        max_len s = Some s' /\
      trace s' = trace s ++ added /\
      unlinked added
      = file_names pathname i filename_len (Z.max filename_len max_len) count /\
      created added = [] /\
      occurrences IncCounter added = O /\
      (forall cur, descriptor_after cur added = Some cur) /\
      counter s' = counter s /\ polls s' = polls s.
Proof.
  induction count as [|count IH]; intros i flen mlen s Hflen Hmlen.
  - exists s, []. rewrite app_nil_r. repeat split; reflexivity.
  - cbn [remove_loop].
    destruct (filename_in_round pathname flen i pathname_range ltac:(lia)) as [Hname _].
    rewrite Hname. cbv zeta.
    assert (Hnext : (if flen <? mlen then uint64 (flen + 1) else flen)
                    = (if flen <? mlen then flen + 1 else flen)).
    { unfold uint64. destruct (flen <? mlen); [apply Z.mod_small; lia | reflexivity]. }
    rewrite Hnext.
    match goal with |- context [remove_loop count _ _ _ ?f1 _ ?s1] =>
      destruct (IH (i + 1) f1 mlen s1)
        as (s' & added & Hrun & Ht & Hu & Hc & Ho & Hd & Hn & Hp);
        [destruct (Z.ltb_spec flen mlen); lia | lia|];
      assert (Hmax : Z.max f1 mlen = Z.max flen mlen)
        by (destruct (Z.ltb_spec flen mlen); lia);
      rewrite Hmax in Hu end.
    rewrite Hrun. exists s', ([Unlink (file_name pathname flen i)] ++ added).
    split; [reflexivity|]. rewrite Ht. dstate. rewrite <- !app_assoc.
    split; [reflexivity|].
    split.
    { rewrite unlinked_app, Hu. cbn [app].
      change (unlinked [Unlink (file_name pathname flen i)])
        with [file_name pathname flen i]. cbn [app].
      symmetry. apply file_names_step; [lia|].
      intros q Hq. destruct (Z.ltb_spec flen mlen); lia. }
    split; [rewrite created_app, Hc; reflexivity|].
    split; [rewrite dirmany_occurrences_app, Ho; reflexivity|].
    split; [intros cur; cbn [app descriptor_after]; apply Hd|].
    split; [exact Hn | exact Hp].
Qed.

(** One round of the loop of [stress_dirmany]: the files of
    [stress_dirmany_create] and the names [stress_dirmany_remove]
    unlinks, which are the names of these files when a name with one
    letter x is accepted, and names with one letter x for files without
    any when it is not. *)
Lemma round_spec fuel i_start s :
  0 <= i_start -> i_start + Z.of_nat fuel < 2 ^ 64 ->
  (N - polls s < fuel)%nat ->
  exists (k : nat) max_len s1 s2 made gone,
    stress_dirmany_create E fuel pathname (Z.of_nat (length pathname))
      dirmany_bytes i_start s = Some (i_start + Z.of_nat k, max_len, s1) /\
    stress_dirmany_remove pathname (Z.of_nat (length pathname)) i_start
      (i_start + Z.of_nat k) max_len s1 = Some s2 /\
    trace s1 = trace s ++ made /\ trace s2 = trace s1 ++ gone /\
    0 <= max_len <= 256 /\
    (max_len = 256 \/ max_len = L - Z.of_nat (length pathname) - 17) /\
    created made = file_names pathname i_start 1 max_len k /\
    unlinked made = [] /\
    (Z.of_nat (length pathname) + 18 <= L -> unlinked gone = created made) /\
    (L = Z.of_nat (length pathname) + 17 ->
     created made = file_names pathname i_start 0 0 k /\
     unlinked gone = file_names pathname i_start 1 1 k) /\
    created gone = [] /\
    counter s1 = counter s + Z.of_nat k /\ counter s2 = counter s1 /\
    occurrences IncCounter made = k /\ occurrences IncCounter gone = O /\
    descriptor_after None made = Some None /\
    (forall cur, descriptor_after cur gone = Some cur) /\
    (polls s < polls s1)%nat /\ polls s2 = polls s1 /\ (k <= fuel)%nat.
Proof.
  intros Hi Hwrap Hf. unfold stress_dirmany_create, stress_dirmany_remove.
  cbv zeta.
  destruct (create_loop_spec fuel i_start 1 256 s)
    as (k & M & s1 & made & Hrun & Ht & HM & HM1 & Hfirst & Hc & Hu & Hn & Ho & Hd
        & Hp & Hk);
    [lia | lia | lia | exact Hi | exact Hwrap | exact Hf|].
  destruct (remove_loop_spec k i_start 1 M s1)
    as (s2 & gone & Hrun2 & Ht2 & Hu2 & Hc2 & Ho2 & Hd2 & Hn2 & Hp2); [lia | lia|].
  exists k, M, s1, s2, made, gone.
  replace (i_start + Z.of_nat k - i_start) with (Z.of_nat k) by lia.
  rewrite Nat2Z.id.
  split; [exact Hrun|]. split; [exact Hrun2|].
  split; [exact Ht|]. split; [exact Ht2|]. split; [lia|]. split; [lia|].
  split; [exact Hc|]. split; [exact Hu|].
  split.
  { intros Hroom. rewrite Hu2, Hc. f_equal. lia. }
  split.
  { intros HL. destruct (Hfirst ltac:(lia)) as [HM0| ->].
    - assert (M = 0) as -> by lia. split.
      + rewrite Hc. apply file_names_capped. lia.
      + rewrite Hu2. reflexivity.
    - split; [rewrite Hc; reflexivity | rewrite Hu2; reflexivity]. }
  split; [exact Hc2|].
  split; [exact Hn|]. split; [exact Hn2|]. split; [exact Ho|].
  split; [exact Ho2|]. split; [exact Hd|]. split; [exact Hd2|].
  split; [exact Hp|]. split; [exact Hp2 | exact Hk].
Qed.

Lemma main_loop_spec fuel rounds :
  (N < fuel)%nat -> Z.of_nat fuel <= 2 ^ 63 ->
  forall i_start s,
    0 <= i_start <= 1000000000 ->
    (N - polls s < rounds)%nat ->
    exists s' added,
      main_loop E rounds fuel pathname (Z.of_nat (length pathname))
        dirmany_bytes i_start s = Some s' /\
      trace s' = trace s ++ added /\
      (Z.of_nat (length pathname) + 18 <= L -> unlinked added = created added) /\
      (L = Z.of_nat (length pathname) + 17 ->
       Forall (fun name => exists n, name = file_name pathname 0 n)
         (created added) /\
       Forall (fun name => exists n, name = file_name pathname 1 n)
         (unlinked added)) /\
      length (unlinked added) = length (created added) /\
      counter s' = counter s + Z.of_nat (length (created added)) /\
      occurrences IncCounter added = length (created added) /\
      descriptor_after None added = Some None.
Proof.
  intros Hfuel Hbig. induction rounds as [|rounds IH]; intros i_start s Hi Hr;
    [lia|].
  cbn [main_loop].
  destruct (round_spec fuel i_start s)
    as (k & M & s1 & s2 & made & gone & Hrun1 & Hrun2 & Ht1 & Ht2 & HM & _ & Hc1
        & Hu1 & Hsame & Hleft & Hc2 & Hn1 & Hn2 & Ho1 & Ho2 & Hd1 & Hd2 & Hp1
        & Hp2 & Hk);
    [lia | lia | lia|].
  rewrite Hrun1, Hrun2. cbv zeta. unfold keep_stressing.
  assert (Hlen : length (created made) = k).
  { rewrite Hc1. apply file_names_length. }
  assert (Hlen2 : length (unlinked gone) = k).
  { unfold stress_dirmany_remove in Hrun2.
    replace (i_start + Z.of_nat k - i_start) with (Z.of_nat k) in Hrun2 by lia.
    rewrite Nat2Z.id in Hrun2.
    destruct (remove_loop_spec k i_start 1 M s1)
      as (s2' & gone' & Hrun2' & Ht2' & Hu2' & _); [lia | lia|].
    rewrite Hrun2 in Hrun2'. injection Hrun2' as <-.
    rewrite Ht2 in Ht2'. apply app_inv_head in Ht2'. subst gone'.
    rewrite Hu2'. apply file_names_length. }
  destruct (ks E (polls s2)) eqn:Hks.
  - apply dirmany_still_going in Hks.
    match goal with |- context [main_loop E rounds fuel _ _ _ ?i1 ?s3] =>
      destruct (IH i1 s3)
        as (s' & added & Hrun & Ht & Hu & Hshape & Hcount & Hn & Ho & Hd);
        [destruct (1000000000 <? i_start + Z.of_nat k) eqn:Hcmp; lia
        | dstate; lia|] end.
    rewrite Hrun. exists s', (made ++ gone ++ [KeepStressing true] ++ added).
    split; [reflexivity|].
    split; [rewrite Ht; dstate; rewrite Ht2, Ht1, <- !app_assoc; reflexivity|].
    rewrite !unlinked_app, !created_app, !dirmany_occurrences_app, Hu1, Hc2,
      Ho1, Ho2, Ho.
    change (unlinked [KeepStressing true]) with (@nil (list ascii)).
    change (created [KeepStressing true]) with (@nil (list ascii)).
    change (occurrences IncCounter [KeepStressing true]) with O.
    cbn [app]. rewrite !length_app, Hlen, Hlen2.
    split; [intros Hroom; rewrite (Hsame Hroom), (Hu Hroom); reflexivity|].
    split.
    { intros HL. destruct (Hleft HL) as [Hmade Hgone].
      destruct (Hshape HL) as [Hcr Hun].
      split; apply Forall_app; split; try assumption.
      - rewrite Hmade. apply file_names_fixed. lia.
      - rewrite Hgone. apply file_names_fixed. lia. }
    split; [lia|].
    split; [rewrite Hn; dstate; lia|].
    split; [lia|].
    rewrite descriptor_after_app, Hd1. cbn [mbind option_bind].
    rewrite descriptor_after_app, Hd2. exact Hd.
  - eexists _, (made ++ gone ++ [KeepStressing false]).
    split; [reflexivity|]. dstate.
    split; [rewrite Ht2, Ht1, <- !app_assoc; reflexivity|].
    rewrite !unlinked_app, !created_app, !dirmany_occurrences_app, Hu1, Hc2,
      Ho1, Ho2.
    change (unlinked [KeepStressing false]) with (@nil (list ascii)).
    change (created [KeepStressing false]) with (@nil (list ascii)).
    change (occurrences IncCounter [KeepStressing false]) with O.
    rewrite !app_nil_r. cbn [app]. rewrite Hlen, Hlen2.
    split; [intros Hroom; exact (Hsame Hroom)|].
    split.
    { intros HL. destruct (Hleft HL) as [Hmade Hgone]. split.
      - rewrite Hmade. apply file_names_fixed. lia.
      - rewrite Hgone. apply file_names_fixed. lia. }
    split; [reflexivity|].
    split; [lia|]. split; [lia|].
    rewrite descriptor_after_app, Hd1. cbn [mbind option_bind].
    rewrite descriptor_after_app, Hd2. reflexivity.
Qed.

End Round.

Lemma short_names_env_too_long L k name :
  L < Z.of_nat (length name) ->
  fst (open_ret (short_names_env L) k name) < 0 /\
  snd (open_ret (short_names_env L) k name) = ENAMETOOLONG.
Proof.
  intros H. cbn [short_names_env open_ret].
  destruct (Z.ltb_spec L (Z.of_nat (length name))); [|lia].
  split; [reflexivity | reflexivity].
Qed.

Lemma short_names_env_not_too_long L k name :
  Z.of_nat (length name) <= L ->
  ~ (fst (open_ret (short_names_env L) k name) < 0 /\
     snd (open_ret (short_names_env L) k name) = ENAMETOOLONG).
Proof.
  intros H. cbn [short_names_env open_ret].
  destruct (Z.ltb_spec L (Z.of_nat (length name))); [lia|].
  intros [H1 _]. discriminate H1.
Qed.

Lemma short_names_env_stops L k : (6 <= k)%nat -> ks (short_names_env L) k = false.
Proof. intros H. change ((k <? 6)%nat = false). apply Nat.ltb_ge. exact H. Qed.

(** Names with different numbers of letters x are different names. *)
Lemma shapes_apart pathname c d (l1 l2 : list (list ascii)) :
  0 <= c -> 0 <= d -> c <> d ->
  Forall (fun name => exists n, name = file_name pathname c n) l1 ->
  Forall (fun name => exists n, name = file_name pathname d n) l2 ->
  forall name, In name l1 -> ~ In name l2.
Proof.
  intros Hc Hd Hne H1 H2 name Hin1 Hin2.
  rewrite List.Forall_forall in H1, H2.
  destruct (H1 name Hin1) as [n ->]. destruct (H2 _ Hin2) as [m Heq].
  exact (file_name_letters_differ pathname c d n m Hc Hd Hne Heq).
Qed.

(** X26.  [stress_dirmany_create] for a directory name of 8 to 3841
    characters, on a system where [open] fails with ENAMETOOLONG
    exactly for the names of more than [L] characters, the name
    without letters x, of [pathname_len + 17] characters, being
    accepted, where [keep_stressing] says stop from its call [N] on,
    the fuel covers the calls left and the file numbers do not wrap:
    it returns [i_start + k], having created [k] files, file [q] of
    them with the number [i_start + q] and [min (q + 1) max_len]
    letters x, where the [*max_len] it leaves is 256 or
    [L - pathname_len - 17], the largest number of letters the system
    accepts.  When no letter is accepted at all, [*max_len] is 0, so
    that no file has a letter, unless no file was created.  It
    increments the bogo-op counter [k] times, closes every descriptor
    it opened before it opens another, and unlinks nothing. *)
Theorem create_counts_the_files_it_makes (E : env) (pathname : list ascii)
    (dirmany_bytes L : Z) (N fuel : nat) (i_start : Z) (s : dstate) :
  8 <= Z.of_nat (length pathname) <= 3841 ->
  Z.of_nat (length pathname) + 17 <= L ->
  (forall k name, L < Z.of_nat (length name) ->
     fst (open_ret E k name) < 0 /\ snd (open_ret E k name) = ENAMETOOLONG) ->
  (forall k name, Z.of_nat (length name) <= L ->
     ~ (fst (open_ret E k name) < 0 /\ snd (open_ret E k name) = ENAMETOOLONG)) ->
  (forall k, (N <= k)%nat -> ks E k = false) ->
  0 <= i_start -> i_start + Z.of_nat fuel < 2 ^ 64 ->
  (N - polls s < fuel)%nat ->
  exists (k : nat) max_len s' made,
    stress_dirmany_create E fuel pathname (Z.of_nat (length pathname))
      dirmany_bytes i_start s = Some (i_start + Z.of_nat k, max_len, s') /\
    trace s' = trace s ++ made /\
    created made = file_names pathname i_start 1 max_len k /\
    (max_len = 256 \/ max_len = L - Z.of_nat (length pathname) - 17) /\
    0 <= max_len <= 256 /\
    (L = Z.of_nat (length pathname) + 17 -> max_len = 0 \/ k = O) /\
    counter s' = counter s + Z.of_nat k /\
    occurrences IncCounter made = k /\
    descriptor_after None made = Some None /\
    unlinked made = [].
Proof.
  intros Hpath HL Hlong Hshort Hstop Hi Hwrap Hf.
  destruct (create_loop_spec E pathname dirmany_bytes L N Hpath HL Hlong Hshort
              Hstop fuel i_start 1 256 s)
    as (k & M & s1 & made & Hrun & Ht & HM & HM1 & Hfirst & Hc & Hu & Hn & Ho & Hd
        & _);
    [lia | lia | lia | exact Hi | exact Hwrap | exact Hf|].
  exists k, M, s1, made. split; [exact Hrun|]. split; [exact Ht|].
  split; [exact Hc|]. split; [exact HM|]. split; [lia|].
  split.
  { intros HL0. destruct (Hfirst ltac:(lia)) as [H|H]; [left; lia | right; exact H]. }
  split; [exact Hn|].
  split; [exact Ho|]. split; [exact Hd | exact Hu].
Qed.

(** The theorem for a system that accepts names of at most 31
    characters, in a directory with a name of 12: two letters x at
    most. *)
Lemma create_counts_the_files_it_makes_witness :
  exists (k : nat) max_len s',
    stress_dirmany_create (short_names_env 31) 7 (replicate 12 letter_x) 12 0 0
      start = Some (0 + Z.of_nat k, max_len, s') /\
    counter s' = 0 + Z.of_nat k /\
    (max_len = 256 \/ max_len = 2).
Proof.
  destruct (create_counts_the_files_it_makes (short_names_env 31)
              (replicate 12 letter_x) 0 31 6 7 0 start)
    as (k & M & s' & made & Hrun & _ & _ & HM & _ & _ & Hn & _).
  - cbn. lia.
  - cbn. lia.
  - apply short_names_env_too_long.
  - apply short_names_env_not_too_long.
  - apply short_names_env_stops.
  - lia.
  - cbn. lia.
  - cbn. lia.
  - exists k, M, s'. split; [exact Hrun|]. split; [exact Hn | exact HM].
Defined.

(** X27.  [stress_dirmany_remove] after [stress_dirmany_create], with
    the [i_end] and [*max_len] that it gave, for a directory name of 8
    to 3841 characters, on a system where [open] fails with
    ENAMETOOLONG exactly for the names of more than [L] characters,
    the name without letters x being accepted: it unlinks [k] names,
    one for each of the [k] files created, creates no file and does
    not touch the bogo-op counter, and [stress_dirmany_create] unlinks
    none.  When a name with one letter x is accepted, the names
    unlinked are the names of the files that were created, in the same
    order.  When it is not, [L] being [pathname_len + 17], the files
    created have no letter x and the names unlinked have one each,
    [filename_len] starting at 1 again and [max_len] being 0: none of
    the files created is unlinked. *)
Theorem remove_after_create (E : env) (pathname : list ascii)
    (dirmany_bytes L : Z) (N fuel : nat) (i_start : Z) (s : dstate) :
  8 <= Z.of_nat (length pathname) <= 3841 ->
  Z.of_nat (length pathname) + 17 <= L ->
  (forall k name, L < Z.of_nat (length name) ->
     fst (open_ret E k name) < 0 /\ snd (open_ret E k name) = ENAMETOOLONG) ->
  (forall k name, Z.of_nat (length name) <= L ->
     ~ (fst (open_ret E k name) < 0 /\ snd (open_ret E k name) = ENAMETOOLONG)) ->
  (forall k, (N <= k)%nat -> ks E k = false) ->
  0 <= i_start -> i_start + Z.of_nat fuel < 2 ^ 64 ->
  (N - polls s < fuel)%nat ->
  exists (k : nat) max_len s1 s2 made gone,
    stress_dirmany_create E fuel pathname (Z.of_nat (length pathname))
      dirmany_bytes i_start s = Some (i_start + Z.of_nat k, max_len, s1) /\
    stress_dirmany_remove pathname (Z.of_nat (length pathname)) i_start
      (i_start + Z.of_nat k) max_len s1 = Some s2 /\
    trace s1 = trace s ++ made /\ trace s2 = trace s1 ++ gone /\
    (Z.of_nat (length pathname) + 18 <= L -> unlinked gone = created made) /\
    (L = Z.of_nat (length pathname) + 17 ->
     created made = file_names pathname i_start 0 0 k /\
     unlinked gone = file_names pathname i_start 1 1 k /\
     forall name, In name (created made) -> ~ In name (unlinked gone)) /\
    length (created made) = k /\
    length (unlinked gone) = k /\
    created gone = [] /\
    unlinked made = [] /\
    counter s2 = counter s1.
Proof.
  intros Hpath HL Hlong Hshort Hstop Hi Hwrap Hf.
  destruct (round_spec E pathname dirmany_bytes L N Hpath HL Hlong Hshort Hstop
              fuel i_start s Hi Hwrap Hf)
    as (k & M & s1 & s2 & made & gone & Hrun1 & Hrun2 & Ht1 & Ht2 & HM & HM' & Hc1
        & Hu1 & Hsame & Hleft & Hc2 & _ & Hn2 & _).
  exists k, M, s1, s2, made, gone.
  split; [exact Hrun1|]. split; [exact Hrun2|]. split; [exact Ht1|].
  split; [exact Ht2|]. split; [exact Hsame|].
  assert (Hlen : length (created made) = k)
    by (rewrite Hc1; apply file_names_length).
  split.
  { intros HL0. destruct (Hleft HL0) as [Hmade Hgone].
    split; [exact Hmade|]. split; [exact Hgone|].
    rewrite Hmade, Hgone.
    apply (shapes_apart pathname 0 1); try lia; apply file_names_fixed; lia. }
  split; [exact Hlen|].
  split.
  { destruct (Z_le_gt_dec (Z.of_nat (length pathname) + 18) L) as [Hroom|Hno].
    - rewrite (Hsame Hroom). exact Hlen.
    - destruct (Hleft ltac:(lia)) as [_ Hgone]. rewrite Hgone.
      apply file_names_length. }
  split; [exact Hc2|]. split; [exact Hu1 | exact Hn2].
Qed.

(** The theorem for the system that accepts names of at most 31
    characters, where every file is unlinked, and for the one that
    accepts 29, where none is. *)
Lemma remove_after_create_witness :
  (exists (k : nat) max_len s1 s2,
     stress_dirmany_create (short_names_env 31) 7 (replicate 12 letter_x) 12 0 0
       start = Some (0 + Z.of_nat k, max_len, s1) /\
     stress_dirmany_remove (replicate 12 letter_x) 12 0 (0 + Z.of_nat k) max_len s1
     = Some s2 /\
     unlinked (trace s2) = created (trace s2)) /\
  (exists (k : nat) max_len s1 s2,
     stress_dirmany_create (short_names_env 29) 7 (replicate 12 letter_x) 12 0 0
       start = Some (0 + Z.of_nat k, max_len, s1) /\
     stress_dirmany_remove (replicate 12 letter_x) 12 0 (0 + Z.of_nat k) max_len s1
     = Some s2 /\
     forall name, In name (created (trace s2)) -> ~ In name (unlinked (trace s2))).
Proof.
  split.
  - destruct (remove_after_create (short_names_env 31)
                (replicate 12 letter_x) 0 31 6 7 0 start)
      as (k & M & s1 & s2 & made & gone & Hrun1 & Hrun2 & Ht1 & Ht2 & Hu & _
          & _ & _ & Hc & Hum & _).
    + cbn. lia.
    + cbn. lia.
    + apply short_names_env_too_long.
    + apply short_names_env_not_too_long.
    + apply short_names_env_stops.
    + lia.
    + cbn. lia.
    + cbn. lia.
    + exists k, M, s1, s2. split; [exact Hrun1|]. split; [exact Hrun2|].
      rewrite Ht2, Ht1. change (trace start) with (@nil event). cbn [app].
      rewrite unlinked_app, created_app, Hu, Hc, Hum, app_nil_r by (cbn; lia).
      reflexivity.
  - destruct (remove_after_create (short_names_env 29)
                (replicate 12 letter_x) 0 29 6 7 0 start)
      as (k & M & s1 & s2 & made & gone & Hrun1 & Hrun2 & Ht1 & Ht2 & _ & Hleft
          & _ & _ & Hc & Hum & _).
    + cbn. lia.
    + cbn. lia.
    + apply short_names_env_too_long.
    + apply short_names_env_not_too_long.
    + apply short_names_env_stops.
    + lia.
    + cbn. lia.
    + cbn. lia.
    + exists k, M, s1, s2. split; [exact Hrun1|]. split; [exact Hrun2|].
      rewrite Ht2, Ht1. change (trace start) with (@nil event). cbn [app].
      rewrite unlinked_app, created_app, Hc, Hum, app_nil_r. cbn [app].
      destruct Hleft as (_ & _ & H); [reflexivity | exact H].
Defined.

(** X28.  [stress_dirmany] from the start.  When
    [stress_temp_dir_mk_args] fails it returns [stress_exit_status] of
    the error, having done nothing else.  Otherwise, for a directory
    name of 8 to 3841 characters, on a system where [open] fails with
    ENAMETOOLONG exactly for the names of more than [L] characters,
    the name without letters x being accepted, and [keep_stressing]
    says stop from its call [N] on, it returns what
    [stress_temp_dir_mk_args] gave; as many names are unlinked as
    files are created; the bogo-op counter is the number of files
    created, which is the number of calls of [inc_counter]; every
    descriptor opened was closed before the next was opened, and none
    is left open; and of the calls recorded, making the directory is
    the first and removing it the last.  When a name with one letter x
    is accepted, the names unlinked are the names of the files
    created, in the same order.  When it is not, [L] being
    [pathname_len + 17], the files created have no letter x and the
    names unlinked have one: no file created is unlinked. *)
Theorem stress_dirmany_files_and_counter (E : env) (instance : Z)
    (st : gmap string Z) (L : Z) (N rounds fuel : nat) :
  8 <= Z.of_nat (length (temp_dir E)) <= 3841 ->
  Z.of_nat (length (temp_dir E)) + 17 <= L ->
  (forall k name, L < Z.of_nat (length name) ->
     fst (open_ret E k name) < 0 /\ snd (open_ret E k name) = ENAMETOOLONG) ->
  (forall k name, Z.of_nat (length name) <= L ->
     ~ (fst (open_ret E k name) < 0 /\ snd (open_ret E k name) = ENAMETOOLONG)) ->
  (forall k, (N <= k)%nat -> ks E k = false) ->
  (N < fuel)%nat -> Z.of_nat fuel <= 2 ^ 63 -> (N < rounds)%nat ->
  exists rc s',
    stress_dirmany E instance st rounds fuel start = Some (rc, s') /\
    if mk_ret E <? 0 then
      rc = stress_exit_status E (- mk_ret E) /\
      trace s' = [MkTempDir (mk_ret E)]
    else
      rc = mk_ret E /\
      (Z.of_nat (length (temp_dir E)) + 18 <= L ->
       unlinked (trace s') = created (trace s')) /\
      (L = Z.of_nat (length (temp_dir E)) + 17 ->
       Forall (fun name => exists n, name = file_name (temp_dir E) 0 n)
         (created (trace s')) /\
       Forall (fun name => exists n, name = file_name (temp_dir E) 1 n)
         (unlinked (trace s')) /\
       forall name, In name (created (trace s')) ->
                    ~ In name (unlinked (trace s'))) /\
      length (unlinked (trace s')) = length (created (trace s')) /\
      counter s' = Z.of_nat (length (created (trace s'))) /\
      occurrences IncCounter (trace s') = length (created (trace s')) /\
      descriptor_after None (trace s') = Some None /\
      head (trace s') = Some (MkTempDir (mk_ret E)) /\
      last (trace s') = Some RmTempDir.
Proof.
  intros Hpath HL Hlong Hshort Hstop Hfuel Hbig Hrounds.
  unfold stress_dirmany. cbv zeta.
  destruct (mk_ret E <? 0).
  { eexists _, _. split; [reflexivity|]. split; reflexivity. }
  match goal with |- context [main_loop E rounds fuel _ _ ?b 0 ?s1] =>
    destruct (main_loop_spec E (temp_dir E) b L N Hpath HL Hlong Hshort Hstop
                fuel rounds Hfuel Hbig 0 s1)
      as (s' & added & Hrun & Ht & Hu & Hshape & Hcount & Hn & Ho & Hd);
      [lia | destruct (instance =? 0); cbn; lia|];
    set (s0 := s1) in * end.
  rewrite Hrun. eexists _, _. split; [reflexivity|]. split; [reflexivity|].
  assert (H0 : exists pre,
             trace s0 = MkTempDir (mk_ret E) :: pre /\
             unlinked (MkTempDir (mk_ret E) :: pre) = [] /\
             created (MkTempDir (mk_ret E) :: pre) = [] /\
             occurrences IncCounter (MkTempDir (mk_ret E) :: pre) = O /\
             descriptor_after None (MkTempDir (mk_ret E) :: pre) = Some None /\
             counter s0 = 0).
  { subst s0. destruct (instance =? 0); dstate; eexists;
      (split; [reflexivity|]); repeat split; reflexivity. }
  destruct H0 as (pre & Hpre & Hu0 & Hc0 & Ho0 & Hd0 & Hn0).
  assert (Hend : exists post,
             trace (emit RmTempDir
                      (if clock_advanced E
                       then emit (PrInf "create time, remove time") s' else s'))
             = (MkTempDir (mk_ret E) :: pre) ++ added ++ post ++ [RmTempDir] /\
             unlinked post = [] /\ created post = [] /\
             occurrences IncCounter post = O /\
             descriptor_after None post = Some None /\
             counter (emit RmTempDir
                        (if clock_advanced E
                         then emit (PrInf "create time, remove time") s' else s'))
             = counter s').
  { destruct (clock_advanced E); dstate; rewrite Ht, Hpre, <- !app_assoc.
    - exists [PrInf "create time, remove time"].
      split; [reflexivity|]. repeat split; reflexivity.
    - exists []. split; [reflexivity|]. repeat split; reflexivity. }
  destruct Hend as (post & Hpost & Hu1 & Hc1 & Ho1 & Hd1 & Hn1).
  rewrite Hpost, Hn1, Hn, Hn0.
  rewrite !unlinked_app, !created_app, !dirmany_occurrences_app, Hu0, Hc0, Ho0,
    Hu1, Hc1, Ho1.
  change (unlinked [RmTempDir]) with (@nil (list ascii)).
  change (created [RmTempDir]) with (@nil (list ascii)).
  change (occurrences IncCounter [RmTempDir]) with O.
  cbn [app]. rewrite !app_nil_r, !Nat.add_0_r.
  split; [exact Hu|].
  split.
  { intros HL0. destruct (Hshape HL0) as [Hcr Hun].
    split; [exact Hcr|]. split; [exact Hun|].
    exact (shapes_apart (temp_dir E) 0 1 _ _ ltac:(lia) ltac:(lia) ltac:(lia)
             Hcr Hun). }
  split; [exact Hcount|].
  split; [lia|]. split; [exact Ho|].
  split.
  { rewrite app_comm_cons, descriptor_after_app, Hd0. cbn [mbind option_bind].
    rewrite descriptor_after_app, Hd. cbn [mbind option_bind].
    rewrite descriptor_after_app, Hd1. reflexivity. }
  split; [reflexivity|].
  rewrite app_comm_cons, !app_assoc. apply last_snoc.
Qed.

(** The theorem for the system that says stop at the seventh call of
    [keep_stressing]: when it accepts names of at most 31 characters
    every file is unlinked, when it accepts 29 none is. *)
Lemma stress_dirmany_files_and_counter_witness :
  (exists s',
     stress_dirmany (short_names_env 31) 0 ∅ 7 7 start = Some (0, s') /\
     unlinked (trace s') = created (trace s')) /\
  (exists s',
     stress_dirmany (short_names_env 29) 0 ∅ 7 7 start = Some (0, s') /\
     forall name, In name (created (trace s')) -> ~ In name (unlinked (trace s'))).
Proof.
  split.
  - destruct (stress_dirmany_files_and_counter (short_names_env 31) 0 ∅ 31 6 7 7)
      as (rc & s' & Hrun & Hrc & Hu & _).
    + cbn. lia.
    + cbn. lia.
    + apply short_names_env_too_long.
    + apply short_names_env_not_too_long.
    + apply short_names_env_stops.
    + lia.
    + cbn. lia.
    + lia.
    + exists s'. rewrite Hrun, Hrc. split; [reflexivity|]. apply Hu. cbn. lia.
  - destruct (stress_dirmany_files_and_counter (short_names_env 29) 0 ∅ 29 6 7 7)
      as (rc & s' & Hrun & Hrc & _ & Hleft & _).
    + cbn. lia.
    + cbn. lia.
    + apply short_names_env_too_long.
    + apply short_names_env_not_too_long.
    + apply short_names_env_stops.
    + lia.
    + cbn. lia.
    + lia.
    + exists s'. rewrite Hrun, Hrc. split; [reflexivity|].
      destruct Hleft as (_ & _ & H); [reflexivity | exact H].
Defined.

(** X29.  [stress_dirmany_create] for a directory name of 8 to 3841
    characters, on a system where [open] fails with ENAMETOOLONG for
    every name of more than [L] characters, the name without letters x
    among them, when [keep_stressing] and the comparison with [t_end]
    let three rounds start: the name with one letter is refused and
    [filename_len] becomes 0, the name without letters is refused and
    [filename_len] wraps around to [2 ^ 64 - 1], and the third call of
    [stress_dirmany_filename], whose guard passes by wrap-around,
    writes more bytes than the [PATH_MAX + 20] of the buffer: neither
    it nor [stress_dirmany_create] has a result. *)
Theorem create_overruns_when_no_name_is_accepted (E : env)
    (pathname : list ascii) (dirmany_bytes L : Z) (fuel : nat) (i_start : Z)
    (s : dstate) :
  8 <= Z.of_nat (length pathname) <= 3841 ->
  L < Z.of_nat (length pathname) + 17 ->
  (forall k name, L < Z.of_nat (length name) ->
     fst (open_ret E k name) < 0 /\ snd (open_ret E k name) = ENAMETOOLONG) ->
  (forall j, (j < 3)%nat ->
     ks E (polls s + j) = true /\ in_time E (clocks s + j) = true) ->
  (3 <= fuel)%nat ->
  stress_dirmany_filename pathname (Z.of_nat (length pathname)) (PATH_MAX + 20)
    (2 ^ 64 - 1) i_start = None /\
  PATH_MAX + 20 < Z.of_nat (length pathname) + 1 + (2 ^ 64 - 1) /\
  stress_dirmany_create E fuel pathname (Z.of_nat (length pathname))
    dirmany_bytes i_start s = None.
Proof.
  intros Hpath HL Hlong Hgo Hfuel.
  destruct (filename_guard_wraps pathname (PATH_MAX + 20) (2 ^ 64 - 1) i_start)
    as [Hnone Hpast].
  { lia. }
  { unfold PATH_MAX. lia. }
  { unfold uint64, PATH_MAX.
    replace (Z.of_nat (length pathname) + (2 ^ 64 - 1) + 18)
      with (Z.of_nat (length pathname) + 17 + 1 * 2 ^ 64) by lia.
    rewrite Z.mod_add by lia. rewrite Z.mod_small by lia. lia. }
  { unfold PATH_MAX. lia. }
  split; [exact Hnone|]. split; [exact Hpast|].
  destruct fuel as [|[|[|fuel]]]; [lia | lia | lia|].
  destruct (Hgo 0%nat ltac:(lia)) as [Hk0 Hc0].
  destruct (Hgo 1%nat ltac:(lia)) as [Hk1 Hc1].
  destruct (Hgo 2%nat ltac:(lia)) as [Hk2 Hc2].
  rewrite Nat.add_0_r in Hk0, Hc0.
  replace (polls s + 1)%nat with (S (polls s)) in Hk1 by lia.
  replace (clocks s + 1)%nat with (S (clocks s)) in Hc1 by lia.
  replace (polls s + 2)%nat with (S (S (polls s))) in Hk2 by lia.
  replace (clocks s + 2)%nat with (S (S (clocks s))) in Hc2 by lia.
  unfold stress_dirmany_create. cbv zeta.
  (* the name with one letter x is refused *)
  cbn [create_loop]. unfold keep_stressing at 1, before_t_end at 1. cbv zeta.
  rewrite Hk0. cbn [negb]. dstate. rewrite Hc0. cbn [negb].
  destruct (filename_in_round pathname 1 i_start Hpath ltac:(lia)) as [Hname1 Hlen1].
  rewrite Hname1. unfold open at 1. dstate.
  destruct (Hlong (opens s) (file_name pathname 1 i_start) ltac:(lia)) as [Hfd He].
  destruct (open_ret E (opens s) (file_name pathname 1 i_start)) as [fd errno].
  cbn [fst snd] in Hfd, He. subst errno. dstate.
  assert (Hneg : (fd <? 0) = true) by lia. rewrite Hneg, Z.eqb_refl.
  change (uint64 (1 - 1)) with 0.
  (* the name without letters is refused *)
  unfold keep_stressing at 1, before_t_end at 1. cbv zeta. dstate.
  rewrite Hk1. cbn [negb]. dstate. rewrite Hc1. cbn [negb].
  destruct (filename_in_round pathname 0 i_start Hpath ltac:(lia)) as [Hname0 Hlen0].
  rewrite Hname0. unfold open at 1. dstate.
  destruct (Hlong (S (opens s)) (file_name pathname 0 i_start) ltac:(lia))
    as [Hfd' He'].
  destruct (open_ret E (S (opens s)) (file_name pathname 0 i_start))
    as [fd' errno'].
  cbn [fst snd] in Hfd', He'. subst errno'. dstate.
  assert (Hneg' : (fd' <? 0) = true) by lia. rewrite Hneg', Z.eqb_refl.
  change (uint64 (0 - 1)) with (2 ^ 64 - 1).
  (* the third name has [SIZE_MAX] letters *)
  unfold keep_stressing at 1, before_t_end at 1. cbv zeta. dstate.
  rewrite Hk2. cbn [negb]. dstate. rewrite Hc2. cbn [negb].
  rewrite Hnone. reflexivity.
Qed.

(** The theorem for the system that accepts names of at most 28
    characters, in a directory with a name of 12. *)
Lemma create_overruns_when_no_name_is_accepted_witness :
  stress_dirmany_create (short_names_env 28) 7 (replicate 12 letter_x) 12 0 0 start
  = None.
Proof.
  destruct (create_overruns_when_no_name_is_accepted (short_names_env 28)
              (replicate 12 letter_x) 0 28 7 0 start) as (_ & _ & H).
  - cbn. lia.
  - cbn. lia.
  - apply short_names_env_too_long.
  - intros j Hj. split; [|reflexivity].
    change ((j <? 6)%nat = true). apply Nat.ltb_lt. lia.
  - lia.
  - exact H.
Defined.

End DirmanyFacts.
